(* ===== verification/_CoqProject ===== *)
-Q . S2P
Prelude.v
Bytes.v
Policy.v
DhtState.v
Terms.v
NifError.v
Config.v
Libp2p.v
Sim.v
Commands.v
Events.v
SwarmLoop.v
Requests.v
Answers.v
Routing.v
NodeEvents.v
Channel.v
Nif.v
System.v
Linearizability.v
StartNode.v
NodeCalls.v
HandlerRegistry.v
Subscriptions.v
TaskTracker.v
ElixirConfig.v
NativeCalls.v
NativeRuns.v
Storage.v
NodeServer.v
Mock.v
NodeLife.v
Supervision.v
Distribution.v
Dialing.v
Health.v
Telemetry.v
Network.v
RemoteCall.v
UnitTests.v
