(* ===== verification/Prelude.v ===== *)
(** * Verification of the ex_libp2p native node

    [ex_libp2p] runs libp2p nodes for Elixir programs.  Its core is the Rust
    library under [native/ex_libp2p_nif/src]: Elixir calls native functions
    ([lib.rs]); they send commands ([commands.rs]) over a bounded channel to a
    task that owns the libp2p swarm ([swarm_loop] of [node.rs]); the task
    answers queries on oneshot channels and sends events ([events.rs]) to the
    registered Elixir process, which parses and dispatches them
    ([lib/ex_libp2p/node.ex], [node/event.ex], [peer_id.ex]).  Around it are
    the Elixir processes and modules that configure a node, call it, keep its
    files, distribute its events and watch it.

    ** Files

    - [Prelude], [Bytes]: results with panics ([Result]), loops of
      fallible steps, unsigned integers of fixed width ([in_width], [as_u64]
      and the like, always written out on [Z]), big-endian byte strings.
    - [Policy] models [policy.rs]; [Terms] the atoms of [atoms.rs] and Erlang
      terms; [NifError] models [error.rs]; [Config] models [config.rs].
    - [DhtState] models [dht_state.rs], the binary snapshot of the routing
      table: an encoder, and a decoder over a cursor.
    - [Libp2p] states as classes what the code uses of the libp2p crates
      ([Protocols], [SwarmOps]) and holds the record of behaviours
      ([behaviour.rs]) and the swarm events; [Sim] is a small instance on which
      witnesses evaluate.
    - [Commands] models [commands.rs] and the effects of the loop; [Events] the
      translation of swarm events to terms ([events.rs]); [SwarmLoop] every arm
      of [swarm_loop], one definition per longer arm.
    - [Requests], [Answers], [Routing]: the properties of the loop about the
      request-response table, about commands and queries, and about the
      routing table.
    - [NodeEvents]: the Elixir side of an event, and delivery from the swarm
      event to the typed Elixir event.
    - [Channel]: the tokio command channel as a class with its laws, and a list
      implementation of it; [Nif] models the functions of [lib.rs] as programs
      over oneshot channels and the command channel; [System] interleaves any
      number of such calls with the swarm task and the drop of the handle
      ([NodeHandle] of [node.rs]); [NodeCalls] composes them.
    - [Linearizability]: queries seen from their callers.
    - [StartNode] models [start_node_inner] and [get_runtime] of [node.rs] and
      [start_node] of [lib.rs].
    - [HandlerRegistry] models [node/handler_registry.ex] as a transition system
      over monitors; [Subscriptions] models the [register_handler] functions and
      composes loop, node and registry; [TaskTracker] models
      [otp/task_tracker.ex] and composes it with these.
    - [ElixirConfig] models [node/config.ex], [node/config/*.ex] and
      [gossipsub/peer_score.ex], up to the map that [Config] reads.
    - [NativeCalls] models all stubs and [@spec]s of [native/nif.ex] over [Nif],
      and states the behaviours of [native.ex] and [native/*.ex] as a class, of
      which the library and, in [Mock], the double of [native/mock.ex] are
      instances; [NodeServer] models, on any instance, the calls of a node:
      [NifOps], [NetworkOps], [Result], [Call] and the functions of [dht.ex],
      [gossipsub.ex], [request_response.ex], [relay.ex], [rendezvous.ex] and
      [metrics.ex].  [NativeRuns] says how composed native calls run at an idle
      node.
    - [Storage] models [keypair/storage.ex] as a class, [keypair/storage/file.ex]
      and [keypair.ex]; [NodeLife] models [init] and [terminate] of [node.ex]
      over all of these; [Supervision] models [application.ex].
    - [Distribution] models [otp/distribution.ex] and
      [otp/distribution_server.ex]; [Dialing] models [multiaddr.ex], [Node.dial]
      and [Discovery.bootstrap], and joins all functions of the front ends;
      [Health] models [health.ex]; [Telemetry] models
      [telemetry.ex], [telemetry/counters.ex] with the text it renders, and the
      events that calls fire.
    - [Network] composes nodes: each is the system of [System] with its node
      process, registry, mailboxes and distribution server, and packets go
      between the swarms; [RemoteCall] shows what a remote call is across it.
    - [UnitTests] runs the unit tests of [dht_state.rs] and [error.rs].

    ** State and operations

    The loop's variables are the record [SwarmLoop.LoopState]: the swarm, the
    event handler, the map [pending_responses] and [channel_counter].  An arm
    of the [select!] is a turn on an input ([SwarmLoop.Input]): a tick, a
    received command ([None] when the channel is closed) or a swarm event; a
    turn returns whether the loop goes on, the new state and the effects in
    order (messages to Elixir, oneshot replies, log lines).  Which arm is ready
    when is not decided by the code: theorems quantify over all sequences of
    inputs.  [System.Sys] adds the command channel, the settled oneshot
    channels, the native calls in progress and the handle; a schedule is a list
    of [System.Action]s and theorems quantify over all schedules.

    ** What is shown

    - Request-response ([Requests]): the table refines an abstract machine that
      opens, answers and evicts requests; identifiers announced to Elixir are
      distinct, and a response to one leaves on the channel it was announced for
      or nowhere; a channel is answered at most once; the table never exceeds its
      cap and no entry reaches 75 seconds.
    - Snapshots ([DhtState], [Routing], [NodeCalls]): decoding accepts exactly
      the encodings (and bytes after one), is total and never panics, reports
      truncation, and export followed by import gives the same table, also
      through the native functions.
    - Events ([NodeEvents], [Answers]): each swarm event reaches the registered
      process, and only it, as the typed event it is; no message is unknown to
      the Elixir side, and the only raise is a peer identifier [PeerId.new]
      refuses.
    - Commands ([Answers]): one answer per query, in order; queries do not
      change the state; a command changes its own protocol only; only a
      shutdown or a closed channel ends the loop.
    - Concurrency ([System], [Linearizability], [NodeCalls]): a query returns
      the value of a single turn between its call and its return; blocked calls
      always wake, with a value of the type asked for or because the task ended;
      dropping the handle ends the task; the queue is bounded; sending reports
      exactly what happened, but for the two functions that ignore a lost
      command; no exported function panics, and each sends every reply channel
      it creates with exactly one command.
    - Start ([StartNode], [Config]): reading the configuration fails only on
      mistyped lists; the node started has the identity, protocols, limits,
      scoring, topics and addresses of the configuration, and which options it
      ignores; start never unwinds; the total connection limit is right exactly
      when the sum fits [u32].

    - Configuration across the languages ([ElixirConfig]): which options reach
      the native side and as what; the defaults of the two sides agree; every
      native configuration can be asked for.
    - Calls ([NativeCalls], [NodeServer], [Dialing]): native functions, the node
      process and the front ends keep to their type annotations, with the
      exceptions stated; dialing a list reports every address.
    - Events to subscribers ([HandlerRegistry], [Subscriptions], [TaskTracker]):
      the registry's maps agree and implement a set of subscriptions from which
      the dead are removed, in whatever order their monitors fire; a subscriber
      gets each typed event once; tasks are named apart, go forward only and are
      reported once to each subscription when their peer is lost.
    - Restarts ([Storage], [NodeLife], [Supervision]): writes are atomic; the
      routing table survives [terminate] followed by [init], and so does the
      identity; nodes end in order unless it is the
      handler registry that crashed.
    - Remote calls ([Distribution], [RemoteCall]): in any run of the network, what
      reaches a caller is what the process asked answered to a request that this
      node sent to that peer, or what another process there gave to that very
      request; a call can complete when both sides are up, and returns that
      answer; the caller takes a late answer to an earlier call for
      its own; which payloads make the server raise; a call does not subscribe its
      caller, which times out unless it has subscribed itself.
    - Monitoring ([Health], [Telemetry]): checks outlive the node; the text
      rendered from the counters reads back as the numbers of the calls made since
      the last reset.

    ** Bounds, fuel and assumptions

    No definition runs on fuel: decoding recurses on the number of items, the
    loop on its inputs, schedules on their actions.  Statements about identifiers
    assume fewer than 2^64 turns, the range of the counter, and those about the
    network fewer than 2^64 of its steps.  The network is more permissive than
    the program: node process, registry and subscribers are not serialised with
    each other, packets are lost and reordered, and the processes a server calls
    are given per message.

    What is assumed of code outside the repository are the laws of the classes
    [TermEncOk], [TermDecOk], [ProtocolsOk], [SwarmOk], [IdentityOk], [MpscOk],
    [BuilderOk] and [TelemetryLaws] (injective terms, inverse byte conversions,
    lookups after updates, FIFO order, the events of a span) and of
    [TermFormatOk] (the Erlang term format), each with an instance.  [StorageOk]
    is proved of the file storage, [NativeModuleOk] of the native library and of
    its double.  Time is an argument of ticks and events, entropy of key
    generation, allocation success of building binaries.

    ** Not modelled

    The protocols themselves, transports and the tokio scheduler (libraries);
    the loading of the native library; the limits on restarts, [start_link] and
    [format_status] functions; clocks and application environment
    ([clock.ex], [config.ex]); the durations of calls, of which only whether the
    answer is in time is modelled; the Elixir tests. *)
From Stdlib Require Export ZArith Lia.
From stdpp Require Export base tactics option list gmap strings pretty.
From stdpp Require Import options.

#[global] Open Scope Z_scope.

(** ** Results of fallible Rust code

    A Rust function of type [Result<A, E>] returns a value or an error; it may
    also unwind with a panic (a slice index out of range, an arithmetic
    overflow in a checked build).  The panic is a third outcome, so that its
    absence is a theorem. *)
Inductive Result (E A : Type) : Type :=
  | Ok (a : A)
  | Err (e : E)
  | Panic.
Arguments Ok {E A} a.
Arguments Err {E A} e.
Arguments Panic {E A}.

#[global] Instance Result_eq_dec {E A} `{EqDecision E, EqDecision A} :
  EqDecision (Result E A).
Proof. solve_decision. Defined.

(** The [?] operator. *)
#[global] Instance Result_ret {E} : MRet (Result E) := fun A a => Ok a.
#[global] Instance Result_bind {E} : MBind (Result E) := fun A B f m =>
  match m with
  | Ok a => f a
  | Err e => Err e
  | Panic => Panic
  end.
#[global] Instance Result_fmap {E} : FMap (Result E) := fun A B f m =>
  match m with
  | Ok a => Ok (f a)
  | Err e => Err e
  | Panic => Panic
  end.

(** [Result::map_err]. *)
Definition map_err {E E' A} (f : E -> E') (m : Result E A) : Result E' A :=
  match m with
  | Ok a => Ok a
  | Err e => Err (f e)
  | Panic => Panic
  end.

(** [Option::ok_or_else]. *)
Definition ok_or {E A} (e : E) (o : option A) : Result E A :=
  match o with Some a => Ok a | None => Err e end.

(** The [Result] of a library call, [inl] for an error; [f] translates it. *)
Definition of_sum {E E' A} (f : E -> E') (r : E + A) : Result E' A :=
  match r with inl e => Err (f e) | inr a => Ok a end.

(** [Result::ok]. *)
Definition sum_ok {E A} (r : E + A) : option A :=
  match r with inl _ => None | inr a => Some a end.

(** ** Machine integers *)

(** [wrap w z] is the value of [z as uW], and of an addition in a build
    without overflow checks. *)
Definition wrap (w z : Z) : Z := z `mod` 2 ^ w.
Definition as_u16 (z : Z) : Z := wrap 16 z.
Definition as_u32 (z : Z) : Z := wrap 32 z.
Definition as_u64 (z : Z) : Z := wrap 64 z.
(** [usize] of the 64-bit targets the crate is built for. *)
Definition usize_add (a b : Z) : Z := wrap 64 (a + b).

Definition in_width (w z : Z) : Prop := 0 <= z < 2 ^ w.
#[global] Instance in_width_dec w z : Decision (in_width w z).
Proof. unfold in_width; apply _. Defined.

Lemma wrap_small w z : in_width w z -> wrap w z = z.
Proof. unfold in_width, wrap. intros. by apply Z.mod_small. Qed.

Lemma wrap_range w z : 0 <= w -> in_width w (wrap w z).
Proof.
  unfold in_width, wrap. intros. apply Z.mod_pos_bound.
  by apply Z.pow_pos_nonneg.
Qed.

Lemma usize_add_small a b : in_width 64 (a + b) -> usize_add a b = a + b.
Proof. apply wrap_small. Qed.

(** ** Loops

    [for_range n body s] runs [for _ in 0..n { body }] on the state [s] and
    leaves the loop at the first error.  It recurses on the binary
    representation of [n], so that a loop over a large count that fails early
    still evaluates. *)
Section loops.
Context {E St : Type}.

Fixpoint for_pos (p : positive) (body : St -> Result E St) (s : St) : Result E St :=
  match p with
  | xH => body s
  | xO q => s1 ← for_pos q body s; for_pos q body s1
  | xI q => s0 ← body s; s1 ← for_pos q body s0; for_pos q body s1
  end.

Definition for_range (n : Z) (body : St -> Result E St) (s : St) : Result E St :=
  match n with
  | Zpos p => for_pos p body s
  | _ => Ok s
  end.

Fixpoint for_nat (n : nat) (body : St -> Result E St) (s : St) : Result E St :=
  match n with
  | O => Ok s
  | S n => s1 ← body s; for_nat n body s1
  end.

(** [for x in l { body }]. *)
Fixpoint for_each {A} (l : list A) (body : A -> St -> Result E St) (s : St) : Result E St :=
  match l with
  | [] => Ok s
  | x :: l => s1 ← body x s; for_each l body s1
  end.

Lemma for_nat_add n m body s :
  for_nat (n + m) body s = (s1 ← for_nat n body s; for_nat m body s1).
Proof.
  revert s. induction n as [|n IH]; intros s; [done|]. cbn.
  destruct (body s); cbn; [apply IH|done|done].
Qed.

Lemma for_pos_nat p body s : for_pos p body s = for_nat (Pos.to_nat p) body s.
Proof.
  revert s. induction p as [p IH|p IH|]; intros s; cbn.
  - rewrite Pos2Nat.inj_xI. replace (2 * Pos.to_nat p)%nat
      with (Pos.to_nat p + Pos.to_nat p)%nat by lia. cbn.
    destruct (body s) as [s0| |]; cbn; [|done|done].
    rewrite for_nat_add, IH.
    destruct (for_nat (Pos.to_nat p) body s0); cbn; [apply IH|done|done].
  - rewrite Pos2Nat.inj_xO. replace (2 * Pos.to_nat p)%nat
      with (Pos.to_nat p + Pos.to_nat p)%nat by lia.
    rewrite for_nat_add, IH.
    destruct (for_nat (Pos.to_nat p) body s); cbn; [apply IH|done|done].
  - rewrite Pos2Nat.inj_1. cbn. by destruct (body s).
Qed.

Lemma for_range_nat n body s : for_range n body s = for_nat (Z.to_nat n) body s.
Proof. destruct n; [done|apply for_pos_nat|done]. Qed.
End loops.

(** ** Automation *)
Create HintDb exlp discriminated.
#[export] Hint Resolve wrap_range : exlp.

(** Inverts an equation between a monadic computation and an outcome. *)
Ltac invert_bind :=
  repeat match goal with
  | H : Ok _ = Ok _ |- _ => injection H as H; subst
  | H : Err _ = Err _ |- _ => injection H as H; subst
  | H : mbind _ ?m = _ |- _ =>
      let E := fresh "E" in destruct m eqn:E; cbn [mbind Result_bind] in H; try discriminate H
  | H : mret _ = _ |- _ => unfold mret, Result_ret in H
  end.

(** A computation panics where one of its steps does. *)
Lemma bind_panic {E A B} (m : Result E A) (f : A -> Result E B) :
  m ≫= f = Panic -> m = Panic \/ exists a, m = Ok a /\ f a = Panic.
Proof. destruct m; cbn; eauto; discriminate. Qed.

Lemma not_bind_panic {E A B} (m : Result E A) (f : A -> Result E B) :
  m <> Panic -> (forall a, f a <> Panic) -> m ≫= f <> Panic.
Proof. intros Hm Hf [|(a & _ & Ha)]%bind_panic; [done|by apply Hf in Ha]. Qed.

(** ** Lists *)
Lemma length_app_Z {A} (l k : list A) :
  Z.of_nat (length (l ++ k)) = Z.of_nat (length l) + Z.of_nat (length k).
Proof. rewrite length_app. lia. Qed.

Lemma take_app_exact {A} (l k : list A) n : n = length l -> take n (l ++ k) = l.
Proof. intros ->. by rewrite take_app_length. Qed.

Lemma drop_app_exact {A} (l k : list A) n : n = length l -> drop n (l ++ k) = k.
Proof. intros ->. by rewrite drop_app_length. Qed.
