(* ===== verification/Bytes.v ===== *)
(** * Bytes and big-endian integers

    [u8], [to_be_bytes] and [from_be_bytes] of the Rust standard library, and
    slice indexing, which panics out of range. *)
From S2P Require Import Prelude.
From Stdlib Require Import Strings.Byte.
From stdpp Require Import options.

Abbreviation u8 := Byte.byte.
Abbreviation bytes := (list Byte.byte).

#[global] Instance u8_eq_dec : EqDecision u8 := Byte.byte_eq_dec.

Definition u8_to_Z (b : u8) : Z := Z.of_N (Byte.to_N b).

(** [z as u8]. *)
Definition u8_of_Z (z : Z) : u8 :=
  default Byte.x00 (Byte.of_N (Z.to_N (wrap 8 z))).

Lemma u8_range b : in_width 8 (u8_to_Z b).
Proof.
  unfold in_width, u8_to_Z. pose proof (Byte.to_N_bounded b). lia.
Qed.

Lemma u8_to_of_Z z : u8_to_Z (u8_of_Z z) = wrap 8 z.
Proof.
  unfold u8_to_Z, u8_of_Z. pose proof (wrap_range 8 z ltac:(lia)) as Hr.
  unfold in_width in Hr.
  destruct (Byte.of_N (Z.to_N (wrap 8 z))) as [b|] eqn:Hb; cbn.
  - apply Byte.to_of_N in Hb. rewrite Hb. lia.
  - apply Byte.of_N_None_iff in Hb. lia.
Qed.

Lemma u8_to_Z_inj a b : u8_to_Z a = u8_to_Z b -> a = b.
Proof.
  unfold u8_to_Z. intros H. apply N2Z.inj in H.
  apply (f_equal Byte.of_N) in H. rewrite !Byte.of_to_N in H. congruence.
Qed.

Lemma u8_of_to_Z b : u8_of_Z (u8_to_Z b) = b.
Proof.
  apply u8_to_Z_inj. rewrite u8_to_of_Z. apply wrap_small, u8_range.
Qed.

(** [uN::to_be_bytes] for a width of [n] bytes. *)
Fixpoint to_be_bytes (n : nat) (z : Z) : bytes :=
  match n with
  | O => []
  | S n => u8_of_Z (Z.shiftr z (8 * Z.of_nat n)) :: to_be_bytes n z
  end.

(** [uN::from_be_bytes]. *)
Fixpoint from_be_bytes (l : bytes) : Z :=
  match l with
  | [] => 0
  | b :: l => Z.shiftl (u8_to_Z b) (8 * Z.of_nat (length l)) + from_be_bytes l
  end.

Lemma length_to_be_bytes n z : length (to_be_bytes n z) = n.
Proof. induction n; cbn; congruence. Qed.

Lemma from_be_bytes_range l : in_width (8 * Z.of_nat (length l)) (from_be_bytes l).
Proof.
  unfold in_width. induction l as [|b l IH]; cbn [from_be_bytes length]; [lia|].
  pose proof (u8_range b) as Hb. unfold in_width in Hb.
  rewrite Z.shiftl_mul_pow2 by lia.
  replace (8 * Z.of_nat (S (length l))) with (8 + 8 * Z.of_nat (length l)) by lia.
  rewrite Z.pow_add_r by lia. nia.
Qed.

Lemma from_to_be_bytes n z :
  from_be_bytes (to_be_bytes n z) = wrap (8 * Z.of_nat n) z.
Proof.
  unfold wrap. induction n as [|n IH]; cbn [from_be_bytes to_be_bytes].
  { by rewrite Z.mod_1_r. }
  rewrite IH, length_to_be_bytes, u8_to_of_Z. unfold wrap.
  rewrite Z.shiftl_mul_pow2, Z.shiftr_div_pow2 by lia.
  replace (8 * Z.of_nat (S n)) with (8 * Z.of_nat n + 8) by lia.
  rewrite Z.pow_add_r by lia. rewrite (Z.rem_mul_r z); [lia| |lia].
  apply Z.pow_nonzero; lia.
Qed.

Lemma u8_of_Z_add_mul a b : u8_of_Z (a * 256 + b) = u8_of_Z b.
Proof.
  unfold u8_of_Z, wrap. do 3 f_equal. rewrite Z.add_comm.
  change (2 ^ 8) with 256. by rewrite Z.mod_add.
Qed.

Lemma to_be_bytes_add n a z :
  to_be_bytes n (Z.shiftl a (8 * Z.of_nat n) + z) = to_be_bytes n z.
Proof.
  assert (forall m, (m <= n)%nat ->
    to_be_bytes m (Z.shiftl a (8 * Z.of_nat n) + z) = to_be_bytes m z) as H; [|by apply H].
  induction m as [|m IH]; intros Hm; [done|]. cbn. rewrite IH by lia. f_equal.
  rewrite !Z.shiftr_div_pow2, Z.shiftl_mul_pow2 by lia.
  replace (8 * Z.of_nat n)
    with (8 * (Z.of_nat n - 1 - Z.of_nat m) + 8 + 8 * Z.of_nat m) by lia.
  rewrite !Z.pow_add_r by lia. rewrite !Z.mul_assoc.
  rewrite Z.div_add_l by (apply Z.pow_nonzero; lia).
  apply u8_of_Z_add_mul.
Qed.

Lemma to_from_be_bytes l : to_be_bytes (length l) (from_be_bytes l) = l.
Proof.
  induction l as [|b l IH]; [done|]. cbn [length to_be_bytes from_be_bytes].
  rewrite to_be_bytes_add, IH. f_equal.
  pose proof (from_be_bytes_range l) as Hr. unfold in_width in Hr.
  rewrite Z.shiftr_div_pow2, Z.shiftl_mul_pow2 by lia.
  rewrite Z.div_add_l by lia. rewrite Z.div_small by lia.
  rewrite Z.add_0_r. apply u8_of_to_Z.
Qed.

Create Rewrite HintDb exlp_bytes.
#[export] Hint Rewrite length_to_be_bytes from_to_be_bytes : exlp_bytes.

(** [&buf[a..b]]: [None] is the panic of an index out of range. *)
Definition slice {A} (buf : list A) (a b : Z) : option (list A) :=
  if bool_decide (0 <= a <= b /\ b <= Z.of_nat (length buf)) then
    Some (take (Z.to_nat (b - a)) (drop (Z.to_nat a) buf))
  else None.
