(* ===== verification/Policy.v ===== *)
(** * Production constants

    Model of [native/ex_libp2p_nif/src/policy.rs].  An [f64] is an IEEE 754
    binary64 value of the Standard Library's [SpecFloat]; a decimal literal is
    the correctly rounded quotient of two integers, which are exact. *)
From S2P Require Import Prelude.
From Stdlib Require Import SpecFloat.
From stdpp Require Import options.

Definition f64 : Type := spec_float.

#[global] Instance f64_eq_dec : EqDecision f64.
Proof. unfold f64. solve_decision. Defined.

Definition f64_of_Z (z : Z) : f64 := binary_normalize 53 1024 z 0 false.

(** The literal [num / den] in decimal notation: both integers are below
    [2^53], so the division is the only rounding. *)
Definition f64_lit (num den : Z) : f64 := SFdiv 53 1024 (f64_of_Z num) (f64_of_Z den).

Definition f64_lt (a b : f64) : bool := SFltb a b.

Module gossipsub_default_score.
Definition IP_COLOCATION_FACTOR_WEIGHT : f64 := f64_lit (-53) 1.
Definition IP_COLOCATION_FACTOR_THRESHOLD : f64 := f64_lit 3 1.
Definition BEHAVIOUR_PENALTY_WEIGHT : f64 := f64_lit (-1592) 100.
Definition BEHAVIOUR_PENALTY_DECAY : f64 := f64_lit 986 1000.
End gossipsub_default_score.

Definition MAX_PENDING_RESPONSES : Z := 1024.

Definition MAX_DHT_EXPORT_BYTES : Z := 4 * 1024 * 1024.

Module gossipsub_default_thresholds.
Definition GOSSIP : f64 := f64_lit (-4000) 1.
Definition PUBLISH : f64 := f64_lit (-8000) 1.
Definition GRAYLIST : f64 := f64_lit (-16000) 1.
Definition ACCEPT_PX : f64 := f64_lit 100 1.
Definition OPPORTUNISTIC_GRAFT : f64 := f64_lit 5 1.
End gossipsub_default_thresholds.
