(* ===== verification/DhtState.v ===== *)
(** * The DHT routing-table snapshot format

    Model of [native/ex_libp2p_nif/src/dht_state.rs]: the hand-written binary
    format that persists the Kademlia routing table across restarts.  [encode]
    and [decode] are the two functions of the module; [Cursor] and its
    [read_*] methods are the reader that [decode] threads.  A read that
    slices out of range would panic: [Panic] is an outcome of every read, and
    [decode_total] shows that no input reaches it. *)
From S2P Require Import Prelude Bytes Policy.
From stdpp Require Import options.

Definition MAGIC : bytes := [Byte.x4c; Byte.x32; Byte.x44; Byte.x54].
Definition VERSION : u8 := Byte.x01.
Definition HEADER_LEN : Z := Z.of_nat (length MAGIC) + 1.

Record RoutingEntry := mkRoutingEntry {
  peer_id : bytes;
  addresses : list bytes;
}.

#[global] Instance RoutingEntry_eq_dec : EqDecision RoutingEntry.
Proof. solve_decision. Defined.

Inductive DhtStateError :=
  | InputTooLarge (got max : Z)
  | Truncated (offset need : Z)
  | BadMagic (got : bytes)
  | UnsupportedVersion (version : u8).

#[global] Instance DhtStateError_eq_dec : EqDecision DhtStateError.
Proof. solve_decision. Defined.

(** ** Encoding *)

Definition len {A} (l : list A) : Z := Z.of_nat (length l).

Definition encode_addr (addr : bytes) : bytes :=
  to_be_bytes 2 (as_u16 (len addr)) ++ addr.

Definition encode_entry (entry : RoutingEntry) : bytes :=
  to_be_bytes 2 (as_u16 (len (peer_id entry))) ++ peer_id entry ++
  to_be_bytes 2 (as_u16 (len (addresses entry))) ++
  concat (map encode_addr (addresses entry)).

Definition encode (entries : list RoutingEntry) : bytes :=
  MAGIC ++ [VERSION] ++ to_be_bytes 4 (as_u32 (len entries)) ++
  concat (map encode_entry entries).

(** The capacity estimate [est] computed before the buffer is allocated. *)
Definition sum_Z (l : list Z) : Z := foldr Z.add 0 l.

Definition encode_est (entries : list RoutingEntry) : Z :=
  HEADER_LEN + 4 +
  sum_Z (map (fun e => 2 + len (peer_id e) + 2 +
                       sum_Z (map (fun a => 2 + len a) (addresses e))) entries).

(** ** The cursor *)

Record Cursor := mkCursor { buf : bytes; offset : Z }.

Definition Cursor_new (data : bytes) : Cursor := mkCursor data 0.

(** A method taking [&mut self]: the cursor is threaded. *)
Definition CursorM (A : Type) : Type := Cursor -> Result DhtStateError (A * Cursor).

#[global] Instance CursorM_ret : MRet CursorM := fun A a c => Ok (a, c).
#[global] Instance CursorM_bind : MBind CursorM := fun A B f m c =>
  match m c with
  | Ok (a, c') => f a c'
  | Err e => Err e
  | Panic => Panic
  end.

Definition throw {A} (e : DhtStateError) : CursorM A := fun _ => Err e.
Definition panic {A} : CursorM A := fun _ => Panic.

(** The bounds check, the slice and the advance that [read_array] and
    [read_vec] share, both taking [n] bytes. *)
Definition read_bytes (n : Z) : CursorM bytes := fun c =>
  if usize_add (offset c) n >? len (buf c) then
    Err (Truncated (offset c) n)
  else
    match slice (buf c) (offset c) (usize_add (offset c) n) with
    | Some out => Ok (out, mkCursor (buf c) (usize_add (offset c) n))
    | None => Panic
    end.

Definition read_array (N : Z) : CursorM bytes := read_bytes N.
Definition read_vec (n : Z) : CursorM bytes := read_bytes n.

Definition read_u8 : CursorM u8 := a ← read_array 1;
  match a with b :: _ => mret b | [] => panic end.
Definition read_u16 : CursorM Z := a ← read_array 2; mret (from_be_bytes a).
Definition read_u32 : CursorM Z := a ← read_array 4; mret (from_be_bytes a).

(** ** Decoding *)

(** A [for] loop whose body pushes one item read from the cursor. *)
Definition read_many {A} (n : Z) (item : CursorM A) : CursorM (list A) := fun c =>
  for_range n (fun '(acc, c) => '(x, c') ← item c; Ok (acc ++ [x], c')) ([], c).

Definition read_addr : CursorM bytes :=
  addr_len ← read_u16; read_vec addr_len.

Definition read_entry : CursorM RoutingEntry :=
  peer_id_len ← read_u16;
  peer_id ← read_vec peer_id_len;
  addr_count ← read_u16;
  addresses ← read_many addr_count read_addr;
  mret (mkRoutingEntry peer_id addresses).

Definition decode_body : CursorM (list RoutingEntry) :=
  magic ← read_array 4;
  if bool_decide (magic <> MAGIC) then throw (BadMagic magic) else
  version ← read_u8;
  if bool_decide (version <> VERSION) then throw (UnsupportedVersion version) else
  count ← read_u32;
  read_many count read_entry.

Definition decode (data : bytes) : Result DhtStateError (list RoutingEntry) :=
  if len data >? MAX_DHT_EXPORT_BYTES then
    Err (InputTooLarge (len data) MAX_DHT_EXPORT_BYTES)
  else
    '(entries, _) ← decode_body (Cursor_new data);
    Ok entries.

(** ** Well-formed entries and cursors

    An entry is well formed when its lengths fit the length fields of the
    format; on other entries the [as u16] and [as u32] casts of [encode] drop
    high bits. *)
Definition addr_wf (addr : bytes) : Prop := in_width 16 (len addr).

Definition entry_wf (e : RoutingEntry) : Prop :=
  in_width 16 (len (peer_id e)) /\
  in_width 16 (len (addresses e)) /\ Forall addr_wf (addresses e).

Definition entries_wf (es : list RoutingEntry) : Prop :=
  in_width 32 (len es) /\ Forall entry_wf es.

#[global] Instance entries_wf_dec es : Decision (entries_wf es).
Proof. unfold entries_wf, entry_wf, addr_wf. apply _. Defined.

(** The reader's invariant, and what it has left to read. *)
Definition cursor_wf (c : Cursor) : Prop :=
  0 <= offset c <= len (buf c) /\ len (buf c) <= MAX_DHT_EXPORT_BYTES.

Definition remaining (c : Cursor) : bytes := drop (Z.to_nat (offset c)) (buf c).
Definition advance (n : Z) (c : Cursor) : Cursor := mkCursor (buf c) (offset c + n).

Definition truncated_at (c : Cursor) (e : DhtStateError) : Prop :=
  exists o n, e = Truncated o n /\ offset c <= o <= len (buf c) /\ len (buf c) < o + n.

Lemma len_nonneg {A} (l : list A) : 0 <= len l.
Proof. unfold len. lia. Qed.

Lemma len_app {A} (l k : list A) : len (l ++ k) = len l + len k.
Proof. apply length_app_Z. Qed.

Lemma len_cons {A} (x : A) l : len (x :: l) = 1 + len l.
Proof. unfold len. cbn. lia. Qed.

Lemma len_remaining c : cursor_wf c -> len (remaining c) = len (buf c) - offset c.
Proof. unfold cursor_wf, remaining, len. intros. rewrite length_drop. lia. Qed.

Lemma advance_0 c : advance 0 c = c.
Proof. destruct c as [b o]. unfold advance. cbn. f_equal. lia. Qed.

Lemma advance_advance n m c : advance n (advance m c) = advance (m + n) c.
Proof. unfold advance. cbn. f_equal. lia. Qed.

Lemma advance_app c l k :
  cursor_wf c -> remaining c = l ++ k ->
  cursor_wf (advance (len l) c) /\ remaining (advance (len l) c) = k.
Proof.
  intros Hc Hr. pose proof (len_remaining c Hc) as Hl. rewrite Hr, len_app in Hl.
  pose proof (len_nonneg l). pose proof (len_nonneg k).
  split; [unfold cursor_wf in *; cbn; lia|].
  unfold remaining, advance in *. cbn. rewrite Z2Nat.inj_add by (unfold cursor_wf in Hc; lia).
  rewrite <-drop_drop, Hr. apply drop_app_exact. unfold len. lia.
Qed.

Lemma read_bytes_spec n c :
  cursor_wf c -> in_width 32 n ->
  read_bytes n c =
    if decide (n <= len (remaining c)) then
      Ok (take (Z.to_nat n) (remaining c), advance n c)
    else Err (Truncated (offset c) n).
Proof.
  intros Hc Hn. pose proof (len_remaining c Hc) as Hl.
  unfold cursor_wf, in_width, MAX_DHT_EXPORT_BYTES in *.
  unfold read_bytes. rewrite usize_add_small by (unfold in_width; lia).
  case_decide as Hd; destruct (Z.gtb_spec (offset c + n) (len (buf c))); try lia; [|done].
  unfold slice. rewrite bool_decide_true by (unfold len in *; lia).
  unfold remaining, advance. do 4 f_equal. lia.
Qed.

(** ** Readers that invert an encoder

    [Codec enc wf m] states what [decode] needs of each of its readers: [m]
    inverts [enc] on the well-formed values, accepts nothing else, never
    panics, fails only by running out of input, and does fail on every proper
    prefix of an encoding. *)
Class Codec {A} (enc : A -> bytes) (wf : A -> Prop) (m : CursorM A) : Prop := {
  codec_read c x rest :
    cursor_wf c -> wf x -> remaining c = enc x ++ rest ->
    m c = Ok (x, advance (len (enc x)) c);
  codec_sound c x c' :
    cursor_wf c -> m c = Ok (x, c') ->
    wf x /\ c' = advance (len (enc x)) c /\ exists rest, remaining c = enc x ++ rest;
  codec_no_panic c : cursor_wf c -> m c <> Panic;
  codec_err c e : cursor_wf c -> m c = Err e -> truncated_at c e;
  codec_prefix c x k :
    cursor_wf c -> wf x -> remaining c = take k (enc x) -> (k < length (enc x))%nat ->
    exists e, m c = Err e;
}.

Lemma codec_ext {A} (enc enc' : A -> bytes) (wf wf' : A -> Prop) m :
  Codec enc wf m -> (forall x, wf x <-> wf' x) -> (forall x, wf x -> enc x = enc' x) ->
  Codec enc' wf' m.
Proof.
  intros [Hr Hs Hp He Hx] Hwf Henc. split; [| |done|done|].
  - intros c x rest Hc Hw Hrem. apply Hwf in Hw. rewrite <-Henc in * by done. eauto.
  - intros c x c' Hc Hm. destruct (Hs c x c' Hc Hm) as (Hw & ? & ?).
    rewrite <-Henc by done. split; [by apply Hwf|done].
  - intros c x k Hc Hw Hrem Hk. apply Hwf in Hw. rewrite <-Henc in * by done. eauto.
Qed.

Lemma truncated_at_advance n c e :
  0 <= n -> truncated_at (advance n c) e -> truncated_at c e.
Proof.
  intros Hn (o & k & -> & ? & ?). exists o, k. cbn in *. split; [done|lia].
Qed.

(** A reader that takes a fixed number of bytes. *)
Lemma codec_bytes n :
  in_width 32 n -> Codec (fun l => l) (fun l => len l = n) (read_bytes n).
Proof.
  intros Hn. split.
  - intros c x rest Hc Hx Hr. rewrite read_bytes_spec by done.
    rewrite decide_True by (rewrite Hr, len_app; pose proof (len_nonneg rest); lia).
    rewrite Hr, Hx, take_app_exact; [done|]. unfold len in Hx. lia.
  - intros c x c' Hc. rewrite read_bytes_spec by done. case_decide as Hd; [|done].
    intros [= <- <-]. unfold in_width in Hn.
    assert (len (take (Z.to_nat n) (remaining c)) = n) as Hl.
    { unfold len in *. rewrite length_take. lia. }
    rewrite Hl. split; [done|]. split; [done|].
    exists (drop (Z.to_nat n) (remaining c)). by rewrite take_drop.
  - intros c Hc. rewrite read_bytes_spec by done. by case_decide.
  - intros c e Hc. rewrite read_bytes_spec by done. case_decide as Hd; [done|].
    intros [= <-]. exists (offset c), n. rewrite len_remaining in Hd by done.
    split; [done|]. unfold cursor_wf in Hc. lia.
  - intros c x k Hc Hx Hr Hk. rewrite read_bytes_spec by done.
    rewrite decide_False; [eauto|]. rewrite Hr. unfold len in *. rewrite length_take. lia.
Qed.

Lemma codec_ret {A} (x : A) : Codec (fun _ => []) (fun y => y = x) (mret x).
Proof.
  split.
  - intros c y rest _ -> _. change (len []) with 0. by rewrite advance_0.
  - intros c y c' _ [= <- <-]. change (len []) with 0. rewrite advance_0. eauto.
  - done.
  - done.
  - intros c y k _ _ _ Hk. cbn in Hk. lia.
Qed.

(** Sequential composition: a value [y] of the whole reader splits into an
    item [x] of the first one and what the continuation reads after it. *)
Lemma codec_bind {A B} (e1 : A -> bytes) w1 (m : CursorM A)
    (e2 : A -> B -> bytes) (w2 : A -> B -> Prop) (f : A -> CursorM B)
    (enc : B -> bytes) (wf : B -> Prop) :
  Codec e1 w1 m ->
  (forall x, w1 x -> Codec (e2 x) (w2 x) (f x)) ->
  (forall y, wf y -> exists x, w1 x /\ w2 x y /\ enc y = e1 x ++ e2 x y) ->
  (forall x y, w1 x -> w2 x y -> wf y /\ enc y = e1 x ++ e2 x y) ->
  Codec enc wf (m ≫= f).
Proof.
  intros H1 H2 Hsplit Hjoin. split; unfold mbind, CursorM_bind.
  - intros c y rest Hc Hy Hr. destruct (Hsplit y Hy) as (x & Hw1 & Hw2 & He).
    rewrite He, <-app_assoc in Hr. rewrite (codec_read c x _ Hc Hw1 Hr).
    destruct (advance_app c _ _ Hc Hr) as [Hc' Hr'].
    specialize (H2 _ Hw1). rewrite (codec_read _ y _ Hc' Hw2 Hr').
    by rewrite advance_advance, He, len_app.
  - intros c y c' Hc. destruct (m c) as [[x c1]| |] eqn:Hm; [|done|done]. intros Hf.
    destruct (codec_sound c x c1 Hc Hm) as (Hw1 & -> & rest & Hr).
    destruct (advance_app c _ _ Hc Hr) as [Hc' Hr'].
    specialize (H2 _ Hw1). destruct (codec_sound _ _ _ Hc' Hf) as (Hw2 & -> & rest' & Hr2).
    destruct (Hjoin x y Hw1 Hw2) as [Hy He]. split; [done|].
    split; [by rewrite advance_advance, He, len_app|].
    exists rest'. rewrite Hr, He, <-app_assoc. congruence.
  - intros c Hc. destruct (m c) as [[x c1]| |] eqn:Hm; [|done|by destruct (codec_no_panic c Hc)].
    destruct (codec_sound c x c1 Hc Hm) as (Hw1 & -> & rest & Hr).
    destruct (advance_app c _ _ Hc Hr) as [Hc' _].
    specialize (H2 _ Hw1). by apply codec_no_panic.
  - intros c e Hc. destruct (m c) as [[x c1]|e1'|] eqn:Hm; [| |done].
    + destruct (codec_sound c x c1 Hc Hm) as (Hw1 & -> & rest & Hr).
      destruct (advance_app c _ _ Hc Hr) as [Hc' _].
      specialize (H2 _ Hw1). intros Hf.
      apply (truncated_at_advance (len (e1 x))); [apply len_nonneg|]. by apply codec_err.
    + intros [= ->]. by eapply codec_err.
  - intros c y k Hc Hy Hr Hk. destruct (Hsplit y Hy) as (x & Hw1 & Hw2 & He).
    rewrite He in Hr, Hk. rewrite length_app in Hk. rewrite take_app in Hr.
    destruct (decide (k < length (e1 x))%nat) as [Hlt|Hge].
    + replace (k - length (e1 x))%nat with 0%nat in Hr by lia.
      rewrite take_0, app_nil_r in Hr.
      destruct (codec_prefix c x k Hc Hw1 Hr Hlt) as [e ->]. eauto.
    + rewrite take_ge in Hr by lia. rewrite (codec_read c x _ Hc Hw1 Hr).
      destruct (advance_app c _ _ Hc Hr) as [Hc' Hr'].
      specialize (H2 _ Hw1). eapply codec_prefix; [exact Hc'|exact Hw2|exact Hr'|lia].
Qed.

(** ** The readers of the format *)

Lemma codec_be n :
  in_width 32 (Z.of_nat n) ->
  Codec (to_be_bytes n) (in_width (8 * Z.of_nat n))
    (a ← read_array (Z.of_nat n); mret (from_be_bytes a)).
Proof.
  intros Hn. eapply codec_bind.
  - by apply codec_bytes.
  - intros a _. apply codec_ret.
  - intros y Hy. exists (to_be_bytes n y). split; [|split].
    + unfold len. by rewrite length_to_be_bytes.
    + by rewrite from_to_be_bytes, wrap_small.
    + by rewrite app_nil_r.
  - intros a y Ha ->. unfold len in Ha. assert (n = length a) as -> by lia.
    split; [apply from_be_bytes_range|]. by rewrite to_from_be_bytes, app_nil_r.
Qed.

#[export] Instance codec_u16 : Codec (to_be_bytes 2) (in_width 16) read_u16.
Proof. by apply (codec_be 2). Qed.

#[export] Instance codec_u32 : Codec (to_be_bytes 4) (in_width 32) read_u32.
Proof. by apply (codec_be 4). Qed.

(** The accumulating loop of [read_many] as a recursion. *)
Fixpoint read_list {A} (n : nat) (item : CursorM A) : CursorM (list A) :=
  match n with
  | O => mret []
  | S n => x ← item; xs ← read_list n item; mret (x :: xs)
  end.

Lemma read_many_list {A} n (item : CursorM A) c :
  read_many n item c = read_list (Z.to_nat n) item c.
Proof.
  unfold read_many. rewrite for_range_nat.
  assert (forall k acc c,
    for_nat k (fun '(acc, c) => '(x, c') ← item c; Ok (acc ++ [x], c')) (acc, c) =
    match read_list k item c with
    | Ok (xs, c') => Ok (acc ++ xs, c')
    | Err e => Err e
    | Panic => Panic
    end) as H.
  { clear c. induction k as [|k IH]; intros acc c; [cbn; by rewrite app_nil_r|].
    cbn [for_nat read_list]. unfold mbind, Result_bind, CursorM_bind.
    destruct (item c) as [[x c1]| |]; [|done|done].
    rewrite IH. unfold mret, CursorM_ret.
    destruct (read_list k item c1) as [[xs c2]| |]; [|done|done].
    by rewrite <-app_assoc. }
  rewrite H. by destruct (read_list _ item c) as [[]| |].
Qed.

Lemma codec_list {A} (enc : A -> bytes) wf (item : CursorM A) n :
  Codec enc wf item ->
  Codec (fun l => concat (map enc l)) (fun l => length l = n /\ Forall wf l) (read_list n item).
Proof.
  intros Hitem. induction n as [|n IH]; cbn [read_list].
  - eapply codec_ext; [apply codec_ret| |by intros l ->].
    intros [|x l]; cbn; [by repeat constructor|].
    split; [done|by intros [? _]].
  - eapply codec_bind; [exact Hitem| | |].
    + intros x _. eapply (codec_bind _ _ _ _ _ _ (fun l => concat (map enc (tail l)))
        (fun l => exists xs, l = x :: xs /\ length xs = n /\ Forall wf xs)); [exact IH| | |].
      * intros xs _. apply codec_ret.
      * intros y (xs & -> & ? & ?). exists xs. cbn. by rewrite app_nil_r.
      * intros xs y [??] ->. cbn. rewrite app_nil_r. eauto.
    + intros [|x l] [Hl Hw]; [done|]. apply Forall_cons in Hw as [??].
      exists x. naive_solver.
    + intros x y Hx (xs & -> & <- & Hxs). by repeat constructor.
Qed.

#[export] Instance codec_many {A} (enc : A -> bytes) wf (item : CursorM A) n :
  Codec enc wf item -> 0 <= n ->
  Codec (fun l => concat (map enc l)) (fun l => len l = n /\ Forall wf l) (read_many n item).
Proof.
  intros Hitem Hn. pose proof (codec_list enc wf item (Z.to_nat n) Hitem) as H.
  destruct (codec_ext _ (fun l => concat (map enc l)) _ (fun l => len l = n /\ Forall wf l) _ H)
    as [Hr Hs Hp He Hx].
  { intros l. unfold len. split; intros []; (split; [lia|done]). }
  { done. }
  split; intros *; rewrite read_many_list; eauto.
Qed.

#[export] Instance codec_addr : Codec encode_addr addr_wf read_addr.
Proof.
  eapply codec_bind; [apply codec_u16| | |].
  - intros n Hn. apply codec_bytes. unfold in_width in *. lia.
  - intros a Ha. exists (len a). unfold encode_addr.
    unfold as_u16. by rewrite wrap_small.
  - intros n a Hn Ha. cbn in *. subst. unfold encode_addr, as_u16. by rewrite wrap_small.
Qed.

#[export] Instance codec_entry : Codec encode_entry entry_wf read_entry.
Proof.
  eapply (codec_bind _ _ _ (fun _ e => peer_id e ++ to_be_bytes 2 (len (addresses e)) ++
      concat (map encode_addr (addresses e))) (fun n e => len (peer_id e) = n /\ entry_wf e));
    [apply codec_u16| | |].
  - intros n Hn. eapply (codec_bind _ _ _ (fun p e => to_be_bytes 2 (len (addresses e)) ++
      concat (map encode_addr (addresses e))) (fun p e => peer_id e = p /\ entry_wf e));
      [apply codec_bytes; unfold in_width in *; lia| | |].
    + intros p Hp. eapply (codec_bind _ _ _ (fun _ e => concat (map encode_addr (addresses e)))
        (fun m e => len (addresses e) = m /\ peer_id e = p /\ entry_wf e)); [apply codec_u16| | |].
      * intros m Hm. eapply codec_bind;
          [apply (codec_many _ _ _ m codec_addr); unfold in_width in Hm; lia| | |].
        -- intros l _. apply codec_ret.
        -- intros e (He & Hpe & H1 & H2 & H3). exists (addresses e). cbn. rewrite app_nil_r.
           destruct e as [pe le]. cbn in *. by subst.
        -- intros l e [Hl Hf] ->. cbn. rewrite app_nil_r. unfold entry_wf. cbn.
           rewrite Hl, Hp. done.
      * intros e (<- & H1 & H2 & H3). exists (len (addresses e)). done.
      * intros m e Hm (<- & ? & ?). done.
    + intros e (<- & H1 & H2 & H3). exists (peer_id e). done.
    + intros p e <- (<- & ?). done.
  - intros e (H1 & H2 & H3). exists (len (peer_id e)).
    unfold encode_entry, as_u16. by rewrite !wrap_small.
  - intros n e Hn (<- & H1 & H2 & H3). unfold encode_entry, as_u16. by rewrite !wrap_small.
Qed.

(** The part of the file after the version byte. *)
Definition read_table : CursorM (list RoutingEntry) :=
  count ← read_u32; read_many count read_entry.

Definition encode_table (es : list RoutingEntry) : bytes :=
  to_be_bytes 4 (as_u32 (len es)) ++ concat (map encode_entry es).

#[export] Instance codec_table : Codec encode_table entries_wf read_table.
Proof.
  eapply codec_bind; [apply codec_u32| | |].
  - intros n Hn. apply (codec_many _ _ _ n codec_entry); unfold in_width in Hn; lia.
  - intros es [Hl Hf]. exists (len es). unfold encode_table, as_u32. by rewrite wrap_small.
  - intros n es Hn [Hl Hf]. subst. unfold encode_table, as_u32, entries_wf.
    by rewrite wrap_small.
Qed.

Lemma encode_table_eq es : encode es = MAGIC ++ [VERSION] ++ encode_table es.
Proof. done. Qed.

(** ** The header *)

Lemma decode_body_spec data :
  len data <= MAX_DHT_EXPORT_BYTES ->
  decode_body (Cursor_new data) =
    if decide (len data < 4) then Err (Truncated 0 4)
    else if decide (take 4 data <> MAGIC) then Err (BadMagic (take 4 data))
    else match data !! 4%nat with
         | None => Err (Truncated 4 1)
         | Some v =>
             if decide (v <> VERSION) then Err (UnsupportedVersion v)
             else read_table (mkCursor data 5)
         end.
Proof.
  intros Hlen. pose proof (len_nonneg data).
  assert (cursor_wf (Cursor_new data)) as Hc by (unfold cursor_wf; cbn; lia).
  unfold decode_body, mbind, CursorM_bind, read_array at 1.
  rewrite read_bytes_spec by done. cbn [offset Cursor_new].
  change (remaining (Cursor_new data)) with (drop 0 data). rewrite drop_0.
  destruct (decide (4 <= len data)) as [H4|H4]; [|by rewrite decide_True by lia].
  rewrite decide_False by lia. change (Z.to_nat 4) with 4%nat.
  destruct (decide (take 4 data = MAGIC)) as [Hm|Hm].
  - rewrite bool_decide_false, decide_False by (by intros ?).
    unfold read_u8, mbind, CursorM_bind, read_array at 1.
    assert (cursor_wf (advance 4 (Cursor_new data))) as Hc' by (unfold cursor_wf; cbn; lia).
    rewrite read_bytes_spec by done.
    change (remaining (advance 4 (Cursor_new data))) with (drop 4 data).
    change (offset (advance 4 (Cursor_new data))) with 4.
    rewrite <-(Nat.add_0_r 4) at 3. rewrite <-lookup_drop.
    destruct (drop 4 data) as [|v rest] eqn:Hd; cbn [lookup list_lookup].
    + done.
    + rewrite decide_True by (rewrite len_cons; pose proof (len_nonneg rest); lia).
      change (take (Z.to_nat 1) (v :: rest)) with [v]. cbn [mret CursorM_ret].
      destruct (decide (v = VERSION)) as [->|Hv].
      * by rewrite bool_decide_false, decide_False by (by intros ?).
      * by rewrite bool_decide_true, decide_True by done.
  - by rewrite bool_decide_true, decide_True by done.
Qed.

Lemma len_file t : len (MAGIC ++ [VERSION] ++ t) = 5 + len t.
Proof. unfold len. rewrite !length_app. cbn. lia. Qed.

Lemma len_encode es : len (encode es) = 5 + len (encode_table es).
Proof. apply len_file. Qed.

(** [decode] on an input that starts with a valid header. *)
Lemma decode_header t :
  5 + len t <= MAX_DHT_EXPORT_BYTES ->
  decode (MAGIC ++ [VERSION] ++ t) =
    ('(es, _) ← read_table (mkCursor (MAGIC ++ [VERSION] ++ t) 5); Ok es).
Proof.
  intros Hl. pose proof (len_file t) as Hlen. unfold decode. destruct (Z.gtb_spec (len (MAGIC ++ [VERSION] ++ t)) MAX_DHT_EXPORT_BYTES); [lia|].
  rewrite decode_body_spec by lia. rewrite decide_False by (pose proof (len_nonneg t); lia).
  by rewrite decide_False by (by intros ?).
Qed.

Lemma cursor_after_header t :
  5 + len t <= MAX_DHT_EXPORT_BYTES ->
  cursor_wf (mkCursor (MAGIC ++ [VERSION] ++ t) 5) /\
  remaining (mkCursor (MAGIC ++ [VERSION] ++ t) 5) = t.
Proof.
  intros Hl. split; [|done]. unfold cursor_wf. cbn [buf offset].
  rewrite len_file. pose proof (len_nonneg t). lia.
Qed.

(** Every input that passes the three header checks has the valid header. *)
Lemma header_split data v :
  take 4 data = MAGIC -> data !! 4%nat = Some v -> data = MAGIC ++ [v] ++ drop 5 data.
Proof.
  intros Hm Hv. rewrite <-(take_drop 4 data) at 1. rewrite Hm. f_equal.
  by apply drop_S.
Qed.

(** The possible courses of [decode], by the check that ends it. *)
Inductive decode_view (data : bytes) : Result DhtStateError (list RoutingEntry) -> Prop :=
  | view_too_large :
      MAX_DHT_EXPORT_BYTES < len data ->
      decode_view data (Err (InputTooLarge (len data) MAX_DHT_EXPORT_BYTES))
  | view_no_magic :
      len data < 4 -> decode_view data (Err (Truncated 0 4))
  | view_bad_magic :
      4 <= len data <= MAX_DHT_EXPORT_BYTES -> take 4 data <> MAGIC ->
      decode_view data (Err (BadMagic (take 4 data)))
  | view_no_version :
      len data = 4 -> decode_view data (Err (Truncated 4 1))
  | view_bad_version v :
      len data <= MAX_DHT_EXPORT_BYTES -> take 4 data = MAGIC -> data !! 4%nat = Some v ->
      v <> VERSION -> decode_view data (Err (UnsupportedVersion v))
  | view_table t c :
      data = MAGIC ++ [VERSION] ++ t -> len data <= MAX_DHT_EXPORT_BYTES ->
      c = mkCursor data 5 -> cursor_wf c -> remaining c = t ->
      decode_view data ('(es, _) ← read_table c; Ok es).

Lemma decode_viewP data : decode_view data (decode data).
Proof.
  unfold decode. destruct (Z.gtb_spec (len data) MAX_DHT_EXPORT_BYTES) as [|Hl]; [by constructor|].
  rewrite decode_body_spec by lia.
  case_decide as H4; [by apply view_no_magic|]. case_decide as Hm; [apply view_bad_magic; [lia|done]|].
  destruct (data !! 4%nat) as [v|] eqn:Hv.
  2:{ apply lookup_ge_None in Hv. apply view_no_version. unfold len in *. lia. }
  case_decide as Hver; [by apply view_bad_version|]. subst v.
  pose proof (header_split data VERSION Hm Hv) as Hd. clear Hm Hv H4.
  revert Hl Hd. generalize (drop 5 data). intros t Hl ->.
  destruct (cursor_after_header t) as [Hc Hr].
  { by rewrite <-len_file. }
  by eapply view_table.
Qed.

Lemma decode_complete es trail :
  entries_wf es -> len (encode es ++ trail) <= MAX_DHT_EXPORT_BYTES ->
  decode (encode es ++ trail) = Ok es.
Proof.
  intros Hw. rewrite encode_table_eq, <-!app_assoc. intros Hl.
  pose proof Hl as Hl'. rewrite len_file in Hl'.
  rewrite decode_header by done. destruct (cursor_after_header _ Hl') as [Hc Hr].
  by rewrite (codec_read _ es trail Hc Hw Hr).
Qed.

Lemma decode_sound data es :
  decode data = Ok es ->
  len data <= MAX_DHT_EXPORT_BYTES /\ entries_wf es /\ exists trail, data = encode es ++ trail.
Proof.
  destruct (decode_viewP data) as [| | | | |t c Hd Hl _ Hc Hr]; [done..|].
  destruct (read_table c) as [[es' c']| |] eqn:Ht; [|done|done]. intros [= ->].
  destruct (codec_sound _ es c' Hc Ht) as (Hw & _ & trail & Htr).
  split; [done|]. split; [done|]. exists trail.
  by rewrite Hd, encode_table_eq, <-Hr, Htr, <-!app_assoc.
Qed.

(** What each error of [decode] says about its input. *)
Definition error_explains (data : bytes) (e : DhtStateError) : Prop :=
  match e with
  | InputTooLarge got max =>
      got = len data /\ max = MAX_DHT_EXPORT_BYTES /\ max < got
  | Truncated off need =>
      0 <= off <= len data /\ len data < off + need
  | BadMagic got => got = take 4 data /\ length got = 4%nat /\ got <> MAGIC
  | UnsupportedVersion v => take 4 data = MAGIC /\ data !! 4%nat = Some v /\ v <> VERSION
  end.

Lemma decode_too_large data :
  MAX_DHT_EXPORT_BYTES < len data ->
  decode data = Err (InputTooLarge (len data) MAX_DHT_EXPORT_BYTES).
Proof.
  intros H. unfold decode. by destruct (Z.gtb_spec (len data) MAX_DHT_EXPORT_BYTES); [|lia].
Qed.

Lemma decode_err_explains data e : decode data = Err e -> error_explains data e.
Proof.
  pose proof (len_nonneg data).
  destruct (decode_viewP data) as [| | | | |t c Hd Hl Heq Hc Hr];
    try (intros [= <-]; cbn; repeat split; try lia; done).
  - intros [= <-]. cbn. repeat split; [|done]. rewrite length_take. unfold len in *. lia.
  - destruct (read_table c) as [[]|e1|] eqn:Ht; [done| |done]. intros [= <-].
    destruct (codec_err _ _ Hc Ht) as (o & n & -> & Ho & Hn). subst c. cbn in *. lia.
Qed.

Lemma decode_no_panic data : decode data <> Panic.
Proof.
  destruct (decode_viewP data) as [| | | | |t c Hd Hl Heq Hc Hr]; [done..|].
  pose proof (codec_no_panic c Hc). by destruct (read_table c) as [[]| |].
Qed.

(** ** Properties *)

(** C11: [decode] accepts exactly the encodings of well-formed tables: it
    returns [es] on the inputs of at most [MAX_DHT_EXPORT_BYTES] bytes that
    consist of [encode es], where every length of [es] fits its length field,
    and possibly of trailing bytes, and on no other input. *)
Theorem decode_iff_encoding data es :
  decode data = Ok es <->
  len data <= MAX_DHT_EXPORT_BYTES /\ entries_wf es /\ exists trail, data = encode es ++ trail.
Proof.
  split; [apply decode_sound|]. intros (Hl & Hw & trail & ->). by apply decode_complete.
Qed.

(** Exporting and importing a routing table is lossless exactly when its
    lengths fit the length fields and the snapshot stays within the import
    cap; [encode] itself enforces neither. *)
Theorem decode_encode_roundtrip es :
  decode (encode es) = Ok es <->
  entries_wf es /\ len (encode es) <= MAX_DHT_EXPORT_BYTES.
Proof.
  split; [intros (? & ? & _)%decode_sound; done|].
  intros [? ?]. rewrite <-(app_nil_r (encode es)) at 1.
  apply decode_complete; [done|]. by rewrite app_nil_r.
Qed.

(** [decode] is total: no input, however malformed, makes a read slice out
    of range or the cursor arithmetic overflow, and every error it returns is
    accurate: a [Truncated] error names an offset inside the input from which
    the requested bytes are not available, [BadMagic] carries the first four
    bytes, [UnsupportedVersion] the fifth, and [InputTooLarge] the size. *)
Theorem decode_total data :
  match decode data with
  | Ok es => entries_wf es
  | Err e => error_explains data e
  | Panic => False
  end.
Proof.
  destruct (decode data) as [es|e|] eqn:Hd.
  - by apply decode_sound in Hd as (_ & ? & _).
  - by apply decode_err_explains.
  - by apply decode_no_panic in Hd.
Qed.

(** The size guard comes before everything else and is exact: the inputs
    above the cap, and only they, are rejected as too large, whatever they
    contain. *)
Theorem decode_size_guard data :
  decode data = Err (InputTooLarge (len data) MAX_DHT_EXPORT_BYTES) <->
  MAX_DHT_EXPORT_BYTES < len data.
Proof.
  split.
  - intros H%decode_err_explains. cbn in H. lia.
  - apply decode_too_large.
Qed.

(** A snapshot cut short anywhere is rejected as truncated: no proper
    prefix of an encoded table decodes to any table. *)
Theorem decode_prefix_truncated es k :
  entries_wf es -> len (encode es) <= MAX_DHT_EXPORT_BYTES -> (k < length (encode es))%nat ->
  exists off need, decode (take k (encode es)) = Err (Truncated off need).
Proof.
  intros Hw Hl Hk.
  assert (len (take k (encode es)) <= MAX_DHT_EXPORT_BYTES) as Hlk.
  { unfold len in *. rewrite length_take. lia. }
  assert (forall v, take k (encode es) !! 4%nat = Some v -> v = VERSION) as Hv.
  { intros v [H _]%lookup_take_Some. by injection H. }
  assert (length (take 4 (take k (encode es))) = 4%nat ->
    take 4 (take k (encode es)) = MAGIC) as Hm.
  { rewrite take_take, length_take. intros H.
    replace (4 `min` k)%nat with 4%nat by lia. done. }
  destruct (decode_viewP (take k (encode es))) as [|? |? Hbad| |v ? _ Hv'|t c Hd _ Heq Hc Hr];
    [lia|eauto| |eauto|by apply Hv in Hv'|].
  { destruct Hbad. apply Hm. rewrite length_take. unfold len in *. lia. }
  pose proof (len_encode es) as Hle. rewrite encode_table_eq in Hd.
  assert (5 <= k)%nat as H5.
  { apply (f_equal length) in Hd. rewrite length_take, !length_app in Hd. cbn in Hd. lia. }
  assert (t = take (k - 5) (encode_table es)) as Ht.
  { replace k with (5 + (k - 5))%nat in Hd by lia. by apply (f_equal (drop 5)) in Hd. }
  rewrite Ht in Hr. unfold len in Hle.
  destruct (codec_prefix c es (k - 5)%nat Hc Hw Hr) as [e He]; [lia|].
  rewrite He. destruct (codec_err _ _ Hc He) as (o & n & -> & _). eauto.
Qed.

(** ** Witness *)
Definition sample_table : list RoutingEntry :=
  [mkRoutingEntry [Byte.x01; Byte.x02] [[Byte.x04]; []]; mkRoutingEntry [] []].

Lemma decode_prefix_truncated_witness :
  exists off need, decode (take 13 (encode sample_table)) = Err (Truncated off need).
Proof.
  apply (decode_prefix_truncated sample_table 13).
  - apply (bool_decide_unpack _). vm_compute. exact I.
  - vm_compute. discriminate.
  - vm_compute. lia.
Defined.
