(* ===== verification/Terms.v ===== *)
(** * Elixir terms

    The atoms of [native/ex_libp2p_nif/src/atoms.rs], and the interface of the
    rustler crate that the modelled code uses: encoding Rust values as terms
    and decoding the terms of the configuration map.  The crate is not part of
    the repository; [TermEnc] and [TermDec] list the operations, [TermEncOk]
    and [TermDecOk] what its documentation promises of them.  [ETerm] at the
    end is an instance to evaluate the development on concrete inputs. *)
From S2P Require Import Prelude Bytes Policy.
From stdpp Require Import options.

(** ** The atom table *)
Inductive Atom : Type :=
| a_ok | a_error | a_nil | a_node_stopped | a_invalid_peer_id | a_invalid_multiaddr |
a_invalid_keypair | a_input_too_large | a_query_timeout | a_dht_not_enabled |
a_rendezvous_not_enabled | a_internal_error | a_already_subscribed | a_not_subscribed |
a_publish_failed | a_dial_failed | a_keypair_generation_failed | a_runtime_creation_failed
| a_nif_panic | a_channel_full | a_peers_discovered | a_libp2p_event | a_libp2p_noop |
a_connection_established | a_connection_closed | a_new_listen_addr | a_gossipsub_message |
a_peer_discovered | a_dht_query_result | a_inbound_request | a_outbound_response |
a_nat_status_changed | a_relay_reservation_accepted | a_hole_punch_outcome |
a_external_addr_confirmed | a_dial_failure | a_dialer | a_listener | a_found_record |
a_not_found | a_put_record_ok | a_found_providers | a_bootstrap_ok | a_public | a_private
| a_unknown | a_success | a_failure.

#[global] Instance Atom_eq_dec : EqDecision Atom.
Proof. solve_decision. Defined.

(** The text of an atom: [rustler::atoms!] names it after its identifier. *)
Definition atom_name (a : Atom) : string :=
  match a with
  | a_ok => "ok"
  | a_error => "error"
  | a_nil => "nil"
  | a_node_stopped => "node_stopped"
  | a_invalid_peer_id => "invalid_peer_id"
  | a_invalid_multiaddr => "invalid_multiaddr"
  | a_invalid_keypair => "invalid_keypair"
  | a_input_too_large => "input_too_large"
  | a_query_timeout => "query_timeout"
  | a_dht_not_enabled => "dht_not_enabled"
  | a_rendezvous_not_enabled => "rendezvous_not_enabled"
  | a_internal_error => "internal_error"
  | a_already_subscribed => "already_subscribed"
  | a_not_subscribed => "not_subscribed"
  | a_publish_failed => "publish_failed"
  | a_dial_failed => "dial_failed"
  | a_keypair_generation_failed => "keypair_generation_failed"
  | a_runtime_creation_failed => "runtime_creation_failed"
  | a_nif_panic => "nif_panic"
  | a_channel_full => "channel_full"
  | a_peers_discovered => "peers_discovered"
  | a_libp2p_event => "libp2p_event"
  | a_libp2p_noop => "libp2p_noop"
  | a_connection_established => "connection_established"
  | a_connection_closed => "connection_closed"
  | a_new_listen_addr => "new_listen_addr"
  | a_gossipsub_message => "gossipsub_message"
  | a_peer_discovered => "peer_discovered"
  | a_dht_query_result => "dht_query_result"
  | a_inbound_request => "inbound_request"
  | a_outbound_response => "outbound_response"
  | a_nat_status_changed => "nat_status_changed"
  | a_relay_reservation_accepted => "relay_reservation_accepted"
  | a_hole_punch_outcome => "hole_punch_outcome"
  | a_external_addr_confirmed => "external_addr_confirmed"
  | a_dial_failure => "dial_failure"
  | a_dialer => "dialer"
  | a_listener => "listener"
  | a_found_record => "found_record"
  | a_not_found => "not_found"
  | a_put_record_ok => "put_record_ok"
  | a_found_providers => "found_providers"
  | a_bootstrap_ok => "bootstrap_ok"
  | a_public => "public"
  | a_private => "private"
  | a_unknown => "unknown"
  | a_success => "success"
  | a_failure => "failure"
  end.

Definition all_atoms : list Atom :=
  [a_ok; a_error; a_nil; a_node_stopped; a_invalid_peer_id; a_invalid_multiaddr;
   a_invalid_keypair; a_input_too_large; a_query_timeout; a_dht_not_enabled; a_rendezvous_not_enabled;
   a_internal_error; a_already_subscribed; a_not_subscribed; a_publish_failed; a_dial_failed;
   a_keypair_generation_failed; a_runtime_creation_failed; a_nif_panic; a_channel_full;
   a_peers_discovered; a_libp2p_event; a_libp2p_noop; a_connection_established; a_connection_closed;
   a_new_listen_addr; a_gossipsub_message; a_peer_discovered; a_dht_query_result; a_inbound_request;
   a_outbound_response; a_nat_status_changed; a_relay_reservation_accepted; a_hole_punch_outcome;
   a_external_addr_confirmed; a_dial_failure; a_dialer; a_listener; a_found_record; a_not_found;
   a_put_record_ok; a_found_providers; a_bootstrap_ok; a_public; a_private; a_unknown; a_success;
   a_failure].

(** The atom of a text, that of [a_ok] for a text of no atom. *)
Definition atom_named (s : string) : Atom :=
  default a_ok (List.find (fun a => bool_decide (atom_name a = s)) all_atoms).

Lemma atom_named_name a : atom_named (atom_name a) = a.
Proof. by destruct a. Qed.

#[global] Instance atom_name_inj : Inj (=) (=) atom_name.
Proof. intros a b E. by rewrite <-(atom_named_name a), E, atom_named_name. Qed.

#[global] Instance Atom_countable : Countable Atom := inj_countable' atom_name atom_named atom_named_name.

(** ** Encoding *)

(** A Rust tuple, list, string, integer, float, binary or atom as a term.
    [enc_none] is [Option::None]. *)
Class TermEnc (Term : Type) : Type := {
  enc_atom : Atom -> Term;
  enc_str : string -> Term;
  enc_binary : bytes -> Term;
  enc_int : Z -> Term;
  enc_tuple : list Term -> Term;
  enc_list : list Term -> Term;
  enc_none : Term;
}.

Class TermEncOk (Term : Type) `{!TermEnc Term} : Prop := {
  #[global] enc_atom_inj :: Inj (=) (=) enc_atom;
  #[global] enc_str_inj :: Inj (=) (=) enc_str;
  #[global] enc_int_inj :: Inj (=) (=) enc_int;
  #[global] enc_tuple_inj :: Inj (=) (=) enc_tuple;
  #[global] enc_list_inj :: Inj (=) (=) enc_list;
  enc_none_nil : enc_none = enc_atom a_nil;
  enc_atom_tuple a l : enc_atom a <> enc_tuple l;
  enc_atom_str a s : enc_atom a <> enc_str s;
  enc_list_tuple l k : enc_list l <> enc_tuple k;
}.

(** Inverts equations between terms. *)
Ltac term_inv :=
  repeat match goal with
  | H : enc_tuple _ = enc_tuple _ |- _ => apply (inj enc_tuple) in H
  | H : enc_list _ = enc_list _ |- _ => apply (inj enc_list) in H
  | H : enc_atom _ = enc_atom _ |- _ => apply (inj enc_atom) in H
  | H : enc_str _ = enc_str _ |- _ => apply (inj enc_str) in H
  | H : enc_int _ = enc_int _ |- _ => apply (inj enc_int) in H
  | H : enc_atom _ = enc_tuple _ |- _ => by destruct (enc_atom_tuple _ _ H)
  | H : enc_tuple _ = enc_atom _ |- _ => symmetry in H
  | H : enc_atom _ = enc_str _ |- _ => by destruct (enc_atom_str _ _ H)
  | H : enc_str _ = enc_atom _ |- _ => symmetry in H
  | H : enc_list _ = enc_tuple _ |- _ => by destruct (enc_list_tuple _ _ H)
  | H : enc_tuple _ = enc_list _ |- _ => symmetry in H
  | _ => progress simplify_eq
  end.

(** [Option<T>] as a term. *)
Definition enc_option {Term} `{!TermEnc Term} {A} (enc : A -> Term) (o : option A) : Term :=
  match o with Some a => enc a | None => enc_none end.

(** ** Decoding

    [term.decode::<T>().ok()] for the types the configuration uses; the
    integer types of Rust only hold values of their width. *)
Class TermDec (Term : Type) : Type := {
  is_atom : Term -> bool;
  dec_bool : Term -> option bool;
  dec_u64 : Term -> option Z;
  dec_u32 : Term -> option Z;
  dec_f64 : Term -> option f64;
  dec_string : Term -> option string;
  dec_string_list : Term -> option (list string);
  dec_binary : Term -> option bytes;
  dec_map : Term -> option (gmap string Term);
}.

Class TermDecOk (Term : Type) `{!TermDec Term} : Prop := {
  dec_u64_width t z : dec_u64 t = Some z -> in_width 64 z;
  dec_u32_width t z : dec_u32 t = Some z -> in_width 32 z;
}.

(** ** A concrete term type

    [EStr] is a binary that is UTF-8 text, [EBin] any other binary, [EMap] a map
    with binary keys; [EStruct] an Elixir struct, a map whose
    keys are atoms, which does not decode to a [HashMap<String, Term>]; [EName]
    an atom that is not in the native table. *)
Inductive ETerm : Type :=
  | EAtom (a : Atom)
  | EStr (s : string)
  | EBin (b : bytes)
  | EInt (z : Z)
  | ETuple (l : list ETerm)
  | EList (l : list ETerm)
  | EBool (b : bool)
  | EFloat (f : f64)
  | EMap (m : list (string * ETerm))
  | EStruct (fields : list (string * ETerm))
  | EName (name : string).

#[global] Instance ETerm_enc : TermEnc ETerm := {|
  enc_atom := EAtom; enc_str := EStr; enc_binary := EBin; enc_int := EInt;
  enc_tuple := ETuple; enc_list := EList; enc_none := EAtom a_nil |}.

#[global] Instance ETerm_enc_ok : TermEncOk ETerm.
Proof. split; try (intros ?? [=]; done); done. Qed.

Definition int_in (w : Z) (t : ETerm) : option Z :=
  match t with
  | EInt z => if decide (in_width w z) then Some z else None
  | _ => None
  end.

#[global] Instance ETerm_dec : TermDec ETerm := {|
  is_atom t := match t with EAtom _ | EBool _ | EName _ => true | _ => false end;
  dec_bool t := match t with EBool b => Some b | _ => None end;
  dec_u64 := int_in 64;
  dec_u32 := int_in 32;
  dec_f64 t := match t with EFloat f => Some f | _ => None end;
  dec_string t := match t with EStr s => Some s | _ => None end;
  dec_string_list t :=
    match t with
    | EList l => mapM (fun t => match t with EStr s => Some s | _ => None end) l
    | _ => None
    end;
  dec_binary t :=
    match t with
    | EBin b => Some b
    | EStr s => Some (String.list_byte_of_string s)
    | _ => None
    end;
  dec_map t := match t with EMap m => Some (list_to_map m) | _ => None end |}.

#[global] Instance ETerm_dec_ok : TermDecOk ETerm.
Proof.
  split; intros [] k; cbn; try done; case_decide; congruence.
Qed.
