(* ===== verification/NifError.v ===== *)
(** * The typed error of the native interface

    Model of [native/ex_libp2p_nif/src/error.rs]: the [NifError] variants, the
    atom each is tagged with, its [Display] text ([thiserror] format strings)
    and the term it is encoded as. *)
From Stdlib Require Import Ascii.
From S2P Require Import Prelude Bytes Terms.
From stdpp Require Import options.

Definition MAX_KEYPAIR_BYTES : Z := 4096.
Definition MAX_DHT_EXPORT_BYTES : Z := 4 * 1024 * 1024.

Inductive NifError :=
  | InvalidMultiaddr (e : string)
  | InvalidPeerId (e : string)
  | InvalidKeypair (e : string)
  | InputTooLarge (got max : Z)
  | NodeStopped
  | ChannelFull
  | QueryTimeout
  | DhtNotEnabled
  | RendezvousNotEnabled
  | NifPanic (e : string)
  | Internal (e : string).

#[global] Instance NifError_eq_dec : EqDecision NifError.
Proof. solve_decision. Defined.

Definition atom (e : NifError) : Atom :=
  match e with
  | InvalidMultiaddr _ => a_invalid_multiaddr
  | InvalidPeerId _ => a_invalid_peer_id
  | InvalidKeypair _ => a_invalid_keypair
  | InputTooLarge _ _ => a_input_too_large
  | NodeStopped => a_node_stopped
  | ChannelFull => a_channel_full
  | QueryTimeout => a_query_timeout
  | DhtNotEnabled => a_dht_not_enabled
  | RendezvousNotEnabled => a_rendezvous_not_enabled
  | NifPanic _ => a_nif_panic
  | Internal _ => a_internal_error
  end.

(** The [Display] implementation derived from the [#[error(...)]] strings. *)
Definition to_string (e : NifError) : string :=
  match e with
  | InvalidMultiaddr e => "invalid multiaddr: " +:+ e
  | InvalidPeerId e => "invalid peer id: " +:+ e
  | InvalidKeypair e => "invalid keypair: " +:+ e
  | InputTooLarge got max =>
      "input too large: got " +:+ pretty got +:+ " bytes, max " +:+ pretty max
  | NodeStopped => "node stopped: swarm event loop has exited"
  | ChannelFull => "channel full: swarm is overloaded"
  | QueryTimeout => "query timeout"
  | DhtNotEnabled => "dht not enabled"
  | RendezvousNotEnabled => "rendezvous client not enabled"
  | NifPanic e => "nif panic: " +:+ e
  | Internal e => "internal: " +:+ e
  end.

Definition encode {Term} `{!TermEnc Term} (e : NifError) : Term :=
  enc_tuple [enc_atom (atom e); enc_str (to_string e)].

(** [From<...>] for the upstream errors, which arrive as their text. *)
Definition from_multiaddr_error (e : string) : NifError := InvalidMultiaddr e.
Definition from_parse_error (e : string) : NifError := InvalidPeerId e.
Definition from_decoding_error (e : string) : NifError := InvalidKeypair e.

(** ** Decimal numbers contain no space *)
Fixpoint no_space (s : string) : Prop :=
  match s with
  | EmptyString => True
  | String c s => c <> " "%char /\ no_space s
  end.

Lemma no_space_pretty_N_char n : pretty_N_char n <> " "%char.
Proof. unfold pretty_N_char. by repeat case_match. Qed.

Lemma no_space_pretty_N_go x s : no_space s -> no_space (pretty_N_go x s).
Proof.
  revert s. induction (N.lt_wf_0 x) as [x _ IH]; intros s Hs.
  destruct (decide (0 < x)%N) as [Hx|Hx].
  - rewrite pretty_N_go_step by done. apply IH; [by apply N.div_lt|].
    split; [apply no_space_pretty_N_char|done].
  - assert (x = 0%N) as -> by lia. by rewrite pretty_N_go_0.
Qed.

Lemma no_space_pretty (z : Z) : no_space (pretty z).
Proof.
  assert (forall n : N, no_space (pretty n)) as HN.
  { intros n. unfold pretty, pretty_N. case_decide; [done|]. by apply no_space_pretty_N_go. }
  destruct z; cbn; [done|apply (HN (N.pos p))|split; [done|apply (HN (N.pos p))]].
Qed.

Lemma no_space_app_inj a b c d :
  no_space a -> no_space b -> a +:+ String " " c = b +:+ String " " d -> a = b /\ c = d.
Proof.
  revert b. induction a as [|x a IH]; intros [|y b] Ha Hb H; cbn in *; injection H.
  - done.
  - intros _ Hy. by destruct Hb as [[] _].
  - intros _ Hx. by destruct Ha as [[] _].
  - intros Hab ->. destruct Ha as [_ Ha], Hb as [_ Hb].
    by destruct (IH b Ha Hb Hab) as [-> ->].
Qed.

Lemma to_string_inj e1 e2 : to_string e1 = to_string e2 -> e1 = e2.
Proof.
  destruct e1, e2; intros H; try reflexivity;
    try (apply (inj (String.append _)) in H as ->; reflexivity);
    try (cbv [to_string String.append] in H; discriminate H).
  apply (inj (String.append "input too large: got ")) in H.
  apply no_space_app_inj in H as [Hg Hm]; [|apply no_space_pretty..].
  apply (inj (String.append "bytes, max ")) in Hm.
  apply (inj pretty) in Hg, Hm. by subst.
Qed.

(** The variant of an error, payload erased. *)
Definition same_variant (e1 e2 : NifError) : Prop :=
  match e1, e2 with
  | InvalidMultiaddr _, InvalidMultiaddr _ | InvalidPeerId _, InvalidPeerId _
  | InvalidKeypair _, InvalidKeypair _ | InputTooLarge _ _, InputTooLarge _ _
  | NodeStopped, NodeStopped | ChannelFull, ChannelFull | QueryTimeout, QueryTimeout
  | DhtNotEnabled, DhtNotEnabled | RendezvousNotEnabled, RendezvousNotEnabled
  | NifPanic _, NifPanic _ | Internal _, Internal _ => True
  | _, _ => False
  end.

(** ** Properties *)

(** Elixir callers can branch on errors: the atom of an error identifies
    its variant and no two variants share one, the [Display] text identifies
    the error with its payload, and so does the encoded term. *)
Theorem NifError_distinguishable {Term} `{!TermEnc Term, !TermEncOk Term} e1 e2 :
  (atom_name (atom e1) = atom_name (atom e2) <-> same_variant e1 e2) /\
  (to_string e1 = to_string e2 <-> e1 = e2) /\
  (encode (Term:=Term) e1 = encode e2 <-> e1 = e2).
Proof.
  split; [by destruct e1, e2|]. split.
  - split; [apply to_string_inj|by intros ->].
  - split; [|by intros ->]. intros [= _ H%(inj enc_str)]%(inj enc_tuple).
    by apply to_string_inj.
Qed.

Lemma NifError_distinguishable_witness :
  atom_name (atom NodeStopped) <> atom_name (atom ChannelFull) /\
  encode (Term:=ETerm) (InputTooLarge 1 23) <> encode (InputTooLarge 12 3).
Proof.
  split.
  - intros H. by apply (NifError_distinguishable (Term:=ETerm)) in H.
  - intros H. by apply (NifError_distinguishable (Term:=ETerm)) in H.
Defined.
