(* ===== verification/Config.v ===== *)
(** * Node configuration

    Model of [native/ex_libp2p_nif/src/config.rs]: the configuration record
    and its construction from the string-keyed map of Elixir terms.  A
    [HashMap<String, Term>] is a [gmap string Term]; decoding a term is the
    interface [TermDec]. *)
From S2P Require Import Prelude Bytes Policy Terms.
From stdpp Require Import options.

Record PeerScoreConfig := mkPeerScoreConfig {
  ip_colocation_factor_weight : f64;
  ip_colocation_factor_threshold : f64;
  behaviour_penalty_weight : f64;
  behaviour_penalty_decay : f64;
}.

Record ThresholdsConfig := mkThresholdsConfig {
  gossip_threshold : f64;
  publish_threshold : f64;
  graylist_threshold : f64;
  accept_px_threshold : f64;
  opportunistic_graft_threshold : f64;
}.

Record NodeConfig := mkNodeConfig {
  keypair_bytes : option bytes;
  listen_addrs : list string;
  bootstrap_peers : list string;
  gossipsub_topics : list string;
  gossipsub_mesh_n : Z;
  gossipsub_mesh_n_low : Z;
  gossipsub_mesh_n_high : Z;
  gossipsub_gossip_lazy : Z;
  gossipsub_max_transmit_size : Z;
  gossipsub_heartbeat_interval_ms : Z;
  enable_mdns : bool;
  mdns_auto_dial : bool;
  enable_kademlia : bool;
  enable_relay : bool;
  enable_relay_server : bool;
  enable_autonat : bool;
  enable_autonat_server : bool;
  enable_upnp : bool;
  enable_websocket : bool;
  enable_rendezvous_client : bool;
  enable_rendezvous_server : bool;
  rpc_protocol_name : string;
  rpc_request_timeout_secs : Z;
  idle_connection_timeout_secs : Z;
  max_established_incoming : Z;
  max_established_outgoing : Z;
  max_pending_incoming : Z;
  max_pending_outgoing : Z;
  max_established_per_peer : Z;
  memory_max_percentage : f64;
  relay_max_reservations : Z;
  relay_max_circuits : Z;
  relay_max_circuit_duration_secs : Z;
  relay_max_circuit_bytes : Z;
  peer_score_disabled : bool;
  peer_score : option PeerScoreConfig;
  thresholds : option ThresholdsConfig;
}.

Section from_map.
Context {Term : Type} `{!TermDec Term}.
Implicit Types map : gmap string Term.

Definition get_string_list map (key : string) : Result string (list string) :=
  match map !! key with
  | Some term => ok_or ("invalid " +:+ key) (dec_string_list term)
  | None => Ok []
  end.

Definition get_string map (key default_ : string) : string :=
  default default_ (map !! key ≫= dec_string).

Definition get_binary map (key : string) : option bytes :=
  map !! key ≫= fun t => if is_atom t then None else dec_binary t.

Definition get_bool map (key : string) (default_ : bool) : bool :=
  default default_ (map !! key ≫= dec_bool).

Definition get_u64 map (key : string) (default_ : Z) : Z :=
  default default_ (map !! key ≫= dec_u64).

Definition get_u32 map (key : string) (default_ : Z) : Z :=
  default default_ (map !! key ≫= dec_u32).

(** [v as usize] of a [u64] on a 64-bit target. *)
Definition get_usize map (key : string) (default_ : Z) : Z :=
  default default_ (as_u64 <$> (map !! key ≫= dec_u64)).

Definition get_f64 map (key : string) (default_ : f64) : f64 :=
  default default_ (map !! key ≫= dec_f64).

Definition get_peer_score map : option PeerScoreConfig :=
  term ← map !! "gossipsub_peer_score";
  if is_atom term then None else
  inner ← dec_map term;
  Some {|
    ip_colocation_factor_weight :=
      get_f64 inner "ip_colocation_factor_weight" (f64_lit (-53) 1);
    ip_colocation_factor_threshold :=
      get_f64 inner "ip_colocation_factor_threshold" (f64_lit 3 1);
    behaviour_penalty_weight :=
      get_f64 inner "behaviour_penalty_weight" (f64_lit (-1592) 100);
    behaviour_penalty_decay :=
      get_f64 inner "behaviour_penalty_decay" (f64_lit 986 1000) |}.

Definition get_thresholds map : option ThresholdsConfig :=
  term ← map !! "gossipsub_thresholds";
  if is_atom term then None else
  inner ← dec_map term;
  Some {|
    gossip_threshold := get_f64 inner "gossip_threshold" (f64_lit (-4000) 1);
    publish_threshold := get_f64 inner "publish_threshold" (f64_lit (-8000) 1);
    graylist_threshold := get_f64 inner "graylist_threshold" (f64_lit (-16000) 1);
    accept_px_threshold := get_f64 inner "accept_px_threshold" (f64_lit 100 1);
    opportunistic_graft_threshold :=
      get_f64 inner "opportunistic_graft_threshold" (f64_lit 5 1) |}.

Definition from_map map : Result string NodeConfig :=
  listen_addrs ← get_string_list map "listen_addrs";
  bootstrap_peers ← get_string_list map "bootstrap_peers";
  gossipsub_topics ← get_string_list map "gossipsub_topics";
  Ok {|
    keypair_bytes := get_binary map "keypair_bytes";
    listen_addrs := listen_addrs;
    bootstrap_peers := bootstrap_peers;
    gossipsub_topics := gossipsub_topics;
    gossipsub_mesh_n := get_usize map "gossipsub_mesh_n" 6;
    gossipsub_mesh_n_low := get_usize map "gossipsub_mesh_n_low" 4;
    gossipsub_mesh_n_high := get_usize map "gossipsub_mesh_n_high" 12;
    gossipsub_gossip_lazy := get_usize map "gossipsub_gossip_lazy" 6;
    gossipsub_max_transmit_size := get_usize map "gossipsub_max_transmit_size" 65536;
    gossipsub_heartbeat_interval_ms := get_u64 map "gossipsub_heartbeat_interval_ms" 1000;
    enable_mdns := get_bool map "enable_mdns" true;
    mdns_auto_dial := get_bool map "mdns_auto_dial" true;
    enable_kademlia := get_bool map "enable_kademlia" true;
    enable_relay := get_bool map "enable_relay" false;
    enable_relay_server := get_bool map "enable_relay_server" false;
    enable_autonat := get_bool map "enable_autonat" false;
    enable_autonat_server := get_bool map "enable_autonat_server" false;
    enable_upnp := get_bool map "enable_upnp" false;
    enable_websocket := get_bool map "enable_websocket" false;
    enable_rendezvous_client := get_bool map "enable_rendezvous_client" false;
    enable_rendezvous_server := get_bool map "enable_rendezvous_server" false;
    rpc_protocol_name := get_string map "rpc_protocol_name" "/ex-libp2p/rpc/1.0.0";
    rpc_request_timeout_secs := get_u64 map "rpc_request_timeout_secs" 30;
    idle_connection_timeout_secs := get_u64 map "idle_connection_timeout_secs" 60;
    max_established_incoming := get_u32 map "max_established_incoming" 256;
    max_established_outgoing := get_u32 map "max_established_outgoing" 256;
    max_pending_incoming := get_u32 map "max_pending_incoming" 128;
    max_pending_outgoing := get_u32 map "max_pending_outgoing" 64;
    max_established_per_peer := get_u32 map "max_established_per_peer" 2;
    memory_max_percentage := get_f64 map "memory_max_percentage" (f64_lit 9 10);
    relay_max_reservations := get_u32 map "relay_max_reservations" 128;
    relay_max_circuits := get_u32 map "relay_max_circuits" 16;
    relay_max_circuit_duration_secs := get_u64 map "relay_max_circuit_duration_secs" 120;
    relay_max_circuit_bytes := get_u64 map "relay_max_circuit_bytes" 131072;
    peer_score_disabled := get_bool map "peer_score_disabled" false;
    peer_score := get_peer_score map;
    thresholds := get_thresholds map |}.
End from_map.

(** ** Specification *)

(** Every integer field holds a value of its Rust type. *)
Definition config_wf (c : NodeConfig) : Prop :=
  Forall (in_width 64) [gossipsub_mesh_n c; gossipsub_mesh_n_low c; gossipsub_mesh_n_high c;
    gossipsub_gossip_lazy c; gossipsub_max_transmit_size c; gossipsub_heartbeat_interval_ms c;
    rpc_request_timeout_secs c; idle_connection_timeout_secs c;
    relay_max_circuit_duration_secs c; relay_max_circuit_bytes c] /\
  Forall (in_width 32) [max_established_incoming c; max_established_outgoing c;
    max_pending_incoming c; max_pending_outgoing c; max_established_per_peer c;
    relay_max_reservations c; relay_max_circuits c].

(** The keys whose value must decode, in the order they are read. *)
Definition list_keys : list string := ["listen_addrs"; "bootstrap_peers"; "gossipsub_topics"].

#[local] Set Default Proof Using "Type*".

Section config_lemmas.
Context {Term : Type} `{!TermDec Term}.
Implicit Types map : gmap string Term.

(** A key that is present with a value that is not a list of strings. *)
Definition bad_list map (key : string) : bool :=
  match map !! key with
  | Some term => match dec_string_list term with Some _ => false | None => true end
  | None => false
  end.

(** A term of none of the types the configuration reads. *)
Definition undecodable (term : Term) : Prop :=
  dec_bool term = None /\ dec_u64 term = None /\ dec_u32 term = None /\ dec_f64 term = None /\
  dec_string term = None /\ dec_binary term = None /\ dec_map term = None.

Lemma get_string_list_spec map key :
  get_string_list map key =
    if bad_list map key then Err ("invalid " +:+ key)
    else Ok (default [] (map !! key ≫= dec_string_list)).
Proof.
  unfold get_string_list, bad_list. destruct (map !! key) as [t|]; [|done]. cbn.
  by destruct (dec_string_list t).
Qed.

Lemma default_width w d (o : option Z) :
  in_width w d -> (forall z, o = Some z -> in_width w z) -> in_width w (default d o).
Proof. destruct o; cbn; auto. Qed.

Section widths.
Context `{!TermDecOk Term}.

Lemma get_u64_width map key d : in_width 64 d -> in_width 64 (get_u64 map key d).
Proof.
  intros Hd. apply default_width; [done|]. intros z (t & _ & Ht)%bind_Some.
  by eapply dec_u64_width.
Qed.

Lemma get_u32_width map key d : in_width 32 d -> in_width 32 (get_u32 map key d).
Proof.
  intros Hd. apply default_width; [done|]. intros z (t & _ & Ht)%bind_Some.
  by eapply dec_u32_width.
Qed.

Lemma get_usize_width map key d : in_width 64 d -> in_width 64 (get_usize map key d).
Proof.
  intros Hd. apply default_width; [done|]. intros z (z' & _ & ->)%fmap_Some.
  by apply wrap_range.
Qed.
End widths.

(** ** A mistyped value counts as an absent one *)
Section mistyped.
Context (map : gmap string Term) (key : string) (term : Term).
Context (Hterm : undecodable term).

Lemma lookup_mistyped {A} (dec : Term -> option A) k :
  dec term = None -> <[key:=term]> map !! k ≫= dec = delete key map !! k ≫= dec.
Proof.
  intros Hdec. rewrite lookup_insert, lookup_delete. by case_decide.
Qed.

Lemma get_string_mistyped k d : get_string (<[key:=term]> map) k d = get_string (delete key map) k d.
Proof. unfold get_string. by rewrite (lookup_mistyped dec_string) by apply Hterm. Qed.
Lemma get_bool_mistyped k d : get_bool (<[key:=term]> map) k d = get_bool (delete key map) k d.
Proof. unfold get_bool. by rewrite (lookup_mistyped dec_bool) by apply Hterm. Qed.
Lemma get_u64_mistyped k d : get_u64 (<[key:=term]> map) k d = get_u64 (delete key map) k d.
Proof. unfold get_u64. by rewrite (lookup_mistyped dec_u64) by apply Hterm. Qed.
Lemma get_u32_mistyped k d : get_u32 (<[key:=term]> map) k d = get_u32 (delete key map) k d.
Proof. unfold get_u32. by rewrite (lookup_mistyped dec_u32) by apply Hterm. Qed.
Lemma get_usize_mistyped k d : get_usize (<[key:=term]> map) k d = get_usize (delete key map) k d.
Proof. unfold get_usize. by rewrite (lookup_mistyped dec_u64) by apply Hterm. Qed.
Lemma get_f64_mistyped k d : get_f64 (<[key:=term]> map) k d = get_f64 (delete key map) k d.
Proof. unfold get_f64. by rewrite (lookup_mistyped dec_f64) by apply Hterm. Qed.
Lemma get_binary_mistyped k : get_binary (<[key:=term]> map) k = get_binary (delete key map) k.
Proof.
  destruct Hterm as (_ & _ & _ & _ & _ & Hb & _). unfold get_binary.
  apply lookup_mistyped. rewrite Hb. by case_match.
Qed.
Lemma get_peer_score_mistyped :
  get_peer_score (<[key:=term]> map) = get_peer_score (delete key map).
Proof.
  destruct Hterm as (_ & _ & _ & _ & _ & _ & Hm). unfold get_peer_score.
  apply (lookup_mistyped (fun t => if is_atom t then None else _)). rewrite Hm. by case_match.
Qed.
Lemma get_thresholds_mistyped :
  get_thresholds (<[key:=term]> map) = get_thresholds (delete key map).
Proof.
  destruct Hterm as (_ & _ & _ & _ & _ & _ & Hm). unfold get_thresholds.
  apply (lookup_mistyped (fun t => if is_atom t then None else _)). rewrite Hm. by case_match.
Qed.
Lemma get_string_list_mistyped k :
  k <> key -> get_string_list (<[key:=term]> map) k = get_string_list (delete key map) k.
Proof.
  intros Hk. unfold get_string_list. by rewrite lookup_insert_ne, lookup_delete_ne.
Qed.
End mistyped.

(** ** Properties *)

Lemma from_map_cases `{!TermDecOk Term} map :
  match List.find (bad_list map) list_keys with
  | Some key => from_map map = Err ("invalid " +:+ key)
  | None => exists c, from_map map = Ok c /\ config_wf c
  end.
Proof.
  unfold from_map, mbind, Result_bind. rewrite !get_string_list_spec. cbn [List.find list_keys].
  destruct (bad_list map "listen_addrs"); [done|].
  destruct (bad_list map "bootstrap_peers"); [done|].
  destruct (bad_list map "gossipsub_topics"); [done|].
  eexists. split; [done|]. split; repeat constructor;
    first [apply get_u64_width|apply get_u32_width|apply get_usize_width]; done.
Qed.

Lemma from_map_wf `{!TermDecOk Term} map c : from_map map = Ok c -> config_wf c.
Proof.
  intros Hc. pose proof (from_map_cases map) as H. rewrite Hc in H.
  destruct (List.find _ _); [done|]. by destruct H as (? & [= <-] & ?).
Qed.

(** [from_map] fails only on a list option: when some of the three list
    keys holds a value that is not a list of strings, it reports the first of
    them, by name; otherwise it returns a configuration, and every integer of
    it is within the width of its Rust field. *)
Theorem from_map_total `{!TermDecOk Term} map :
  match List.find (bad_list map) list_keys with
  | Some key => from_map map = Err ("invalid " +:+ key)
  | None => exists c, from_map map = Ok c /\ config_wf c
  end.
Proof. apply from_map_cases. Qed.

(** An option of the wrong type is treated as if it were missing: a value
    that decodes to nothing, under any key but the three lists, leaves the
    configuration at the default of that option and every other option as it
    was; in particular it never fails the start of a node. *)
Theorem from_map_mistyped map key term :
  undecodable term -> key ∉ list_keys ->
  from_map (<[key:=term]> map) = from_map (delete key map).
Proof.
  intros Hterm Hkey.
  assert (forall k, k ∈ list_keys -> k <> key) as Hne by (intros k Hk ->; done).
  unfold from_map.
  rewrite (get_string_list_mistyped _ _ _ Hterm "listen_addrs"),
    (get_string_list_mistyped _ _ _ Hterm "bootstrap_peers"),
    (get_string_list_mistyped _ _ _ Hterm "gossipsub_topics")
    by (apply Hne; unfold list_keys; set_solver).
  rewrite !get_binary_mistyped, !get_usize_mistyped, !get_u64_mistyped, !get_u32_mistyped,
    !get_bool_mistyped, !get_string_mistyped, !get_f64_mistyped,
    get_peer_score_mistyped, get_thresholds_mistyped by done.
  done.
Qed.
End config_lemmas.

(** ** Witnesses *)
Lemma from_map_mistyped_witness :
  from_map (<["enable_mdns":=ETuple []]> (∅ : gmap string ETerm)) = from_map ∅.
Proof.
  etrans; [apply (from_map_mistyped (Term:=ETerm) ∅ "enable_mdns" (ETuple []))|].
  - vm_compute. auto 10.
  - apply (bool_decide_unpack _). vm_compute. exact I.
  - by rewrite delete_empty.
Defined.

Example from_map_bad_topics :
  from_map (<["gossipsub_topics":=EInt 3]> (∅ : gmap string ETerm)) =
  Err "invalid gossipsub_topics".
Proof. vm_compute. reflexivity. Qed.

Lemma from_map_total_witness :
  from_map (<["gossipsub_topics":=EInt 3]> (<["listen_addrs":=EList []]> (∅ : gmap string ETerm))) =
  Err "invalid gossipsub_topics".
Proof.
  exact (from_map_total (Term:=ETerm)
           (<["gossipsub_topics":=EInt 3]> (<["listen_addrs":=EList []]> ∅))).
Defined.
