(* ===== verification/Libp2p.v ===== *)
(** * The libp2p interface

    The crate is written against the libp2p crate, which is not part of the
    repository.  [Protocols] lists the types and the operations of its
    protocols that the crate calls, [SwarmOps] those of the swarm that owns
    them; the [Ok] classes state the documented behaviour the theorems use.
    [NodeBehaviour] is the composed behaviour of
    [native/ex_libp2p_nif/src/behaviour.rs]: a [Toggle<T>] is an [option T]. *)
From S2P Require Import Prelude Bytes Policy.
From stdpp Require Import options.

(** Errors of libp2p reach the crate's users only as text, so a fallible
    operation
    returns [inl error] or [inr value].  An operation taking [&mut self]
    returns the updated object with its result. *)
Class Protocols : Type := {
  (** Identities and addresses. *)
  PeerId : Type;
  to_base58 : PeerId -> string;
  peer_parse : string -> (string + PeerId);
  peer_to_bytes : PeerId -> bytes;
  peer_from_bytes : bytes -> (string + PeerId);
  Multiaddr : Type;
  addr_to_string : Multiaddr -> string;
  addr_parse : string -> (string + Multiaddr);
  addr_to_vec : Multiaddr -> bytes;
  addr_try_from : bytes -> (string + Multiaddr);
  (** GossipSub. *)
  Gossipsub : Type;
  IdentTopic : Type;
  TopicHash : Type;
  topic_new : string -> IdentTopic;
  topic_hash : IdentTopic -> TopicHash;
  gs_publish : Gossipsub -> IdentTopic -> bytes -> Gossipsub * (string + unit);
  gs_subscribe : Gossipsub -> IdentTopic -> Gossipsub * (string + bool);
  gs_unsubscribe : Gossipsub -> IdentTopic -> Gossipsub * bool;
  gs_mesh_peers : Gossipsub -> TopicHash -> list PeerId;
  gs_all_peers : Gossipsub -> list (PeerId * list TopicHash);
  gs_peer_score : Gossipsub -> PeerId -> option f64;
  (** Kademlia. *)
  Kad : Type;
  RoutingUpdate : Type;
  update_failed : RoutingUpdate -> bool;
  Quorum : Type;
  Quorum_One : Quorum;
  kad_put_record : Kad -> bytes -> bytes -> Quorum -> Kad * (string + unit);
  kad_get_record : Kad -> bytes -> Kad;
  kad_get_closest_peers : Kad -> PeerId -> Kad;
  kad_start_providing : Kad -> bytes -> Kad * (string + unit);
  kad_get_providers : Kad -> bytes -> Kad;
  kad_bootstrap : Kad -> Kad * (string + unit);
  kad_kbuckets : Kad -> Kad * list (list (PeerId * list Multiaddr));
  kad_add_address : Kad -> PeerId -> Multiaddr -> Kad * RoutingUpdate;
  (** Request-response. *)
  RequestResponse : Type;
  OutboundRequestId : Type;
  InboundRequestId : Type;
  debug_outbound : OutboundRequestId -> string;
  debug_inbound : InboundRequestId -> string;
  ResponseChannel : Type;
  rr_send_request : RequestResponse -> PeerId -> bytes -> RequestResponse * OutboundRequestId;
  rr_send_response :
    RequestResponse -> ResponseChannel -> bytes -> RequestResponse * (bytes + unit);
  (** Rendezvous client. *)
  RendezvousClient : Type;
  Namespace : Type;
  Cookie : Type;
  namespace_new : string -> (string + Namespace);
  rv_register :
    RendezvousClient -> Namespace -> PeerId -> option Z -> RendezvousClient * (string + unit);
  rv_discover :
    RendezvousClient -> option Namespace -> option Cookie -> option Z -> PeerId ->
    RendezvousClient;
  rv_unregister : RendezvousClient -> Namespace -> PeerId -> RendezvousClient;
  (** Protocols the crate only constructs. *)
  ConnectionLimitsBehaviour : Type;
  MemoryLimits : Type;
  Identify : Type;
  Ping : Type;
  Mdns : Type;
  RendezvousServer : Type;
  RelayClient : Type;
  RelayServer : Type;
  Dcutr : Type;
  Autonat : Type;
  AutonatServer : Type;
  Upnp : Type;
}.

(** Identifiers survive the conversion to bytes and back. *)
Class ProtocolsOk `{!Protocols} : Prop := {
  peer_bytes_roundtrip p : peer_from_bytes (peer_to_bytes p) = inr p;
  addr_bytes_roundtrip a : addr_try_from (addr_to_vec a) = inr a;
}.

(** ** The composed behaviour *)
Record NodeBehaviour `{!Protocols} : Type := mkNodeBehaviour {
  connection_limits : ConnectionLimitsBehaviour;
  memory_limits : MemoryLimits;
  identify : Identify;
  ping : Ping;
  gossipsub : Gossipsub;
  request_response : RequestResponse;
  kademlia : option Kad;
  mdns : option Mdns;
  rendezvous_client : option RendezvousClient;
  rendezvous_server : option RendezvousServer;
  relay_client : RelayClient;
  relay_server : option RelayServer;
  dcutr : option Dcutr;
  autonat : option Autonat;
  autonat_server : option AutonatServer;
  upnp : option Upnp;
}.

(** Field updates, for the mutable borrows [&mut swarm.behaviour_mut().field]. *)
Section updates.
Context `{!Protocols}.

Definition set_gossipsub (b : NodeBehaviour) (g : Gossipsub) : NodeBehaviour :=
  {| connection_limits := connection_limits b; memory_limits := memory_limits b;
     identify := identify b; ping := ping b; gossipsub := g;
     request_response := request_response b; kademlia := kademlia b; mdns := mdns b;
     rendezvous_client := rendezvous_client b; rendezvous_server := rendezvous_server b;
     relay_client := relay_client b; relay_server := relay_server b; dcutr := dcutr b;
     autonat := autonat b; autonat_server := autonat_server b; upnp := upnp b |}.

Definition set_request_response (b : NodeBehaviour) (r : RequestResponse) : NodeBehaviour :=
  {| connection_limits := connection_limits b; memory_limits := memory_limits b;
     identify := identify b; ping := ping b; gossipsub := gossipsub b;
     request_response := r; kademlia := kademlia b; mdns := mdns b;
     rendezvous_client := rendezvous_client b; rendezvous_server := rendezvous_server b;
     relay_client := relay_client b; relay_server := relay_server b; dcutr := dcutr b;
     autonat := autonat b; autonat_server := autonat_server b; upnp := upnp b |}.

Definition set_kademlia (b : NodeBehaviour) (k : Kad) : NodeBehaviour :=
  {| connection_limits := connection_limits b; memory_limits := memory_limits b;
     identify := identify b; ping := ping b; gossipsub := gossipsub b;
     request_response := request_response b; kademlia := Some k; mdns := mdns b;
     rendezvous_client := rendezvous_client b; rendezvous_server := rendezvous_server b;
     relay_client := relay_client b; relay_server := relay_server b; dcutr := dcutr b;
     autonat := autonat b; autonat_server := autonat_server b; upnp := upnp b |}.

Definition set_rendezvous_client (b : NodeBehaviour) (r : RendezvousClient) : NodeBehaviour :=
  {| connection_limits := connection_limits b; memory_limits := memory_limits b;
     identify := identify b; ping := ping b; gossipsub := gossipsub b;
     request_response := request_response b; kademlia := kademlia b; mdns := mdns b;
     rendezvous_client := Some r; rendezvous_server := rendezvous_server b;
     relay_client := relay_client b; relay_server := relay_server b; dcutr := dcutr b;
     autonat := autonat b; autonat_server := autonat_server b; upnp := upnp b |}.
End updates.

(** ** The swarm *)
Class SwarmOps `{!Protocols} (Swarm : Type) : Type := {
  behaviour : Swarm -> NodeBehaviour;
  set_behaviour : Swarm -> NodeBehaviour -> Swarm;
  dial_addr : Swarm -> Multiaddr -> Swarm * (string + unit);
  dial_peer : Swarm -> PeerId -> Swarm * (string + unit);
  listen_on : Swarm -> Multiaddr -> Swarm * (string + unit);
  connected_peers : Swarm -> list PeerId;
  is_connected : Swarm -> PeerId -> bool;
  listeners : Swarm -> list Multiaddr;
}.

(** [behaviour_mut] borrows the behaviour: what is written through it is what
    is read back, and writing back what was read changes nothing. *)
Class SwarmOk `{!Protocols} (Swarm : Type) `{!SwarmOps Swarm} : Prop := {
  behaviour_set s b : behaviour (set_behaviour s b) = b;
  set_behaviour_id s : set_behaviour s (behaviour s) = s;
  set_set_behaviour s b b' : set_behaviour (set_behaviour s b) b' = set_behaviour s b';
}.

(** ** Events

    The events of the swarm, with the fields the crate's patterns name;
    identifiers and errors that are only printed are their printed text.  The
    wildcard patterns of the crate match the [Other] constructors. *)
Inductive NatStatus `{!Protocols} : Type :=
  | Public (addr : Multiaddr)
  | Private
  | Unknown.

Inductive QueryResult `{!Protocols} : Type :=
  | GetRecord_FoundRecord (key value : bytes)
  | GetRecord_Err
  | PutRecord_Ok (key_debug : string)
  | GetProviders_FoundProviders (providers : list PeerId)
  | GetProviders_Finished
  | Bootstrap_Ok (num_remaining : Z)
  | OtherQueryResult.

Inductive KadEvent `{!Protocols} : Type :=
  | OutboundQueryProgressed (id_debug : string) (result : QueryResult)
  | OtherKadEvent.

Inductive NodeBehaviourEvent `{!Protocols} : Type :=
  | Gossipsub_Message (message_id : string) (source : option PeerId) (topic : string)
      (data : bytes)
  | Mdns_Discovered (peers : list (PeerId * Multiaddr))
  | Mdns_Expired
  | Kademlia (event : KadEvent)
  | RR_Request (peer : PeerId) (request_id : InboundRequestId) (request : bytes)
      (channel : ResponseChannel)
  | RR_Response (peer : PeerId) (request_id : OutboundRequestId) (response : bytes)
  | RR_OutboundFailure (peer : PeerId) (request_id : OutboundRequestId) (error : string)
  | RR_InboundFailure (peer : PeerId) (request_id : InboundRequestId) (error : string)
  | Autonat_StatusChanged (new : NatStatus)
  | Dcutr_Event (remote_peer_id : PeerId) (error : option string)
  | RelayClient_ReservationReqAccepted (relay_peer_id : PeerId)
  | Upnp_NewExternalAddr (addr : Multiaddr)
  | RendezvousClient_Discovered (registrations : list (PeerId * list Multiaddr))
  | OtherBehaviourEvent.

Inductive SwarmEvent `{!Protocols} : Type :=
  | ConnectionEstablished (peer_id : PeerId) (num_established : Z) (is_dialer : bool)
  | ConnectionClosed (peer_id : PeerId) (num_established : Z) (cause : option string)
  | NewListenAddr (address : Multiaddr) (listener_id : string)
  | ExternalAddrConfirmed (address : Multiaddr)
  | OutgoingConnectionError (peer_id : option PeerId) (error : string)
  | Behaviour (event : NodeBehaviourEvent)
  | OtherSwarmEvent.
