(* ===== verification/Sim.v ===== *)
(** * A simulated libp2p

    A concrete instance of the interfaces of [Libp2p] on which the development
    can be evaluated.  It models no code of the repository: peers and addresses
    are strings, and each protocol records the calls made to it. *)
From S2P Require Import Prelude Bytes Policy Libp2p.
From stdpp Require Import options.

Definition string_bytes (s : string) : bytes := String.list_byte_of_string s.
Definition bytes_string (b : bytes) : string := String.string_of_list_byte b.

Record SimGossipsub := mkSimGossipsub {
  topics : list string;
  published : list (string * bytes);
}.

Record SimRendezvous := mkSimRendezvous {
  registered : list (string * string * option Z);
  discovered : list (option string * string);
}.

(** Adding the empty address fails, as the router rejects it. *)
Fixpoint sim_add (table : list (string * list string)) (p a : string) :
    list (string * list string) :=
  match table with
  | [] => [(p, [a])]
  | (q, l) :: rest =>
      if bool_decide (p = q) then
        (q, if bool_decide (a ∈ l) then l else l ++ [a]) :: rest
      else (q, l) :: sim_add rest p a
  end.

#[export] Instance SimProtocols : Protocols := {|
  PeerId := string;
  to_base58 p := p;
  peer_parse s := if bool_decide (s = "") then inl "empty peer id" else inr s;
  peer_to_bytes := string_bytes;
  peer_from_bytes b := inr (bytes_string b);
  Multiaddr := string;
  addr_to_string a := a;
  addr_parse s := if String.prefix "/" s then inr s else inl "invalid multiaddr";
  addr_to_vec := string_bytes;
  addr_try_from b := inr (bytes_string b);
  Gossipsub := SimGossipsub;
  IdentTopic := string;
  TopicHash := string;
  topic_new s := s;
  topic_hash t := t;
  gs_publish g t d :=
    if bool_decide (t ∈ topics g) then
      (mkSimGossipsub (topics g) (published g ++ [(t, d)]), inr tt)
    else (g, inl "not subscribed");
  gs_subscribe g t :=
    (mkSimGossipsub (topics g ++ [t]) (published g), inr (negb (bool_decide (t ∈ topics g))));
  gs_unsubscribe g t :=
    (mkSimGossipsub (filter (fun u => u <> t) (topics g)) (published g),
     bool_decide (t ∈ topics g));
  gs_mesh_peers g t := if bool_decide (t ∈ topics g) then ["mesh-peer"] else [];
  gs_all_peers g := [("mesh-peer", topics g)];
  gs_peer_score g p := None;
  Kad := list (string * list string);
  RoutingUpdate := bool;
  update_failed b := b;
  Quorum := unit;
  Quorum_One := tt;
  kad_put_record k _ v _ := (k, if bool_decide (v = []) then inl "empty value" else inr tt);
  kad_get_record k _ := k;
  kad_get_closest_peers k _ := k;
  kad_start_providing k _ := (k, inr tt);
  kad_get_providers k _ := k;
  kad_bootstrap k := (k, match k with [] => inl "no known peers" | _ => inr tt end);
  kad_kbuckets k := (k, [k]);
  kad_add_address k p a :=
    if bool_decide (a = "") then (k, true) else (sim_add k p a, false);
  RequestResponse := list (string * bytes);
  OutboundRequestId := Z;
  InboundRequestId := Z;
  debug_outbound n := "OutboundRequestId(" +:+ pretty n +:+ ")";
  debug_inbound n := "InboundRequestId(" +:+ pretty n +:+ ")";
  ResponseChannel := string;
  rr_send_request r p d := (r ++ [(p, d)], Z.of_nat (length r));
  rr_send_response r c d := (r ++ [(c, d)], inr tt);
  RendezvousClient := SimRendezvous;
  Namespace := string;
  Cookie := unit;
  namespace_new s := if (String.length s <=? 255)%nat then inr s else inl "namespace too long";
  rv_register r n p t := (mkSimRendezvous (registered r ++ [(n, p, t)]) (discovered r), inr tt);
  rv_discover r n _ _ p := mkSimRendezvous (registered r) (discovered r ++ [(n, p)]);
  rv_unregister r n p := r;
  ConnectionLimitsBehaviour := unit;
  MemoryLimits := unit;
  Identify := unit;
  Ping := unit;
  Mdns := unit;
  RendezvousServer := unit;
  RelayClient := unit;
  RelayServer := unit;
  Dcutr := unit;
  Autonat := unit;
  AutonatServer := unit;
  Upnp := unit;
|}.

#[export] Instance SimProtocolsOk : ProtocolsOk.
Proof.
  split; intros s; cbn [peer_from_bytes peer_to_bytes addr_try_from addr_to_vec SimProtocols];
    unfold bytes_string, string_bytes; by rewrite String.string_of_list_byte_of_string.
Qed.

Record SimSwarm := mkSimSwarm {
  sim_behaviour : NodeBehaviour;
  dialed : list string;
  connections : list string;
  listening : list string;
}.

#[export] Instance SimSwarmOps : SwarmOps SimSwarm := {|
  behaviour := sim_behaviour;
  set_behaviour s b := mkSimSwarm b (dialed s) (connections s) (listening s);
  dial_addr s a := (mkSimSwarm (sim_behaviour s) (dialed s ++ [a]) (connections s) (listening s), inr tt);
  dial_peer s p := (mkSimSwarm (sim_behaviour s) (dialed s ++ [p]) (connections s) (listening s), inr tt);
  listen_on s a := (mkSimSwarm (sim_behaviour s) (dialed s) (connections s) (listening s ++ [a]), inr tt);
  connected_peers s := connections s;
  is_connected s p := bool_decide (p ∈ connections s);
  listeners s := listening s;
|}.

#[export] Instance SimSwarmOk : SwarmOk SimSwarm.
Proof. by split; [| intros [] |]. Qed.

(** A node with every optional protocol the loop talks to, and one without. *)
Definition sim_node (kad : option (list (string * list string))) (rv : option SimRendezvous) :
    SimSwarm :=
  {| sim_behaviour := {|
       connection_limits := tt; memory_limits := tt; identify := tt; ping := tt;
       gossipsub := mkSimGossipsub ["chat"] []; request_response := ([] : RequestResponse);
       kademlia := kad; mdns := Some tt; rendezvous_client := rv; rendezvous_server := None;
       relay_client := tt; relay_server := None; dcutr := None; autonat := None;
       autonat_server := None; upnp := None |};
     dialed := []; connections := ["peer-1"]; listening := ["/ip4/127.0.0.1/tcp/4001"] |}.

Definition sim_full : SimSwarm := sim_node (Some []) (Some (mkSimRendezvous [] [])).
Definition sim_bare : SimSwarm := sim_node None None.
