(* ===== verification/Commands.v ===== *)
(** * Commands of the swarm task

    Model of [native/ex_libp2p_nif/src/commands.rs].  A query carries the
    sending half of a oneshot channel; [ReplyTy] are the types of reply and
    [Sender t] the identity of a oneshot channel for replies of type [t].
    [Effect]s are what the swarm task does besides changing its state: send a
    message to an Elixir process, answer a query, log. *)
From S2P Require Import Prelude Bytes Policy Terms Libp2p DhtState.
From stdpp Require Import options.

Inductive ReplyTy := TPeers | TAddrs | TBandwidth | TScore | TEntries | TCount | TReqId.

#[global] Instance ReplyTy_eq_dec : EqDecision ReplyTy.
Proof. solve_decision. Defined.

Section commands.
Context `{!Protocols}.

Definition reply_val (t : ReplyTy) : Type :=
  match t with
  | TPeers => list PeerId
  | TAddrs => list Multiaddr
  | TBandwidth => Z * Z
  | TScore => option f64
  | TEntries => unit + list RoutingEntry
  | TCount => unit + Z
  | TReqId => string
  end.

(** A oneshot channel is named by a number; the type is the promise. *)
Definition Sender (t : ReplyTy) : Type := N.

Inductive Command {LocalPid : Type} : Type :=
  | Dial (addr : Multiaddr)
  | RegisterEventHandler (pid : LocalPid)
  | Shutdown
  | ConnectedPeers (reply : Sender TPeers)
  | ListeningAddrs (reply : Sender TAddrs)
  | BandwidthStats (reply : Sender TBandwidth)
  | Publish (topic : string) (data : bytes)
  | Subscribe (topic : string)
  | Unsubscribe (topic : string)
  | GossipsubMeshPeers (topic : string) (reply : Sender TPeers)
  | GossipsubAllPeers (reply : Sender TPeers)
  | GossipsubPeerScore (peer_id : PeerId) (reply : Sender TScore)
  | DhtPut (key value : bytes)
  | DhtGet (key : bytes)
  | DhtFindPeer (peer_id : PeerId)
  | DhtProvide (key : bytes)
  | DhtFindProviders (key : bytes)
  | DhtBootstrap
  | DhtExportRoutingTable (reply : Sender TEntries)
  | DhtImportRoutingTable (entries : list RoutingEntry) (reply : Sender TCount)
  | RpcSendRequest (peer_id : PeerId) (data : bytes) (reply : Sender TReqId)
  | RpcSendResponse (channel_id : string) (data : bytes)
  | ListenViaRelay (relay_addr : Multiaddr)
  | RendezvousRegister (namespace : string) (ttl : Z) (rendezvous_peer : PeerId)
  | RendezvousDiscover (namespace : string) (rendezvous_peer : PeerId)
  | RendezvousUnregister (namespace : string) (rendezvous_peer : PeerId).

Inductive Effect {LocalPid Term : Type} : Type :=
  | Notify (pid : LocalPid) (message : Term)
  | Reply (t : ReplyTy) (reply : Sender t) (value : reply_val t)
  | Warn (message : string)
  | Debug (message : string).

(** The reply a command asks for. *)
Definition command_reply {LocalPid} (cmd : @Command LocalPid) :
    option { t : ReplyTy & Sender t } :=
  match cmd with
  | ConnectedPeers tx | GossipsubMeshPeers _ tx | GossipsubAllPeers tx =>
      Some (existT TPeers tx)
  | ListeningAddrs tx => Some (existT TAddrs tx)
  | BandwidthStats tx => Some (existT TBandwidth tx)
  | GossipsubPeerScore _ tx => Some (existT TScore tx)
  | DhtExportRoutingTable tx => Some (existT TEntries tx)
  | DhtImportRoutingTable _ tx => Some (existT TCount tx)
  | RpcSendRequest _ _ tx => Some (existT TReqId tx)
  | _ => None
  end.

(** The oneshot channels a list of effects answers. *)
Definition effect_reply {LocalPid Term} (e : @Effect LocalPid Term) :
    option { t : ReplyTy & Sender t } :=
  match e with Reply t tx _ => Some (existT t tx) | _ => None end.

Definition replies {LocalPid Term} (l : list (@Effect LocalPid Term)) :
    list { t : ReplyTy & Sender t } := omap effect_reply l.

(** The messages a list of effects sends to Elixir processes. *)
Definition notifications {LocalPid Term} (l : list (@Effect LocalPid Term)) :
    list (LocalPid * Term) :=
  omap (fun e => match e with Notify pid m => Some (pid, m) | _ => None end) l.

Definition is_log {LocalPid Term} (e : @Effect LocalPid Term) : Prop :=
  match e with Warn _ | Debug _ => True | _ => False end.

Lemma replies_app {LocalPid Term} (l k : list (@Effect LocalPid Term)) :
  replies (l ++ k) = replies l ++ replies k.
Proof. apply omap_app. Qed.

Lemma notifications_app {LocalPid Term} (l k : list (@Effect LocalPid Term)) :
  notifications (l ++ k) = notifications l ++ notifications k.
Proof. apply omap_app. Qed.

Lemma replies_log {LocalPid Term} (l : list (@Effect LocalPid Term)) :
  Forall is_log l -> replies l = [].
Proof. induction 1 as [|[] l He _ IH]; done. Qed.

Lemma notifications_log {LocalPid Term} (l : list (@Effect LocalPid Term)) :
  Forall is_log l -> notifications l = [].
Proof. induction 1 as [|[] l He _ IH]; done. Qed.
End commands.
Arguments Command {_} LocalPid.
Arguments Effect {_} LocalPid Term.
