(* ===== verification/Events.v ===== *)
(** * Translation of swarm events to Elixir terms

    Model of [native/ex_libp2p_nif/src/events.rs].  Every function of the file
    sends at most one message to the registered process; the model returns
    the [Notify] effects.  [alloc n] says whether [OwnedBinary::new(n)]
    succeeds. *)
From S2P Require Import Prelude Bytes Policy Terms Libp2p Commands.
From stdpp Require Import options.

Section events.
Context `{!Protocols} {LocalPid Term : Type} `{!TermEnc Term}.
Context (alloc : Z -> bool).

Local Abbreviation effects := (list (Effect LocalPid Term)).

(** The line logged when the allocation fails is not recorded. *)
Definition encode_binary (data : bytes) : Term :=
  if alloc (Z.of_nat (length data)) then enc_binary data
  else if alloc 0 then enc_binary []
  else enc_atom a_nil.

(** [(atoms::libp2p_event(), (...))]. *)
Definition libp2p_event (fields : list Term) : Term :=
  enc_tuple [enc_atom a_libp2p_event; enc_tuple fields].

Definition noop : Term := enc_atom a_libp2p_noop.

Definition enc_strings (l : list string) : Term := enc_list (map enc_str l).

(** The tuple [{:peer_discovered, peer_id, addrs}]. *)
Definition peer_discovered_fields (p : string) (addrs : list string) : list Term :=
  [enc_atom a_peer_discovered; enc_str p; enc_strings addrs].

Definition encode_kad_event (event : KadEvent) : Term :=
  match event with
  | OutboundQueryProgressed id result =>
      match result with
      | GetRecord_FoundRecord key value =>
          libp2p_event [enc_atom a_dht_query_result; enc_str id;
            enc_tuple [enc_atom a_found_record; encode_binary key; encode_binary value]]
      | GetRecord_Err =>
          libp2p_event [enc_atom a_dht_query_result; enc_str id; enc_atom a_not_found]
      | PutRecord_Ok key_debug =>
          libp2p_event [enc_atom a_dht_query_result; enc_str id;
            enc_tuple [enc_atom a_put_record_ok; enc_str key_debug]]
      | GetProviders_FoundProviders providers =>
          libp2p_event [enc_atom a_dht_query_result; enc_str id;
            enc_tuple [enc_atom a_found_providers; enc_strings (map to_base58 providers)]]
      | GetProviders_Finished => noop
      | Bootstrap_Ok num_remaining =>
          libp2p_event [enc_atom a_dht_query_result; enc_str id;
            enc_tuple [enc_atom a_bootstrap_ok; enc_int num_remaining]]
      | OtherQueryResult => noop
      end
  | OtherKadEvent => noop
  end.

(** All the peers that a rendezvous point returned. *)
Definition encode_registrations (registrations : list (PeerId * list Multiaddr)) : Term :=
  let encoded_peers :=
    map (fun '(p, addrs) =>
           enc_tuple (peer_discovered_fields (to_base58 p) (map addr_to_string addrs)))
      registrations in
  match encoded_peers with
  | [] => noop
  | [peer] => enc_tuple [enc_atom a_libp2p_event; peer]
  | _ => libp2p_event [enc_atom a_peers_discovered; enc_list encoded_peers]
  end.

(** The [SwarmEvent::Behaviour] arms of [handle_swarm_event]. *)
Definition encode_behaviour_event (event : NodeBehaviourEvent) : Term :=
  match event with
  | Gossipsub_Message message_id source topic data =>
      libp2p_event [enc_atom a_gossipsub_message; enc_str topic; encode_binary data;
        enc_option enc_str (to_base58 <$> source); enc_str message_id]
  | Mdns_Discovered peers =>
      let peer_list := map (fun '(p, a) => (to_base58 p, [addr_to_string a])) peers in
      match peer_list with
      | [] => noop
      | [(peer_id, addrs)] => libp2p_event (peer_discovered_fields peer_id addrs)
      | _ =>
          let encoded_peers :=
            map (fun '(pid, addrs) => enc_tuple (peer_discovered_fields pid addrs)) peer_list in
          libp2p_event [enc_atom a_peers_discovered; enc_list encoded_peers]
      end
  | Kademlia event => encode_kad_event event
  | RR_OutboundFailure peer request_id error =>
      libp2p_event [enc_atom a_dial_failure; enc_str (to_base58 peer);
        enc_str ("rpc outbound failure " +:+ debug_outbound request_id +:+ ": " +:+ error)]
  | RR_InboundFailure peer request_id error =>
      libp2p_event [enc_atom a_dial_failure; enc_str (to_base58 peer);
        enc_str ("rpc inbound failure " +:+ debug_inbound request_id +:+ ": " +:+ error)]
  | Autonat_StatusChanged new =>
      let '(status_atom, addr) :=
        match new with
        | Public addr => (a_public, Some (addr_to_string addr))
        | Private => (a_private, None)
        | Unknown => (a_unknown, None)
        end in
      libp2p_event [enc_atom a_nat_status_changed; enc_atom status_atom;
        enc_option enc_str addr]
  | Dcutr_Event remote_peer_id error =>
      let result_term :=
        match error with
        | None => enc_atom a_success
        | Some e => enc_tuple [enc_atom a_failure; enc_str e]
        end in
      libp2p_event [enc_atom a_hole_punch_outcome; enc_str (to_base58 remote_peer_id);
        result_term]
  | RelayClient_ReservationReqAccepted relay_peer_id =>
      libp2p_event [enc_atom a_relay_reservation_accepted;
        enc_str (to_base58 relay_peer_id); enc_str ""]
  | Upnp_NewExternalAddr addr =>
      libp2p_event [enc_atom a_external_addr_confirmed; enc_str (addr_to_string addr)]
  | RendezvousClient_Discovered registrations => encode_registrations registrations
  | _ => noop
  end.

Definition swarm_event_term (event : SwarmEvent) : Term :=
  match event with
  | ConnectionEstablished peer_id num_established is_dialer =>
      let endpoint_atom := if is_dialer then enc_atom a_dialer else enc_atom a_listener in
      libp2p_event [enc_atom a_connection_established; enc_str (to_base58 peer_id);
        enc_int num_established; endpoint_atom]
  | ConnectionClosed peer_id num_established cause =>
      let cause_str := default "unknown" cause in
      libp2p_event [enc_atom a_connection_closed; enc_str (to_base58 peer_id);
        enc_int num_established; enc_str cause_str]
  | NewListenAddr address listener_id =>
      libp2p_event [enc_atom a_new_listen_addr; enc_str (addr_to_string address);
        enc_str listener_id]
  | ExternalAddrConfirmed address =>
      libp2p_event [enc_atom a_external_addr_confirmed; enc_str (addr_to_string address)]
  | OutgoingConnectionError peer_id error =>
      let peer_str := to_base58 <$> peer_id in
      libp2p_event [enc_atom a_dial_failure; enc_option enc_str peer_str; enc_str error]
  | Behaviour event => encode_behaviour_event event
  | OtherSwarmEvent => noop
  end.

Definition handle_swarm_event (event : SwarmEvent) (pid : LocalPid) : effects :=
  [Notify pid (swarm_event_term event)].

Definition send_peers_discovered (pid : LocalPid) (peers : list (PeerId * Multiaddr)) :
    effects :=
  if (length peers =? 0)%nat then [] else
  let peers_owned := map (fun '(p, a) => (to_base58 p, [addr_to_string a])) peers in
  match peers_owned with
  | [(peer_id, addrs)] =>
      [Notify pid (libp2p_event (peer_discovered_fields peer_id addrs))]
  | _ =>
      let encoded := map (fun '(p, a) => enc_tuple (peer_discovered_fields p a)) peers_owned in
      [Notify pid (libp2p_event [enc_atom a_peers_discovered; enc_list encoded])]
  end.

Definition send_inbound_request (pid : LocalPid) (peer : PeerId)
    (request_id channel_id : string) (data : bytes) : effects :=
  [Notify pid (libp2p_event [enc_atom a_inbound_request; enc_str request_id;
     enc_str channel_id; enc_str (to_base58 peer); encode_binary data])].

Definition send_outbound_response (pid : LocalPid) (peer : PeerId)
    (request_id : string) (data : bytes) : effects :=
  [Notify pid (libp2p_event [enc_atom a_outbound_response; enc_str request_id;
     enc_str (to_base58 peer); encode_binary data])].
End events.
