(* ===== verification/SwarmLoop.v ===== *)
(** * The swarm event loop

    Model of [swarm_loop] in [native/ex_libp2p_nif/src/node.rs]: the task that
    owns the swarm.  One turn of the loop is one arm of its [select!]: an
    eviction tick, a received command, or a swarm event ([Input]).  The model
    threads the loop's local variables ([LoopState]) and collects the effects
    in order; [Break] is the [break] of the shutdown arm, [continue] is
    [Continue].  Warnings and debug lines keep their message and drop the printed
    fields; the information line after the loop is not recorded.

    Time is in nanoseconds.  The channel counter is a [u64] that wraps, as in
    a release build. *)
From S2P Require Import Prelude Bytes Policy Terms Libp2p DhtState Commands Events.
From stdpp Require Import options.

Definition from_secs (s : Z) : Z := s * 10 ^ 9.

(** [Instant::duration_since], which saturates at zero. *)
Definition duration_since (now earlier : Z) : Z := Z.max 0 (now - earlier).

Definition response_ttl : Z := from_secs 60.
Definition eviction_interval : Z := from_secs 15.

Lemma response_ttl_ns : response_ttl = 60000000000.
Proof. done. Qed.
Lemma eviction_interval_ns : eviction_interval = 15000000000.
Proof. done. Qed.

Inductive Control := Continue | Break.

#[global] Instance Control_eq_dec : EqDecision Control.
Proof. solve_decision. Defined.

Section swarm_loop.
Context `{!Protocols} {Swarm LocalPid Term : Type} `{!SwarmOps Swarm, !TermEnc Term}.
Context (alloc : Z -> bool).

Local Abbreviation effects := (list (Effect LocalPid Term)).

Record LoopState := mkLoopState {
  swarm : Swarm;
  event_handler : option LocalPid;
  pending_responses : gmap string (ResponseChannel * Z);
  channel_counter : Z;
}.

Definition init_state (s : Swarm) : LoopState :=
  {| swarm := s; event_handler := None; pending_responses := ∅; channel_counter := 0 |}.

Definition set_swarm (st : LoopState) (s : Swarm) : LoopState :=
  {| swarm := s; event_handler := event_handler st;
     pending_responses := pending_responses st; channel_counter := channel_counter st |}.

Definition set_event_handler (st : LoopState) (h : option LocalPid) : LoopState :=
  {| swarm := swarm st; event_handler := h;
     pending_responses := pending_responses st; channel_counter := channel_counter st |}.

Definition set_pending (st : LoopState) (m : gmap string (ResponseChannel * Z)) (n : Z) :
    LoopState :=
  {| swarm := swarm st; event_handler := event_handler st;
     pending_responses := m; channel_counter := n |}.

(** ** Statements of the loop body *)
Definition LoopM (A : Type) : Type := LoopState -> A * LoopState * effects.

#[export] Instance LoopM_ret : MRet LoopM := fun A a st => (a, st, []).
#[export] Instance LoopM_bind : MBind LoopM := fun A B f m st =>
  let '(a, st1, e1) := m st in
  let '(b, st2, e2) := f a st1 in
  (b, st2, e1 ++ e2).

Definition emit (l : effects) : LoopM unit := fun st => (tt, st, l).
Definition warn (m : string) : LoopM unit := emit [Warn m].
Definition debug (m : string) : LoopM unit := emit [Debug m].
(** [let _ = reply.send(v)]: a caller that gave up is ignored. *)
Definition send {t} (tx : Sender t) (v : reply_val t) : LoopM unit := emit [Reply t tx v].

Definition get_state : LoopM LoopState := fun st => (st, st, []).
Definition put_state (st : LoopState) : LoopM unit := fun _ => (tt, st, []).

Definition with_swarm {A} (f : Swarm -> Swarm * A) : LoopM A := fun st =>
  let '(s, a) := f (swarm st) in (a, set_swarm st s, []).

Definition with_gossipsub {A} (f : Gossipsub -> Gossipsub * A) : LoopM A :=
  with_swarm (fun s =>
    let '(g, a) := f (gossipsub (behaviour s)) in
    (set_behaviour s (set_gossipsub (behaviour s) g), a)).

Definition with_request_response {A} (f : RequestResponse -> RequestResponse * A) : LoopM A :=
  with_swarm (fun s =>
    let '(r, a) := f (request_response (behaviour s)) in
    (set_behaviour s (set_request_response (behaviour s) r), a)).

(** [if let Some(kad) = swarm.behaviour_mut().kademlia.as_mut()]: the result
    is [None] when the protocol is disabled. *)
Definition with_kad {A} (f : Kad -> Kad * A) : LoopM (option A) :=
  with_swarm (fun s =>
    match kademlia (behaviour s) with
    | Some kad =>
        let '(k, a) := f kad in
        (set_behaviour s (set_kademlia (behaviour s) k), Some a)
    | None => (s, None)
    end).

Definition with_rendezvous {A} (f : RendezvousClient -> RendezvousClient * A) :
    LoopM (option A) :=
  with_swarm (fun s =>
    match rendezvous_client (behaviour s) with
    | Some rv =>
        let '(r, a) := f rv in
        (set_behaviour s (set_rendezvous_client (behaviour s) r), Some a)
    | None => (s, None)
    end).

Definition when_err {E A} (r : E + A) (m : LoopM unit) : LoopM unit :=
  match r with inl _ => m | inr _ => mret tt end.

(** ** The eviction tick *)
Definition fresh_response (now : Z) (entry : ResponseChannel * Z) : bool :=
  duration_since now (entry.2) <? response_ttl.

(** [retain] visits the entries in no particular order; each one it evicts is
    logged. *)
Definition eviction_log (now : Z) (m : gmap string (ResponseChannel * Z)) : effects :=
  map (fun _ => Debug "evicting stale pending response")
    (map_to_list (filter (fun kv => fresh_response now kv.2 = false) m)).

Definition on_tick (now : Z) : LoopM unit :=
  st ← get_state;
  put_state (set_pending st
    (filter (fun kv => fresh_response now kv.2 = true) (pending_responses st))
    (channel_counter st));;
  emit (eviction_log now (pending_responses st)).

(** ** Export and import of the routing table *)
Definition export_entries (buckets : list (list (PeerId * list Multiaddr))) :
    list RoutingEntry :=
  map (fun '(p, addrs) => mkRoutingEntry (peer_to_bytes p) (map addr_to_vec addrs))
    (concat buckets).

(** The loops over the entries and their addresses: what cannot be decoded
    is skipped with a warning. *)
Fixpoint import_addresses (kad : Kad) (peer_id : PeerId) (addrs : list bytes) (count : Z) :
    Kad * Z * effects :=
  match addrs with
  | [] => (kad, count, [])
  | addr_bytes :: rest =>
      match addr_try_from addr_bytes with
      | inr addr =>
          let '(kad, _) := kad_add_address kad peer_id addr in
          import_addresses kad peer_id rest (count + 1)
      | inl e =>
          let '(kad, count, l) := import_addresses kad peer_id rest count in
          (kad, count, Warn "skipping invalid multiaddr during import" :: l)
      end
  end.

Fixpoint import_entries (kad : Kad) (entries : list RoutingEntry) (count : Z) :
    Kad * Z * effects :=
  match entries with
  | [] => (kad, count, [])
  | entry :: rest =>
      match peer_from_bytes (DhtState.peer_id entry) with
      | inr peer_id =>
          let '(kad, count, l1) := import_addresses kad peer_id (addresses entry) count in
          let '(kad, count, l2) := import_entries kad rest count in
          (kad, count, l1 ++ l2)
      | inl e =>
          let '(kad, count, l) := import_entries kad rest count in
          (kad, count, Warn "skipping invalid peer_id during import" :: l)
      end
  end.

Definition on_dht_export (reply : Sender TEntries) : LoopM unit :=
  r ← with_kad (fun kad => kad_kbuckets kad);
  send reply (match r with
              | Some buckets => inr (export_entries buckets)
              | None => inl tt
              end : reply_val TEntries).

Definition on_dht_import (entries : list RoutingEntry) (reply : Sender TCount) : LoopM unit :=
  r ← with_kad (fun kad =>
    let '(kad, count, l) := import_entries kad entries 0 in (kad, (count, l)));
  match r with
  | Some (count, l) => emit l;; send reply (inr count : reply_val TCount)
  | None => send reply (inl tt : reply_val TCount)
  end.

(** ** Request-response *)
Definition on_send_request (peer_id : PeerId) (data : bytes) (reply : Sender TReqId) :
    LoopM unit :=
  req_id ← with_request_response (fun rr => rr_send_request rr peer_id data);
  send reply (debug_outbound req_id : reply_val TReqId).

Definition on_send_response (channel_id : string) (data : bytes) : LoopM unit :=
  st ← get_state;
  let removed := pending_responses st !! channel_id in
  put_state (set_pending st (delete channel_id (pending_responses st))
               (channel_counter st));;
  match removed with
  | Some (channel, _) =>
      r ← with_request_response (fun rr => rr_send_response rr channel data);
      when_err r (warn "send_response failed: channel closed")
  | None => warn "send_response: unknown channel ID (expired or already used)"
  end.

(** ** Rendezvous *)
Definition on_rendezvous_register (namespace : string) (ttl : Z) (rendezvous_peer : PeerId) :
    LoopM unit :=
  r ← with_rendezvous (fun rv =>
    match namespace_new namespace with
    | inr ns =>
        let '(rv, r) := rv_register rv ns rendezvous_peer (Some ttl) in
        (rv, when_err r (warn "rendezvous register failed"))
    | inl e => (rv, warn "invalid rendezvous namespace")
    end);
  match r with
  | Some body => body
  | None => warn "rendezvous client not enabled"
  end.

Definition on_rendezvous_discover (namespace : string) (rendezvous_peer : PeerId) :
    LoopM unit :=
  r ← with_rendezvous (fun rv =>
    let ns := sum_ok (namespace_new namespace) in
    (rv_discover rv ns None None rendezvous_peer, tt));
  match r with
  | Some _ => mret tt
  | None => warn "rendezvous client not enabled"
  end.

Definition on_rendezvous_unregister (namespace : string) (rendezvous_peer : PeerId) :
    LoopM unit :=
  r ← with_rendezvous (fun rv =>
    match namespace_new namespace with
    | inr ns => (rv_unregister rv ns rendezvous_peer, mret tt)
    | inl e => (rv, warn "invalid rendezvous namespace")
    end);
  match r with
  | Some body => body
  | None => warn "rendezvous client not enabled"
  end.

(** ** Commands *)
Definition on_command (cmd : option (Command LocalPid)) : LoopM Control :=
  match cmd with
  | Some (RegisterEventHandler pid) =>
      st ← get_state; put_state (set_event_handler st (Some pid));; mret Continue
  | Some (Dial addr) =>
      r ← with_swarm (fun s => dial_addr s addr);
      when_err r (warn "dial failed");; mret Continue

  | Some (Publish topic data) =>
      r ← with_gossipsub (fun g => gs_publish g (topic_new topic) data);
      when_err r (warn "publish failed");; mret Continue
  | Some (Subscribe topic) =>
      r ← with_gossipsub (fun g => gs_subscribe g (topic_new topic));
      when_err r (warn "subscribe failed");; mret Continue
  | Some (Unsubscribe topic) =>
      _ ← with_gossipsub (fun g => gs_unsubscribe g (topic_new topic)); mret Continue
  | Some (GossipsubMeshPeers topic reply) =>
      st ← get_state;
      send reply (gs_mesh_peers (gossipsub (behaviour (swarm st)))
                    (topic_hash (topic_new topic)) : reply_val TPeers);;
      mret Continue
  | Some (GossipsubAllPeers reply) =>
      st ← get_state;
      send reply (map fst (gs_all_peers (gossipsub (behaviour (swarm st)))) : reply_val TPeers);;
      mret Continue
  | Some (GossipsubPeerScore peer_id reply) =>
      st ← get_state;
      send reply (gs_peer_score (gossipsub (behaviour (swarm st))) peer_id : reply_val TScore);;
      mret Continue

  | Some (ConnectedPeers reply) =>
      st ← get_state;
      send reply (connected_peers (swarm st) : reply_val TPeers);; mret Continue
  | Some (ListeningAddrs reply) =>
      st ← get_state;
      send reply (listeners (swarm st) : reply_val TAddrs);; mret Continue
  | Some (BandwidthStats reply) =>
      send reply ((0, 0) : reply_val TBandwidth);; mret Continue

  | Some (DhtPut key value) =>
      r ← with_kad (fun kad => kad_put_record kad key value Quorum_One);
      match r with
      | Some r => when_err r (warn "dht put failed")
      | None => warn "DHT not enabled — ignoring dht_put"
      end;; mret Continue
  | Some (DhtGet key) =>
      r ← with_kad (fun kad => (kad_get_record kad key, tt));
      match r with
      | Some _ => mret tt
      | None => warn "DHT not enabled — ignoring dht_get"
      end;; mret Continue
  | Some (DhtFindPeer peer_id) =>
      r ← with_kad (fun kad => (kad_get_closest_peers kad peer_id, tt));
      match r with
      | Some _ => mret tt
      | None => warn "DHT not enabled — ignoring dht_find_peer"
      end;; mret Continue
  | Some (DhtProvide key) =>
      r ← with_kad (fun kad => kad_start_providing kad key);
      match r with
      | Some r => when_err r (warn "dht provide failed")
      | None => warn "DHT not enabled — ignoring dht_provide"
      end;; mret Continue
  | Some (DhtFindProviders key) =>
      r ← with_kad (fun kad => (kad_get_providers kad key, tt));
      match r with
      | Some _ => mret tt
      | None => warn "DHT not enabled — ignoring dht_find_providers"
      end;; mret Continue
  | Some DhtBootstrap =>
      r ← with_kad (fun kad => kad_bootstrap kad);
      match r with
      | Some r => when_err r (warn "dht bootstrap failed")
      | None => warn "DHT not enabled — ignoring dht_bootstrap"
      end;; mret Continue

  | Some (DhtExportRoutingTable reply) => on_dht_export reply;; mret Continue
  | Some (DhtImportRoutingTable entries reply) => on_dht_import entries reply;; mret Continue

  | Some (RpcSendRequest peer_id data reply) => on_send_request peer_id data reply;; mret Continue
  | Some (RpcSendResponse channel_id data) => on_send_response channel_id data;; mret Continue

  | Some (ListenViaRelay relay_addr) =>
      r ← with_swarm (fun s => listen_on s relay_addr);
      when_err r (warn "listen via relay failed");; mret Continue

  | Some (RendezvousRegister namespace ttl rendezvous_peer) =>
      on_rendezvous_register namespace ttl rendezvous_peer;; mret Continue
  | Some (RendezvousDiscover namespace rendezvous_peer) =>
      on_rendezvous_discover namespace rendezvous_peer;; mret Continue
  | Some (RendezvousUnregister namespace rendezvous_peer) =>
      on_rendezvous_unregister namespace rendezvous_peer;; mret Continue

  | Some Shutdown | None => mret Break
  end.

(** ** Swarm events *)
Definition channel_name (n : Z) : string := "ch-" +:+ pretty n.

Definition on_inbound_request (now : Z) (peer : PeerId) (request_id : InboundRequestId)
    (request : bytes) (channel : ResponseChannel) : LoopM unit :=
  st ← get_state;
  if Z.of_nat (size (pending_responses st)) >=? MAX_PENDING_RESPONSES then
    warn "request-response pending cap reached — dropping inbound request"
  else
    let counter := as_u64 (channel_counter st + 1) in
    let channel_id := channel_name counter in
    put_state (set_pending st
      (<[channel_id := (channel, now)]> (pending_responses st)) counter);;
    match event_handler st with
    | Some pid =>
        emit (send_inbound_request alloc pid peer (debug_inbound request_id) channel_id request)
    | None => mret tt
    end.

Definition on_discovered_peer (mdns_auto_dial : bool) (peer_id : PeerId) (addr : Multiaddr) :
    LoopM unit :=
  _ ← with_kad (fun kad => kad_add_address kad peer_id addr);
  st ← get_state;
  if mdns_auto_dial && negb (is_connected (swarm st) peer_id) then
    r ← with_swarm (fun s => dial_peer s peer_id);
    when_err r (debug "mdns auto-dial skipped")
  else mret tt.

Fixpoint on_discovered_peers (mdns_auto_dial : bool) (peers : list (PeerId * Multiaddr)) :
    LoopM unit :=
  match peers with
  | [] => mret tt
  | (peer_id, addr) :: rest =>
      on_discovered_peer mdns_auto_dial peer_id addr;;
      on_discovered_peers mdns_auto_dial rest
  end.

Definition notify_handler (f : LocalPid -> effects) : LoopM unit :=
  st ← get_state;
  match event_handler st with
  | Some pid => emit (f pid)
  | None => mret tt
  end.

Definition on_event (mdns_auto_dial : bool) (now : Z) (event : SwarmEvent) : LoopM unit :=
  match event with
  | Behaviour (RR_Request peer request_id request channel) =>
      on_inbound_request now peer request_id request channel
  | Behaviour (RR_Response peer request_id response) =>
      notify_handler (fun pid =>
        send_outbound_response alloc pid peer (debug_outbound request_id) response)
  | Behaviour (Mdns_Discovered peers) =>
      on_discovered_peers mdns_auto_dial peers;;
      notify_handler (fun pid => send_peers_discovered pid peers)
  | Behaviour Mdns_Expired => mret tt
  | other => notify_handler (fun pid => handle_swarm_event alloc other pid)
  end.

(** ** The loop *)
Inductive Input :=
  | Tick (now : Z)
  | Recv (cmd : option (Command LocalPid))
  | Event (now : Z) (event : SwarmEvent).

Definition turn (mdns_auto_dial : bool) (i : Input) : LoopM Control :=
  match i with
  | Tick now => on_tick now;; mret Continue
  | Recv cmd => on_command cmd
  | Event now event => on_event mdns_auto_dial now event;; mret Continue
  end.

(** The loop on a sequence of inputs: it stops at the first [Break]. *)
Fixpoint swarm_loop (mdns_auto_dial : bool) (inputs : list Input) : LoopM Control :=
  match inputs with
  | [] => mret Continue
  | i :: rest =>
      c ← turn mdns_auto_dial i;
      match c with
      | Continue => swarm_loop mdns_auto_dial rest
      | Break => mret Break
      end
  end.
End swarm_loop.

Arguments LoopState {_} Swarm LocalPid.
Arguments Input {_} LocalPid.

(** The inputs that end the loop, and the inputs of a run that it takes. *)
Definition ends `{!Protocols} {LocalPid} (i : Input LocalPid) : bool :=
  match i with Recv (Some Shutdown) | Recv None => true | _ => false end.

Fixpoint taken `{!Protocols} {LocalPid} (inputs : list (Input LocalPid)) :
    list (Input LocalPid) :=
  match inputs with
  | [] => []
  | i :: rest => i :: (if ends i then [] else taken rest)
  end.

(** The parts of the outcome of a statement. *)
Definition control {A S E} (r : A * S * E) : A := r.1.1.
Definition state {A S E} (r : A * S * E) : S := r.1.2.
Definition effects_of {A S E} (r : A * S * E) : E := r.2.

(** ** Symbolic execution

    [loop_exec] unfolds the statements of a turn; [split_matches] then cases on
    the innermost conditions. *)
Ltac loop_unfold :=
  cbv [turn on_command on_dht_export on_dht_import on_send_request on_send_response
       on_rendezvous_register on_rendezvous_discover on_rendezvous_unregister on_event on_tick on_inbound_request notify_handler
       with_gossipsub with_request_response with_kad with_rendezvous with_swarm
       when_err warn debug send emit get_state put_state control state effects_of
       mret LoopM_ret mbind LoopM_bind];
  cbn [fst snd].

Ltac split_matches :=
  repeat (match goal with
  | |- context [match ?x with _ => _ end] =>
      lazymatch x with
      | context [match _ with _ => _ end] => fail
      | _ => destruct x eqn:?
      end
  end; cbn [fst snd]).

Ltac loop_exec := loop_unfold; split_matches.

#[local] Set Default Proof Using "Type*".

Section loop_lemmas.
Context `{!Protocols} {Swarm LocalPid Term : Type} `{!SwarmOps Swarm, !TermEnc Term}.
Context (alloc : Z -> bool) (auto : bool).
Implicit Types (st : LoopState Swarm LocalPid) (i : Input LocalPid).

Local Abbreviation turn := (turn (Term:=Term) alloc auto).
Local Abbreviation swarm_loop := (swarm_loop (Term:=Term) alloc auto).

Lemma swarm_loop_cons i inputs st :
  swarm_loop (i :: inputs) st =
    match control (turn i st) with
    | Continue =>
        (control (swarm_loop inputs (state (turn i st))),
         state (swarm_loop inputs (state (turn i st))),
         effects_of (turn i st) ++ effects_of (swarm_loop inputs (state (turn i st))))
    | Break => (Break, state (turn i st), effects_of (turn i st))
    end.
Proof.
  cbn [SwarmLoop.swarm_loop]. unfold mbind, LoopM_bind, mret, LoopM_ret, control, state, effects_of.
  destruct (turn i st) as [[[] st1] l1]; cbn; [|by rewrite app_nil_r].
  by destruct (swarm_loop inputs st1) as [[c st2] l2].
Qed.

Lemma turn_event now ev st :
  turn (Event now ev) st =
    (Continue, state (on_event (Term:=Term) alloc auto now ev st),
     effects_of (on_event (Term:=Term) alloc auto now ev st)).
Proof.
  cbn [SwarmLoop.turn]. unfold mbind, LoopM_bind, mret, LoopM_ret, state, effects_of.
  destruct (on_event alloc auto now ev st) as [[[] st1] l1]. cbn. by rewrite app_nil_r.
Qed.

(** Rule induction over the turns of a run. *)
Lemma swarm_loop_invariant (I : LoopState Swarm LocalPid -> Prop) inputs st :
  (forall i st, i ∈ inputs -> I st -> I (state (turn i st))) ->
  I st -> I (state (swarm_loop inputs st)).
Proof.
  revert st. induction inputs as [|i inputs IH]; intros st Hstep Hst; [done|].
  rewrite swarm_loop_cons. destruct (control (turn i st)); cbn.
  - apply IH; [|by apply Hstep; [left|]]. intros j st' Hj. apply Hstep. by right.
  - by apply Hstep; [left|].
Qed.

(** Only a shutdown request or the closed channel ends the loop. *)
Lemma turn_break i st :
  control (turn i st) = Break <-> i = Recv (Some Shutdown) \/ i = Recv None.
Proof.
  split; [|by intros [-> | ->]].
  destruct i as [now|[[]|]|now ev]; try (by auto); loop_exec; by auto.
Qed.

Lemma turn_control i st : control (turn i st) = if ends i then Break else Continue.
Proof.
  destruct (control (turn i st)) eqn:E.
  - destruct (ends i) eqn:Hi; [|done]. exfalso.
    assert (control (turn i st) = Break) as E'; [|congruence].
    apply turn_break. destruct i as [|[[]|]|]; try done; auto.
  - by apply turn_break in E as [-> | ->].
Qed.

Lemma taken_cons i inputs : taken (i :: inputs) = i :: (if ends i then [] else taken inputs).
Proof. done. Qed.

(** The loop takes the turns [taken], and stops when one of them ends it. *)
Lemma swarm_loop_taken inputs st :
  swarm_loop inputs st = swarm_loop (taken inputs) st /\
  (control (swarm_loop inputs st) = Break <-> exists i, i ∈ inputs /\ ends i = true).
Proof.
  revert st. induction inputs as [|i inputs IH]; intros st.
  { split; [done|]. split; [done|]. by intros (i & ?%elem_of_nil & _). }
  rewrite taken_cons, !swarm_loop_cons, turn_control. destruct (ends i) eqn:Hi.
  - split; [done|]. split; [|done]. intros _. exists i. split; [by left|done].
  - destruct (IH (state (turn i st))) as [<- IH2]. split; [done|].
    change (control (swarm_loop inputs (state (turn i st))) = Break <->
      exists j, j ∈ i :: inputs /\ ends j = true).
    rewrite IH2. split; intros (j & Hj & He).
    + exists j. split; [by right|done].
    + exists j. split; [|done]. apply elem_of_cons in Hj as [->|]; [congruence|done].
Qed.

(** A tick changes the table of pending responses and only logs. *)
Lemma eviction_log_is_log now m :
  Forall is_log (eviction_log (LocalPid:=LocalPid) (Term:=Term) now m).
Proof using Type. apply Forall_map, Forall_true. by intros. Qed.

Lemma turn_tick now st :
  turn (Tick now) st =
    (Continue,
     set_pending st (filter (fun kv => fresh_response now kv.2 = true) (pending_responses st))
       (channel_counter st),
     eviction_log now (pending_responses st)).
Proof. loop_unfold. cbn [app]. by rewrite app_nil_r. Qed.

Lemma turn_tick_effects now st :
  replies (effects_of (turn (Tick now) st)) = [] /\
  notifications (effects_of (turn (Tick now) st)) = [].
Proof.
  rewrite turn_tick. split; [apply replies_log|apply notifications_log]; apply eviction_log_is_log.
Qed.

(** Importing a table and dialing discovered peers only log. *)
Lemma import_addresses_log kad p l n :
  Forall is_log (import_addresses (LocalPid:=LocalPid) (Term:=Term) kad p l n).2.
Proof.
  revert kad n. induction l as [|a l IH]; intros kad n; [constructor|]. cbn.
  destruct (addr_try_from a) as [e|ad].
  - specialize (IH kad n). destruct (import_addresses kad p l n) as [[]]. by constructor.
  - destruct (kad_add_address kad p ad). apply IH.
Qed.

Lemma import_entries_log kad l n :
  Forall is_log (import_entries (LocalPid:=LocalPid) (Term:=Term) kad l n).2.
Proof.
  revert kad n. induction l as [|a l IH]; intros kad n; [constructor|]. cbn.
  destruct (peer_from_bytes _) as [e|p].
  - specialize (IH kad n). destruct (import_entries kad l n) as [[]]. by constructor.
  - pose proof (import_addresses_log kad p (addresses a) n) as H1.
    destruct (import_addresses _ _ _ _) as [[k' n'] l1].
    specialize (IH k' n'). destruct (import_entries k' l n') as [[]]. by apply Forall_app.
Qed.

Lemma on_discovered_peers_log peers st :
  Forall is_log (effects_of (on_discovered_peers (Term:=Term) auto peers st)).
Proof.
  revert st. induction peers as [|[p a] peers IH]; intros st; [constructor|].
  cbn [on_discovered_peers]. unfold mbind, LoopM_bind.
  assert (Forall is_log (effects_of (on_discovered_peer (Term:=Term) auto p a st))) as E1.
  { unfold on_discovered_peer. loop_exec; by repeat constructor. }
  revert E1. unfold effects_of. destruct (on_discovered_peer auto p a st) as [[u st1] l1].
  intros E1. specialize (IH st1). unfold effects_of in IH.
  destruct (on_discovered_peers auto peers st1) as [[u' st2] l2]. by apply Forall_app.
Qed.

(** A command is answered once, on its own channel, before the next turn,
    and sends nothing to Elixir. *)
Lemma on_command_effects cmd st :
  replies (effects_of (on_command (Term:=Term) cmd st)) = option_list (cmd ≫= command_reply) /\
  notifications (effects_of (on_command (Term:=Term) cmd st)) = [].
Proof.
  destruct cmd as [[]|]; try (by loop_exec).
  loop_unfold. destruct (kademlia (behaviour (swarm st))) as [kad|]; [|done].
  pose proof (import_entries_log kad entries 0) as Hl.
  destruct (import_entries kad entries 0) as [[k n] l]. cbn [fst snd app] in *.
  by rewrite app_nil_r, replies_app, notifications_app, replies_log, notifications_log.
Qed.

Lemma on_event_replies now ev st :
  replies (effects_of (on_event (Term:=Term) alloc auto now ev st)) = [].
Proof.
  destruct ev as [| | | | |[]|]; try (by loop_exec).
  cbn [on_event]. unfold mbind, LoopM_bind.
  pose proof (on_discovered_peers_log peers st) as Hl. unfold effects_of in *.
  destruct (on_discovered_peers auto peers st) as [[u st1] l1]. cbn in Hl.
  loop_unfold. destruct (event_handler st1); cbn [fst snd app];
    rewrite replies_app, (replies_log l1) by done; [|done].
  by destruct peers as [|[p a] [|[q b] rest]].
Qed.
End loop_lemmas.
