(* ===== verification/Requests.v ===== *)
(** * The table of pending responses

    Properties of the request-response bookkeeping of the swarm loop: the map
    from channel identifiers to the response channels of inbound requests, its
    size cap, the freshness of identifiers and the eviction of old entries. *)
From S2P Require Import Prelude Bytes Policy Terms Libp2p Sim DhtState Commands Events SwarmLoop.
From stdpp Require Import options.

#[export] Instance channel_name_inj : Inj (=) (=) channel_name.
Proof. intros x y H. by apply (inj (String.append "ch-")), (inj pretty) in H. Qed.

#[local] Set Default Proof Using "Type*".

Section requests.
Context `{!Protocols} {Swarm LocalPid Term : Type} `{!SwarmOps Swarm, !TermEnc Term}.
Context (alloc : Z -> bool) (auto : bool).
Implicit Types (st : LoopState Swarm LocalPid) (i : Input LocalPid).
Implicit Types (m : gmap string (ResponseChannel * Z)) (n : Z).

Local Abbreviation turn := (turn (LocalPid:=LocalPid) (Term:=Term) alloc auto).
Local Abbreviation swarm_loop := (swarm_loop (LocalPid:=LocalPid) (Term:=Term) alloc auto).

Definition full m : bool := Z.of_nat (size m) >=? MAX_PENDING_RESPONSES.

Definition table st : gmap string (ResponseChannel * Z) * Z :=
  (pending_responses st, channel_counter st).

(** The bookkeeping as a function of the table alone. *)
Definition table_step i (t : gmap string (ResponseChannel * Z) * Z) :
    gmap string (ResponseChannel * Z) * Z :=
  let '(m, n) := t in
  match i with
  | Tick now => (filter (fun kv => fresh_response now kv.2 = true) m, n)
  | Recv (Some (RpcSendResponse id _)) => (delete id m, n)
  | Event now (Behaviour (RR_Request _ _ _ channel)) =>
      if full m then (m, n)
      else (<[channel_name (as_u64 (n + 1)) := (channel, now)]> m, as_u64 (n + 1))
  | _ => (m, n)
  end.

Lemma table_set_swarm st s : table (set_swarm st s) = table st.
Proof. done. Qed.

Lemma on_discovered_peers_frame peers st :
  let st' := state (on_discovered_peers (Term:=Term) auto peers st) in
  table st' = table st /\ event_handler st' = event_handler st.
Proof.
  revert st. induction peers as [|[p a] peers IH]; intros st; [done|]. cbn [on_discovered_peers].
  unfold mbind, LoopM_bind.
  assert (table (state (on_discovered_peer (Term:=Term) auto p a st)) = table st /\
    event_handler (state (on_discovered_peer (Term:=Term) auto p a st)) = event_handler st) as [E1 E2].
  { unfold on_discovered_peer. by loop_exec. }
  revert E1 E2. unfold state. destruct (on_discovered_peer auto p a st) as [[u st1] l1].
  cbn. intros E1 E2. specialize (IH st1). unfold state in IH.
  destruct (on_discovered_peers auto peers st1) as [[u' st2] l2]. cbn in *.
  destruct IH. by split; etrans.
Qed.

(** No turn touches the table in any other way. *)
Lemma turn_table i st : table (state (turn i st)) = table_step i (table st).
Proof.
  destruct i as [now|[[]|]|now ev]; try (by loop_exec).
  destruct ev as [| | | | |[]|]; try (by loop_exec).
  - cbn [SwarmLoop.turn on_event]. unfold mbind, LoopM_bind, mret, LoopM_ret, state.
    pose proof (on_discovered_peers_frame peers st) as [E _]. unfold state in E.
    destruct (on_discovered_peers auto peers st) as [[u st1] l1].
    cbn in *. unfold notify_handler. loop_exec; done.
  - cbn [SwarmLoop.turn on_event]. unfold on_inbound_request, table_step, table, full.
    loop_unfold. destruct (Z.of_nat (size (pending_responses st)) >=? MAX_PENDING_RESPONSES);
      [done|]. by loop_exec.
Qed.

(** ** The invariant of the table *)

(** At most [MAX_PENDING_RESPONSES] entries, each under an identifier drawn
    from the counter before. *)
Definition table_ok (t : gmap string (ResponseChannel * Z) * Z) : Prop :=
  Z.of_nat (size t.1) <= MAX_PENDING_RESPONSES /\ 0 <= t.2 /\
  forall id, is_Some (t.1 !! id) -> exists k, id = channel_name k /\ 0 < k <= t.2.

Lemma table_step_size i t :
  Z.of_nat (size t.1) <= MAX_PENDING_RESPONSES ->
  Z.of_nat (size (table_step i t).1) <= MAX_PENDING_RESPONSES.
Proof.
  destruct t as [m n]. cbn [fst table_step]. intros Hm.
  destruct i as [now|[[]|]|now [| | | | |[]|]]; try done; cbn [table_step].
  - pose proof (map_size_filter (fun kv => fresh_response now kv.2 = true) m). cbn. lia.
  - cbn. rewrite map_size_delete. destruct (m !! channel_id); cbn; lia.
  - unfold full. destruct (Z.geb_spec (Z.of_nat (size m)) MAX_PENDING_RESPONSES) as [|Hlt]; [done|].
    cbn. rewrite map_size_insert. case_match; cbn; lia.
Qed.

Lemma as_u64_succ n : 0 <= n -> n + 1 < 2 ^ 64 -> as_u64 (n + 1) = n + 1.
Proof. intros. apply wrap_small. unfold in_width. lia. Qed.

Lemma table_step_counter i t :
  0 <= t.2 -> t.2 + 1 < 2 ^ 64 -> t.2 <= (table_step i t).2 <= t.2 + 1.
Proof.
  destruct t as [m n]. cbn [snd]. intros Hn Hb.
  destruct i as [now|[[]|]|now [| | | | |[]|]]; cbn; try lia.
  case_match; cbn; [lia|]. rewrite as_u64_succ by done. lia.
Qed.

Lemma table_step_ok i t : table_ok t -> t.2 + 1 < 2 ^ 64 -> table_ok (table_step i t).
Proof.
  intros (Hs & Hn & Hid) Hb. pose proof (table_step_counter i t Hn Hb) as Hc.
  split; [by apply table_step_size|]. split; [lia|].
  intros id Hi. revert Hc Hi. destruct t as [m n]. cbn [fst snd] in *.
  assert (is_Some (m !! id) -> exists k, id = channel_name k /\ 0 < k <= n + 1) as Hold.
  { intros (k & -> & ?)%Hid. exists k. split; [done|lia]. }
  destruct i as [now|[[]|]|now [| | | | |[]|]]; try (intros _; apply Hid); cbn [table_step].
  - intros _ [x [Hx _]%map_lookup_filter_Some]. apply Hid. eauto.
  - intros _ Hx. apply Hid. cbn in Hx. by apply lookup_delete_is_Some in Hx as [_ ?].
  - case_match; [intros _; apply Hid|]. cbn. rewrite as_u64_succ by done. intros _.
    intros [<-|[_ Hx]]%lookup_insert_is_Some; [|by apply Hold].
    exists (n + 1). split; [done|lia].
Qed.

(** An identifier that has left the table, or was never in it although the
    counter is past it, does not come back. *)
Lemma table_step_gone i t k :
  0 < k <= t.2 -> t.2 + 1 < 2 ^ 64 -> t.1 !! channel_name k = None ->
  (table_step i t).1 !! channel_name k = None.
Proof.
  destruct t as [m n]. cbn [fst snd]. intros Hk Hb Hm.
  destruct i as [now|[[]|]|now [| | | | |[]|]]; try done; cbn [table_step].
  - apply map_lookup_filter_None. by left.
  - cbn. rewrite lookup_delete. by case_decide.
  - case_match; [done|]. cbn. rewrite as_u64_succ by lia.
    rewrite lookup_insert_ne; [done|]. intros ?%(inj channel_name). lia.
Qed.

(** An entry is never replaced. *)
Lemma table_step_keeps i t k :
  0 < k <= t.2 -> t.2 + 1 < 2 ^ 64 ->
  (table_step i t).1 !! channel_name k = t.1 !! channel_name k \/ (table_step i t).1 !! channel_name k = None.
Proof.
  destruct t as [m n]. cbn [fst snd]. intros Hk Hb.
  destruct i as [now|[[]|]|now [| | | | |[]|]]; try (by left); cbn [table_step].
  - cbn [fst]. rewrite map_lookup_filter. destruct (m !! channel_name k) as [x|]; [|by right].
    cbn. case_guard; [by left|by right].
  - cbn. rewrite lookup_delete. case_decide; [by right|by left].
  - case_match; [by left|]. cbn. rewrite as_u64_succ by lia.
    rewrite lookup_insert_ne; [by left|]. intros ?%(inj channel_name). lia.
Qed.

(** ** Runs *)
Lemma init_table_ok s : table_ok (table (init_state s : LoopState Swarm LocalPid)).
Proof.
  split; [done|]. split; [done|]. cbn. intros id. rewrite lookup_empty. by intros [].
Qed.

(** The invariants of a run of less than [2^64] turns. *)
Lemma swarm_loop_table inputs st :
  table_ok (table st) -> channel_counter st + Z.of_nat (length inputs) < 2 ^ 64 ->
  let st' := state (swarm_loop inputs st) in
  table_ok (table st') /\
  channel_counter st <= channel_counter st' <= channel_counter st + Z.of_nat (length inputs) /\
  (forall k, 0 < k <= channel_counter st -> pending_responses st !! channel_name k = None ->
             pending_responses st' !! channel_name k = None).
Proof.
  revert st. induction inputs as [|i inputs IH]; intros st Hok Hb.
  { cbn. split; [done|]. split; [lia|done]. }
  cbn [length] in Hb |- *. rewrite swarm_loop_cons.
  pose proof (turn_table i st) as Ht.
  pose proof (table_step_ok i _ Hok ltac:(cbn; lia)) as Hok'.
  pose proof (table_step_counter i (table st) (proj1 (proj2 Hok)) ltac:(cbn; lia)) as Hc'.
  assert (forall k, 0 < k <= channel_counter st -> pending_responses st !! channel_name k = None ->
    pending_responses (state (turn i st)) !! channel_name k = None) as Hg.
  { intros k Hk Hm. change (pending_responses (state (turn i st)))
      with (table (state (turn i st))).1. rewrite Ht. apply table_step_gone; cbn; [done|lia|done]. }
  rewrite <-Ht in Hok', Hc'. cbn [table snd] in Hc'.
  destruct (control (turn i st)); cbn [state fst snd];
    [|split_and!; [done|lia|lia|done]].
  destruct (IH (state (turn i st)) Hok' ltac:(lia)) as (H1 & H2 & H3). cbn [state fst snd].
  split_and!; [done|lia|lia|]. intros k Hk Hm. apply H3; [lia|]. by apply Hg.
Qed.

Lemma swarm_loop_keeps inputs st k :
  table_ok (table st) -> channel_counter st + Z.of_nat (length inputs) < 2 ^ 64 ->
  0 < k <= channel_counter st ->
  let st' := state (swarm_loop inputs st) in
  pending_responses st' !! channel_name k = pending_responses st !! channel_name k \/
  pending_responses st' !! channel_name k = None.
Proof.
  revert st. induction inputs as [|i inputs IH]; intros st Hok Hb Hk; [by left|].
  cbn [length] in Hb. rewrite swarm_loop_cons. pose proof (turn_table i st) as Ht.
  pose proof (table_step_ok i _ Hok ltac:(cbn; lia)) as Hok'.
  pose proof (table_step_counter i (table st) (proj1 (proj2 Hok)) ltac:(cbn; lia)) as Hc.
  pose proof (table_step_keeps i (table st) k Hk ltac:(cbn; lia)) as Hkeep.
  rewrite <-Ht in Hok', Hc, Hkeep. cbn [table fst snd] in Hc, Hkeep.
  destruct (control (turn i st)); cbn [state fst snd]; [|exact Hkeep].
  destruct (IH (state (turn i st)) Hok' ltac:(lia) ltac:(lia)) as [E|E]; [|by right].
  cbn [state fst snd] in E. destruct Hkeep as [E'|E']; [left|right]; by rewrite E, E'.
Qed.

(** What sending the response [data] on a channel does to the swarm. *)
Definition respond (channel : ResponseChannel) (data : bytes) (sw : Swarm) : Swarm :=
  let b := behaviour sw in
  set_behaviour sw (set_request_response b (rr_send_response (request_response b) channel data).1).

Lemma turn_response st id d :
  swarm (state (turn (Recv (Some (RpcSendResponse id d))) st)) =
    match pending_responses st !! id with
    | Some (channel, _) => respond channel d (swarm st)
    | None => swarm st
    end.
Proof.
  loop_unfold. destruct (pending_responses st !! id) as [[c t]|]; [|done].
  unfold respond. cbn [swarm set_pending]. by destruct (rr_send_response _ c d) as [rr []].
Qed.

(** ** Announcements *)

(** The message that hands an inbound request over to Elixir. *)
Definition announces (id : string) (e : Effect LocalPid Term) : Prop :=
  exists pid request_id peer data,
    e = Notify pid (libp2p_event
      [enc_atom a_inbound_request; request_id; enc_str id; peer; data]).

Section announcements.
Context `{!TermEncOk Term}.

Lemma event_not_inbound ev rest :
  swarm_event_term alloc ev <> libp2p_event (enc_atom a_inbound_request :: rest).
Proof.
  unfold libp2p_event, noop. intros Heq.
  destruct ev as [| | | | |[| | |[? []|]| | | | |[]|? []| | |regs|]|];
    cbn in Heq; unfold noop, libp2p_event in Heq; try (by term_inv).
  - destruct peers as [|[? ?] [|[? ?] ?]]; cbn in Heq;
      unfold noop, libp2p_event, peer_discovered_fields in Heq; by term_inv.
  - destruct regs as [|[? ?] [|[? ?] ?]]; cbn in Heq;
      unfold noop, libp2p_event, peer_discovered_fields in Heq; by term_inv.
Qed.

Lemma notification_elem pid (t : Term) (l : list (Effect LocalPid Term)) :
  Notify pid t ∈ l -> (pid, t) ∈ notifications l.
Proof. intros Hl. apply list_elem_of_omap. by exists (Notify pid t). Qed.

Lemma handler_not_inbound ev st pid rest :
  Notify pid (libp2p_event (enc_atom a_inbound_request :: rest))
    ∈ effects_of (notify_handler (fun pid => handle_swarm_event alloc ev pid) st) -> False.
Proof.
  loop_exec; cbn [app]; [|by intros ?%elem_of_nil].
  intros He%list_elem_of_singleton. injection He as _ He. symmetry in He.
  by apply event_not_inbound in He.
Qed.

Lemma discovered_not_inbound peers st pid rest :
  Notify pid (libp2p_event (enc_atom a_inbound_request :: rest))
    ∈ effects_of (on_event (Term:=Term) alloc auto 0 (Behaviour (Mdns_Discovered peers)) st) -> False.
Proof.
  cbn [on_event]. unfold mbind, LoopM_bind.
  pose proof (on_discovered_peers_log auto peers st) as Hl. unfold effects_of in *.
  destruct (on_discovered_peers auto peers st) as [[u st1] l1]. cbn [snd] in Hl.
  rewrite Forall_forall in Hl. loop_unfold.
  destruct (event_handler st1) as [pid'|]; cbn [fst snd app].
  - intros [He|He]%elem_of_app; [by apply Hl in He|].
    destruct peers as [|[p a] [|[q b] rest']]; [by apply elem_of_nil in He|..];
      apply list_elem_of_singleton in He; injection He as _ He;
      unfold libp2p_event, peer_discovered_fields in He; by term_inv.
  - rewrite app_nil_r. by intros He%Hl.
Qed.

(** A turn announces a request only when it enters it in the table under the
    next identifier, and then it does nothing else. *)
Lemma turn_announces i st id e :
  e ∈ effects_of (turn i st) -> announces id e ->
  id = channel_name (as_u64 (channel_counter st + 1)) /\
  channel_counter (state (turn i st)) = as_u64 (channel_counter st + 1) /\
  effects_of (turn i st) = [e].
Proof.
  intros He (pid & rid & peer & data & ->).
  destruct i as [now|cmd|now ev].
  - exfalso. apply notification_elem in He. rewrite (proj2 (turn_tick_effects alloc auto now st)) in He.
    by apply elem_of_nil in He.
  - exfalso. apply notification_elem in He. cbn [SwarmLoop.turn] in He.
    rewrite (proj2 (on_command_effects cmd st)) in He. by apply elem_of_nil in He.
  - rewrite turn_event in *. cbn [state effects_of fst snd] in *.
    destruct ev as [| | | | |[]|]; try (exfalso; by eapply handler_not_inbound);
      try (exfalso; by eapply discovered_not_inbound).
    + exfalso. revert He. by loop_exec; cbn; intros ?%elem_of_nil.
    + revert He. loop_exec; cbn [app].
      * by intros ?%list_elem_of_singleton.
      * intros He%list_elem_of_singleton. injection He as -> He.
        unfold libp2p_event in He. term_inv. done.
      * by intros ?%elem_of_nil.
    + exfalso. revert He. loop_exec; cbn [app]; [|by intros ?%elem_of_nil].
      intros He%list_elem_of_singleton. injection He as _ He.
      unfold libp2p_event in He. by term_inv.
Qed.

(** Every identifier announced in a run is above the counter it starts from. *)
Lemma run_announces inputs st id e :
  0 <= channel_counter st -> channel_counter st + Z.of_nat (length inputs) < 2 ^ 64 ->
  e ∈ effects_of (swarm_loop inputs st) -> announces id e ->
  exists k, id = channel_name k /\ channel_counter st < k.
Proof.
  revert st. induction inputs as [|i inputs IH]; intros st H0 Hb He Ha.
  { by apply elem_of_nil in He. }
  cbn [length] in Hb. rewrite swarm_loop_cons in He.
  assert (e ∈ effects_of (turn i st) -> exists k, id = channel_name k /\ channel_counter st < k) as Hturn.
  { intros He1. destruct (turn_announces i st id e He1 Ha) as (-> & _ & _).
    rewrite as_u64_succ by lia. eexists. split; [done|lia]. }
  pose proof (table_step_counter i (table st) H0 ltac:(cbn; lia)) as Hc.
  rewrite <-turn_table in Hc. cbn [table snd] in Hc.
  destruct (control (turn i st)); cbn [effects_of snd] in He; [|by apply Hturn].
  apply elem_of_app in He as [He|He]; [by apply Hturn|].
  edestruct (IH (state (turn i st))) as (k & -> & Hk); [lia..|done|done|].
  exists k. split; [done|lia].
Qed.

Lemma run_announces_distinct inputs st a b e1 e2 id1 id2 :
  0 <= channel_counter st -> channel_counter st + Z.of_nat (length inputs) < 2 ^ 64 ->
  (a < b)%nat ->
  effects_of (swarm_loop inputs st) !! a = Some e1 -> announces id1 e1 ->
  effects_of (swarm_loop inputs st) !! b = Some e2 -> announces id2 e2 -> id1 <> id2.
Proof.
  revert st a b. induction inputs as [|i inputs IH]; intros st a b H0 Hb Hab Ea A1 Eb A2; [done|].
  cbn [length] in Hb. rewrite swarm_loop_cons in Ea, Eb.
  pose proof (table_step_counter i (table st) H0 ltac:(cbn; lia)) as Hc.
  rewrite <-turn_table in Hc. cbn [table snd] in Hc.
  assert (forall x y, (x < y)%nat -> effects_of (turn i st) !! x = Some e1 ->
    effects_of (turn i st) !! y = Some e2 -> False) as Hsame.
  { intros x y Hxy Ex Ey. apply list_elem_of_lookup_2 in Ex as Hx.
    destruct (turn_announces i st id1 e1 Hx A1) as (_ & _ & Hone).
    rewrite Hone in Ey. apply lookup_lt_Some in Ey. cbn in Ey. lia. }
  destruct (control (turn i st)); cbn [effects_of snd] in Ea, Eb; [|by edestruct Hsame].
  apply lookup_app_Some in Ea as [Ea|[Hla Ea]]; apply lookup_app_Some in Eb as [Eb|[Hlb Eb]].
  - by edestruct Hsame.
  - apply list_elem_of_lookup_2 in Ea, Eb.
    destruct (turn_announces i st id1 e1 Ea A1) as (-> & Hcnt & _).
    edestruct (run_announces inputs (state (turn i st)) id2 e2) as (k & -> & Hk);
      [lia..|done|done|].
    intros Heq%(inj channel_name). lia.
  - apply lookup_lt_Some in Eb. lia.
  - eapply (IH (state (turn i st))); [lia|lia| |exact Ea|done|exact Eb|done]. lia.
Qed.

(** A turn that announces a request enters its channel under the announced
    identifier. *)
Lemma turn_announces_channel i st id e :
  e ∈ effects_of (turn i st) -> announces id e ->
  exists now peer request_id data channel pid,
    i = Event now (Behaviour (RR_Request peer request_id data channel)) /\
    [e] = send_inbound_request alloc pid peer (debug_inbound request_id) id data /\
    pending_responses (state (turn i st)) !! id = Some (channel, now).
Proof.
  intros He Ha. destruct (turn_announces i st id e He Ha) as (Hid & Hcnt & Hone).
  destruct Ha as (pid & rid & peer & data & ->).
  destruct i as [now|cmd|now ev].
  - exfalso. apply notification_elem in He. rewrite (proj2 (turn_tick_effects alloc auto now st)) in He.
    by apply elem_of_nil in He.
  - exfalso. apply notification_elem in He. cbn [SwarmLoop.turn] in He.
    rewrite (proj2 (on_command_effects cmd st)) in He. by apply elem_of_nil in He.
  - clear Hcnt Hone. revert Hid. rewrite turn_event in *. cbn [state effects_of fst snd] in *. intros Hid.
    destruct ev as [| | | | |[]|]; try (exfalso; by eapply handler_not_inbound);
      try (exfalso; by eapply discovered_not_inbound).
    + exfalso. revert He. by loop_exec; cbn; intros ?%elem_of_nil.
    + exists now, peer0, request_id, request, channel. revert He. loop_exec; cbn [app].
      * by intros ?%list_elem_of_singleton.
      * intros He%list_elem_of_singleton. eexists. split; [done|]. rewrite He. subst id. split; [reflexivity|].
        cbn. by rewrite lookup_insert_eq.
      * by intros ?%elem_of_nil.
    + exfalso. revert He. loop_exec; cbn [app]; [|by intros ?%elem_of_nil].
      intros He%list_elem_of_singleton. injection He as _ He.
      unfold libp2p_event in He. by term_inv.
Qed.

(** C16: A response addressed to an identifier reaches the request it was given
    for, and no other.  In a run of fewer than [2^64] inputs, no two inbound
    requests are announced to Elixir under the same identifier; and when one is
    announced under [id], in a message with its peer, number and data, then its
    response channel is entered under [id], and from then on, whatever happens, a
    response to [id] is sent on that channel, or - when the entry has been
    answered or evicted - leaves the swarm as it is. *)
Theorem announced_ids_distinct s inputs :
  Z.of_nat (length inputs) < 2 ^ 64 ->
  (forall a b e1 e2 id1 id2, (a < b)%nat ->
     effects_of (swarm_loop inputs (init_state s)) !! a = Some e1 -> announces id1 e1 ->
     effects_of (swarm_loop inputs (init_state s)) !! b = Some e2 -> announces id2 e2 ->
     id1 <> id2) /\
  (forall pre i mid rest e id, inputs = pre ++ i :: mid ++ rest ->
     let st := state (swarm_loop pre (init_state s)) in
     e ∈ effects_of (turn i st) -> announces id e ->
     exists now peer request_id data channel pid,
       i = Event now (Behaviour (RR_Request peer request_id data channel)) /\
       [e] = send_inbound_request alloc pid peer (debug_inbound request_id) id data /\
       pending_responses (state (turn i st)) !! id = Some (channel, now) /\
       let st' := state (swarm_loop mid (state (turn i st))) in
       forall d, let sw := swarm (state (turn (Recv (Some (RpcSendResponse id d))) st')) in
         (pending_responses st' !! id = Some (channel, now) /\ sw = respond channel d (swarm st')) \/
         (pending_responses st' !! id = None /\ sw = swarm st')).
Proof.
  intros Hb. split; [intros a b e1 e2 id1 id2; by apply run_announces_distinct|].
  intros pre i mid rest e id -> st He Ha. rewrite !length_app in Hb. cbn [length] in Hb. rewrite length_app in Hb.
  destruct (swarm_loop_table pre (init_state s)) as (Hok & Hcnt & _); [apply init_table_ok|cbn; lia|].
  fold st in Hok, Hcnt. cbn in Hcnt.
  destruct (turn_announces i st id e He Ha) as (Hid & Hn & _).
  destruct (turn_announces_channel i st id e He Ha) as (now & peer & rid & data & channel & pid & Hi & Hmsg & Hp).
  exists now, peer, rid, data, channel, pid. split; [done|]. split; [done|]. split; [done|]. intros st' d sw.
  rewrite as_u64_succ in Hid, Hn by lia. subst id.
  pose proof (table_step_ok i _ Hok ltac:(cbn; lia)) as Hok'. rewrite <-turn_table in Hok'.
  destruct (swarm_loop_keeps mid (state (turn i st)) (channel_counter st + 1) Hok') as [E|E]; [lia|lia|left|right];
    fold st' in E; subst sw; rewrite turn_response, E, ?Hp; done.
Qed.

End announcements.

(** ** Age of the entries *)

(** A sequence of inputs at times that do not decrease, with an eviction tick
    at least every [eviction_interval], as the interval timer delivers them;
    [last] is the time of the last tick and [now] that of the last input. *)
Fixpoint well_timed (last now : Z) (inputs : list (Input LocalPid)) : Prop :=
  match inputs with
  | [] => True
  | Tick t :: rest => now <= t <= last + eviction_interval /\ well_timed t t rest
  | Event t _ :: rest => now <= t <= last + eviction_interval /\ well_timed last t rest
  | Recv _ :: rest => well_timed last now rest
  end.

(** The time of the last input of a sequence. *)
Fixpoint clock (now : Z) (inputs : list (Input LocalPid)) : Z :=
  match inputs with
  | [] => now
  | Tick t :: rest | Event t _ :: rest => clock t rest
  | Recv _ :: rest => clock now rest
  end.

Definition aged (last now : Z) st : Prop :=
  last <= now <= last + eviction_interval /\
  forall id c t, pending_responses st !! id = Some (c, t) -> last - response_ttl < t <= now.

Lemma turn_aged last now i st :
  aged last now st -> well_timed last now [i] ->
  aged (match i with Tick t => t | _ => last end)
       (match i with Tick t | Event t _ => t | _ => now end) (state (turn i st)).
Proof.
  intros [Hln Hage] Hi. unfold aged.
  assert (forall id x, pending_responses (state (turn i st)) !! id = Some x ->
    (table_step i (table st)).1 !! id = Some x) as Ht.
  { intros id x. change (pending_responses (state (turn i st)))
      with (table (state (turn i st))).1. by rewrite turn_table. }
  destruct i as [t|cmd|t ev]; cbn [well_timed] in Hi;
    pose proof eviction_interval_ns; pose proof response_ttl_ns; (split; [lia|]);
    intros id c t0 Hx%Ht.
  - apply map_lookup_filter_Some in Hx as [Hx Hf]. cbn [table fst snd] in Hf, Hx.
    unfold fresh_response, duration_since in Hf. cbn [snd] in Hf.
    apply Hage in Hx. apply Z.ltb_lt in Hf. lia.
  - destruct cmd as [[]|]; try (by apply Hage in Hx). cbn in Hx.
    apply lookup_delete_Some in Hx as [_ Hx]. by apply Hage in Hx.
  - destruct ev as [| | | | |[]|]; try (apply Hage in Hx; lia). cbn in Hx.
    case_match; [apply Hage in Hx; lia|]. cbn in Hx.
    apply lookup_insert_Some in Hx as [[_ [= _ <-]]|[_ Hx]]; [lia|apply Hage in Hx; lia].
Qed.

Lemma run_aged last now inputs st :
  aged last now st -> well_timed last now inputs ->
  (forall c, c ∈ inputs -> c <> Recv (Some Shutdown) /\ c <> Recv None) ->
  exists last', aged last' (clock now inputs) (state (swarm_loop inputs st)).
Proof.
  revert last now st. induction inputs as [|i inputs IH]; intros last now st Ha Hw Hc; [by exists last|].
  assert (control (turn i st) = Continue) as Hcont.
  { destruct (control (turn i st)) eqn:E; [done|]. apply turn_break in E.
    destruct (Hc i ltac:(by left)) as [? ?]. by destruct E. }
  rewrite swarm_loop_cons, Hcont. cbn [state fst snd].
  assert (forall c, c ∈ inputs -> c <> Recv (Some Shutdown) /\ c <> Recv None) as Hc'.
  { intros c Hin. apply Hc. by right. }
  assert (well_timed last now [i]) as Hi by (destruct i; cbn in *; by destruct_and?).
  pose proof (turn_aged last now i st Ha Hi) as Ha'.
  destruct i as [t|cmd|t ev]; cbn [clock]; eapply IH; try exact Ha'; cbn in Hw; try done; apply Hw.
Qed.

(** ** Abstract specification

    What the bookkeeping promises: requests are numbered in order of arrival,
    a number stays open until it is answered or expires, and a full table
    refuses new requests. *)
Record Spec := mkSpec {
  open : gmap Z (ResponseChannel * Z);
  issued : Z;
}.

Inductive spec_step : Input LocalPid -> Spec -> Spec -> Prop :=
  | spec_arrive now peer rid data channel σ :
      Z.of_nat (size (open σ)) < MAX_PENDING_RESPONSES ->
      spec_step (Event now (Behaviour (RR_Request peer rid data channel))) σ
        (mkSpec (<[issued σ + 1 := (channel, now)]> (open σ)) (issued σ + 1))
  | spec_refuse now peer rid data channel σ :
      MAX_PENDING_RESPONSES <= Z.of_nat (size (open σ)) ->
      spec_step (Event now (Behaviour (RR_Request peer rid data channel))) σ σ
  | spec_answer k id data σ :
      id = channel_name k -> is_Some (open σ !! k) ->
      spec_step (Recv (Some (RpcSendResponse id data))) σ
        (mkSpec (delete k (open σ)) (issued σ))
  | spec_unknown id data σ :
      (forall k, id = channel_name k -> open σ !! k = None) ->
      spec_step (Recv (Some (RpcSendResponse id data))) σ σ
  | spec_expire now σ :
      spec_step (Tick now) σ
        (mkSpec (filter (fun kv => fresh_response now kv.2 = true) (open σ)) (issued σ))
  | spec_other i σ :
      (forall now, i <> Tick now) ->
      (forall id data, i <> Recv (Some (RpcSendResponse id data))) ->
      (forall now peer rid data channel,
         i <> Event now (Behaviour (RR_Request peer rid data channel))) ->
      spec_step i σ σ.

(** The concrete table holds the open requests under their names. *)
Definition implements st (σ : Spec) : Prop :=
  pending_responses st = kmap channel_name (open σ) /\ channel_counter st = issued σ /\
  0 <= issued σ.

Lemma size_kmap_names (m : gmap Z (ResponseChannel * Z)) :
  size (kmap channel_name m : gmap string _) = size m.
Proof.
  rewrite <-!length_map_to_list. rewrite (map_to_list_kmap channel_name m). apply length_map.
Qed.

Lemma filter_kmap_names (m : gmap Z (ResponseChannel * Z)) now :
  filter (fun kv => fresh_response now kv.2 = true) (kmap channel_name m : gmap string _) =
  kmap channel_name (filter (fun kv => fresh_response now kv.2 = true) m).
Proof.
  apply map_eq. intros id. apply option_eq. intros x.
  rewrite map_lookup_filter_Some, !lookup_kmap_Some by apply _.
  split.
  - intros [(k & -> & Hk) Hf]. exists k. split; [done|]. by apply map_lookup_filter_Some.
  - intros (k & -> & [Hk Hf]%map_lookup_filter_Some). split; [by exists k|done].
Qed.

Lemma init_implements s : implements (init_state s) (mkSpec ∅ 0).
Proof. done. Qed.

Lemma implements_table i st σ σ' :
  implements st σ ->
  table_step i (table st) = (kmap channel_name (open σ'), issued σ') -> 0 <= issued σ' ->
  implements (state (turn i st)) σ'.
Proof.
  intros _ Ht H0. pose proof (turn_table i st) as E. rewrite Ht in E.
  unfold table in E. injection E as E1 E2. done.
Qed.

Lemma turn_refines i st σ :
  implements st σ -> issued σ + 1 < 2 ^ 64 ->
  exists σ', spec_step i σ σ' /\ implements (state (turn i st)) σ'.
Proof.
  intros Himp Hb. pose proof Himp as (Hm & Hn & H0).
  assert (table st = (kmap channel_name (open σ), issued σ)) as Ht.
  { unfold table. by rewrite Hm, Hn. }
  destruct (table_step i (table st)) as [m' n'] eqn:Hs. rewrite Ht in Hs.
  assert ((forall now, i <> Tick now) ->
    (forall id data, i <> Recv (Some (RpcSendResponse id data))) ->
    (forall now peer rid data channel,
       i <> Event now (Behaviour (RR_Request peer rid data channel))) ->
    exists σ', spec_step i σ σ' /\ implements (state (turn i st)) σ') as Hother.
  { intros H1 H2 H3. exists σ. split; [by constructor|]. eapply implements_table; [done| |done].
    rewrite Ht. destruct i as [?|[[]|]|? [| | | | |[]|]]; try done;
      [by edestruct H1|by edestruct H2|by edestruct H3]. }
  destruct i as [now|cmd|now ev].
  - eexists. split; [constructor|]. eapply implements_table; [done| |done].
    rewrite Ht. cbn [table_step open issued]. by rewrite filter_kmap_names.
  - destruct cmd as [[]|]; try (by apply Hother). clear Hother Hs.
    destruct (pending_responses st !! channel_id) as [x|] eqn:Hx.
    + rewrite Hm in Hx. apply lookup_kmap_Some in Hx as (k & -> & Hk); [|apply _].
      eexists. split; [by eapply spec_answer|]. eapply implements_table; [done| |done].
      rewrite Ht. cbn [table_step open issued]. by rewrite kmap_delete by apply _.
    + exists σ. split.
      * constructor. intros k ->. rewrite Hm, lookup_kmap in Hx by apply _. done.
      * eapply implements_table; [done| |done]. rewrite Ht. cbn [table_step].
        by rewrite delete_id by (by rewrite <-Hm).
  - destruct ev as [| | | | |[]|]; try (by apply Hother). clear Hother Hs.
    destruct (Z.geb_spec (Z.of_nat (size (open σ))) MAX_PENDING_RESPONSES) as [Hf|Hf].
    + exists σ. split; [by apply spec_refuse|]. eapply implements_table; [done| |done].
      rewrite Ht. cbn [table_step]. unfold full. rewrite size_kmap_names.
      by destruct (Z.geb_spec (Z.of_nat (size (open σ))) MAX_PENDING_RESPONSES); [|lia].
    + eexists. split; [by apply spec_arrive|]. eapply implements_table; [done| |cbn; lia].
      rewrite Ht. cbn [table_step]. unfold full. rewrite size_kmap_names.
      destruct (Z.geb_spec (Z.of_nat (size (open σ))) MAX_PENDING_RESPONSES); [lia|].
      rewrite as_u64_succ by lia. cbn [open issued]. by rewrite kmap_insert by apply _.
Qed.

Inductive spec_run : list (Input LocalPid) -> Spec -> Spec -> Prop :=
  | spec_run_nil σ : spec_run [] σ σ
  | spec_run_cons i inputs σ1 σ2 σ3 :
      spec_step i σ1 σ2 -> spec_run inputs σ2 σ3 -> spec_run (i :: inputs) σ1 σ3.

Lemma spec_step_issued i σ σ' : spec_step i σ σ' -> issued σ <= issued σ' <= issued σ + 1.
Proof. destruct 1; cbn; lia. Qed.

Lemma run_refines inputs st σ :
  implements st σ -> issued σ + Z.of_nat (length inputs) < 2 ^ 64 ->
  exists σ', spec_run (taken inputs) σ σ' /\ implements (state (swarm_loop inputs st)) σ'.
Proof.
  revert st σ. induction inputs as [|i inputs IH]; intros st σ Himp Hb.
  { exists σ. split; [constructor|done]. }
  cbn [length] in Hb. rewrite swarm_loop_cons, taken_cons.
  destruct (turn_refines i st σ Himp ltac:(lia)) as (σ1 & Hs1 & Himp1).
  pose proof (spec_step_issued _ _ _ Hs1).
  rewrite (turn_control alloc auto i st). destruct (ends i); cbn [state fst snd].
  - exists σ1. split; [|done]. econstructor; [done|constructor].
  - destruct (IH (state (turn i st)) σ1 Himp1 ltac:(lia)) as (σ2 & Hrun & Himp2).
    exists σ2. split; [by econstructor|done].
Qed.

(** ** Properties *)

(** C17: The table of pending responses never exceeds [MAX_PENDING_RESPONSES]
    entries, whatever sequence of commands, events and ticks the loop
    processes: a flood of inbound requests cannot grow it without bound. *)
Theorem pending_responses_bounded s inputs :
  Z.of_nat (size (pending_responses (state (swarm_loop inputs (init_state s))))) <=
    MAX_PENDING_RESPONSES.
Proof.
  apply (swarm_loop_invariant alloc auto
    (fun st => Z.of_nat (size (pending_responses st)) <= MAX_PENDING_RESPONSES)); [|done].
  intros i st _ Hst. pose proof (turn_table i st) as Ht.
  change (pending_responses (state (turn i st))) with (table (state (turn i st))).1.
  rewrite Ht. by apply table_step_size.
Qed.

(** C8: The request-response bookkeeping implements its specification: the
    turns the loop takes on any inputs (fewer than [2^64]), which are the
    inputs up to the first shutdown, are a run of the abstract machine that
    numbers requests in order of arrival, keeps at most
    [MAX_PENDING_RESPONSES] open, refuses further ones, closes a request when
    it is answered or expires, and ignores answers to numbers not open. *)
Theorem request_table_refines s inputs :
  Z.of_nat (length inputs) < 2 ^ 64 ->
  exists σ, spec_run (taken inputs) (mkSpec ∅ 0) σ /\
    implements (state (swarm_loop inputs (init_state s))) σ.
Proof. intros Hb. apply run_refines; [apply init_implements|done]. Qed.

(** C15: A request is answered at most once: after a response to a pending
    identifier the identifier is gone for the rest of the run, and any further
    response to it leaves the swarm untouched and is only logged. *)
Theorem response_at_most_once s pre mid id d1 d2 :
  let st1 := state (swarm_loop pre (init_state s)) in
  let st2 := state (swarm_loop (Recv (Some (RpcSendResponse id d1)) :: mid) st1) in
  Z.of_nat (length pre + S (length mid)) < 2 ^ 64 ->
  is_Some (pending_responses st1 !! id) ->
  pending_responses st2 !! id = None /\
  turn (Recv (Some (RpcSendResponse id d2))) st2 =
    (Continue, st2, [Warn "send_response: unknown channel ID (expired or already used)"]).
Proof.
  intros st1 st2 Hb Hid.
  destruct (swarm_loop_table pre (init_state s)) as (Hok1 & Hcnt & _);
    [apply init_table_ok|cbn; lia|]. fold st1 in Hok1, Hcnt. cbn in Hcnt.
  destruct (proj2 (proj2 Hok1) id Hid) as (k & -> & Hk). cbn [table snd] in Hk.
  set (i1 := Recv (Some (RpcSendResponse (channel_name k) d1))) in st2.
  assert (st2 = state (swarm_loop mid (state (turn i1 st1)))) as Hst2.
  { subst st2. rewrite swarm_loop_cons.
    destruct (control (turn i1 st1)) eqn:Hc; [done|]. by apply turn_break in Hc as [|]. }
  pose proof (turn_table i1 st1) as Ht.
  pose proof (table_step_ok i1 _ Hok1 ltac:(cbn; lia)) as Hok. rewrite <-Ht in Hok.
  assert (pending_responses (state (turn i1 st1)) =
    delete (channel_name k) (pending_responses st1)) as Hm by exact (f_equal fst Ht).
  assert (channel_counter (state (turn i1 st1)) = channel_counter st1) as Hn
    by exact (f_equal snd Ht).
  clearbody st2 i1.
  assert (pending_responses st2 !! channel_name k = None) as Hnone.
  { destruct (swarm_loop_table mid (state (turn i1 st1)) Hok) as (_ & _ & Hgone).
    { rewrite Hn. lia. }
    rewrite Hst2. apply Hgone; [rewrite Hn; lia|]. rewrite Hm. apply lookup_delete_eq. }
  split; [done|]. clear Hst2. loop_unfold. rewrite Hnone.
  destruct st2. cbn in *. by rewrite delete_id.
Qed.

(** An eviction tick removes exactly the entries that are at least
    [response_ttl] old, changes nothing else, and only logs. *)
Theorem eviction_exact now st :
  (forall id c t, pending_responses (state (turn (Tick now) st)) !! id = Some (c, t) <->
    pending_responses st !! id = Some (c, t) /\ now - t < response_ttl) /\
  turn (Tick now) st =
    (Continue, set_pending st (pending_responses (state (turn (Tick now) st)))
                 (channel_counter st), eviction_log now (pending_responses st)) /\
  Forall is_log (effects_of (turn (Tick now) st)).
Proof.
  rewrite turn_tick. split; [|split; [done|apply eviction_log_is_log]].
  rewrite <- (turn_tick alloc auto). intros id c t.
  change (pending_responses (state (turn (Tick now) st)))
    with (table (state (turn (Tick now) st))).1.
  rewrite turn_table. cbn [table_step table fst]. rewrite map_lookup_filter_Some.
  unfold fresh_response, duration_since. cbn [snd]. rewrite Z.ltb_lt.
  pose proof response_ttl_ns. split; intros [? ?]; (split; [done|lia]).
Qed.

(** C24: No response channel is kept for 75 seconds: with an eviction tick at
    least every [eviction_interval], the age of every entry is below
    [response_ttl + eviction_interval] at every moment of a run. *)
Theorem pending_age_bound s t0 inputs id c t :
  well_timed t0 t0 inputs ->
  (forall i, i ∈ inputs -> i <> Recv (Some Shutdown) /\ i <> Recv None) ->
  pending_responses (state (swarm_loop inputs (init_state s))) !! id = Some (c, t) ->
  0 <= clock t0 inputs - t < response_ttl + eviction_interval.
Proof.
  intros Hw Hi Hx. destruct (run_aged t0 t0 inputs (init_state s)) as (last' & Hl & Hage);
    [|done..|].
  - unfold aged. pose proof eviction_interval_ns. split; [lia|].
    intros id' c' t'. cbn. by rewrite lookup_empty.
  - apply Hage in Hx. lia.
Qed.
End requests.

(** ** Witnesses *)
Definition sim_request (n now : Z) : Input nat :=
  Event now (Behaviour (RR_Request "peer-1" n [Byte.x2a] ("channel-" +:+ pretty n))).

Definition sim_inputs : list (Input nat) :=
  [Recv (Some (RegisterEventHandler 7%nat)); sim_request 1 0; sim_request 2 (from_secs 14);
   Tick (from_secs 15)].

Lemma request_table_refines_witness :
  exists σ, spec_run sim_inputs (mkSpec ∅ 0) σ /\
    implements (state (swarm_loop (Term:=ETerm) (fun _ => true) true sim_inputs
                         (init_state sim_full))) σ.
Proof.
  apply (request_table_refines (Term:=ETerm) (fun _ => true) true sim_full sim_inputs).
  reflexivity.
Defined.

Lemma announced_ids_distinct_witness :
  channel_name 1 <> channel_name 2 /\
  let st := state (swarm_loop (Term:=ETerm) (fun _ => true) true (take 2 sim_inputs) (init_state sim_full)) in
  pending_responses st !! "ch-1" = Some ("channel-1", 0).
Proof.
  destruct (announced_ids_distinct (Term:=ETerm) (fun _ => true) true sim_full sim_inputs ltac:(reflexivity)) as [Hd Hr].
  split.
  - eapply (Hd 0%nat 1%nat); [lia|reflexivity|do 4 eexists; reflexivity|reflexivity|do 4 eexists; reflexivity].
  - edestruct (Hr (take 1 sim_inputs) (sim_request 1 0) [] (drop 2 sim_inputs)) as (now & p & rid & d & c & pid & Hi & _ & Hp & _).
    + reflexivity.
    + by left.
    + do 4 eexists. reflexivity.
    + injection Hi as <- <- <- <- <-. exact Hp.
Defined.

Lemma response_at_most_once_witness :
  pending_responses (state (swarm_loop (Term:=ETerm) (fun _ => true) true
    [Recv (Some (RpcSendResponse "ch-1" [])); sim_request 3 (from_secs 16)]
    (state (swarm_loop (Term:=ETerm) (fun _ => true) true sim_inputs (init_state sim_full)))))
    !! "ch-1" = None.
Proof.
  apply (response_at_most_once (Term:=ETerm) (fun _ => true) true sim_full sim_inputs
           [sim_request 3 (from_secs 16)] "ch-1" [] []).
  - reflexivity.
  - vm_compute. eauto.
Defined.

Lemma pending_age_bound_witness : 0 <= from_secs 15 - from_secs 14 < from_secs 75.
Proof.
  eapply (pending_age_bound (Term:=ETerm) (fun _ => true) true sim_full 0 sim_inputs "ch-2").
  - vm_compute. repeat split; intros; discriminate.
  - intros i Hi. unfold sim_inputs in Hi.
    repeat (apply elem_of_cons in Hi as [->|Hi]; [split; discriminate|]).
    by apply elem_of_nil in Hi.
  - vm_compute. reflexivity.
Defined.
