(* ===== verification/Answers.v ===== *)
(** * What the loop answers, and to whom

    Properties of the turns of [SwarmLoop] as seen by the callers of the native
    interface: which oneshot channels a run answers, which process the
    notifications go to, what a command may change, and what happens to the
    commands of a protocol that is disabled. *)
From S2P Require Import Prelude Bytes Policy Terms Libp2p Sim DhtState Commands Events SwarmLoop.
From stdpp Require Import options.

#[local] Set Default Proof Using "Type".

(** The parts of the behaviour a command can address. *)
Inductive Part := PGossipsub | PKademlia | PRequestResponse | PRendezvous.

(** [b2] is [b1] but for the part. *)
Definition same_but `{!Protocols} (p : Part) (b1 b2 : NodeBehaviour) : Prop :=
  match p with
  | PGossipsub => b2 = set_gossipsub b1 (gossipsub b2)
  | PKademlia => b2 = b1 \/ exists k, is_Some (kademlia b1) /\ b2 = set_kademlia b1 k
  | PRequestResponse => b2 = set_request_response b1 (request_response b2)
  | PRendezvous =>
      b2 = b1 \/ exists r, is_Some (rendezvous_client b1) /\ b2 = set_rendezvous_client b1 r
  end.

Section answers.
Context `{!Protocols} {Swarm LocalPid Term : Type} `{!SwarmOps Swarm, !TermEnc Term}.
Context (alloc : Z -> bool) (auto : bool).
Implicit Types (st : LoopState Swarm LocalPid) (i : Input LocalPid).

Local Abbreviation turn := (turn (LocalPid:=LocalPid) (Term:=Term) alloc auto).
Local Abbreviation swarm_loop := (swarm_loop (LocalPid:=LocalPid) (Term:=Term) alloc auto).

(** The oneshot channel an input asks to be answered on. *)
Definition input_reply i : option { t : ReplyTy & Sender t } :=
  match i with Recv cmd => cmd ≫= command_reply | _ => None end.

Lemma turn_replies i st : replies (effects_of (turn i st)) = option_list (input_reply i).
Proof.
  destruct i as [now|cmd|now ev].
  - apply turn_tick_effects.
  - apply on_command_effects.
  - rewrite turn_event. apply on_event_replies.
Qed.

Lemma omap_cons_list {A B} (f : A -> option B) x l :
  omap f (x :: l) = option_list (f x) ++ omap f l.
Proof. cbn. by destruct (f x). Qed.

Lemma run_replies inputs st :
  replies (effects_of (swarm_loop inputs st)) = omap input_reply (taken inputs).
Proof.
  revert st. induction inputs as [|i inputs IH]; intros st; [done|].
  rewrite swarm_loop_cons, turn_control, taken_cons, omap_cons_list.
  destruct (ends i); cbn [effects_of snd].
  - rewrite turn_replies. cbn [omap list_omap]. by rewrite app_nil_r.
  - by rewrite replies_app, turn_replies, IH.
Qed.

(** ** The registered process *)
Definition register_of i : option LocalPid :=
  match i with Recv (Some (RegisterEventHandler pid)) => Some pid | _ => None end.

(** The process registered by a sequence of turns, [h] being registered before. *)
Definition registered_after (h : option LocalPid) (inputs : list (Input LocalPid)) :
    option LocalPid :=
  foldl (fun h i => match register_of i with Some pid => Some pid | None => h end) h inputs.

Lemma handler_discovered peers st :
  event_handler (state (on_discovered_peers (Term:=Term) auto peers st)) = event_handler st.
Proof.
  revert st. induction peers as [|[p a] peers IH]; intros st; [done|]. cbn [on_discovered_peers].
  unfold mbind, LoopM_bind.
  assert (event_handler (state (on_discovered_peer (Term:=Term) auto p a st)) =
    event_handler st) as E by (unfold on_discovered_peer; by loop_exec).
  revert E. unfold state. destruct (on_discovered_peer auto p a st) as [[u st1] l1].
  intros E. specialize (IH st1). unfold state in IH.
  destruct (on_discovered_peers auto peers st1) as [[u' st2] l2]. cbn in *. congruence.
Qed.

Lemma turn_handler i st :
  event_handler (state (turn i st)) =
    match register_of i with Some pid => Some pid | None => event_handler st end.
Proof.
  destruct i as [now|[[]|]|now ev]; try (by loop_exec).
  rewrite turn_event. cbn [state fst snd].
  destruct ev as [| | | | |[]|]; try (by loop_exec).
  cbn [on_event]. unfold mbind, LoopM_bind. pose proof (handler_discovered peers st) as E.
  unfold state in *. destruct (on_discovered_peers auto peers st) as [[u st1] l1].
  cbn in E. loop_unfold. rewrite E. by destruct (event_handler st).
Qed.

Lemma run_handler inputs st :
  event_handler (state (swarm_loop inputs st)) = registered_after (event_handler st) (taken inputs).
Proof.
  revert st. induction inputs as [|i inputs IH]; intros st; [done|].
  rewrite swarm_loop_cons, turn_control, taken_cons. unfold registered_after. cbn [foldl].
  destruct (ends i); cbn [state fst snd]; [by rewrite turn_handler|].
  fold (registered_after (match register_of i with Some pid => Some pid | None => event_handler st end)
         (taken inputs)).
  by rewrite <-turn_handler, IH.
Qed.

Definition one_message (h : option LocalPid) (l : list (Effect LocalPid Term)) : Prop :=
  (length (notifications l) <= 1)%nat /\ Forall (fun n => h = Some n.1) (notifications l).

Lemma one_message_nil h l : notifications l = [] -> one_message h l.
Proof. intros E. unfold one_message. rewrite E. split; [cbn; lia|done]. Qed.

Lemma one_message_one h pid m : h = Some pid -> one_message h [Notify pid m].
Proof. intros ->. split; [done|]. by repeat constructor. Qed.

#[local] Ltac one_message := first [by apply one_message_nil | by apply one_message_one].

Lemma turn_notifies i st : one_message (event_handler st) (effects_of (turn i st)).
Proof.
  destruct i as [now|cmd|now ev].
  - apply one_message_nil, turn_tick_effects.
  - apply one_message_nil, on_command_effects.
  - rewrite turn_event. cbn [effects_of snd].
    destruct ev as [| | | | |[]|]; try (loop_exec; one_message).
    cbn [on_event]. unfold mbind, LoopM_bind.
    pose proof (on_discovered_peers_log auto peers st) as Hl.
    pose proof (handler_discovered peers st) as Hh. unfold effects_of, state in *.
    destruct (on_discovered_peers auto peers st) as [[u st1] l1]. cbn [fst snd] in Hl, Hh.
    rewrite <-Hh. loop_unfold. unfold one_message.
    destruct (event_handler st1) as [pid|]; cbn [fst snd app];
      rewrite notifications_app, (notifications_log l1) by done; [|by apply one_message_nil].
    destruct peers as [|[p a] [|[q b] rest]]; [by apply one_message_nil|by apply one_message_one..].
Qed.

(** ** What a command may change *)

(** The part a command addresses; the commands that work on the connections
    ([Dial], [ListenViaRelay]) or only on the loop's own variables are [None]. *)
Definition addresses_part (cmd : Command LocalPid) : option Part :=
  match cmd with
  | Publish _ _ | Subscribe _ | Unsubscribe _ => Some PGossipsub
  | DhtPut _ _ | DhtGet _ | DhtFindPeer _ | DhtProvide _ | DhtFindProviders _ | DhtBootstrap
  | DhtExportRoutingTable _ | DhtImportRoutingTable _ _ => Some PKademlia
  | RpcSendRequest _ _ _ | RpcSendResponse _ _ => Some PRequestResponse
  | RendezvousRegister _ _ _ | RendezvousDiscover _ _ | RendezvousUnregister _ _ =>
      Some PRendezvous
  | _ => None
  end.

(** The queries that only read. *)
Definition answer st (cmd : Command LocalPid) : option (Effect LocalPid Term) :=
  match cmd with
  | ConnectedPeers tx => Some (Reply TPeers tx (connected_peers (swarm st)))
  | ListeningAddrs tx => Some (Reply TAddrs tx (listeners (swarm st)))
  | BandwidthStats tx => Some (Reply TBandwidth tx (0, 0))
  | GossipsubMeshPeers topic tx =>
      Some (Reply TPeers tx (gs_mesh_peers (gossipsub (behaviour (swarm st)))
                               (topic_hash (topic_new topic))))
  | GossipsubAllPeers tx =>
      Some (Reply TPeers tx (map fst (gs_all_peers (gossipsub (behaviour (swarm st))))))
  | GossipsubPeerScore p tx =>
      Some (Reply TScore tx (gs_peer_score (gossipsub (behaviour (swarm st))) p))
  | _ => None
  end.

(** The refusal of a command whose protocol is disabled. *)
Definition refusal (cmd : Command LocalPid) (e : Effect LocalPid Term) : Prop :=
  match cmd with
  | DhtExportRoutingTable tx => e = Reply TEntries tx (inl tt)
  | DhtImportRoutingTable _ tx => e = Reply TCount tx (inl tt)
  | _ => exists m, e = Warn m
  end.

Definition disabled st (cmd : Command LocalPid) : Prop :=
  match addresses_part cmd with
  | Some PKademlia => kademlia (behaviour (swarm st)) = None
  | Some PRendezvous => rendezvous_client (behaviour (swarm st)) = None
  | _ => False
  end.

(** They return the current value and leave the state as it is. *)
Lemma answer_turn cmd st e :
  answer st cmd = Some e -> turn (Recv (Some cmd)) st = (Continue, st, [e]).
Proof. by destruct cmd; intros [= <-]. Qed.

Lemma taken_app_end pre i post : ends i = true -> taken (pre ++ i :: post) = taken (pre ++ [i]).
Proof.
  intros Hi. induction pre as [|j pre IH]; cbn; [by rewrite Hi|]. by rewrite IH.
Qed.

(** ** Properties *)

(** C18: Every query is answered exactly once, on its own oneshot channel and
    in the order of the commands: the channels a run answers are those of the
    commands it takes, and ticks and swarm events answer none. *)
Theorem queries_answered_in_order inputs st :
  replies (effects_of (swarm_loop inputs st)) = omap input_reply (taken inputs).
Proof. apply run_replies. Qed.

(** Every turn sends at most one message to Elixir, and only to the
    process registered last: before the first registration nothing is sent,
    and a new registration redirects everything that follows. *)
Theorem notifications_to_registered s pre i :
  one_message (registered_after None (taken pre))
    (effects_of (turn i (state (swarm_loop pre (init_state s))))).
Proof.
  pose proof (run_handler pre (init_state s)) as E. cbn in E. rewrite <-E. apply turn_notifies.
Qed.

(** C27: The loop ends only on a shutdown request or a closed command channel:
    no failed dial, publish, query or response, and no swarm event, stops it;
    and nothing that comes after the shutdown is processed. *)
Theorem loop_ends_on_shutdown_only inputs st :
  (control (swarm_loop inputs st) = Break <->
     Recv (Some Shutdown) ∈ inputs \/ Recv None ∈ inputs) /\
  (forall pre i post, ends i = true ->
     swarm_loop (pre ++ i :: post) st = swarm_loop (pre ++ [i]) st).
Proof.
  split.
  - rewrite (proj2 (swarm_loop_taken alloc auto inputs st)). split.
    + intros ([|[[]|]|] & Hi & He); try discriminate He; auto.
    + intros [Hi|Hi]; by eexists.
  - intros pre i post Hi. rewrite (proj1 (swarm_loop_taken alloc auto (pre ++ i :: post) st)).
    rewrite taken_app_end by done. symmetry. apply swarm_loop_taken.
Qed.

Context `{!SwarmOk Swarm}.

Lemma same_but_refl p b : same_but p b b.
Proof. destruct p; cbn; auto; by destruct b. Qed.

Lemma command_part cmd st p :
  addresses_part cmd = Some p ->
  exists b, swarm (state (turn (Recv (Some cmd)) st)) = set_behaviour (swarm st) b /\
    same_but p (behaviour (swarm st)) b.
Proof using Type*.
  destruct cmd; intros [= <-]; loop_exec;
    first [ eexists; split; [by rewrite set_behaviour_id|apply same_but_refl]
          | eexists; split; [reflexivity|]; cbn; by eauto].
Qed.
(** C25: Commands are isolated from each other's protocols: a GossipSub,
    Kademlia, request-response or rendezvous command changes that protocol of
    the swarm and nothing else of its behaviour, creates no protocol that is
    disabled, and leaves the registered process alone. *)
Theorem command_isolation cmd st p :
  addresses_part cmd = Some p ->
  event_handler (state (turn (Recv (Some cmd)) st)) = event_handler st /\
  exists b, swarm (state (turn (Recv (Some cmd)) st)) = set_behaviour (swarm st) b /\
    same_but p (behaviour (swarm st)) b.
Proof using Type*.
  intros Hp. split; [|by apply command_part].
  rewrite turn_handler. by destruct cmd.
Qed.

(** Commands of a disabled protocol are inert: with Kademlia or the
    rendezvous client off, they leave the state as it is, and the caller is
    refused - by an error reply when the command has one to give, otherwise by
    a warning in the log. *)
Theorem disabled_inert cmd st :
  disabled st cmd ->
  exists e, turn (Recv (Some cmd)) st = (Continue, st, [e]) /\ refusal cmd e.
Proof using Type.
  unfold disabled. destruct cmd; try done; cbn [addresses_part]; intros Hd;
    loop_unfold; rewrite Hd; eexists; (split; [by destruct st|]); cbn; by eauto.
Qed.
End answers.

(** ** Witnesses *)
Definition sim_state (s : SimSwarm) : LoopState SimSwarm nat := init_state s.

Local Abbreviation sim_turn := (turn (LocalPid:=nat) (Term:=ETerm) (fun _ => true) true).

Lemma command_isolation_witness :
  exists b, swarm (state (sim_turn (Recv (Some (Subscribe "news"))) (sim_state sim_full))) =
    set_behaviour sim_full b /\ same_but PGossipsub (behaviour sim_full) b.
Proof.
  apply (command_isolation (Term:=ETerm) (fun _ => true) true (Subscribe "news")
           (sim_state sim_full) PGossipsub). reflexivity.
Defined.

Lemma disabled_inert_witness :
  exists e, sim_turn (Recv (Some (DhtExportRoutingTable 9%N))) (sim_state sim_bare) =
    (Continue, sim_state sim_bare, [e]) /\ e = Reply TEntries 9%N (inl tt).
Proof.
  apply (disabled_inert (Term:=ETerm) (fun _ => true) true (DhtExportRoutingTable 9%N)
           (sim_state sim_bare)). reflexivity.
Defined.

Lemma loop_ends_on_shutdown_only_witness :
  swarm_loop (LocalPid:=nat) (Term:=ETerm) (fun _ => true) true
      ([Recv (Some (Dial "/ip4/10.0.0.1/tcp/1"))] ++ Recv (Some Shutdown) :: [Recv (Some (Subscribe "late"))])
      (sim_state sim_full) =
  swarm_loop (fun _ => true) true
      ([Recv (Some (Dial "/ip4/10.0.0.1/tcp/1"))] ++ [Recv (Some Shutdown)]) (sim_state sim_full).
Proof.
  apply (proj2 (loop_ends_on_shutdown_only (LocalPid:=nat) (Term:=ETerm) (fun _ => true) true []
           (sim_state sim_full))). reflexivity.
Defined.
