(* ===== verification/Routing.v ===== *)
(** * Saving and restoring the routing table

    What export and import do to the Kademlia routing table, from the table of
    one node through the snapshot format of [DhtState] to the table of another,
    and what the loop does with the peers that mDNS discovers. *)
From S2P Require Import Prelude Bytes Policy Terms Libp2p Sim DhtState Commands Events SwarmLoop.
From stdpp Require Import options.

#[local] Set Default Proof Using "Type".

Section routing.
Context `{!Protocols} {Swarm LocalPid Term : Type} `{!SwarmOps Swarm, !TermEnc Term}.
Context (alloc : Z -> bool) (auto : bool).
Implicit Types (st : LoopState Swarm LocalPid) (kad : Kad).
Implicit Types (buckets : list (list (PeerId * list Multiaddr))).

Local Abbreviation turn := (turn (LocalPid:=LocalPid) (Term:=Term) alloc auto).
Local Abbreviation import_addresses := (import_addresses (LocalPid:=LocalPid) (Term:=Term)).
Local Abbreviation import_entries := (import_entries (LocalPid:=LocalPid) (Term:=Term)).

(** ** Specification *)

(** The peers and addresses of a routing table, one pair per address. *)
Definition table_pairs buckets : list (PeerId * Multiaddr) :=
  '(p, addrs) ← concat buckets; a ← addrs; [(p, a)].

(** The pairs of a snapshot that can be read back. *)
Definition addr_pairs (p : PeerId) (addrs : list bytes) : list (PeerId * Multiaddr) :=
  omap (fun b => (fun a => (p, a)) <$> sum_ok (addr_try_from b)) addrs.

Definition entry_pairs (e : RoutingEntry) : list (PeerId * Multiaddr) :=
  match peer_from_bytes (DhtState.peer_id e) with
  | inr p => addr_pairs p (addresses e)
  | inl _ => []
  end.

Definition readable_pairs (entries : list RoutingEntry) : list (PeerId * Multiaddr) :=
  entries ≫= entry_pairs.

(** Adding pairs one by one, whatever the router answers. *)
Definition add_pairs kad (pairs : list (PeerId * Multiaddr)) : Kad :=
  foldl (fun kad '(p, a) => (kad_add_address kad p a).1) kad pairs.

(** The peers, or the addresses of readable peers, that are skipped. *)
Definition unreadable (e : RoutingEntry) : nat :=
  match peer_from_bytes (DhtState.peer_id e) with
  | inr p => (length (addresses e) - length (addr_pairs p (addresses e)))%nat
  | inl _ => 1
  end.

Definition table_entries_fit buckets : Prop :=
  entries_wf (export_entries buckets) /\
  len (encode (export_entries buckets)) <= MAX_DHT_EXPORT_BYTES.

(** ** Import *)
Lemma add_pairs_app kad l k : add_pairs kad (l ++ k) = add_pairs (add_pairs kad l) k.
Proof. apply foldl_app. Qed.

Lemma length_omap_le {A B} (f : A -> option B) l : (length (omap f l) <= length l)%nat.
Proof. induction l as [|x l IH]; cbn; [lia|]. destruct (f x); cbn; lia. Qed.

Lemma import_addresses_spec kad p addrs n :
  exists l, import_addresses kad p addrs n =
    (add_pairs kad (addr_pairs p addrs), n + len (addr_pairs p addrs), l) /\
    length l = (length addrs - length (addr_pairs p addrs))%nat.
Proof.
  revert kad n. induction addrs as [|b addrs IH]; intros kad n.
  { exists []. cbn. by rewrite Z.add_0_r. }
  cbn [SwarmLoop.import_addresses]. unfold addr_pairs in *. cbn [omap list_omap].
  pose proof (length_omap_le (fun b => (fun a => (p, a)) <$> sum_ok (addr_try_from b)) addrs).
  destruct (addr_try_from b) as [e|a]; cbn [sum_ok fmap option_fmap option_map].
  - destruct (IH kad n) as (l & -> & Hl). eexists. split; [done|]. cbn [length]. lia.
  - destruct (kad_add_address kad p a) as [kad' u] eqn:Hadd.
    destruct (IH kad' (n + 1)) as (l & -> & Hl). exists l. split; [|cbn; lia].
    unfold add_pairs. cbn [foldl]. rewrite Hadd. cbn [fst].
    rewrite len_cons. by rewrite Z.add_assoc.
Qed.

Lemma import_entries_spec kad entries n :
  exists l, import_entries kad entries n =
    (add_pairs kad (readable_pairs entries), n + len (readable_pairs entries), l) /\
    length l = sum_list_with unreadable entries.
Proof.
  revert kad n. induction entries as [|e entries IH]; intros kad n.
  { exists []. cbn. by rewrite Z.add_0_r. }
  change (readable_pairs (e :: entries)) with (entry_pairs e ++ readable_pairs entries).
  cbn [SwarmLoop.import_entries sum_list_with]. unfold entry_pairs, unreadable at 1.
  destruct (peer_from_bytes (DhtState.peer_id e)) as [err|p].
  - destruct (IH kad n) as (l & -> & Hl). eexists. split; [done|]. cbn. by rewrite Hl.
  - destruct (import_addresses_spec kad p (addresses e) n) as (l1 & -> & Hl1).
    destruct (IH (add_pairs kad (addr_pairs p (addresses e)))
                (n + len (addr_pairs p (addresses e)))) as (l2 & -> & Hl2).
    eexists. split; [|rewrite length_app, Hl1, Hl2; done].
    by rewrite add_pairs_app, len_app, Z.add_assoc.
Qed.

(** ** Export *)
Section export.
Context `{!ProtocolsOk}.

Lemma addr_pairs_to_vec p addrs :
  addr_pairs p (map addr_to_vec addrs) = (fun a => (p, a)) <$> addrs.
Proof using Type*.
  induction addrs as [|a addrs IH]; [done|]. unfold addr_pairs in *.
  cbn [map omap list_omap]. rewrite addr_bytes_roundtrip. cbn. by rewrite IH.
Qed.

(** Everything that is exported can be read back. *)
Lemma readable_export buckets :
  readable_pairs (export_entries buckets) = table_pairs buckets /\
  sum_list_with unreadable (export_entries buckets) = 0%nat.
Proof using Type*.
  unfold readable_pairs, export_entries, table_pairs. induction (concat buckets) as [|[p addrs] l IH]; [done|].
  destruct IH as [IH1 IH2]. cbn [map mbind list_bind sum_list_with].
  unfold entry_pairs at 1, unreadable at 1. cbn [DhtState.peer_id addresses].
  rewrite peer_bytes_roundtrip, addr_pairs_to_vec, length_fmap, length_map, Nat.sub_diag. split; [|done].
  rewrite IH1. by f_equal.
Qed.
End export.

Lemma turn_export st tx kad :
  kademlia (behaviour (swarm st)) = Some kad ->
  effects_of (turn (Recv (Some (DhtExportRoutingTable tx))) st) =
    [Reply TEntries tx (inr (export_entries (kad_kbuckets kad).2))].
Proof. intros Hk. loop_unfold. rewrite Hk. by destruct (kad_kbuckets kad). Qed.

Lemma turn_import st tx kad entries :
  kademlia (behaviour (swarm st)) = Some kad ->
  let r := turn (Recv (Some (DhtImportRoutingTable entries tx))) st in
  exists l, effects_of r = l ++ [Reply TCount tx (inr (len (readable_pairs entries)))] /\
    Forall is_log l /\ length l = sum_list_with unreadable entries /\
    swarm (state r) =
      set_behaviour (swarm st)
        (set_kademlia (behaviour (swarm st)) (add_pairs kad (readable_pairs entries))).
Proof.
  intros Hk. loop_unfold. rewrite Hk.
  pose proof (import_entries_log (LocalPid:=LocalPid) (Term:=Term) kad entries 0) as Hlog.
  destruct (import_entries_spec kad entries 0) as (l & E & Hl). rewrite E in Hlog |- *.
  cbn [fst snd app] in *. exists l. by rewrite app_nil_r.
Qed.

(** ** Properties *)

(** C23: Importing a snapshot adds, in order, exactly its readable (peer,
    address) pairs to the routing table, warns once for every entry or address
    it skips, and replies with the number of pairs it handed to the router. *)
Theorem import_functional st tx kad entries :
  kademlia (behaviour (swarm st)) = Some kad ->
  let r := turn (Recv (Some (DhtImportRoutingTable entries tx))) st in
  exists l, effects_of r = l ++ [Reply TCount tx (inr (len (readable_pairs entries)))] /\
    Forall is_log l /\ length l = sum_list_with unreadable entries /\
    swarm (state r) =
      set_behaviour (swarm st)
        (set_kademlia (behaviour (swarm st)) (add_pairs kad (readable_pairs entries))).
Proof. apply turn_import. Qed.

(** A routing table survives a restart: the snapshot exported from one
    node, encoded and decoded again, and imported into another adds exactly the
    (peer, address) pairs of the first node's table, none skipped, and reports
    their number - provided the table fits the format and the import cap. *)
Theorem export_import_roundtrip `{!ProtocolsOk} st1 st2 tx1 tx2 kad1 kad2 :
  kademlia (behaviour (swarm st1)) = Some kad1 ->
  kademlia (behaviour (swarm st2)) = Some kad2 ->
  table_entries_fit (kad_kbuckets kad1).2 ->
  exists exported,
    effects_of (turn (Recv (Some (DhtExportRoutingTable tx1))) st1) =
      [Reply TEntries tx1 (inr exported)] /\
    decode (encode exported) = Ok exported /\
    let r := turn (Recv (Some (DhtImportRoutingTable exported tx2))) st2 in
    let pairs := table_pairs (kad_kbuckets kad1).2 in
    effects_of r = [Reply TCount tx2 (inr (len pairs))] /\
    swarm (state r) =
      set_behaviour (swarm st2) (set_kademlia (behaviour (swarm st2)) (add_pairs kad2 pairs)).
Proof.
  intros H1 H2 [Hwf Hlen]. exists (export_entries (kad_kbuckets kad1).2).
  split; [by apply turn_export|]. split.
  { rewrite <-(app_nil_r (encode _)). apply decode_complete; [done|]. by rewrite app_nil_r. }
  destruct (readable_export (kad_kbuckets kad1).2) as [Hp Hu].
  destruct (turn_import st2 tx2 kad2 (export_entries (kad_kbuckets kad1).2) H2)
    as (l & He & _ & Hl & Hs).
  rewrite Hu in Hl. destruct l; [|done]. cbv zeta. by rewrite He, Hs, Hp.
Qed.

(** ** Discovered peers *)
Definition with_pairs (s : Swarm) (peers : list (PeerId * Multiaddr)) : Swarm :=
  match kademlia (behaviour s) with
  | Some kad => set_behaviour s (set_kademlia (behaviour s) (add_pairs kad peers))
  | None => s
  end.

Section discovered.
Context `{!SwarmOk Swarm}.

Lemma with_pairs_nil s : with_pairs s [] = s.
Proof using Type*.
  unfold with_pairs. destruct (kademlia (behaviour s)) as [kad|] eqn:E; [|done].
  assert (set_kademlia (behaviour s) (add_pairs kad []) = behaviour s) as ->.
  { unfold set_kademlia. cbn. rewrite <-E. by destruct (behaviour s). }
  apply set_behaviour_id.
Qed.

Lemma with_pairs_cons s p a peers : with_pairs (with_pairs s [(p, a)]) peers = with_pairs s ((p, a) :: peers).
Proof using Type*.
  unfold with_pairs. destruct (kademlia (behaviour s)) as [kad|] eqn:E.
  - rewrite behaviour_set. cbn [kademlia set_kademlia]. by rewrite set_set_behaviour.
  - by rewrite E.
Qed.

(** Without auto-dial the peers only enter the routing table. *)
Lemma discovered_no_dial peers st :
  on_discovered_peers (LocalPid:=LocalPid) (Term:=Term) false peers st =
    (tt, set_swarm st (with_pairs (swarm st) peers), []).
Proof using Type*.
  revert st. induction peers as [|[p a] peers IH]; intros st.
  { cbn. rewrite with_pairs_nil. by destruct st. }
  cbn [on_discovered_peers]. unfold mbind, LoopM_bind.
  assert (on_discovered_peer (LocalPid:=LocalPid) (Term:=Term) false p a st =
    (tt, set_swarm st (with_pairs (swarm st) [(p, a)]), [])) as ->.
  { unfold on_discovered_peer, with_pairs. loop_unfold.
    destruct (kademlia (behaviour (swarm st))) as [kad|]; [|by destruct st].
    cbn [add_pairs foldl]. by destruct (kad_add_address kad p a). }
  rewrite IH. cbn [swarm set_swarm]. by rewrite with_pairs_cons.
Qed.
End discovered.

(** With [mdns_auto_dial] off, discovering peers dials no one: the swarm
    changes only by the discovered addresses entering the Kademlia routing
    table, in order, when Kademlia is enabled, and the registered process is
    told of the peers. *)
Theorem discovery_without_auto_dial `{!SwarmOk Swarm} now peers st :
  SwarmLoop.turn (Term:=Term) alloc false (Event now (Behaviour (Mdns_Discovered peers))) st =
    (Continue, set_swarm st (with_pairs (swarm st) peers),
     match event_handler st with
     | Some pid => send_peers_discovered pid peers
     | None => []
     end).
Proof.
  rewrite turn_event. cbn [on_event]. unfold mbind, LoopM_bind. rewrite discovered_no_dial.
  loop_unfold. cbn [event_handler set_swarm app]. by destruct (event_handler st).
Qed.
End routing.

(** ** Witnesses *)
Definition sim_table : list (@PeerId SimProtocols * list (@Multiaddr SimProtocols)) :=
  [("peer-1", ["/ip4/10.0.0.1/tcp/1"; "/ip4/10.0.0.1/udp/2"]); ("peer-2", [])].

Definition sim_from : LoopState SimSwarm nat := init_state (sim_node (Some sim_table) None).

Lemma import_functional_witness :
  exists l, Forall is_log l /\ length l = 0%nat /\
    effects_of (turn (LocalPid:=nat) (Term:=ETerm) (fun _ => true) true
      (Recv (Some (DhtImportRoutingTable (export_entries [sim_table]) 4%N))) sim_from) =
    l ++ [Reply TCount 4%N (inr 2)].
Proof.
  destruct (import_functional (LocalPid:=nat) (Term:=ETerm) (fun _ => true) true sim_from 4%N
    sim_table (export_entries [sim_table])) as (l & He & Hl & Hn & _); [reflexivity|].
  exists l. split; [exact Hl|]. split; [exact Hn|exact He].
Defined.

Lemma export_import_roundtrip_witness :
  exists exported, decode (encode exported) = Ok exported /\
    effects_of (turn (LocalPid:=nat) (Term:=ETerm) (fun _ => true) true
      (Recv (Some (DhtImportRoutingTable exported 4%N))) (init_state sim_full)) =
    [Reply TCount 4%N (inr 2)].
Proof.
  destruct (export_import_roundtrip (LocalPid:=nat) (Term:=ETerm) (fun _ => true) true sim_from
    (init_state sim_full) 3%N 4%N sim_table []) as (exported & _ & Hd & He & _).
  - reflexivity.
  - reflexivity.
  - split.
    + apply (bool_decide_unpack _). vm_compute. exact I.
    + vm_compute. discriminate.
  - exists exported. split; [exact Hd|exact He].
Defined.

Definition sim_peers : list (@PeerId SimProtocols * @Multiaddr SimProtocols) :=
  [("peer-9", "/ip4/10.0.0.9/tcp/1")].

Lemma discovery_without_auto_dial_witness :
  swarm (state (turn (LocalPid:=nat) (Term:=ETerm) (fun _ => true) false
    (Event 0 (Behaviour (Mdns_Discovered sim_peers))) sim_from)) =
  sim_node (Some (sim_table ++ [("peer-9", ["/ip4/10.0.0.9/tcp/1"])])) None.
Proof.
  rewrite (discovery_without_auto_dial (Term:=ETerm) (fun _ => true) 0 sim_peers sim_from).
  reflexivity.
Defined.
