(* ===== verification/NodeEvents.v ===== *)
(** * Delivery of events on the Elixir side

    Model of the receiving end of the native messages: [PeerId.new] of
    [lib/ex_libp2p/peer_id.ex], [Event.from_raw] of
    [lib/ex_libp2p/node/event.ex], and the [handle_info] clauses and
    [event_type_for] of [lib/ex_libp2p/node.ex].  The terms are [ETerm]; an
    Elixir binary is an [EStr] or an [EBin].  The properties compose this model
    with the translation of [Events] and the loop of [SwarmLoop]. *)
From S2P Require Import Prelude Bytes Policy Terms Libp2p Sim Commands Events SwarmLoop Requests.
From S2P Require Import Answers.
From stdpp Require Import options.

(** ** [ExLibp2p.PeerId] *)
Module PeerIdStruct.
Definition min_length : nat := 40.
Definition base58_chars : bytes :=
  String.list_byte_of_string "123456789ABCDEFGHJKLMNPQRSTUVWXYZabcdefghijkmnopqrstuvwxyz".

Fixpoint base58 (raw : bytes) : bool :=
  match raw with
  | char :: rest => bool_decide (char ∈ base58_chars) && base58 rest
  | [] => true
  end.

(** [is_binary] and the bytes of the binary. *)
Definition binary (t : ETerm) : option bytes :=
  match t with
  | EStr s => Some (String.list_byte_of_string s)
  | EBin b => Some b
  | _ => None
  end.

(** [None] is [{:error, :invalid_peer_id}]; the struct holds the identifier. *)
Definition new (raw : ETerm) : option bytes :=
  match binary raw with
  | Some id => if (min_length <=? length id)%nat && base58 id then Some id else None
  | None => None
  end.
End PeerIdStruct.

(** ** [ExLibp2p.Node.Event] *)
Module NodeEvent.
Inductive t : Type :=
  | ConnectionEstablished (peer_id : bytes) (num_established endpoint : ETerm)
  | ConnectionClosed (peer_id : bytes) (num_established cause : ETerm)
  | NewListenAddr (address listener_id : ETerm)
  | GossipsubMessage (topic data : ETerm) (source : option bytes) (message_id : ETerm)
  | PeerDiscovered (peer_id : bytes) (addresses : ETerm)
  | DHTQueryResult (query_id result : ETerm)
  | InboundRequest (request_id channel_id : ETerm) (peer_id : bytes) (data : ETerm)
  | OutboundResponse (request_id : ETerm) (peer_id : bytes) (data : ETerm)
  | NatStatusChanged (status address : ETerm)
  | RelayReservationAccepted (relay_peer_id : bytes) (relay_addr : ETerm)
  | HolePunchOutcome (peer_id : bytes) (result : ETerm)
  | ExternalAddrConfirmed (address : ETerm)
  | DialFailure (peer_id : option bytes) (error : ETerm).

(** The outcome of [from_raw]: the call returns, or [PeerId.new!] raises. *)
Inductive outcome : Type :=
  | Parsed (event : t)
  | Unknown_event
  | Raised (argument : ETerm).

(** [PeerId.new!] in an expression that goes on with the struct. *)
Definition new_bang (raw : ETerm) (k : bytes -> t) : outcome :=
  match PeerIdStruct.new raw with
  | Some id => Parsed (k id)
  | None => Raised raw
  end.

Definition from_raw (raw : ETerm) : outcome :=
  match raw with
  | ETuple [EAtom a_connection_established; peer_id_str; num_established; endpoint] =>
      new_bang peer_id_str (fun p => ConnectionEstablished p num_established endpoint)
  | ETuple [EAtom a_connection_closed; peer_id_str; num_established; cause] =>
      new_bang peer_id_str (fun p => ConnectionClosed p num_established cause)
  | ETuple [EAtom a_new_listen_addr; address; listener_id] =>
      Parsed (NewListenAddr address listener_id)
  | ETuple [EAtom a_gossipsub_message; topic; data; EAtom a_nil; message_id] =>
      Parsed (GossipsubMessage topic data None message_id)
  | ETuple [EAtom a_gossipsub_message; topic; data; source_str; message_id] =>
      new_bang source_str (fun p => GossipsubMessage topic data (Some p) message_id)
  | ETuple [EAtom a_peer_discovered; peer_id_str; addresses] =>
      new_bang peer_id_str (fun p => PeerDiscovered p addresses)
  | ETuple [EAtom a_dht_query_result; query_id; result] =>
      Parsed (DHTQueryResult query_id result)
  | ETuple [EAtom a_inbound_request; request_id; channel_id; peer_id_str; data] =>
      new_bang peer_id_str (fun p => InboundRequest request_id channel_id p data)
  | ETuple [EAtom a_outbound_response; request_id; peer_id_str; data] =>
      new_bang peer_id_str (fun p => OutboundResponse request_id p data)
  | ETuple [EAtom a_nat_status_changed; status; address] =>
      Parsed (NatStatusChanged status address)
  | ETuple [EAtom a_relay_reservation_accepted; relay_peer_id_str; relay_addr] =>
      new_bang relay_peer_id_str (fun p => RelayReservationAccepted p relay_addr)
  | ETuple [EAtom a_hole_punch_outcome; peer_id_str; result] =>
      new_bang peer_id_str (fun p => HolePunchOutcome p result)
  | ETuple [EAtom a_external_addr_confirmed; address] => Parsed (ExternalAddrConfirmed address)
  | ETuple [EAtom a_dial_failure; EAtom a_nil; error] => Parsed (DialFailure None error)
  | ETuple [EAtom a_dial_failure; peer_id_str; error] =>
      new_bang peer_id_str (fun p => DialFailure (Some p) error)
  | _ => Unknown_event
  end.
End NodeEvent.

(** ** [ExLibp2p.Node] *)
Definition event_type_for (event : NodeEvent.t) : Atom :=
  match event with
  | NodeEvent.ConnectionEstablished _ _ _ => a_connection_established
  | NodeEvent.ConnectionClosed _ _ _ => a_connection_closed
  | NodeEvent.NewListenAddr _ _ => a_new_listen_addr
  | NodeEvent.GossipsubMessage _ _ _ _ => a_gossipsub_message
  | NodeEvent.PeerDiscovered _ _ => a_peer_discovered
  | NodeEvent.DHTQueryResult _ _ => a_dht_query_result
  | NodeEvent.InboundRequest _ _ _ _ => a_inbound_request
  | NodeEvent.OutboundResponse _ _ _ => a_outbound_response
  | NodeEvent.NatStatusChanged _ _ => a_nat_status_changed
  | NodeEvent.RelayReservationAccepted _ _ => a_relay_reservation_accepted
  | NodeEvent.HolePunchOutcome _ _ => a_hole_punch_outcome
  | NodeEvent.ExternalAddrConfirmed _ => a_external_addr_confirmed
  | NodeEvent.DialFailure _ _ => a_dial_failure
  end.

(** What a clause does with a message: hand a typed event to the registry
    under its type, or log one it does not know. *)
Inductive Delivery :=
  | Dispatch (event_type : Atom) (event : NodeEvent.t)
  | LogUnknown (raw : ETerm)
  | LogUnexpected (msg : ETerm).

(** A handler runs to its end, or raises after what it did so far. *)
Definition Handled : Type := list Delivery * option ETerm.

Definition dispatch_event (raw_event : ETerm) : Handled :=
  match NodeEvent.from_raw raw_event with
  | NodeEvent.Parsed event => ([Dispatch (event_type_for event) event], None)
  | NodeEvent.Unknown_event => ([LogUnknown raw_event], None)
  | NodeEvent.Raised argument => ([], Some argument)
  end.

(** [Enum.each(peer_list, &dispatch_event/1)]. *)
Fixpoint dispatch_each (peer_list : list ETerm) : Handled :=
  match peer_list with
  | [] => ([], None)
  | raw :: rest =>
      match dispatch_event raw with
      | (l, None) => let '(l', r) := dispatch_each rest in (l ++ l', r)
      | (l, Some e) => (l, Some e)
      end
  end.

Definition handle_info (msg : ETerm) : Handled :=
  match msg with
  | ETuple [EAtom a_libp2p_event; ETuple [EAtom a_peers_discovered; EList peer_list]] =>
      dispatch_each peer_list
  | ETuple [EAtom a_libp2p_event; raw_event] => dispatch_event raw_event
  | ETuple [EAtom a_libp2p_noop] => ([], None)
  | EAtom a_libp2p_noop => ([], None)
  | msg => ([LogUnexpected msg], None)
  end.

#[local] Set Default Proof Using "Type".

Section delivery.
Context `{!Protocols} {Swarm LocalPid : Type} `{!SwarmOps Swarm}.
Context (alloc : Z -> bool) (auto : bool).
Implicit Types (st : LoopState Swarm LocalPid).

Local Abbreviation turn := (turn (LocalPid:=LocalPid) (Term:=ETerm) alloc auto).
Local Abbreviation binary_term := (encode_binary (Term:=ETerm) alloc).

(** ** Specification *)
Definition peer_struct (p : PeerId) : bytes := String.list_byte_of_string (to_base58 p).

Definition valid_peer (p : PeerId) : Prop :=
  (PeerIdStruct.min_length <= length (peer_struct p))%nat /\
  PeerIdStruct.base58 (peer_struct p) = true.

(** The peers whose identifiers a swarm event hands over as structs. *)
Definition event_peers (ev : SwarmEvent) : list PeerId :=
  match ev with
  | ConnectionEstablished p _ _ | ConnectionClosed p _ _ => [p]
  | OutgoingConnectionError p _ => option_list p
  | Behaviour (Gossipsub_Message _ source _ _) => option_list source
  | Behaviour (Mdns_Discovered peers) => map fst peers
  | Behaviour (RR_Request p _ _ _) | Behaviour (RR_Response p _ _)
  | Behaviour (RR_OutboundFailure p _ _) | Behaviour (RR_InboundFailure p _ _)
  | Behaviour (Dcutr_Event p _) | Behaviour (RelayClient_ReservationReqAccepted p) => [p]
  | Behaviour (RendezvousClient_Discovered registrations) => map fst registrations
  | _ => []
  end.

(** The typed events a swarm event amounts to. *)
Definition expected_events st (ev : SwarmEvent) : list NodeEvent.t :=
  match ev with
  | ConnectionEstablished p n is_dialer =>
      [NodeEvent.ConnectionEstablished (peer_struct p) (EInt n)
         (EAtom (if is_dialer then a_dialer else a_listener))]
  | ConnectionClosed p n cause =>
      [NodeEvent.ConnectionClosed (peer_struct p) (EInt n) (EStr (default "unknown" cause))]
  | NewListenAddr a id => [NodeEvent.NewListenAddr (EStr (addr_to_string a)) (EStr id)]
  | ExternalAddrConfirmed a | Behaviour (Upnp_NewExternalAddr a) =>
      [NodeEvent.ExternalAddrConfirmed (EStr (addr_to_string a))]
  | OutgoingConnectionError p e => [NodeEvent.DialFailure (peer_struct <$> p) (EStr e)]
  | Behaviour (Gossipsub_Message id source topic data) =>
      [NodeEvent.GossipsubMessage (EStr topic) (binary_term data) (peer_struct <$> source)
         (EStr id)]
  | Behaviour (Mdns_Discovered peers) =>
      map (fun '(p, a) => NodeEvent.PeerDiscovered (peer_struct p) (EList [EStr (addr_to_string a)]))
        peers
  | Behaviour (RendezvousClient_Discovered registrations) =>
      map (fun '(p, l) =>
             NodeEvent.PeerDiscovered (peer_struct p) (EList (map EStr (map addr_to_string l))))
        registrations
  | Behaviour (Kademlia (OutboundQueryProgressed id result)) =>
      let report t := [NodeEvent.DHTQueryResult (EStr id) t] in
      match result with
      | GetRecord_FoundRecord k v =>
          report (ETuple [EAtom a_found_record; binary_term k; binary_term v])
      | GetRecord_Err => report (EAtom a_not_found)
      | PutRecord_Ok k => report (ETuple [EAtom a_put_record_ok; EStr k])
      | GetProviders_FoundProviders l =>
          report (ETuple [EAtom a_found_providers; EList (map EStr (map to_base58 l))])
      | Bootstrap_Ok n => report (ETuple [EAtom a_bootstrap_ok; EInt n])
      | GetProviders_Finished | OtherQueryResult => []
      end
  | Behaviour (RR_Request p id data _) =>
      if full (pending_responses st) then [] else
      [NodeEvent.InboundRequest (EStr (debug_inbound id))
         (EStr (channel_name (as_u64 (channel_counter st + 1)))) (peer_struct p) (binary_term data)]
  | Behaviour (RR_Response p id data) =>
      [NodeEvent.OutboundResponse (EStr (debug_outbound id)) (peer_struct p) (binary_term data)]
  | Behaviour (RR_OutboundFailure p id e) =>
      [NodeEvent.DialFailure (Some (peer_struct p))
         (EStr ("rpc outbound failure " +:+ debug_outbound id +:+ ": " +:+ e))]
  | Behaviour (RR_InboundFailure p id e) =>
      [NodeEvent.DialFailure (Some (peer_struct p))
         (EStr ("rpc inbound failure " +:+ debug_inbound id +:+ ": " +:+ e))]
  | Behaviour (Autonat_StatusChanged (Public a)) =>
      [NodeEvent.NatStatusChanged (EAtom a_public) (EStr (addr_to_string a))]
  | Behaviour (Autonat_StatusChanged Private) =>
      [NodeEvent.NatStatusChanged (EAtom a_private) (EAtom a_nil)]
  | Behaviour (Autonat_StatusChanged Unknown) =>
      [NodeEvent.NatStatusChanged (EAtom a_unknown) (EAtom a_nil)]
  | Behaviour (Dcutr_Event p error) =>
      [NodeEvent.HolePunchOutcome (peer_struct p)
         match error with
         | None => EAtom a_success
         | Some e => ETuple [EAtom a_failure; EStr e]
         end]
  | Behaviour (RelayClient_ReservationReqAccepted p) =>
      [NodeEvent.RelayReservationAccepted (peer_struct p) (EStr "")]
  | Behaviour Mdns_Expired | Behaviour (Kademlia OtherKadEvent) | Behaviour OtherBehaviourEvent
  | OtherSwarmEvent => []
  end.

Definition dispatches (l : list NodeEvent.t) : list Delivery :=
  map (fun e => Dispatch (event_type_for e) e) l.

Definition is_dispatch (d : Delivery) : Prop :=
  match d with Dispatch _ _ => True | _ => False end.

#[export] Instance valid_peer_dec p : Decision (valid_peer p).
Proof. unfold valid_peer. apply _. Defined.

(** The events before the first that is about a bad identifier. *)
Fixpoint heard (peers : list PeerId) (l : list NodeEvent.t) : list NodeEvent.t :=
  match peers with
  | [] => l
  | p :: peers =>
      if decide (valid_peer p) then
        match l with [] => [] | e :: l => e :: heard peers l end
      else []
  end.

Lemma heard_all peers l : Forall valid_peer peers -> heard peers l = l.
Proof.
  intros Hp. revert l. induction Hp as [|p peers Hp _ IH]; intros l; [done|]. cbn [heard].
  rewrite decide_True by done. destruct l; [done|]. by rewrite IH.
Qed.

Lemma heard_prefix peers l : heard peers l `prefix_of` l.
Proof.
  revert l. induction peers as [|p peers IH]; intros l; [done|]. cbn [heard].
  destruct (decide (valid_peer p)); [|apply prefix_nil]. destruct l; [done|]. by apply prefix_cons.
Qed.

(** The outcome [h] of the handler is right for events [l] about [peers]: if it
    raises, it has dispatched the events before the bad identifier. *)
Definition handled_as (h : Handled) (peers : list PeerId) (l : list NodeEvent.t) : Prop :=
  h.1 = dispatches (heard peers l) /\
  (Forall valid_peer peers -> h = (dispatches l, None)) /\
  (h.2 = None -> Forall valid_peer peers).

Lemma handled_dispatches h peers l : handled_as h peers l -> Forall is_dispatch h.1.
Proof.
  intros [-> _]. by apply Forall_map, Forall_true.
Qed.

Lemma new_bang_peer p k :
  (valid_peer p /\ NodeEvent.new_bang (EStr (to_base58 p)) k = NodeEvent.Parsed (k (peer_struct p)))
  \/ (~ valid_peer p /\
      NodeEvent.new_bang (EStr (to_base58 p)) k = NodeEvent.Raised (EStr (to_base58 p))).
Proof.
  unfold NodeEvent.new_bang, PeerIdStruct.new, valid_peer, peer_struct. cbn [PeerIdStruct.binary].
  set (raw := String.list_byte_of_string (to_base58 p)).
  destruct (Nat.leb_spec PeerIdStruct.min_length (length raw)), (PeerIdStruct.base58 raw); cbn [andb].
  - by left.
  - right. split; [|done]. by intros [_ ?].
  - right. split; [|done]. intros [? _]. lia.
  - right. split; [|done]. by intros [_ ?].
Qed.

Lemma handled_one raw p k :
  NodeEvent.from_raw raw = NodeEvent.new_bang (EStr (to_base58 p)) k ->
  handled_as (dispatch_event raw) [p] [k (peer_struct p)].
Proof.
  intros E. unfold dispatch_event. rewrite E.
  destruct (new_bang_peer p k) as [[Hv ->]|[Hv ->]].
  - split_and!; cbn [heard]; [by rewrite decide_True|done|]. intros _. by apply Forall_singleton.
  - split_and!; cbn [heard]; [by rewrite decide_False| |done]. intros Hp. destruct Hv. by rewrite Forall_singleton in Hp.
Qed.

Lemma handled_plain raw e :
  NodeEvent.from_raw raw = NodeEvent.Parsed e -> handled_as (dispatch_event raw) [] [e].
Proof. intros E. unfold dispatch_event. by rewrite E. Qed.

Lemma handled_nil : handled_as ([], None) [] [].
Proof. by split_and!. Qed.

Lemma handled_each {A} (l : list A) f peer ev :
  (forall x, handled_as (dispatch_event (f x)) [peer x] [ev x]) ->
  handled_as (dispatch_each (map f l)) (map peer l) (map ev l).
Proof.
  intros Hf. induction l as [|x l IH]; [apply handled_nil|]. cbn [map dispatch_each].
  destruct (Hf x) as (Hd & Hok & Hr). destruct (dispatch_event (f x)) as [d [e|]].
  - assert (~ valid_peer (peer x)) as Hx by (intros Hx; discriminate Hok; by apply Forall_singleton).
    cbn [heard] in Hd. rewrite decide_False in Hd by done. cbn [map]. split_and!; [| |done].
    + cbn [heard]. by rewrite decide_False.
    + by intros [? _]%Forall_cons.
  - destruct IH as (Hd' & Hok' & Hr'). destruct (dispatch_each (map f l)) as [d' r].
    cbn [fst snd] in *. pose proof (Hr eq_refl) as Hv. injection (Hok Hv) as ->. split_and!; cbn [fst snd].
    + cbn [map heard]. rewrite (decide_True (P:=valid_peer (peer x))) by by apply (Forall_singleton valid_peer (peer x)).
      cbn [dispatches map]. by rewrite Hd'.
    + intros [Hx Hl]%Forall_cons. by injection (Hok' Hl) as -> ->.
    + intros ->. apply Forall_cons. split; [|by apply Hr'].
      by destruct (proj1 (Forall_cons _ _ _) (Hr eq_refl)).
Qed.

Ltac handled :=
  first
    [ apply handled_nil
    | refine (handled_one (ETuple _) _ _ _); reflexivity
    | refine (handled_plain (ETuple _) _ _); reflexivity ].

(** A batch of discovered peers, as mDNS and the rendezvous client report them. *)
Lemma handled_batch {A} (addrs : A -> list string) (l : list (PeerId * A)) :
  handled_as
    (dispatch_each (map (fun '(p, a) => enc_tuple (peer_discovered_fields (to_base58 p) (addrs a))) l))
    (map fst l)
    (map (fun '(p, a) => NodeEvent.PeerDiscovered (peer_struct p) (EList (map EStr (addrs a)))) l).
Proof. apply handled_each. intros [p a]. handled. Qed.

Lemma handled_mdns (l : list (PeerId * Multiaddr)) :
  handled_as
    (dispatch_each (map (fun '(p, a) => enc_tuple (peer_discovered_fields p a))
                      (map (fun '(p, a) => (to_base58 p, [addr_to_string a])) l)))
    (map fst l)
    (map (fun '(p, a) => NodeEvent.PeerDiscovered (peer_struct p) (EList [EStr (addr_to_string a)])) l).
Proof.
  rewrite map_map. apply handled_each. intros [p a]. handled.
Qed.

(** The messages of [handle_swarm_event]. *)
Lemma handled_swarm_event st ev :
  (forall p id data c, ev <> Behaviour (RR_Request p id data c)) ->
  (forall p id data, ev <> Behaviour (RR_Response p id data)) ->
  handled_as (handle_info (swarm_event_term alloc ev)) (event_peers ev) (expected_events st ev).
Proof.
  intros H1 H2.
  destruct ev as [? ? []| | | |[p|]|[id [p|] topic data|peers| |[? []|]|p id data c|p id data
    | | |[]|? []| | |regs|]|]; try handled.
  - destruct peers as [|x [|y rest]]; [handled|destruct x; handled|].
    destruct x as [p a]. apply (handled_mdns ((p, a) :: y :: rest)).
  - by edestruct H1.
  - by edestruct H2.
  - destruct regs as [|x [|y rest]]; [handled|destruct x; handled|].
    apply (handled_batch (map addr_to_string) (x :: y :: rest)).
Qed.

Lemma handled_discovered st (pid : LocalPid) peers :
  match send_peers_discovered (Term:=ETerm) pid peers with
  | [] => expected_events st (Behaviour (Mdns_Discovered peers)) = []
  | [Notify pid' m] =>
      pid' = pid /\
      handled_as (handle_info m) (map fst peers)
        (expected_events st (Behaviour (Mdns_Discovered peers)))
  | _ => False
  end.
Proof.
  destruct peers as [|[p a] [|y rest]]; [done|split; [done|handled]|].
  split; [done|]. apply (handled_mdns ((p, a) :: y :: rest)).
Qed.

(** The messages of one event of the loop: at most one, to the registered
    process, and right for the event; without one, nothing was to be told. *)
Lemma turn_handled now ev st pid :
  event_handler st = Some pid ->
  match notifications (effects_of (turn (Event now ev) st)) with
  | [] => expected_events st ev = []
  | [(pid', m)] =>
      pid' = pid /\ handled_as (handle_info m) (event_peers ev) (expected_events st ev)
  | _ => False
  end.
Proof.
  intros Hpid. rewrite turn_event. cbn [effects_of snd].
  destruct ev as [| | | | |[]|];
    try (loop_unfold; rewrite Hpid; cbn [notifications omap list_omap app handle_swarm_event fst snd];
         split; [done|by apply handled_swarm_event]).
  - cbn [on_event]. unfold mbind, LoopM_bind.
    pose proof (on_discovered_peers_log (Term:=ETerm) auto peers st) as Hl.
    pose proof (handler_discovered (Term:=ETerm) auto peers st) as Hh. unfold effects_of, state in *.
    destruct (on_discovered_peers auto peers st) as [[u st1] l1]. cbn [fst snd] in Hl, Hh.
    loop_unfold. rewrite Hh, Hpid. cbn [fst snd app].
    rewrite notifications_app, (notifications_log l1) by done. cbn [app].
    pose proof (handled_discovered st pid peers) as Hd. cbn [event_peers].
    destruct (send_peers_discovered pid peers) as [|[] []]; done.
  - loop_unfold. by cbn.
  - loop_unfold. cbn [expected_events]. unfold full.
    destruct (Z.of_nat (size (pending_responses st)) >=? MAX_PENDING_RESPONSES); [done|].
    cbn [fst snd event_handler set_pending]. rewrite Hpid.
    cbn [notifications omap list_omap app send_inbound_request fst snd].
    split; [done|]. refine (handled_one (ETuple _) _ _ _); reflexivity.
  - loop_unfold. rewrite Hpid. cbn [notifications omap list_omap app send_outbound_response fst snd].
    split; [done|]. refine (handled_one (ETuple _) _ _ _); reflexivity.
Qed.

(** ** Properties *)

(** Every swarm event reaches the Elixir side as what it is: when the
    identifiers of the peers it is about are valid peer ids, the message the
    loop sends to the registered process is parsed, and dispatched under the
    right types, into exactly the typed events the swarm event amounts to - a
    batch of discovered peers as one event per peer, in order. *)
Theorem events_delivered now ev st pid :
  event_handler st = Some pid -> Forall valid_peer (event_peers ev) ->
  let sent := notifications (effects_of (turn (Event now ev) st)) in
  (n ← sent; (handle_info n.2).1) = dispatches (expected_events st ev) /\
  Forall (fun n => n.1 = pid /\ (handle_info n.2).2 = None) sent.
Proof.
  intros Hpid Hv sent. pose proof (turn_handled now ev st pid Hpid) as Ht. fold sent in Ht.
  destruct sent as [|[pid' m] []]; [by rewrite Ht| |done].
  destruct Ht as (-> & _ & Hh & _). cbn. rewrite (Hh Hv). cbn.
  rewrite app_nil_r. split; [done|]. apply Forall_singleton. cbn. by rewrite (Hh Hv).
Qed.

(** C20: Both sides agree on the shape of messages: whatever event occurs, the
    Elixir side never meets a message or an event tuple it does not know; and
    the only way handling one can raise is a peer identifier that [PeerId.new]
    does not accept, which raises in any case. *)
Theorem events_understood now ev st n :
  n ∈ notifications (effects_of (turn (Event now ev) st)) ->
  Forall is_dispatch (handle_info n.2).1 /\
  ((handle_info n.2).2 = None <-> Forall valid_peer (event_peers ev)).
Proof.
  intros Hn. destruct (event_handler st) as [pid|] eqn:Hpid.
  - pose proof (turn_handled now ev st pid Hpid) as Ht.
    destruct (notifications _) as [|[pid' m] []]; [by apply elem_of_nil in Hn| |done].
    apply list_elem_of_singleton in Hn as ->. destruct Ht as [_ Hh].
    split; [by eapply handled_dispatches|]. destruct Hh as (_ & Hok & Hr). split; [done|]. intros Hv. cbn [snd]. by rewrite (Hok Hv).
  - destruct (turn_notifies alloc auto (Event now ev) st) as [_ Hall].
    rewrite Forall_forall in Hall. apply Hall in Hn. by rewrite Hpid in Hn.
Qed.
End delivery.

(** ** Witnesses *)
Definition sim_peer : @PeerId SimProtocols := "12D3KooWDpJ7As7BWAwRMfu1VU2WCqNjvq387JEYKDBj4kx6nXTN".

Definition sim_listening : LoopState SimSwarm nat := set_event_handler (init_state sim_full) (Some 7%nat).

Definition sim_discovery : @SwarmEvent SimProtocols :=
  Behaviour (Mdns_Discovered [(sim_peer, "/ip4/10.0.0.1/tcp/1"); (sim_peer, "/ip4/10.0.0.1/tcp/2")]).

Lemma events_delivered_witness :
  (n ← notifications (effects_of (turn (Term:=ETerm) (fun _ => true) false (Event 0 sim_discovery) sim_listening));
   (handle_info n.2).1) =
  [Dispatch a_peer_discovered (NodeEvent.PeerDiscovered (peer_struct sim_peer) (EList [EStr "/ip4/10.0.0.1/tcp/1"]));
   Dispatch a_peer_discovered (NodeEvent.PeerDiscovered (peer_struct sim_peer) (EList [EStr "/ip4/10.0.0.1/tcp/2"]))].
Proof.
  apply (events_delivered (fun _ => true) false 0 sim_discovery sim_listening 7%nat).
  - reflexivity.
  - repeat constructor; vm_compute; repeat constructor.
Defined.

(** A peer whose identifier is short makes the receiving process raise. *)
Lemma events_understood_witness :
  exists n, n ∈ notifications (effects_of (turn (Term:=ETerm) (fun _ => true) false
      (Event 0 (ConnectionEstablished ("short" : @PeerId SimProtocols) 1 true)) sim_listening)) /\
    Forall is_dispatch (handle_info n.2).1.
Proof.
  eexists. split; [by left|].
  eapply (events_understood (fun _ => true) false 0
    (ConnectionEstablished ("short" : @PeerId SimProtocols) 1 true) sim_listening). by left.
Defined.
