(* ===== verification/Channel.v ===== *)
(** * The command channel

    The bounded mpsc channel of tokio between the native functions and the
    swarm task.  tokio is not part of the repository: [Mpsc] lists the
    operations the crate uses, [MpscOk] what their documentation promises - a
    FIFO queue of bounded length whose two ends notice when the other is gone.
    [ListChan] is an instance to evaluate the development on. *)
From S2P Require Import Prelude.
From stdpp Require Import options.

(** The outcome of [Sender::try_send]. *)
Inductive SendResult := Sent | Full | Closed.

#[global] Instance SendResult_eq_dec : EqDecision SendResult.
Proof. solve_decision. Defined.

(** The outcome of polling [Receiver::recv]: a message, [None] when the channel
    is closed and empty, or not ready. *)
Inductive RecvResult (A : Type) := Ready (m : option A) | Pending.
Arguments Ready {A} m.
Arguments Pending {A}.

Class Mpsc (Chan A : Type) : Type := {
  channel : Z -> Chan;
  try_send : Chan -> A -> Chan * SendResult;
  poll_recv : Chan -> Chan * RecvResult A;
  (** The last sender is dropped. *)
  drop_senders : Chan -> Chan;
  (** The receiver is dropped, with the messages still in the channel. *)
  drop_receiver : Chan -> Chan * list A;
}.

Class MpscOk (Chan A : Type) `{!Mpsc Chan A} : Type := {
  queue : Chan -> list A;
  capacity : Chan -> Z;
  senders : Chan -> bool;
  receiver : Chan -> bool;
  channel_ok n : 0 < n -> queue (channel n) = [] /\ capacity (channel n) = n /\
    senders (channel n) = true /\ receiver (channel n) = true;
  try_send_ok c m : senders c = true ->
    let '(c', r) := try_send c m in
    capacity c' = capacity c /\ senders c' = true /\ receiver c' = receiver c /\
    (if receiver c then
       if Z.of_nat (length (queue c)) <? capacity c then r = Sent /\ queue c' = queue c ++ [m]
       else r = Full /\ queue c' = queue c
     else r = Closed /\ queue c' = queue c);
  poll_recv_ok c : receiver c = true ->
    let '(c', r) := poll_recv c in
    capacity c' = capacity c /\ senders c' = senders c /\ receiver c' = true /\
    match queue c with
    | m :: q => r = Ready (Some m) /\ queue c' = q
    | [] => r = (if senders c then Pending else Ready None) /\ queue c' = []
    end;
  drop_senders_ok c : queue (drop_senders c) = queue c /\
    capacity (drop_senders c) = capacity c /\ senders (drop_senders c) = false /\
    receiver (drop_senders c) = receiver c;
  drop_receiver_ok c :
    let '(c', l) := drop_receiver c in
    l = queue c /\ queue c' = [] /\ capacity c' = capacity c /\ senders c' = senders c /\
    receiver c' = false;
}.

(** ** A channel as a list *)
Record ListChan (A : Type) := mkListChan {
  items : list A;
  bound : Z;
  has_senders : bool;
  has_receiver : bool;
}.
Arguments mkListChan {A} items bound has_senders has_receiver.
Arguments items {A} l.
Arguments bound {A} l.
Arguments has_senders {A} l.
Arguments has_receiver {A} l.

#[export] Instance ListChan_mpsc {A} : Mpsc (ListChan A) A := {|
  channel n := mkListChan [] n true true;
  try_send c m :=
    if has_receiver c then
      if Z.of_nat (length (items c)) <? bound c then
        (mkListChan (items c ++ [m]) (bound c) (has_senders c) true, Sent)
      else (c, Full)
    else (c, Closed);
  poll_recv c :=
    match items c with
    | m :: q => (mkListChan q (bound c) (has_senders c) (has_receiver c), Ready (Some m))
    | [] => (c, if has_senders c then Pending else Ready None)
    end;
  drop_senders c := mkListChan (items c) (bound c) false (has_receiver c);
  drop_receiver c := (mkListChan [] (bound c) (has_senders c) false, items c) |}.

#[export] Instance ListChan_ok {A} : MpscOk (ListChan A) A.
Proof.
  refine {| queue := items; capacity := bound; senders := has_senders; receiver := has_receiver |}.
  - done.
  - intros [l b s r] m Hs. cbn in *. destruct r; [|done]. by destruct (_ <? _).
  - intros [[|m l] b s r] Hr; cbn in *; by subst.
  - done.
  - by intros [].
Defined.
