(* ===== verification/Nif.v ===== *)
(** * The native functions

    Model of [native/ex_libp2p_nif/src/lib.rs]: the functions exported to
    Elixir.  A function is a program over the shared resources of a node: it
    creates oneshot channels, tries to send commands, and blocks on replies
    ([Nif]); [System] runs such programs against the swarm task.  [NifResult]
    is [Result NifError]: [From<NifError> for rustler::Error] wraps the error
    unchanged.  Arguments and results are the Rust values, before and after
    rustler translates them. *)
From S2P Require Import Prelude Bytes Policy Terms NifError Libp2p Sim DhtState Commands Channel.
From stdpp Require Import options.

(** ** Identities

    The keypair operations of libp2p that are called without a node.  Fresh
    entropy is an argument of key generation. *)
Class Identity `{!Protocols} : Type := {
  Keypair : Type;
  PublicKey : Type;
  Entropy : Type;
  generate_ed25519 : Entropy -> Keypair;
  public : Keypair -> PublicKey;
  to_peer_id : PublicKey -> PeerId;
  encode_protobuf : PublicKey -> bytes;
  to_protobuf_encoding : Keypair -> string + bytes;
  from_protobuf_encoding : bytes -> string + Keypair;
}.

Class IdentityOk `{!Protocols, !Identity} : Prop := {
  protobuf_roundtrip k b :
    to_protobuf_encoding k = inr b -> from_protobuf_encoding b = inr k;
}.

(** The Prometheus registry behind its mutex. *)
Class Metrics : Type := {
  Registry : Type;
  RegistryContents : Type;
  registry_lock : Registry -> string + RegistryContents;
  encode_text : RegistryContents -> string + string;
}.

(** ** Programs *)
Section nif_monad.
Context `{!Protocols} {LocalPid : Type}.

Inductive Nif (A : Type) : Type :=
  | Done (r : Result NifError A)
  | Oneshot (t : ReplyTy) (k : Sender t -> Nif A)
  | TrySend (cmd : Command LocalPid) (k : SendResult -> Nif A)
  | BlockingRecv (t : ReplyTy) (rx : Sender t) (k : option (reply_val t) -> Nif A).
Arguments Done {A} r.
Arguments Oneshot {A} t k.
Arguments TrySend {A} cmd k.
Arguments BlockingRecv {A} t rx k.

Fixpoint nif_bind {A B} (f : A -> Nif B) (m : Nif A) : Nif B :=
  match m with
  | Done (Ok a) => f a
  | Done (Err e) => Done (Err e)
  | Done Panic => Done Panic
  | Oneshot t k => Oneshot t (fun tx => nif_bind f (k tx))
  | TrySend cmd k => TrySend cmd (fun r => nif_bind f (k r))
  | BlockingRecv t rx k => BlockingRecv t rx (fun v => nif_bind f (k v))
  end.

#[export] Instance Nif_ret : MRet Nif := fun A a => Done (Ok a).
#[export] Instance Nif_bind : MBind Nif := fun A B f m => nif_bind f m.
End nif_monad.
Arguments Nif {_} LocalPid A.
Arguments Done {_ LocalPid A} r.
Arguments Oneshot {_ LocalPid A} t k.
Arguments TrySend {_ LocalPid A} cmd k.
Arguments BlockingRecv {_ LocalPid A} t rx k.

Section nifs.
Context `{!Protocols, !Identity, !Metrics} {LocalPid : Type}.
(** Whether [OwnedBinary::new(n)] succeeds. *)
Context (alloc : Z -> bool).

(** The fields of [NodeHandle] besides the sender of the command channel. *)
Record NodeHandle := mkNodeHandle {
  handle_peer_id : string;
  metrics_registry : Registry;
}.

Local Abbreviation nif := (Nif LocalPid).

Definition lift {A} (r : Result NifError A) : nif A := Done r.

(** ** Helpers *)
Definition send_error (r : SendResult) : option NifError :=
  match r with
  | Sent => None
  | Full => Some ChannelFull
  | Closed => Some NodeStopped
  end.

Definition send_typed (cmd : Command LocalPid) : nif unit :=
  TrySend cmd (fun r => Done match send_error r with Some e => Err e | None => Ok tt end).

Definition query_typed {t} (make_cmd : Sender t -> Command LocalPid) : nif (reply_val t) :=
  Oneshot t (fun tx =>
    TrySend (make_cmd tx) (fun r =>
      match send_error r with
      | Some e => Done (Err e)
      | None => BlockingRecv t tx (fun v => Done (ok_or NodeStopped v))
      end)).

Definition peer_ids_to_strings (peers : list PeerId) : list string := map to_base58 peers.

Definition parse_peer_id (s : string) : nif PeerId := lift (of_sum from_parse_error (peer_parse s)).
Definition parse_multiaddr (s : string) : nif Multiaddr :=
  lift (of_sum from_multiaddr_error (addr_parse s)).

(** [cmd] is sent and the function returns [:ok]. *)
Definition send_ok (cmd : Command LocalPid) : nif Atom := _ ← send_typed cmd; mret a_ok.

(** ** Node lifecycle *)
Definition stop_node : nif Atom := TrySend Shutdown (fun _ => mret a_ok).

Definition register_event_handler (pid : LocalPid) : nif Atom :=
  TrySend (RegisterEventHandler pid) (fun _ => mret a_ok).

Definition get_peer_id (handle : NodeHandle) : nif string := mret (handle_peer_id handle).

(** ** Synchronous queries *)
Definition connected_peers : nif (list string) :=
  peers ← query_typed (t:=TPeers) (fun tx => ConnectedPeers tx);
  mret (peer_ids_to_strings peers).

Definition listening_addrs : nif (list string) :=
  addrs ← query_typed (t:=TAddrs) (fun tx => ListeningAddrs tx);
  mret (map addr_to_string addrs).

Definition bandwidth_stats : nif (Atom * Z * Z) :=
  '(bin, bout) ← query_typed (t:=TBandwidth) (fun tx => BandwidthStats tx);
  mret (a_ok, bin, bout).

Definition prometheus_metrics (handle : NodeHandle) : nif (Atom * string) :=
  registry ← lift (of_sum (fun e => Internal ("metrics lock poisoned: " +:+ e))
                     (registry_lock (metrics_registry handle)));
  text ← lift (of_sum (fun e => Internal ("encode metrics: " +:+ e)) (encode_text registry));
  mret (a_ok, text).

(** ** Fire-and-forget commands *)
Definition dial (addr : string) : nif Atom :=
  multiaddr ← parse_multiaddr addr; send_ok (Dial multiaddr).
Definition publish (topic : string) (data : bytes) : nif Atom := send_ok (Publish topic data).
Definition subscribe (topic : string) : nif Atom := send_ok (Subscribe topic).
Definition unsubscribe (topic : string) : nif Atom := send_ok (Unsubscribe topic).

(** ** GossipSub *)
Definition gossipsub_mesh_peers (topic : string) : nif (Atom * list string) :=
  peers ← query_typed (t:=TPeers) (fun tx => GossipsubMeshPeers topic tx);
  mret (a_ok, peer_ids_to_strings peers).

Definition gossipsub_all_peers : nif (Atom * list string) :=
  peers ← query_typed (t:=TPeers) (fun tx => GossipsubAllPeers tx);
  mret (a_ok, peer_ids_to_strings peers).

Definition gossipsub_peer_score (peer_id_str : string) : nif (Atom * f64) :=
  peer_id ← parse_peer_id peer_id_str;
  score ← query_typed (t:=TScore) (fun tx => GossipsubPeerScore peer_id tx);
  mret (a_ok, default (f64_of_Z 0) score).

(** ** DHT *)
Definition dht_put (key value : bytes) : nif Atom := send_ok (DhtPut key value).
Definition dht_get (key : bytes) : nif Atom := send_ok (DhtGet key).
Definition dht_find_peer (peer_id_str : string) : nif Atom :=
  peer_id ← parse_peer_id peer_id_str; send_ok (DhtFindPeer peer_id).
Definition dht_provide (key : bytes) : nif Atom := send_ok (DhtProvide key).
Definition dht_find_providers (key : bytes) : nif Atom := send_ok (DhtFindProviders key).
Definition dht_bootstrap : nif Atom := send_ok DhtBootstrap.

Definition kad_export_routing_table : nif (Atom * bytes) :=
  result ← query_typed (t:=TEntries) (fun tx => DhtExportRoutingTable tx);
  entries ← lift (of_sum (fun _ => DhtNotEnabled) result);
  let bytes := DhtState.encode entries in
  _ ← lift (if alloc (len bytes) then Ok tt
            else Err (Internal ("alloc " +:+ pretty (len bytes) +:+ " bytes")));
  mret (a_ok, bytes).

Definition import_error (e : DhtStateError) : NifError :=
  match e with
  | DhtState.InputTooLarge got max => NifError.InputTooLarge got max
  | Truncated offset need =>
      Internal ("truncated at offset " +:+ pretty offset +:+ ", need " +:+ pretty need)
  | BadMagic _ => Internal "bad magic header"
  | UnsupportedVersion version =>
      Internal ("unsupported wire version " +:+ pretty (u8_to_Z version))
  end.

Definition kad_import_routing_table (data : bytes) : nif (Atom * Z) :=
  entries ← lift (map_err import_error (DhtState.decode data));
  result ← query_typed (t:=TCount) (fun tx => DhtImportRoutingTable entries tx);
  count ← lift (of_sum (fun _ => DhtNotEnabled) result);
  mret (a_ok, as_u64 count).

(** ** Request-response *)
Definition rpc_send_request (peer_id_str : string) (data : bytes) : nif (Atom * string) :=
  peer_id ← parse_peer_id peer_id_str;
  Oneshot TReqId (fun tx =>
    _ ← send_typed (RpcSendRequest peer_id data tx);
    req_id ← BlockingRecv TReqId tx (fun v => Done (ok_or NodeStopped v));
    mret (a_ok, req_id)).

Definition rpc_send_response (channel_id : string) (data : bytes) : nif Atom :=
  send_ok (RpcSendResponse channel_id data).

(** ** Relay and rendezvous *)
Definition listen_via_relay (relay_addr : string) : nif Atom :=
  addr ← parse_multiaddr relay_addr; send_ok (ListenViaRelay addr).

Definition rendezvous_register (namespace : string) (ttl : Z) (rendezvous_peer_str : string) :
    nif Atom :=
  rendezvous_peer ← parse_peer_id rendezvous_peer_str;
  send_ok (RendezvousRegister namespace ttl rendezvous_peer).

Definition rendezvous_discover (namespace rendezvous_peer_str : string) : nif Atom :=
  rendezvous_peer ← parse_peer_id rendezvous_peer_str;
  send_ok (RendezvousDiscover namespace rendezvous_peer).

Definition rendezvous_unregister (namespace rendezvous_peer_str : string) : nif Atom :=
  rendezvous_peer ← parse_peer_id rendezvous_peer_str;
  send_ok (RendezvousUnregister namespace rendezvous_peer).

(** ** Keypairs *)
Section keypairs.
Context {Term : Type} `{!TermEnc Term}.

Definition make_binary (data : bytes) : Term := enc_binary data.

Definition generate_keypair (entropy : Entropy) : Term :=
  let keypair := generate_ed25519 entropy in
  let peer_id := to_base58 (to_peer_id (public keypair)) in
  let public_key_bytes := encode_protobuf (public keypair) in
  match to_protobuf_encoding keypair with
  | inr protobuf_bytes =>
      enc_tuple [enc_atom a_ok; make_binary public_key_bytes; enc_str peer_id;
                 make_binary protobuf_bytes]
  | inl _ =>
      let empty := make_binary [] in
      enc_tuple [enc_atom a_error; empty; enc_str ""; empty]
  end.

Definition keypair_from_protobuf (data : bytes) : Term :=
  if len data >? MAX_KEYPAIR_BYTES then
    enc_tuple [enc_atom a_error; NifError.encode (NifError.InputTooLarge (len data) MAX_KEYPAIR_BYTES)]
  else
    match from_protobuf_encoding data with
    | inr keypair =>
        let peer_id := to_base58 (to_peer_id (public keypair)) in
        let public_key_bytes := encode_protobuf (public keypair) in
        enc_tuple [enc_atom a_ok; make_binary public_key_bytes; enc_str peer_id]
    | inl e => enc_tuple [enc_atom a_error; NifError.encode (InvalidKeypair e)]
    end.
End keypairs.
End nifs.

(** ** Instances to evaluate on *)
#[export] Instance sim_metrics : Metrics := {|
  Registry := unit; RegistryContents := unit;
  registry_lock _ := inr tt; encode_text _ := inr "" |}.

#[export] Instance sim_identity : Identity := {|
  Keypair := bytes; PublicKey := bytes; Entropy := bytes;
  generate_ed25519 e := e; public k := k; to_peer_id k := bytes_string k : PeerId;
  encode_protobuf k := k; to_protobuf_encoding k := inr k; from_protobuf_encoding b := inr b |}.

#[export] Instance sim_identity_ok : IdentityOk.
Proof. split. by intros k b [= ->]. Qed.
