(* ===== verification/System.v ===== *)
(** * Native calls and the swarm task together

    The interleavings of the native functions of [Nif] with the swarm task of
    [SwarmLoop] over the command channel.  A call runs on a scheduler thread of
    the Erlang VM: it holds the node handle, creates oneshot channels, tries to
    send commands and blocks on replies.  The swarm task takes one command,
    tick or event at a time.  When it ends, the receiver of the channel is
    dropped with the commands still queued, and with them the senders of their
    oneshot channels.  The handle is dropped when no call holds it
    ([ResourceArc]); [NodeHandle::drop] then tries to send a shutdown.

    [act] is one atomic step; a step that cannot be taken (a blocked call, an
    empty channel, an exited task) changes nothing, so that a schedule is any
    list of actions. *)
From S2P Require Import Prelude Bytes Policy Terms NifError Libp2p Sim DhtState Commands Events.
From S2P Require Import SwarmLoop Answers Channel Nif.
From stdpp Require Import options.

#[local] Set Default Proof Using "Type*".

(** The capacity of the command channel in [start_node_inner]. *)
Definition COMMAND_CHANNEL_CAPACITY : Z := 512.

Section system.
Context `{!Protocols} {Swarm LocalPid Term : Type} `{!SwarmOps Swarm, !TermEnc Term}.
Context {Chan : Type} `{!Mpsc Chan (Command LocalPid)}.
Context (alloc : Z -> bool) (auto : bool).
(** The type of the results of the calls. *)
Context {R : Type}.

Local Abbreviation nif := (Nif LocalPid R).
Local Abbreviation turn := (turn (LocalPid:=LocalPid) (Term:=Term) alloc auto).

(** The oneshot channels that are settled: answered with a value, or with
    their sender dropped. *)
Local Abbreviation Settled := (gmap N (option { t : ReplyTy & reply_val t })).

Record Sys := mkSys {
  chan : Chan;
  loop : option (LoopState Swarm LocalPid);
  settled : Settled;
  next_oneshot : N;
  calls : list nif;
  handle : bool;
}.

Definition start (s : Swarm) : Sys := {|
  chan := channel COMMAND_CHANNEL_CAPACITY;
  loop := Some (init_state s);
  settled := ∅;
  next_oneshot := 0;
  calls := [];
  handle := true |}.

Inductive Action :=
  | Spawn (p : nif)
  | StepCall (n : nat)
  | LoopRecv
  | LoopInput (i : Input LocalPid)
  | DropHandle.

Definition settle (m : Settled) (l : list (Effect LocalPid Term)) : Settled :=
  foldl (fun m e => match e with Reply t tx v => <[(tx : N) := Some (existT t v)]> m | _ => m end) m l.

Definition abandon (m : Settled) (cmds : list (Command LocalPid)) : Settled :=
  foldl (fun m cmd =>
    match command_reply cmd with Some (existT t tx) => <[(tx : N) := None]> m | None => m end) m cmds.

(** The value a receiver of type [t] gets. *)
Definition received (t : ReplyTy) (o : option { t : ReplyTy & reply_val t }) :
    option (reply_val t) :=
  match o with
  | Some (existT t' v) =>
      match decide (t' = t) with left E => Some (eq_rect t' reply_val v t E) | right _ => None end
  | None => None
  end.

Definition is_done (p : nif) : bool := match p with Done _ => true | _ => false end.

(** [cmd_tx.try_send(cmd)]: a command that is not accepted is dropped. *)
Definition send_command (s : Sys) (cmd : Command LocalPid) : Sys * SendResult :=
  let '(c, r) := try_send (chan s) cmd in
  let m := match r with Sent => settled s | _ => abandon (settled s) [cmd] end in
  (mkSys c (loop s) m (next_oneshot s) (calls s) (handle s), r).

Definition set_call (s : Sys) (n : nat) (p : nif) : Sys :=
  mkSys (chan s) (loop s) (settled s) (next_oneshot s) (<[n := p]> (calls s)) (handle s).

Definition step_call (s : Sys) (n : nat) : Sys :=
  match calls s !! n with
  | Some (Oneshot t k) =>
      let tx := next_oneshot s in
      mkSys (chan s) (loop s) (settled s) (tx + 1) (<[n := k tx]> (calls s)) (handle s)
  | Some (TrySend cmd k) => let '(s, r) := send_command s cmd in set_call s n (k r)
  | Some (BlockingRecv t tx k) =>
      match settled s !! (tx : N) with
      | Some o => set_call s n (k (received t o))
      | None => s
      end
  | Some (Done _) | None => s
  end.

(** One turn of the task, and its end. *)
Definition loop_turn (s : Sys) (c : Chan) (i : Input LocalPid)
    (st : LoopState Swarm LocalPid) : Sys :=
  let '(ctl, st', l) := turn i st in
  let m := settle (settled s) l in
  match ctl with
  | Continue => mkSys c (Some st') m (next_oneshot s) (calls s) (handle s)
  | Break =>
      let '(c', dropped) := drop_receiver c in
      mkSys c' None (abandon m dropped) (next_oneshot s) (calls s) (handle s)
  end.

Definition act (a : Action) (s : Sys) : Sys :=
  match a with
  | Spawn p =>
      if handle s then
        mkSys (chan s) (loop s) (settled s) (next_oneshot s) (calls s ++ [p]) (handle s)
      else s
  | StepCall n => step_call s n
  | LoopRecv =>
      match loop s with
      | Some st =>
          match poll_recv (chan s) with
          | (c, Ready cmd) => loop_turn s c (Recv cmd) st
          | (c, Pending) => s
          end
      | None => s
      end
  | LoopInput i =>
      match loop s, i with
      | Some st, (Tick _ | Event _ _) => loop_turn s (chan s) i st
      | _, _ => s
      end
  | DropHandle =>
      if handle s && forallb is_done (calls s) then
        let '(s, _) := send_command s Shutdown in
        mkSys (drop_senders (chan s)) (loop s) (settled s) (next_oneshot s) (calls s) false
      else s
  end.

Definition run (acts : list Action) (s : Sys) : Sys := foldl (fun s a => act a s) s acts.

Fixpoint recvs (acts : list Action) : nat :=
  match acts with
  | [] => 0
  | LoopRecv :: acts => S (recvs acts)
  | _ :: acts => recvs acts
  end.

(** ** Well-formed calls

    What a call may do with its oneshot channels, for the system to be sound: it
    sends one it has just created with at most one command, and waits only for a
    reply to a command it has sent.  (The native functions are stricter, see
    [NodeCalls.disciplined].) *)
Inductive Held :=
  | Nothing
  | Created (t : ReplyTy) (tx : N)
  | Awaited (t : ReplyTy) (tx : N).

Fixpoint nif_wf (h : Held) (p : nif) : Prop :=
  match p with
  | Done _ => True
  | Oneshot t k => forall tx, nif_wf (Created t tx) (k tx)
  | TrySend cmd k =>
      match command_reply cmd with
      | None => forall r, nif_wf Nothing (k r)
      | Some (existT t tx) =>
          h = Created t tx /\ nif_wf (Awaited t tx) (k Sent) /\
          nif_wf Nothing (k Channel.Full) /\ nif_wf Nothing (k Channel.Closed)
      end
  | BlockingRecv t tx k => h = Awaited t tx /\ forall v, nif_wf Nothing (k v)
  end.

Lemma nif_wf_done h r : nif_wf h (Done r).
Proof. done. Qed.

(** ** The invariant of the oneshot channels *)
Definition reply_txs (l : list (Command LocalPid)) : list N :=
  omap (fun cmd => (fun s : { t : ReplyTy & Sender t } => projT2 s) <$> command_reply cmd) l.

(** What is known of the channel an awaiting call waits on. *)
Definition on_its_way (q : list (Command LocalPid)) (m : Settled) (t : ReplyTy) (tx : N) : Prop :=
  m !! tx = Some None \/ (exists v, m !! tx = Some (Some (existT t v))) \/
  (m !! tx = None /\ exists cmd, cmd ∈ q /\ command_reply cmd = Some (existT t tx)).

Record oneshots_ok (hs : list Held) (q : list (Command LocalPid)) (m : Settled) (nx : N)
    (cs : list nif) : Prop := {
  ok_nodup : NoDup (reply_txs q);
  ok_queued tx : tx ∈ reply_txs q -> (tx < nx)%N /\ m !! tx = None;
  ok_settled tx : is_Some (m !! tx) -> (tx < nx)%N;
  ok_calls : Forall2 nif_wf hs cs;
  ok_created n t tx : hs !! n = Some (Created t tx) ->
    (tx < nx)%N /\ m !! tx = None /\ tx ∉ reply_txs q;
  ok_distinct n1 n2 t1 t2 tx : hs !! n1 = Some (Created t1 tx) ->
    hs !! n2 = Some (Created t2 tx) -> n1 = n2;
  ok_awaited n t tx : hs !! n = Some (Awaited t tx) -> on_its_way q m t tx;
}.

Lemma reply_txs_cons cmd q :
  reply_txs (cmd :: q) =
    match command_reply cmd with Some s => projT2 s :: reply_txs q | None => reply_txs q end.
Proof. unfold reply_txs. cbn. by destruct (command_reply cmd). Qed.

Lemma reply_txs_snoc q cmd :
  reply_txs (q ++ [cmd]) =
    reply_txs q ++ match command_reply cmd with Some s => [projT2 s] | None => [] end.
Proof.
  unfold reply_txs. rewrite omap_app. cbn. by destruct (command_reply cmd).
Qed.

Lemma reply_txs_elem q cmd t (tx : N) :
  cmd ∈ q -> command_reply cmd = Some (existT t tx) -> tx ∈ reply_txs q.
Proof. intros Hq Hc. apply list_elem_of_omap. exists cmd. by rewrite Hc. Qed.

Section silent.
Context (hs : list Held) (q : list (Command LocalPid)) (m : Settled) (nx : N) (cs : list nif).

(** A command without reply leaves or enters the queue. *)
Lemma oneshots_silent_pop cmd :
  command_reply cmd = None -> oneshots_ok hs (cmd :: q) m nx cs -> oneshots_ok hs q m nx cs.
Proof.
  intros Hc [H1 H2 H3 H4 H5 H6 H7]. rewrite reply_txs_cons, Hc in *. split; try done.
  intros n t tx Hn. destruct (H7 n t tx Hn) as [|[|(? & c & [-> |]%elem_of_cons & ?)]];
    [by left|by right; left|congruence|]. right; right. eauto.
Qed.

Lemma oneshots_silent_push cmd :
  command_reply cmd = None -> oneshots_ok hs q m nx cs -> oneshots_ok hs (q ++ [cmd]) m nx cs.
Proof.
  intros Hc [H1 H2 H3 H4 H5 H6 H7]. split; rewrite ?reply_txs_snoc, ?Hc, ?app_nil_r; try done.
  intros n t tx Hn. destruct (H7 n t tx Hn) as [|[|(? & c & ? & ?)]];
    [by left|by right; left|]. right; right. split; [done|]. exists c. split; [|done]. apply elem_of_app. by left.
Qed.

End silent.

Section oneshots.
Context (hs : list Held) (q : list (Command LocalPid)) (m : Settled) (nx : N) (cs : list nif).

(** A command leaves the queue and its oneshot channel is settled. *)
Lemma oneshots_pop cmd t (tx : N) o :
  command_reply cmd = Some (existT t tx) ->
  (o = None \/ exists v, o = Some (existT t v)) ->
  oneshots_ok hs (cmd :: q) m nx cs -> oneshots_ok hs q (<[tx := o]> m) nx cs.
Proof.
  intros Hc Ho [H1 H2 H3 H4 H5 H6 H7]. rewrite reply_txs_cons, Hc in *. cbn [projT2] in *.
  apply NoDup_cons in H1 as [Hnew H1]. destruct (H2 tx ltac:(by left)) as [Hlt Hm].
  split; try done.
  - intros tx' Htx. destruct (H2 tx' ltac:(by right)). split; [done|].
    rewrite lookup_insert_ne; [done|]. by intros ->.
  - intros tx' [<-|[_ ?]]%lookup_insert_is_Some; [done|by apply H3].
  - intros n t' tx' Hn. destruct (H5 n t' tx' Hn) as (? & ? & Hout).
    split; [done|]. split; [|by intros ?; apply Hout; right].
    rewrite lookup_insert_ne; [done|]. intros ->. apply Hout. by left.
  - intros n t' tx' Hn. unfold on_its_way. destruct (decide (tx' = tx)) as [->|Hne].
    + rewrite lookup_insert_eq. destruct (H7 n t' tx Hn) as [|[[? ?]|(_ & c & Hin & Hc')]];
        [congruence|congruence|]. apply elem_of_cons in Hin as [->|Hin].
      * rewrite Hc in Hc'. injection Hc' as ->. destruct Ho as [->|[v ->]]; eauto.
      * destruct Hnew. by apply (reply_txs_elem q c t').
    + rewrite lookup_insert_ne by done. destruct (H7 n t' tx' Hn) as [?|[?|(? & c & Hin & ?)]];
        [by left|by right; left|]. right; right. split; [done|]. exists c. split; [|done].
      apply elem_of_cons in Hin as [->|]; [|done]. exfalso. congruence.
Qed.

(** A command that was not accepted settles its channel. *)
Lemma oneshots_reject n cmd k r :
  cs !! n = Some (TrySend cmd k) -> r <> Sent -> oneshots_ok hs q m nx cs ->
  oneshots_ok (<[n := Nothing]> hs) q (abandon m [cmd]) nx (<[n := k r]> cs).
Proof.
  intros Hn Hr [H1 H2 H3 H4 H5 H6 H7].
  destruct (Forall2_lookup_r _ _ _ _ _ H4 Hn) as (h & Hh & Hwf). cbn [nif_wf] in Hwf.
  assert (oneshots_ok (<[n := Nothing]> hs) q m nx (<[n := k r]> cs)) as [J1 J2 J3 J4 J5 J6 J7].
  { split; try done.
    - apply Forall2_insert; [done|]. destruct (command_reply cmd) as [[t tx]|]; [|by apply Hwf].
      destruct Hwf as (_ & _ & ? & ?). by destruct r.
    - intros n' t tx [(_ & ? & _)|[_ ?]]%list_lookup_insert_Some; [done|by eapply H5].
    - intros n1 n2 t1 t2 tx [(_ & ? & _)|[_ ?]]%list_lookup_insert_Some; [done|].
      intros [(_ & ? & _)|[_ ?]]%list_lookup_insert_Some; [done|by eapply H6].
    - intros n' t tx [(_ & ? & _)|[_ ?]]%list_lookup_insert_Some; [done|by eapply H7]. }
  unfold abandon. cbn [foldl]. destruct (command_reply cmd) as [[t tx]|]; [|by split].
  destruct Hwf as (-> & _). destruct (H5 n t tx Hh) as (Hlt & Hm & Hout).
  split; try done.
  - intros tx' Htx. destruct (J2 tx' Htx). rewrite lookup_insert_ne; [done|]. by intros ->.
  - intros tx' [<-|[_ ?]]%lookup_insert_is_Some; [done|by apply J3].
  - intros n' t' tx' Hn'. destruct (J5 n' t' tx' Hn') as (? & ? & ?). split_and!; try done.
    rewrite lookup_insert_ne; [done|]. intros ->.
    apply list_lookup_insert_Some in Hn' as [(-> & ? & _)|[Hne Hn']]; [done|].
    destruct Hne. by eapply H6.
  - intros n' t' tx' Hn'. assert (tx' <> tx) as Hne.
    { intros ->. destruct (J7 n' t' tx Hn') as [E|[[v E]|(_ & c & Hin & E)]];
        [by rewrite E in Hm|by rewrite E in Hm|].
      destruct Hout. by apply (reply_txs_elem q c t'). }
    unfold on_its_way. rewrite lookup_insert_ne by done. by apply (J7 n').
Qed.

(** A command that was accepted carries its channel to the queue. *)
Lemma oneshots_push n cmd k :
  cs !! n = Some (TrySend cmd k) -> oneshots_ok hs q m nx cs ->
  exists h, oneshots_ok (<[n := h]> hs) (q ++ [cmd]) m nx (<[n := k Sent]> cs).
Proof.
  intros Hn Hok. pose proof Hok as [H1 H2 H3 H4 H5 H6 H7].
  destruct (Forall2_lookup_r _ _ _ _ _ H4 Hn) as (h & Hh & Hwf). cbn [nif_wf] in Hwf.
  destruct (command_reply cmd) as [[t tx]|] eqn:Hc.
  - destruct Hwf as (-> & Hk & _). destruct (H5 n t tx Hh) as (Hlt & Hm & Hout).
    exists (Awaited t tx). split; rewrite ?reply_txs_snoc, ?Hc; cbn [projT2]; try done.
    + apply NoDup_app. split; [done|]. split; [|apply NoDup_singleton].
      by intros x Hx ->%list_elem_of_singleton.
    + intros x [Hx| ->%list_elem_of_singleton]%elem_of_app; [by apply H2|done].
    + by apply Forall2_insert.
    + intros n' t' tx' [(_ & ? & _)|[Hne Hn']]%list_lookup_insert_Some; [done|].
      destruct (H5 n' t' tx' Hn') as (? & ? & ?). split_and!; [done..|].
      intros [?| ->%list_elem_of_singleton]%elem_of_app; [done|]. destruct Hne. by eapply H6.
    + intros n1 n2 t1 t2 tx' [(_ & ? & _)|[_ ?]]%list_lookup_insert_Some; [done|].
      intros [(_ & ? & _)|[_ ?]]%list_lookup_insert_Some; [done|by eapply H6].
    + intros n' t' tx' [(_ & [= <- <-] & _)|[_ Hn']]%list_lookup_insert_Some.
      * right; right. split; [done|]. exists cmd. split; [|done]. apply elem_of_app. right. by left.
      * destruct (H7 n' t' tx' Hn') as [?|[?|(? & c & ? & ?)]]; [by left|by right; left|].
        right; right. split; [done|]. exists c. split; [|done]. apply elem_of_app. by left.
  - exists Nothing. apply oneshots_silent_push; [done|].
    assert (forall n' h, <[n := Nothing]> hs !! n' = Some h -> h = Nothing \/ hs !! n' = Some h) as Hhs.
    { intros n' h' [(_ & ? & _)|[_ ?]]%list_lookup_insert_Some; auto. }
    split; try done.
    + by apply Forall2_insert.
    + intros n' t tx [?|?]%Hhs; [done|by eapply H5].
    + intros n1 n2 t1 t2 tx [?|?]%Hhs; [done|]. intros [?|?]%Hhs; [done|by eapply H6].
    + intros n' t tx [?|?]%Hhs; [done|by eapply H7].
Qed.

(** A call creates a oneshot channel under the next number. *)
Lemma oneshots_create n t k :
  cs !! n = Some (Oneshot t k) -> oneshots_ok hs q m nx cs ->
  oneshots_ok (<[n := Created t nx]> hs) q m (nx + 1) (<[n := k nx]> cs).
Proof.
  intros Hn [H1 H2 H3 H4 H5 H6 H7].
  destruct (Forall2_lookup_r _ _ _ _ _ H4 Hn) as (h & Hh & Hwf). cbn [nif_wf] in Hwf.
  assert (m !! nx = None) as Hfresh.
  { destruct (m !! nx) eqn:E; [|done]. assert (nx < nx)%N by (by apply H3). lia. }
  assert (nx ∉ reply_txs q) as Hout by (intros [? _]%H2; lia).
  assert (forall n' t' tx, <[n := Created t nx]> hs !! n' = Some (Created t' tx) ->
    (n' = n /\ tx = nx) \/ (n' <> n /\ hs !! n' = Some (Created t' tx))) as Hhs.
  { intros n' t' tx [(-> & [= <- <-] & _)|[? ?]]%list_lookup_insert_Some; auto. }
  split; try done.
  - intros tx [? ?]%H2. split; [lia|done].
  - intros tx Htx. pose proof (H3 tx Htx). lia.
  - by apply Forall2_insert.
  - intros n' t' tx [[-> ->]|[_ Hn']]%Hhs; [split_and!; [lia|done|done]|].
    destruct (H5 n' t' tx Hn') as (? & ? & ?). split_and!; [lia|done|done].
  - intros n1 n2 t1 t2 tx [[-> ->]|[? E1]]%Hhs [[-> E]|[? E2]]%Hhs; [done| | |by eapply H6].
    + apply H5 in E2. lia.
    + subst. apply H5 in E1. lia.
  - intros n' t' tx [(_ & ? & _)|[_ ?]]%list_lookup_insert_Some; [done|by eapply H7].
Qed.

(** A call that waited goes on. *)
Lemma oneshots_resume n t tx k v :
  cs !! n = Some (BlockingRecv t tx k) -> oneshots_ok hs q m nx cs ->
  oneshots_ok (<[n := Nothing]> hs) q m nx (<[n := k v]> cs).
Proof.
  intros Hn [H1 H2 H3 H4 H5 H6 H7].
  destruct (Forall2_lookup_r _ _ _ _ _ H4 Hn) as (h & Hh & _ & Hwf).
  assert (forall n' h, <[n := Nothing]> hs !! n' = Some h -> h = Nothing \/ hs !! n' = Some h) as Hhs.
  { intros n' h' [(_ & ? & _)|[_ ?]]%list_lookup_insert_Some; auto. }
  split; try done.
  - by apply Forall2_insert.
  - intros n' t' tx' [?|?]%Hhs; [done|by eapply H5].
  - intros n1 n2 t1 t2 tx' [?|?]%Hhs; [done|]. intros [?|?]%Hhs; [done|by eapply H6].
  - intros n' t' tx' [?|?]%Hhs; [done|by eapply H7].
Qed.

Lemma oneshots_spawn p :
  nif_wf Nothing p -> oneshots_ok hs q m nx cs ->
  oneshots_ok (hs ++ [Nothing]) q m nx (cs ++ [p]).
Proof.
  intros Hp [H1 H2 H3 H4 H5 H6 H7].
  assert (forall n' h, (hs ++ [Nothing]) !! n' = Some h -> h = Nothing \/ hs !! n' = Some h) as Hhs.
  { intros n' h' [?|[_ Hl]]%lookup_app_Some; [by right|].
    apply list_lookup_singleton_Some in Hl as [_ <-]. by left. }
  split; try done.
  - apply Forall2_app; [done|]. by constructor.
  - intros n' t' tx' [?|?]%Hhs; [done|by eapply H5].
  - intros n1 n2 t1 t2 tx' [?|?]%Hhs; [done|]. intros [?|?]%Hhs; [done|by eapply H6].
  - intros n' t' tx' [?|?]%Hhs; [done|by eapply H7].
Qed.
End oneshots.

Lemma oneshots_abandon hs q m nx cs :
  oneshots_ok hs q m nx cs -> oneshots_ok hs [] (abandon m q) nx cs.
Proof.
  revert m. induction q as [|cmd q IH]; intros m Hok; [done|].
  unfold abandon. cbn [foldl]. destruct (command_reply cmd) as [[t tx]|] eqn:Hc.
  - apply IH. eapply oneshots_pop; [done|by left|done].
  - apply IH. by eapply oneshots_silent_pop.
Qed.

Lemma received_value t (v : reply_val t) : received t (Some (existT t v)) = Some v.
Proof using Type.
  unfold received. destruct (decide (t = t)) as [E|]; [|done].
  by rewrite <-(Eqdep_dec.eq_rect_eq_dec ReplyTy_eq_dec).
Qed.

Lemma sender_inj t t' (tx : Sender t) (tx' : Sender t') :
  Some (existT t tx) = Some (existT t' tx') -> t = t' /\ (tx : N) = tx'.
Proof.
  intros E%(inj Some).
  exact (conj (f_equal (fun s : { t : ReplyTy & Sender t } => projT1 s) E)
              (f_equal (fun s : { t : ReplyTy & Sender t } => (projT2 s : N)) E)).
Qed.

Lemma settle_app m l k : settle m (l ++ k) = settle (settle m l) k.
Proof. apply foldl_app. Qed.

Lemma settle_silent m l : replies l = [] -> settle m l = m.
Proof.
  revert m. induction l as [|e l IH]; intros m Hl; [done|].
  destruct e; cbn in Hl |- *; [by apply IH|done|by apply IH|by apply IH].
Qed.

Lemma settle_reply m l t (tx : N) :
  replies l = [existT t tx] ->
  exists v, Reply t tx v ∈ l /\ settle m l = <[tx := Some (existT t v)]> m.
Proof.
  revert m. induction l as [|e l IH]; intros m Hl; [done|].
  destruct e; try (by destruct (IH m Hl) as (v & ? & ?); exists v; split; [by right|]).
  change (settle m (Reply t0 reply value :: l))
    with (settle (<[(reply : N) := Some (existT t0 value)]> m) l).
  change (existT t0 reply :: replies l = [existT t tx]) in Hl.
  pose proof (f_equal head Hl) as E. pose proof (f_equal tail Hl) as Hl'. cbn [head tail] in E, Hl'.
  apply sender_inj in E as [<- Htx]. change (reply = tx) in Htx. subst.
  eexists. split; [by left|]. by apply settle_silent.
Qed.

Lemma loop_turn_eq s c i st :
  loop_turn s c i st =
    let m := settle (settled s) (effects_of (turn i st)) in
    if ends i then
      let '(c', dropped) := drop_receiver c in
      mkSys c' None (abandon m dropped) (next_oneshot s) (calls s) (handle s)
    else mkSys c (Some (state (turn i st))) m (next_oneshot s) (calls s) (handle s).
Proof.
  unfold loop_turn. pose proof (turn_control (Term:=Term) alloc auto i st) as Hc.
  unfold control, state, effects_of in *. destruct (turn i st) as [[ctl st'] l]. cbn in *.
  rewrite Hc. by destruct (ends i).
Qed.

(** A turn answers the command it takes. *)
Lemma oneshots_turn hs q m nx cs cmd st :
  oneshots_ok hs (cmd :: q) m nx cs ->
  oneshots_ok hs q (settle m (effects_of (turn (Recv (Some cmd)) st))) nx cs /\
  (forall t tx, command_reply cmd = Some (existT t tx) ->
     is_Some (settle m (effects_of (turn (Recv (Some cmd)) st)) !! (tx : N))).
Proof.
  intros Hok. pose proof (turn_replies (Term:=Term) alloc auto (Recv (Some cmd)) st) as Hr.
  change (input_reply (Recv (Some cmd))) with (command_reply cmd) in Hr.
  set (l := effects_of (turn (Recv (Some cmd)) st)) in *. clearbody l.
  destruct (command_reply cmd) as [[t tx]|] eqn:Hc.
  - destruct (settle_reply m _ t tx Hr) as (v & _ & ->). split.
    + eapply oneshots_pop; eauto.
    + intros t' tx' E. apply sender_inj in E as [_ <-]. rewrite lookup_insert_eq. by eexists.
  - rewrite (settle_silent _ _ Hr). split; [by eapply oneshots_silent_pop|done].
Qed.

(** ** The invariant of the system *)
Context `{!MpscOk Chan (Command LocalPid)}.

Record sys_ok (s : Sys) : Prop := {
  sys_receiver : receiver (chan s) = match loop s with Some _ => true | None => false end;
  sys_senders : senders (chan s) = handle s;
  sys_capacity : capacity (chan s) = COMMAND_CHANNEL_CAPACITY;
  sys_bound : Z.of_nat (length (queue (chan s))) <= COMMAND_CHANNEL_CAPACITY;
  sys_exited : loop s = None -> queue (chan s) = [];
  sys_oneshots : exists hs, oneshots_ok hs (queue (chan s)) (settled s) (next_oneshot s) (calls s);
  sys_dropped : handle s = false -> forallb is_done (calls s) = true;
}.

Lemma sys_ok_start sw : sys_ok (start sw).
Proof.
  destruct (channel_ok (A:=Command LocalPid) COMMAND_CHANNEL_CAPACITY) as (Hq & Hc & Hs & Hr); [done|].
  split; cbn; try done; [by rewrite Hq|]. exists []. rewrite Hq.
  split; try done; [constructor|by intros ? ?%elem_of_nil|..].
  - intros tx. rewrite lookup_empty. by intros [].
Qed.

(** What [try_send] does, by the state of the task and of the queue. *)
Lemma send_command_spec s cmd :
  sys_ok s -> handle s = true ->
  let '(s', r) := send_command s cmd in
  loop s' = loop s /\ next_oneshot s' = next_oneshot s /\ calls s' = calls s /\
  handle s' = true /\ senders (chan s') = true /\ capacity (chan s') = COMMAND_CHANNEL_CAPACITY /\
  receiver (chan s') = receiver (chan s) /\
  match r with
  | Sent => is_Some (loop s) /\ queue (chan s') = queue (chan s) ++ [cmd] /\
      Z.of_nat (length (queue (chan s))) < COMMAND_CHANNEL_CAPACITY /\ settled s' = settled s
  | Channel.Full => is_Some (loop s) /\ queue (chan s') = queue (chan s) /\
      Z.of_nat (length (queue (chan s))) = COMMAND_CHANNEL_CAPACITY /\
      settled s' = abandon (settled s) [cmd]
  | Channel.Closed => loop s = None /\ queue (chan s') = queue (chan s) /\
      settled s' = abandon (settled s) [cmd]
  end.
Proof.
  intros Hok Hh. destruct Hok as [Hr Hs Hc Hb He _ _]. unfold send_command.
  assert (senders (chan s) = true) as Hs1 by (by rewrite Hs).
  pose proof (try_send_ok (chan s) cmd Hs1) as Ht.
  destruct (try_send (chan s) cmd) as [c r]. destruct Ht as (Hc' & Hs' & Hr' & Ht).
  rewrite Hr in Ht. cbn. split_and!; try done; [by rewrite Hc'|].
  destruct (loop s) as [st|].
  - rewrite Hc in Ht. destruct (Z.ltb_spec (Z.of_nat (length (queue (chan s)))) COMMAND_CHANNEL_CAPACITY);
      destruct Ht as [-> ->]; split_and!; try done; try lia; by eexists.
  - by destruct Ht as [-> ->].
Qed.

Lemma forallb_insert_false (cs : list nif) n p :
  cs !! n = Some p -> is_done p = false -> forallb is_done cs = true -> False.
Proof.
  intros Hn Hp Hall. rewrite forallb_forall in Hall.
  assert (is_done p = true); [|congruence].
  apply Hall, list_elem_of_In. by apply list_elem_of_lookup_2 in Hn.
Qed.

Lemma sys_ok_send s n cmd k :
  sys_ok s -> calls s !! n = Some (TrySend cmd k) -> sys_ok (step_call s n).
Proof.
  intros Hok Hn. pose proof (sys_dropped _ Hok) as Hd.
  assert (handle s = true) as Hh.
  { destruct (handle s); [done|]. exfalso. by eapply forallb_insert_false, Hd. }
  pose proof (send_command_spec s cmd Hok Hh) as Hspec.
  destruct (sys_oneshots _ Hok) as [hs Hos]. pose proof (sys_receiver _ Hok) as Hrec.
  unfold step_call. rewrite Hn.
  destruct (send_command s cmd) as [s' r]. destruct Hspec as (Hl & Hnx & Hcs & Hh' & Hs' & Hc' & Hr' & Hq).
  pose proof (sys_bound _ Hok) as Hb. pose proof (sys_exited _ Hok) as He.
  split; cbn [set_call chan loop settled next_oneshot calls handle].
  - by rewrite Hr', Hl.
  - congruence.
  - done.
  - destruct r.
    + destruct Hq as (_ & -> & ? & _). rewrite length_app. cbn. lia.
    + by destruct Hq as (_ & -> & _).
    + by destruct Hq as (_ & -> & _).
  - rewrite Hl. intros El. rewrite El in Hq. rewrite <-(He El). destruct r.
    + by destruct Hq as [[] _].
    + by destruct Hq as (_ & -> & _).
    + by destruct Hq as (_ & -> & _).
  - rewrite Hnx, Hcs. destruct r.
    + destruct Hq as (_ & -> & _ & ->). destruct (oneshots_push _ _ _ _ _ _ _ _ Hn Hos). by eexists.
    + destruct Hq as (_ & -> & _ & ->). eexists. by apply oneshots_reject.
    + destruct Hq as (_ & -> & ->). eexists. by apply oneshots_reject.
  - by rewrite Hh'.
Qed.

(** Calls that follow the rules. *)
Definition action_wf (a : Action) : Prop :=
  match a with Spawn p => nif_wf Nothing p | _ => True end.

Lemma sys_ok_turn s c i st m hs q :
  sys_ok s -> loop s = Some st ->
  settle (settled s) (effects_of (turn i st)) = m ->
  oneshots_ok hs q m (next_oneshot s) (calls s) ->
  receiver c = true -> senders c = handle s -> capacity c = COMMAND_CHANNEL_CAPACITY ->
  queue c = q -> Z.of_nat (length q) <= COMMAND_CHANNEL_CAPACITY ->
  sys_ok (loop_turn s c i st).
Proof.
  intros Hok Hl <- Hos Hr Hs Hc Hq Hb. rewrite loop_turn_eq. cbv zeta.
  destruct (ends i).
  - pose proof (drop_receiver_ok c) as Hd. destruct (drop_receiver c) as [c' l].
    destruct Hd as (-> & Hq' & Hc' & Hs' & Hr').
    split; cbn [chan loop settled next_oneshot calls handle]; try congruence.
    + rewrite Hq'. by cbn.
    + exists hs. rewrite Hq', Hq. by apply oneshots_abandon.
    + by apply Hok.
  - split; cbn [chan loop settled next_oneshot calls handle]; try congruence.
    + exists hs. by rewrite Hq.
    + by apply Hok.
Qed.

Lemma sys_ok_recv s : sys_ok s -> sys_ok (act LoopRecv s).
Proof.
  intros Hok. cbn [act]. destruct (loop s) as [st|] eqn:Hl; [|done].
  pose proof (sys_receiver _ Hok) as Hr. rewrite Hl in Hr.
  pose proof (poll_recv_ok (chan s) Hr) as Hp. destruct (poll_recv (chan s)) as [c r].
  destruct Hp as (Hc & Hs & Hr' & Hq). destruct (sys_oneshots _ Hok) as [hs Hos].
  pose proof (sys_bound _ Hok) as Hb. pose proof (sys_capacity _ Hok). pose proof (sys_senders _ Hok).
  destruct (queue (chan s)) as [|cmd q]; destruct Hq as [-> Hq].
  - destruct (senders (chan s)); [done|]. eapply sys_ok_turn; [done|done|by apply settle_silent, turn_replies|exact Hos|..];
      try congruence; done.
  - cbn [length] in Hb. eapply sys_ok_turn; [done|done|done|by eapply oneshots_turn|..];
      try congruence. lia.
Qed.

Lemma sys_ok_input s i : sys_ok s -> sys_ok (act (LoopInput i) s).
Proof.
  intros Hok. cbn [act]. destruct (loop s) as [st|] eqn:Hl; [|done].
  destruct (sys_oneshots _ Hok) as [hs Hos]. pose proof (sys_receiver _ Hok) as Hr. rewrite Hl in Hr.
  pose proof (turn_replies (Term:=Term) alloc auto i st) as Hrep.
  destruct i; [|done|]; (eapply sys_ok_turn; [done|done|by apply settle_silent|exact Hos|done|..];
    by try apply Hok).
Qed.

Lemma sys_ok_step s n : sys_ok s -> sys_ok (step_call s n).
Proof.
  intros Hok. destruct (calls s !! n) as [[r|t k|cmd k|t tx k]|] eqn:Hn;
    [by unfold step_call; rewrite Hn| |by eapply sys_ok_send| |by unfold step_call; rewrite Hn].
  all: destruct (sys_oneshots _ Hok) as [hs Hos]; pose proof (sys_dropped _ Hok) as Hd.
  all: assert (handle s = false -> False) as Hh
    by (intros Hh; by eapply forallb_insert_false, Hd).
  - unfold step_call. rewrite Hn. destruct Hok as [H1 H2 H3 H4 H5 _ _]. split; cbn; try done.
    eexists. by apply oneshots_create.
  - unfold step_call. rewrite Hn. destruct (settled s !! (tx : N)) as [o|]; [|done].
    destruct Hok as [H1 H2 H3 H4 H5 _ _]. split; cbn; try done.
    eexists. by eapply oneshots_resume.
Qed.

Lemma sys_ok_drop s : sys_ok s -> sys_ok (act DropHandle s).
Proof.
  intros Hok. cbn [act]. destruct (handle s) eqn:Hh; [|done].
  destruct (forallb is_done (calls s)) eqn:Hall; [|done]. cbn [andb].
  pose proof (send_command_spec s Shutdown Hok Hh) as Hspec.
  destruct (send_command s Shutdown) as [s' r].
  destruct Hspec as (Hl & Hnx & Hcs & Hh' & Hs' & Hc' & Hr' & Hq).
  destruct (drop_senders_ok (chan s')) as (Hq2 & Hc2 & Hs2 & Hr2).
  destruct (sys_oneshots _ Hok) as [hs Hos]. pose proof (sys_receiver _ Hok) as Hr.
  pose proof (sys_bound _ Hok) as Hb. pose proof (sys_exited _ Hok) as He.
  split; cbn [chan loop settled next_oneshot calls handle].
  - by rewrite Hr2, Hr', Hl.
  - done.
  - by rewrite Hc2.
  - rewrite Hq2. destruct r.
    + destruct Hq as (_ & -> & ? & _). rewrite length_app. cbn. lia.
    + by destruct Hq as (_ & -> & _).
    + by destruct Hq as (_ & -> & _).
  - rewrite Hl, Hq2. intros El. rewrite El in Hq. rewrite <-(He El). destruct r.
    + by destruct Hq as [[] _].
    + by destruct Hq as (_ & -> & _).
    + by destruct Hq as (_ & -> & _).
  - exists hs. rewrite Hq2, Hnx, Hcs. destruct r.
    + destruct Hq as (_ & -> & _ & ->). by apply oneshots_silent_push.
    + by destruct Hq as (_ & -> & _ & ->).
    + by destruct Hq as (_ & -> & ->).
  - by rewrite Hcs.
Qed.

Lemma sys_ok_act a s : action_wf a -> sys_ok s -> sys_ok (act a s).
Proof.
  intros Ha Hok. destruct a as [p|n| |i|].
  - cbn. destruct (handle s) eqn:Hh; [|done]. destruct (sys_oneshots _ Hok) as [hs Hos].
    destruct Hok as [H1 H2 H3 H4 H5 _ _]. split; cbn; try done; try congruence.
    eexists. by apply oneshots_spawn.
  - by apply sys_ok_step.
  - by apply sys_ok_recv.
  - by apply sys_ok_input.
  - by apply sys_ok_drop.
Qed.

Lemma sys_ok_run acts s : Forall action_wf acts -> sys_ok s -> sys_ok (run acts s).
Proof.
  intros Hwf. revert s. induction Hwf as [|a acts Ha _ IH]; intros s Hok; [done|].
  by apply IH, sys_ok_act.
Qed.

(** ** Settling *)
Lemma abandon_out m q (tx : N) : tx ∉ reply_txs q -> abandon m q !! tx = m !! tx.
Proof.
  revert m. induction q as [|cmd q IH]; intros m Hout; [done|].
  rewrite reply_txs_cons in Hout. unfold abandon. cbn [foldl].
  destruct (command_reply cmd) as [[t tx']|]; [|by apply IH].
  cbn [projT2] in Hout. apply not_elem_of_cons in Hout as [Hne Hout].
  etrans; [by apply IH|]. by rewrite lookup_insert_ne.
Qed.

Lemma abandon_in m q (tx : N) : tx ∈ reply_txs q -> abandon m q !! tx = Some None.
Proof.
  revert m. induction q as [|cmd q IH]; intros m Hin; [by apply elem_of_nil in Hin|].
  rewrite reply_txs_cons in Hin. unfold abandon. cbn [foldl].
  destruct (decide (tx ∈ reply_txs q)) as [Hq|Hq]; [by apply IH|].
  etrans; [by apply abandon_out|].
  destruct (command_reply cmd) as [[t tx']|]; [|done]. cbn [projT2] in Hin.
  apply elem_of_cons in Hin as [->|?]; [|done]. by rewrite lookup_insert_eq.
Qed.

Lemma turn_settles m cmd st :
  match command_reply cmd with
  | Some (existT t tx) => exists v,
      Reply t tx v ∈ effects_of (turn (Recv (Some cmd)) st) /\
      settle m (effects_of (turn (Recv (Some cmd)) st)) = <[(tx : N) := Some (existT t v)]> m
  | None => settle m (effects_of (turn (Recv (Some cmd)) st)) = m
  end.
Proof.
  pose proof (turn_replies (Term:=Term) alloc auto (Recv (Some cmd)) st) as Hr.
  change (input_reply (Recv (Some cmd))) with (command_reply cmd) in Hr.
  destruct (command_reply cmd) as [[t tx]|]; [by apply settle_reply|by apply settle_silent].
Qed.

Lemma loop_turn_view s c i st :
  let s' := loop_turn s c i st in
  let m := settle (settled s) (effects_of (turn i st)) in
  loop s' = (if ends i then None else Some (state (turn i st))) /\
  queue (chan s') = (if ends i then [] else queue c) /\
  settled s' = (if ends i then abandon m (queue c) else m) /\
  calls s' = calls s /\ handle s' = handle s.
Proof.
  rewrite loop_turn_eq. cbv zeta. destruct (ends i); [|done].
  pose proof (drop_receiver_ok c) as Hd. destruct (drop_receiver c) as [c' l].
  destruct Hd as (-> & Hq & _). cbn [chan loop settled calls handle]. by rewrite Hq.
Qed.

(** What receiving does, by the head of the queue. *)
Lemma recv_view s :
  sys_ok s ->
  let s' := act LoopRecv s in
  calls s' = calls s /\ handle s' = handle s /\
  match loop s, queue (chan s) with
  | None, _ => s' = s
  | Some st, [] => if handle s then s' = s else loop s' = None /\ settled s' = settled s
  | Some st, cmd :: q =>
      let m := settle (settled s) (effects_of (turn (Recv (Some cmd)) st)) in
      if ends (Recv (Some cmd)) then
        loop s' = None /\ settled s' = abandon m q
      else
        loop s' = Some (state (turn (Recv (Some cmd)) st)) /\ queue (chan s') = q /\ settled s' = m
  end.
Proof.
  intros Hok. cbn [act]. pose proof (sys_receiver _ Hok) as Hr. pose proof (sys_senders _ Hok) as Hs.
  destruct (loop s) as [st|] eqn:Hl; [|done].
  pose proof (poll_recv_ok (chan s) Hr) as Hp. destruct (poll_recv (chan s)) as [c r].
  destruct Hp as (_ & _ & _ & Hq). destruct (queue (chan s)) as [|cmd q].
  - rewrite Hs in Hq. destruct Hq as [-> Hq]. destruct (handle s) eqn:Hh; [done|].
    pose proof (loop_turn_view s c (Recv None) st) as (-> & _ & -> & -> & ->).
    cbn [ends]. by rewrite Hq.
  - destruct Hq as [-> Hq]. cbv zeta.
    pose proof (loop_turn_view s c (Recv (Some cmd)) st) as (-> & -> & -> & -> & ->).
    rewrite Hq. by destruct (ends (Recv (Some cmd))).
Qed.

Lemma input_view s i :
  let s' := act (LoopInput i) s in
  queue (chan s') = queue (chan s) /\ settled s' = settled s /\ calls s' = calls s /\
  handle s' = handle s /\ (is_Some (loop s') <-> is_Some (loop s)).
Proof.
  cbn [act]. destruct (loop s) as [st|] eqn:Hl; [|by rewrite Hl].
  pose proof (turn_replies (Term:=Term) alloc auto i st) as Hr.
  destruct i as [now| |now ev]; [|by rewrite Hl|];
    pose proof (loop_turn_view s (chan s) (Tick now) st) as (E1 & E2 & E3 & E4 & E5);
    cbv zeta; [|pose proof (loop_turn_view s (chan s) (Event now ev) st) as (F1 & F2 & F3 & F4 & F5)].
  - rewrite E1, E2, E3, E4, E5. cbn [ends]. by rewrite settle_silent by done.
  - rewrite F1, F2, F3, F4, F5. cbn [ends]. by rewrite settle_silent by done.
Qed.

(** What a step of a call does to the queue and the oneshot channels. *)
Lemma step_view s n :
  sys_ok s ->
  loop (step_call s n) = loop s /\ handle (step_call s n) = handle s /\
  (exists l, queue (chan (step_call s n)) = queue (chan s) ++ l) /\
  (forall tx o, settled s !! tx = Some o -> settled (step_call s n) !! tx = Some o).
Proof.
  intros Hok. destruct (sys_oneshots _ Hok) as [hs Hos]. unfold step_call.
  destruct (calls s !! n) as [[r|t k|cmd k|t rx k]|] eqn:Hn; cbn;
    try (split_and!; [done|done|exists []; by rewrite app_nil_r|done]).
  - assert (handle s = true) as Hh.
    { destruct (handle s) eqn:E; [done|]. exfalso.
      by eapply forallb_insert_false, (sys_dropped _ Hok). }
    pose proof (send_command_spec s cmd Hok Hh) as Hspec.
    destruct (Forall2_lookup_r _ _ _ _ _ (ok_calls _ _ _ _ _ Hos) Hn) as (h & Hhs & Hwf).
    assert (forall tx o, settled s !! tx = Some o -> abandon (settled s) [cmd] !! tx = Some o) as Hab.
    { intros tx o Ho. rewrite abandon_out; [done|]. rewrite reply_txs_cons. cbn [nif_wf] in Hwf.
      destruct (command_reply cmd) as [[t' tx']|]; [|by apply not_elem_of_nil].
      destruct Hwf as (-> & _). intros ->%list_elem_of_singleton.
      apply (ok_created _ _ _ _ _ Hos) in Hhs as (_ & Hhs & _). cbn [projT2] in Ho. by rewrite Hhs in Ho. }
    destruct (send_command s cmd) as [s' r].
    destruct Hspec as (Hl & _ & _ & Hh' & _ & _ & _ & Hq). cbn [set_call chan loop settled handle].
    split_and!; [done|by rewrite Hh'| |].
    + destruct r; destruct Hq as (_ & -> & _); [by exists [cmd]|by exists []; rewrite app_nil_r..].
    + destruct r; [by destruct Hq as (_ & _ & _ & ->)| |].
      * by destruct Hq as (_ & _ & _ & ->).
      * by destruct Hq as (_ & _ & ->).
  - destruct (settled s !! (rx : N)); cbn [set_call chan loop settled handle];
      (split_and!; [done|done|exists []; by rewrite app_nil_r|done]).
Qed.

(** A oneshot channel is settled once: the outcome does not change. *)
Lemma settled_persists a s (tx : N) o :
  sys_ok s -> settled s !! tx = Some o -> settled (act a s) !! tx = Some o.
Proof.
  intros Hok Ho. destruct (sys_oneshots _ Hok) as [hs Hos].
  assert (forall x, x ∈ reply_txs (queue (chan s)) -> tx <> x) as Hout.
  { intros x Hin ->. apply (ok_queued _ _ _ _ _ Hos) in Hin as [_ Hin]. by rewrite Hin in Ho. }
  destruct a as [p|n| |i|].
  - cbn. by destruct (handle s).
  - cbn [act]. by apply step_view.
  - pose proof (recv_view s Hok) as (_ & _ & Hv). destruct (loop s) as [st|]; [|by rewrite Hv].
    destruct (queue (chan s)) as [|cmd q].
    { destruct (handle s); [by rewrite Hv|]. by destruct Hv as [_ ->]. }
    assert (settle (settled s) (effects_of (turn (Recv (Some cmd)) st)) !! tx = Some o) as Hm.
    { pose proof (turn_settles (settled s) cmd st) as Ht. rewrite reply_txs_cons in Hout.
      destruct (command_reply cmd) as [[t' tx']|]; [|by rewrite Ht].
      destruct Ht as (v & _ & ->). rewrite lookup_insert_ne; [done|]. intros <-. by apply (Hout tx'); [left|]. }
    cbv zeta in Hv. destruct (ends _).
    + destruct Hv as [_ ->]. rewrite abandon_out; [done|]. intros Hin. apply (Hout tx); [|done].
      rewrite reply_txs_cons. destruct (command_reply cmd); [by right|done].
    + by destruct Hv as (_ & _ & ->).
  - by pose proof (input_view s i) as (_ & -> & _).
  - cbn [act]. destruct (handle s && forallb is_done (calls s)); [|done].
    unfold send_command. destruct (try_send (chan s) Shutdown) as [c r]. by destruct r.
Qed.

Lemma settled_persists_run acts s (tx : N) o :
  Forall action_wf acts -> sys_ok s -> settled s !! tx = Some o ->
  settled (run acts s) !! tx = Some o.
Proof.
  intros Hwf. revert s. induction Hwf as [|a acts Ha _ IH]; intros s Hok Ho; [done|].
  apply IH; [by apply sys_ok_act|by apply settled_persists].
Qed.

(** The outcome of a query's oneshot channel: a value of its type, or none. *)
Definition settled_as (s : Sys) (t : ReplyTy) (tx : N) : Prop :=
  settled s !! tx = Some None \/ exists v, settled s !! tx = Some (Some (existT t v)).

Lemma settled_as_run acts s t tx :
  Forall action_wf acts -> sys_ok s -> settled_as s t tx -> settled_as (run acts s) t tx.
Proof.
  intros Hwf Hok [Ho|[v Ho]]; [left|right; exists v]; by apply settled_persists_run.
Qed.

(** A queued query moves up by one at every receive, until the task ends and it
    is dropped, or the task receives it and answers; nothing else disturbs it. *)
Lemma act_progress a s i cmd t tx :
  sys_ok s -> queue (chan s) !! i = Some cmd -> command_reply cmd = Some (existT t tx) ->
  settled (act a s) !! (tx : N) = Some None \/
  (exists j, queue (chan (act a s)) !! j = Some cmd /\ (j + recvs [a] <= i)%nat) \/
  a = LoopRecv /\ exists st v,
    loop s = Some st /\ loop (act a s) = Some (state (turn (Recv (Some cmd)) st)) /\
    Reply t tx v ∈ effects_of (turn (Recv (Some cmd)) st) /\
    settled (act a s) !! (tx : N) = Some (Some (existT t v)).
Proof.
  intros Hok Hi Hc. destruct a as [p|n| |inp|].
  - right; left. exists i. split; [|cbn; lia]. cbn. by destruct (handle s).
  - right; left. exists i. split; [|cbn; lia]. destruct (step_view s n Hok) as (_ & _ & [l Hq] & _).
    cbn [act]. rewrite Hq. by apply lookup_app_l_Some.
  - pose proof (recv_view s Hok) as (_ & _ & Hv).
    pose proof (sys_exited _ Hok) as He. destruct (loop s) as [st|]; [|by rewrite He in Hi].
    destruct (queue (chan s)) as [|cmd0 q]; [done|].
    pose proof (turn_settles (settled s) cmd0 st) as Ht. cbv zeta in Hv.
    destruct i as [|i]; cbn in Hi.
    + injection Hi as ->. right; right. rewrite Hc in Ht. destruct Ht as (v & Hr & Ht).
      assert (ends (Recv (Some cmd)) = false) as Hend by (by destruct cmd).
      rewrite Hend in Hv. destruct Hv as (-> & _ & ->). split; [done|]. exists st, v.
      rewrite Ht. by rewrite lookup_insert_eq.
    + destruct (ends (Recv (Some cmd0))).
      * left. destruct Hv as [_ ->]. apply abandon_in. apply list_elem_of_lookup_2 in Hi.
        by eapply reply_txs_elem.
      * right; left. exists i. destruct Hv as (_ & -> & _). split; [done|cbn; lia].
  - right; left. exists i. split; [|cbn; lia]. by pose proof (input_view s inp) as (-> & _).
  - right; left. exists i. split; [|cbn; lia]. cbn [act].
    destruct (handle s && forallb is_done (calls s)) eqn:Hd; [|done].
    apply andb_prop in Hd as [Hh _]. pose proof (send_command_spec s Shutdown Hok Hh) as Hspec.
    destruct (send_command s Shutdown) as [s' r]. destruct Hspec as (_ & _ & _ & _ & _ & _ & _ & Hq).
    cbn [chan]. destruct (drop_senders_ok (chan s')) as (-> & _).
    destruct r; destruct Hq as (_ & -> & _); [by apply lookup_app_l_Some|done..].
Qed.

Lemma run_progress acts s i cmd t tx :
  Forall action_wf acts -> sys_ok s ->
  queue (chan s) !! i = Some cmd -> command_reply cmd = Some (existT t tx) ->
  (i < recvs acts)%nat -> settled_as (run acts s) t tx.
Proof.
  intros Hwf. revert s i. induction Hwf as [|a acts Ha Hwf IH]; intros s i Hok Hi Hc Hn.
  { cbn in Hn. lia. }
  assert (recvs (a :: acts) = recvs [a] + recvs acts)%nat as Hrec by (by destruct a).
  change (run (a :: acts) s) with (run acts (act a s)).
  pose proof (sys_ok_act a s Ha Hok) as Hok'.
  destruct (act_progress a s i cmd t tx Hok Hi Hc)
    as [Hs|[(j & Hj & Hle)|(_ & _ & v & _ & _ & _ & Hs)]].
  - apply settled_as_run; [done..|by left].
  - apply (IH _ j); [done..|lia].
  - apply settled_as_run; [done..|]. right. by exists v.
Qed.

(** ** The end of the task *)
Lemma exited_act a s : sys_ok s -> loop s = None -> loop (act a s) = None.
Proof.
  intros Hok Hl. destruct a as [p|n| |inp|]; cbn [act].
  - by destruct (handle s).
  - by rewrite (proj1 (step_view s n Hok)).
  - by rewrite Hl.
  - by rewrite Hl.
  - destruct (handle s && forallb is_done (calls s)); [|done].
    unfold send_command. by destruct (try_send (chan s) Shutdown).
Qed.

Lemma exited_run acts s :
  Forall action_wf acts -> sys_ok s -> loop s = None -> loop (run acts s) = None.
Proof.
  intros Hwf. revert s. induction Hwf as [|a acts Ha _ IH]; intros s Hok Hl; [done|].
  apply IH; [by apply sys_ok_act|by apply exited_act].
Qed.

(** Without a handle nothing is sent any more: the queue only shrinks, and an
    empty queue ends the task. *)
Lemma act_drain a s :
  sys_ok s -> handle s = false ->
  handle (act a s) = false /\
  (loop (act a s) = None \/
   (length (queue (chan (act a s))) + recvs [a] <= length (queue (chan s)))%nat).
Proof.
  intros Hok Hh. pose proof (sys_dropped _ Hok Hh) as Hall. destruct a as [p|n| |inp|].
  - cbn. rewrite Hh. split; [done|right]. lia.
  - cbn [act]. unfold step_call. destruct (calls s !! n) as [c|] eqn:Hn; [|split; [done|right; cbn; lia]].
    destruct c as [r|t k|cmd k|t rx k]; [split; [done|right; cbn; lia]|exfalso..];
      by eapply forallb_insert_false, Hall.
  - pose proof (recv_view s Hok) as (_ & -> & Hv). split; [done|].
    destruct (loop s) as [st|] eqn:Hl; [|left; by rewrite Hv].
    destruct (queue (chan s)) as [|cmd q]; [rewrite Hh in Hv; left; apply Hv|].
    cbv zeta in Hv. destruct (ends _); [left; apply Hv|]. right.
    destruct Hv as (_ & -> & _). cbn. lia.
  - pose proof (input_view s inp) as (-> & _ & _ & -> & _). split; [done|right; cbn; lia].
  - cbn [act]. rewrite Hh. split; [done|right; cbn; lia].
Qed.

Lemma run_drain acts s :
  Forall action_wf acts -> sys_ok s -> handle s = false ->
  (length (queue (chan s)) < recvs acts)%nat -> loop (run acts s) = None.
Proof.
  intros Hwf. revert s. induction Hwf as [|a acts Ha Hwf IH]; intros s Hok Hh Hn; [cbn in Hn; lia|].
  assert (recvs (a :: acts) = recvs [a] + recvs acts)%nat as Hrec by (by destruct a).
  change (run (a :: acts) s) with (run acts (act a s)).
  pose proof (sys_ok_act a s Ha Hok) as Hok'.
  destruct (act_drain a s Hok Hh) as [Hh' [Hl|Hle]]; [by apply exited_run|].
  apply IH; [done|done|lia].
Qed.

Definition reachable (acts : list Action) (sw : Swarm) : Sys := run acts (start sw).

Lemma sys_ok_reachable acts sw : Forall action_wf acts -> sys_ok (reachable acts sw).
Proof. intros Hwf. apply sys_ok_run; [done|apply sys_ok_start]. Qed.

(** ** Properties *)

(** C14: No query hangs: whatever the other calls, events and ticks do in
    between, once the swarm task has received as many times as there are
    commands queued, a call blocked on a oneshot channel finds it settled - with
    a value of the type it asks for, or with the sender dropped because the
    task has ended - and its next step takes the outcome and goes on. *)
Theorem blocked_call_wakes sw acts1 acts2 n t tx k :
  Forall action_wf (acts1 ++ acts2) ->
  let s1 := reachable acts1 sw in
  let s2 := run acts2 s1 in
  calls s1 !! n = Some (BlockingRecv t tx k) ->
  (length (queue (chan s1)) <= recvs acts2)%nat ->
  settled_as s2 t tx /\
  (calls s2 !! n = Some (BlockingRecv t tx k) ->
   exists v, calls (act (StepCall n) s2) !! n = Some (k v)).
Proof.
  intros [Hw1 Hw2]%Forall_app s1 s2 Hn Hlen.
  assert (sys_ok s1) as Hok by (by apply sys_ok_reachable).
  assert (settled_as s2 t tx) as Hs.
  { destruct (sys_oneshots _ Hok) as [hs Hos].
    destruct (Forall2_lookup_r _ _ _ _ _ (ok_calls _ _ _ _ _ Hos) Hn) as (h & Hh & -> & _).
    destruct (ok_awaited _ _ _ _ _ Hos _ _ _ Hh) as [Ho|[[v Ho]|(_ & cmd & Hq & Hc)]].
    - apply settled_as_run; [done..|by left].
    - apply settled_as_run; [done..|]. right. by exists v.
    - apply list_elem_of_lookup in Hq as [i Hi]. eapply run_progress; [done..|].
      apply lookup_lt_Some in Hi. lia. }
  split; [done|]. intros Hn2. cbn [act]. unfold step_call. rewrite Hn2.
  assert (is_Some (settled s2 !! (tx : N))) as [o ->].
  { destruct Hs as [Ho|[v Ho]]; rewrite Ho; by eexists. }
  cbn [set_call calls]. eexists. apply list_lookup_insert_eq. by apply lookup_lt_Some in Hn2.
Qed.

(** C21: Dropping the last handle always ends the swarm task, even when the
    channel is full and the shutdown command of [Drop] is lost: the closed
    channel does the same once the queued commands are drained, at the latest
    one receive after the last of them. *)
Theorem dropped_handle_ends_loop sw acts1 acts2 :
  Forall action_wf (acts1 ++ acts2) ->
  let s1 := reachable acts1 sw in
  handle s1 = false -> (length (queue (chan s1)) < recvs acts2)%nat ->
  loop (run acts2 s1) = None.
Proof.
  intros [Hw1 Hw2]%Forall_app s1 Hh Hn. apply run_drain; [done| |done..].
  by apply sys_ok_reachable.
Qed.

(** The command channel is bounded: at no moment are more than 512 commands
    queued, so callers cannot exhaust memory by outrunning the swarm task. *)
Theorem command_queue_bounded sw acts :
  Forall action_wf acts ->
  Z.of_nat (length (queue (chan (reachable acts sw)))) <= COMMAND_CHANNEL_CAPACITY.
Proof. intros Hwf. by apply sys_ok_reachable. Qed.

(** Stopping a node is best effort: [stop_node] reports [:ok] in any case,
    but when the queue is full the shutdown is not queued, and the task goes
    on as before. *)
Theorem stop_node_best_effort sw acts n (f : Atom -> nif) :
  Forall action_wf acts ->
  let s := reachable acts sw in
  let s' := act (StepCall n) s in
  calls s !! n = Some (x ← stop_node; f x) ->
  calls s' !! n = Some (f a_ok) /\ loop s' = loop s /\
  queue (chan s') = queue (chan s) ++
    (if loop s then
       if Z.of_nat (length (queue (chan s))) <? COMMAND_CHANNEL_CAPACITY then [Shutdown] else []
     else []).
Proof.
  intros Hwf s s' Hn. assert (sys_ok s) as Hok by (by apply sys_ok_reachable).
  assert (handle s = true) as Hh.
  { destruct (handle s) eqn:E; [done|]. exfalso.
    by eapply forallb_insert_false, (sys_dropped _ Hok). }
  pose proof (send_command_spec s Shutdown Hok Hh) as Hspec. subst s'. cbn [act]. unfold step_call.
  rewrite Hn. cbn [mbind Nif_bind nif_bind stop_node].
  apply lookup_lt_Some in Hn.
  destruct (send_command s Shutdown) as [s' r]. destruct Hspec as (Hl & _ & Hc & _ & _ & _ & _ & Hq).
  cbn [set_call calls chan loop]. rewrite Hc, list_lookup_insert_eq by done.
  destruct r; [destruct Hq as ([st Hst] & -> & Hlt & _)|destruct Hq as ([st Hst] & -> & Hlt & _)|
               destruct Hq as (Hst & -> & _)]; rewrite Hl, Hst; (split; [done|]; split; [done|]).
  - by rewrite (proj2 (Z.ltb_lt _ _) Hlt).
  - by rewrite Hlt, Z.ltb_irrefl, app_nil_r.
  - by rewrite app_nil_r.
Qed.
End system.

(** ** Witnesses *)
Local Abbreviation sim_reachable :=
  (reachable (Swarm:=SimSwarm) (LocalPid:=nat) (Term:=ETerm)
     (Chan:=ListChan (Command nat)) (fun _ => true) true).
Local Abbreviation sim_run :=
  (run (Swarm:=SimSwarm) (LocalPid:=nat) (Term:=ETerm)
     (Chan:=ListChan (Command nat)) (fun _ => true) true).
Local Abbreviation sim_act :=
  (act (Swarm:=SimSwarm) (LocalPid:=nat) (Term:=ETerm)
     (Chan:=ListChan (Command nat)) (fun _ => true) true).

Definition sim_query : Nif nat (list string) := connected_peers.
Definition sim_asked : list (Action (LocalPid:=nat) (R:=list string)) := [Spawn sim_query; StepCall 0; StepCall 0].

Lemma sim_query_wf : nif_wf Nothing sim_query.
Proof. intros tx. split; [done|]. split; [split; [done|by intros []]|done]. Qed.

#[local] Ltac actions_wf :=
  repeat (apply Forall_cons; split; [first [exact I|apply sim_query_wf|by intros []]|]); apply Forall_nil_2.

Lemma blocked_call_wakes_witness :
  exists t tx k,
    calls (sim_reachable sim_asked sim_full) !! 0%nat = Some (BlockingRecv t tx k) /\
    settled_as (sim_run [LoopRecv] (sim_reachable sim_asked sim_full)) t tx.
Proof.
  eexists TPeers, 0%N, _. split; [reflexivity|].
  eapply (blocked_call_wakes (Term:=ETerm) (fun _ => true) true sim_full sim_asked [LoopRecv] 0).
  - cbn [app]. actions_wf.
  - reflexivity.
  - vm_compute. constructor.
Defined.

Definition sim_dropping : list (Action (LocalPid:=nat) (R:=unit)) := [DropHandle].

Lemma dropped_handle_ends_loop_witness :
  loop (sim_run [LoopRecv; LoopRecv] (sim_reachable sim_dropping sim_full)) = None.
Proof.
  apply (dropped_handle_ends_loop (Term:=ETerm) (fun _ => true) true sim_full sim_dropping).
  - cbn [app]. actions_wf.
  - reflexivity.
  - vm_compute. constructor.
Defined.

Lemma command_queue_bounded_witness :
  Z.of_nat (length (queue (chan (sim_reachable sim_asked sim_full)))) <= 512.
Proof.
  apply (command_queue_bounded (Term:=ETerm) (fun _ => true) true sim_full sim_asked).
  actions_wf.
Defined.

Definition sim_stopping : list (Action (LocalPid:=nat) (R:=Atom)) := [Spawn stop_node].

Lemma stop_node_best_effort_witness :
  queue (chan (sim_act (StepCall 0) (sim_reachable sim_stopping sim_full))) = [Shutdown].
Proof.
  refine (proj2 (proj2 (stop_node_best_effort (Term:=ETerm) (fun _ => true) true sim_full sim_stopping 0
           (fun a => mret a) _ _))).
  - unfold sim_stopping. actions_wf.
  - reflexivity.
Defined.
