(* ===== verification/Linearizability.v ===== *)
(** * Linearizability of queries

    A query of [Nif] sends a command with a fresh oneshot channel and blocks on
    the reply, while other calls, ticks and swarm events go on.  The value it
    returns is the one the swarm task computes at one moment between the call
    and its return: the turn in which the task takes the query's command. *)
From S2P Require Import Prelude Bytes Policy Terms NifError Libp2p Sim DhtState Commands Events.
From S2P Require Import SwarmLoop Answers Channel Nif System.
From stdpp Require Import options.

#[local] Set Default Proof Using "Type*".

Section linearizability.
Context `{!Protocols} {Swarm LocalPid Term : Type} `{!SwarmOps Swarm, !TermEnc Term}.
Context {Chan : Type} `{!Mpsc Chan (Command LocalPid), !MpscOk Chan (Command LocalPid)}.
Context (alloc : Z -> bool) (auto : bool).
Context {R : Type}.

Local Abbreviation Sys := (Sys (Swarm:=Swarm) (LocalPid:=LocalPid) (Chan:=Chan) (R:=R)).
Local Abbreviation Action := (Action (LocalPid:=LocalPid) (R:=R)).
Local Abbreviation turn := (turn (LocalPid:=LocalPid) (Term:=Term) alloc auto).
Local Abbreviation act := (act (Term:=Term) alloc auto).
Local Abbreviation run := (run (Term:=Term) alloc auto).
Implicit Types (s : Sys) (a : Action) (acts : list Action).

(** The rest of a query: after the channel is created, and after the command
    is sent. *)
Definition query_send {t} (mk : Sender t -> Command LocalPid) (f : reply_val t -> Nif LocalPid R)
    (tx : Sender t) : Nif LocalPid R :=
  TrySend (mk tx) (fun r => nif_bind f
    match send_error r with
    | Some e => Done (Err e)
    | None => BlockingRecv t tx (fun v => Done (ok_or NodeStopped v))
    end).

Definition query_wait {t} (f : reply_val t -> Nif LocalPid R) (tx : Sender t) : Nif LocalPid R :=
  BlockingRecv t tx (fun v => nif_bind f (Done (ok_or NodeStopped v))).

(** In the schedule [acts] from [s] the task takes [cmd] in some turn, in the
    state [st], and answers it with [v]. *)
Definition answered_at s acts (cmd : Command LocalPid) t (tx : Sender t) (v : reply_val t)
    (st : LoopState Swarm LocalPid) : Prop :=
  exists before after, acts = before ++ LoopRecv :: after /\
    loop (run before s) = Some st /\
    Reply t tx v ∈ effects_of (turn (Recv (Some cmd)) st) /\
    loop (run (before ++ [LoopRecv]) s) = Some (state (turn (Recv (Some cmd)) st)).

(** Other steps do not move a call. *)
Lemma calls_other n a s p :
  sys_ok s -> a <> StepCall n -> calls s !! n = Some p -> calls (act a s) !! n = Some p.
Proof.
  intros Hok Ha Hn. destruct a as [q|m| |i|].
  - cbn. destruct (handle s); [|done]. by apply lookup_app_l_Some.
  - assert (m <> n) by congruence. cbn [System.act]. unfold step_call.
    destruct (calls s !! m) as [[r|t k|cmd k|t rx k]|]; [done| | | |done].
    + cbn. by rewrite list_lookup_insert_ne.
    + unfold send_command. destruct (try_send (chan s) cmd) as [c r]. cbn.
      by rewrite list_lookup_insert_ne.
    + destruct (settled s !! _); [|done]. cbn. by rewrite list_lookup_insert_ne.
  - by rewrite (proj1 (recv_view alloc auto s Hok)).
  - pose proof (input_view alloc auto s i) as (_ & _ & Hc & _). cbv zeta in Hc. by rewrite Hc.
  - cbn [System.act]. destruct (_ && _); [|done]. unfold send_command.
    by destruct (try_send (chan s) Shutdown).
Qed.

Lemma calls_others n acts s p :
  Forall action_wf acts -> Forall (fun a => a <> StepCall n) acts -> sys_ok s ->
  calls s !! n = Some p -> calls (run acts s) !! n = Some p.
Proof.
  intros Hwf Hne. revert s. induction Hne as [|a acts Ha _ IH]; intros s Hok Hn; [done|].
  apply Forall_cons in Hwf as [Hw Hwf].
  apply (IH Hwf (act a s)); [by apply sys_ok_act|by apply calls_other].
Qed.

(** A queued query whose channel is settled with a value has been answered in
    a turn of the task. *)
Lemma answered_queued acts s i cmd t (tx : Sender t) x :
  Forall action_wf acts -> sys_ok s ->
  queue (chan s) !! i = Some cmd -> command_reply cmd = Some (existT t tx) ->
  settled (run acts s) !! (tx : N) = Some (Some x) ->
  exists v st, x = existT t v /\ answered_at s acts cmd t tx v st.
Proof.
  intros Hwf. revert s i. induction Hwf as [|a acts Ha Hwf IH]; intros s i Hok Hi Hc Hv.
  { exfalso. destruct (sys_oneshots _ Hok) as [hs Hos].
    change (settled s !! (tx : N) = Some (Some x)) in Hv.
    assert ((tx : N) ∈ reply_txs (queue (chan s))) as Hin.
    { apply list_elem_of_lookup_2 in Hi. by eapply reply_txs_elem. }
    apply (ok_queued _ _ _ _ _ Hos) in Hin as [_ Hin].
    by pose proof (eq_trans (eq_sym Hv) Hin). }
  pose proof (sys_ok_act alloc auto a s Ha Hok) as Hok'.
  change (run (a :: acts) s) with (run acts (act a s)) in Hv.
  destruct (act_progress alloc auto a s i cmd t tx Hok Hi Hc)
    as [Hs|[(j & Hj & _)|(-> & st & w & Hl & Hl' & Hr & Hs)]].
  - apply (settled_persists_run alloc auto acts) in Hs; [|done..]. by pose proof (eq_trans (eq_sym Hv) Hs).
  - destruct (IH _ j Hok' Hj Hc Hv) as (w & st & Hw & pre & post & -> & H1 & H2 & H3).
    exists w, st. split; [done|]. by exists (a :: pre), post.
  - apply (settled_persists_run alloc auto acts) in Hs; [|done..].
    apply (eq_trans (eq_sym Hv)), (inj Some), (inj Some) in Hs.
    exists w, st. split; [done|]. exists [], acts. by split_and!.
Qed.

(** The two steps that issue a query. *)
Lemma query_created s n t (mk : Sender t -> Command LocalPid) f :
  calls s !! n = Some (w ← query_typed mk; f w) ->
  calls (act (StepCall n) s) !! n = Some (query_send mk f (next_oneshot s)).
Proof using Type.
  intros Hn. cbn [System.act]. unfold step_call. rewrite Hn.
  cbn [mbind Nif_bind nif_bind query_typed calls].
  apply list_lookup_insert_eq. by apply lookup_lt_Some in Hn.
Qed.

Lemma query_sent s n t (mk : Sender t -> Command LocalPid) f tx :
  sys_ok s -> calls s !! n = Some (query_send mk f tx) ->
  let s' := act (StepCall n) s in
  calls s' !! n = Some (Done (Err ChannelFull)) \/
  calls s' !! n = Some (Done (Err NodeStopped)) \/
  calls s' !! n = Some (query_wait f tx) /\ queue (chan s') = queue (chan s) ++ [mk tx].
Proof.
  intros Hok Hn. assert (handle s = true) as Hh.
  { destruct (handle s) eqn:E; [done|]. exfalso.
    by eapply forallb_insert_false, (sys_dropped _ Hok). }
  pose proof (send_command_spec s (mk tx) Hok Hh) as Hspec. cbn [System.act].
  unfold step_call. rewrite Hn. cbn [query_send]. apply lookup_lt_Some in Hn.
  destruct (send_command s (mk tx)) as [s' r]. destruct Hspec as (_ & _ & Hc & _ & _ & _ & _ & Hq).
  cbn [set_call calls chan]. rewrite Hc, list_lookup_insert_eq by done.
  destruct r; [destruct Hq as (_ & Hq & _); by right; right|by left|by right; left].
Qed.

(** The step that returns. *)
Lemma query_returns s n t (f : reply_val t -> Nif LocalPid R) (tx : Sender t) :
  calls s !! n = Some (query_wait f tx) ->
  calls (act (StepCall n) s) !! n =
    Some match settled s !! (tx : N) with
         | None => query_wait f tx
         | Some o => match received t o with Some v => f v | None => Done (Err NodeStopped) end
         end.
Proof using Type.
  intros Hn. cbn [System.act]. unfold step_call. rewrite Hn. cbn [query_wait].
  destruct (settled s !! (tx : N)) as [o|]; [|done].
  cbn [set_call calls]. rewrite list_lookup_insert_eq by by apply lookup_lt_Some in Hn.
  by destruct (received t o).
Qed.

(** C10: Queries are linearizable: a query that is issued, sent and resumed with
    any steps of the other calls, of the task and of the swarm in between either
    fails with [channel_full] or [node_stopped], or is still waiting, or goes on
    with the value [v] the task replied in one turn between the sending and the
    return - for a query that only reads, the current value of what it asks
    for at that moment, in a turn that changes nothing. *)
Theorem query_linearizable {t} sw pre mid1 mid2 n (mk : Sender t -> Command LocalPid) f :
  Forall action_wf (pre ++ mid1 ++ mid2) ->
  (forall tx, command_reply (mk tx) = Some (existT t tx)) ->
  Forall (fun a => a <> StepCall n) (mid1 ++ mid2) ->
  let called := reachable (Term:=Term) alloc auto pre sw in
  let tx := next_oneshot called in
  calls called !! n = Some (w ← query_typed mk; f w) ->
  let sent := act (StepCall n) (run mid1 (act (StepCall n) called)) in
  let returned := act (StepCall n) (run mid2 sent) in
  calls returned !! n = Some (Done (Err ChannelFull)) \/
  calls returned !! n = Some (Done (Err NodeStopped)) \/
  calls returned !! n = Some (query_wait f tx) \/
  exists v st, calls returned !! n = Some (f v) /\ answered_at sent mid2 (mk tx) t tx v st /\
    forall e, answer (Term:=Term) st (mk tx) = Some e ->
      e = Reply t tx v /\ state (turn (Recv (Some (mk tx))) st) = st.
Proof.
  intros Hwf Hmk Hne called tx Hn sent returned.
  apply Forall_app in Hwf as [Hw0 [Hw1 Hw2]%Forall_app]. apply Forall_app in Hne as [Hn1 Hn2].
  assert (sys_ok called) as Hok by (by apply sys_ok_reachable).
  assert (sys_ok (run mid1 (act (StepCall n) called))) as Hok1
    by (by apply sys_ok_run, sys_ok_act).
  assert (sys_ok sent) as Hok2 by (by apply sys_ok_act).
  apply query_created in Hn. fold tx in Hn.
  apply (calls_others n mid1) in Hn; [|done|done|by apply sys_ok_act].
  assert (forall p, calls sent !! n = Some p -> calls (run mid2 sent) !! n = Some p) as Hstay
    by (intros p; by apply calls_others).
  assert (forall e, calls sent !! n = Some (Done (Err e)) ->
    calls returned !! n = Some (Done (Err e))) as Hfail.
  { intros e He%Hstay. subst returned. cbn [System.act]. unfold step_call. by rewrite He. }
  destruct (query_sent _ n t mk f tx Hok1 Hn) as [Hs|[Hs|[Hs Hq]]]; [by left; apply Hfail|
    by right; left; apply Hfail|].
  apply Hstay, query_returns in Hs. fold returned in Hs. rewrite Hs.
  destruct (settled (run mid2 sent) !! (tx : N)) as [[x|]|] eqn:Hv;
    [|by right; left|by right; right; left].
  assert (queue (chan sent) !! length (queue (chan (run mid1 (act (StepCall n) called)))) =
    Some (mk tx)) as Hi by (unfold sent; rewrite Hq; by apply list_lookup_middle).
  destruct (answered_queued mid2 sent _ (mk tx) t tx x Hw2 Hok2 Hi (Hmk tx) Hv)
    as (w & st & E & Ha).
  assert (received t (Some x) = Some w) as -> by (rewrite E; apply received_value).
  right; right; right. exists w, st. split; [done|]. split; [done|].
  intros e He. pose proof (answer_turn alloc auto (mk tx) st e He) as Ht.
  destruct Ha as (? & ? & _ & _ & Hr & _). rewrite Ht in Hr |- *. split; [|done].
  by apply list_elem_of_singleton in Hr.
Qed.
End linearizability.

(** ** Witness

    Between the call and its return another call subscribes to a topic. *)
Definition sim_pre : list (Action (LocalPid:=nat) (R:=list string)) :=
  [Spawn connected_peers; Spawn (_ ← subscribe "news"; mret [])].
Definition sim_mid1 : list (Action (LocalPid:=nat) (R:=list string)) :=
  [LoopInput (Tick 0); StepCall 1].
Definition sim_mid2 : list (Action (LocalPid:=nat) (R:=list string)) := [LoopRecv; LoopRecv].

Definition peers_of (e : Effect nat ETerm) : list (@PeerId SimProtocols) :=
  match e with
  | Reply t _ v =>
      match t return reply_val t -> list (@PeerId SimProtocols) with
      | TPeers => fun v => v
      | _ => fun _ => []
      end v
  | _ => []
  end.

Lemma sim_returned :
  let act := act (Swarm:=SimSwarm) (Term:=ETerm) (Chan:=ListChan (Command nat)) (fun _ => true) true in
  let run := run (Term:=ETerm) (fun _ => true) true in
  calls (act (StepCall 0) (run sim_mid2 (act (StepCall 0) (run sim_mid1 (act (StepCall 0)
    (reachable (Term:=ETerm) (fun _ => true) true sim_pre sim_full)))))) !! 0%nat = Some (Done (Ok ["peer-1"])).
Proof. vm_compute. reflexivity. Qed.

Lemma query_linearizable_witness :
  let called := reachable (Swarm:=SimSwarm) (Term:=ETerm) (Chan:=ListChan (Command nat))
                  (fun _ => true) true sim_pre sim_full in
  let go := run (Term:=ETerm) (fun _ => true) true in
  exists v st,
    answered_at (Term:=ETerm) (fun _ => true) true
      (go (StepCall 0 :: sim_mid1 ++ [StepCall 0]) called) sim_mid2 (ConnectedPeers 0%N) TPeers 0%N v st /\
    v = Libp2p.connected_peers (swarm st).
Proof.
  destruct (query_linearizable (Term:=ETerm) (Chan:=ListChan (Command nat)) (fun _ => true) true
    sim_full sim_pre sim_mid1 sim_mid2 0 (t:=TPeers) (fun tx => ConnectedPeers tx)
    (fun peers => mret (peer_ids_to_strings peers))) as [E|[E|[E|(v & st & _ & Ha & He)]]].
  - repeat (apply Forall_cons; split; [first [exact I|by intros []|intros tx; cbn; split_and!; (done || by intros [])]|]).
    apply Forall_nil_2.
  - done.
  - repeat (apply Forall_cons; split; [discriminate|]). apply Forall_nil_2.
  - reflexivity.
  - discriminate (eq_trans (eq_sym sim_returned) E).
  - discriminate (eq_trans (eq_sym sim_returned) E).
  - discriminate (eq_trans (eq_sym sim_returned) E).
  - exists v, st. split; [exact Ha|].
    destruct (He _ eq_refl) as [E _]. exact (f_equal peers_of (eq_sym E)).
Defined.
