(* ===== verification/StartNode.v ===== *)
(** * Starting a node

    Model of [get_runtime] and [start_node_inner] of
    [native/ex_libp2p_nif/src/node.rs] and of the [start_node] function of
    [native/ex_libp2p_nif/src/lib.rs].  The constructors of libp2p, of the
    transports and of the tokio runtime are the interface [Builder]; a builder
    chain is the record of what is passed along it.  The result is what
    [start_node_inner] hands to the spawned task and to Elixir; the task itself
    is [SwarmLoop], run by [System]. *)
From S2P Require Import Prelude Bytes Policy Terms NifError Config Libp2p Sim Channel Nif.
From stdpp Require Import options.

(** [connection_limits::ConnectionLimits] after the chain of [with_*] calls. *)
Record ConnectionLimits := mkConnectionLimits {
  lim_pending_incoming : option Z;
  lim_pending_outgoing : option Z;
  lim_established_incoming : option Z;
  lim_established_outgoing : option Z;
  lim_established_per_peer : option Z;
  lim_established : option Z;
}.

(** What [gossipsub::ConfigBuilder] is given; the validation mode is always
    strict. *)
Record GossipsubParams := mkGossipsubParams {
  heartbeat_interval : Z;
  message_id_fn : bytes -> string;
  mesh_n : Z;
  mesh_n_low : Z;
  mesh_n_high : Z;
  gossip_lazy : Z;
  max_transmit_size : Z;
}.

(** [relay::Config], the other fields being the defaults. *)
Record RelayConfig := mkRelayConfig {
  max_reservations : Z;
  max_circuits : Z;
  max_circuit_duration : Z;
  max_circuit_bytes : Z;
}.

Class Builder `{!Protocols, !Identity} (Swarm : Type) : Type := {
  TokioRuntime : Type;
  (** [DefaultHasher] on the bytes of a message. *)
  default_hash : bytes -> Z;
  limits_new : ConnectionLimits -> ConnectionLimitsBehaviour;
  GossipsubConfig : Type;
  gossipsub_config_build : GossipsubParams -> string + GossipsubConfig;
  gossipsub_new : Keypair -> GossipsubConfig -> string + Gossipsub;
  with_peer_score :
    Gossipsub -> PeerScoreConfig -> ThresholdsConfig -> Gossipsub * (string + unit);
  kad_new : PeerId -> Kad;
  identify_new : string -> PublicKey -> Identify;
  mdns_new : PeerId -> string + Mdns;
  StreamProtocol : Type;
  try_from_owned : string -> string + StreamProtocol;
  rr_new : StreamProtocol -> Z -> RequestResponse;
  relay_new : PeerId -> RelayConfig -> RelayServer;
  dcutr_new : PeerId -> Dcutr;
  autonat_new : PeerId -> Autonat;
  autonat_server_new : AutonatServer;
  upnp_default : Upnp;
  rv_client_new : Keypair -> RendezvousClient;
  rv_server_new : RendezvousServer;
  memory_limits_new : f64 -> MemoryLimits;
  ping_default : Ping;
  with_tcp : Keypair -> string + unit;
  with_dns : Keypair -> string + unit;
  with_relay_client : Keypair -> string + RelayClient;
  build_swarm : Keypair -> NodeBehaviour -> Z -> Swarm;
}.

Class BuilderOk `{!Protocols, !Identity} (Swarm : Type)
    `{!SwarmOps Swarm, !Builder Swarm} : Prop := {
  build_swarm_behaviour k b t : behaviour (build_swarm k b t) = b;
}.

(** ** The runtime

    [RUNTIME] is a process-wide cell that is set once.  [built] is what the
    runtime builder returns, and [raced] what another thread has put in the cell
    between the two looks at it. *)
Section runtime.
Context {Rt : Type}.

(** [OnceLock::set], whose error is ignored. *)
Definition once_set (cell : option Rt) (rt : Rt) : option Rt :=
  match cell with Some rt0 => Some rt0 | None => Some rt end.

Definition get_runtime (cell : option Rt) (built : string + Rt) (raced : option Rt) :
    Result string Rt * option Rt :=
  match cell with
  | Some rt => (Ok rt, cell)
  | None =>
      match built with
      | inl e => (Err ("Failed to create tokio runtime: " +:+ e), raced)
      | inr rt =>
          let cell := once_set raced rt in
          (ok_or "Tokio runtime initialization race failed" cell, cell)
      end
  end.
End runtime.

Section start_node.
Context `{!Protocols, !Identity, !Metrics} {Swarm Term : Type}.
Context `{!SwarmOps Swarm, !Builder Swarm, !TermDec Term}.
(** Whether the build checks arithmetic, fresh entropy, an empty registry, and
    the outcome of [get_runtime]. *)
Context (overflow_checks : bool) (entropy : Entropy) (registry : Registry).
Context (runtime : Result string TokioRuntime).

(** [a + b] on [u32]: a checked build panics on overflow, a release build
    wraps. *)
Definition u32_add (a b : Z) : Result string Z :=
  if overflow_checks && negb (bool_decide (in_width 32 (a + b))) then Panic
  else Ok (as_u32 (a + b)).

Definition connection_limits_of (config : NodeConfig) : Result string ConnectionLimits :=
  total ← u32_add (max_established_incoming config) (max_established_outgoing config);
  Ok {| lim_pending_incoming := Some (max_pending_incoming config);
        lim_pending_outgoing := Some (max_pending_outgoing config);
        lim_established_incoming := Some (max_established_incoming config);
        lim_established_outgoing := Some (max_established_outgoing config);
        lim_established_per_peer := Some (max_established_per_peer config);
        lim_established := Some total |}.

Definition message_id (data : bytes) : string := pretty (default_hash data).

Definition gossipsub_params (config : NodeConfig) : GossipsubParams :=
  {| heartbeat_interval := gossipsub_heartbeat_interval_ms config;
     message_id_fn := message_id;
     mesh_n := gossipsub_mesh_n config;
     mesh_n_low := gossipsub_mesh_n_low config;
     mesh_n_high := gossipsub_mesh_n_high config;
     gossip_lazy := gossipsub_gossip_lazy config;
     max_transmit_size := gossipsub_max_transmit_size config |}.

(** The scoring parameters and thresholds that are applied. *)
Definition peer_score_params (config : NodeConfig) : PeerScoreConfig :=
  match peer_score config with
  | Some ps =>
      {| ip_colocation_factor_weight := ip_colocation_factor_weight ps;
         ip_colocation_factor_threshold := ip_colocation_factor_threshold ps;
         behaviour_penalty_weight := behaviour_penalty_weight ps;
         behaviour_penalty_decay := behaviour_penalty_decay ps |}
  | None =>
      {| ip_colocation_factor_weight := gossipsub_default_score.IP_COLOCATION_FACTOR_WEIGHT;
         ip_colocation_factor_threshold := gossipsub_default_score.IP_COLOCATION_FACTOR_THRESHOLD;
         behaviour_penalty_weight := gossipsub_default_score.BEHAVIOUR_PENALTY_WEIGHT;
         behaviour_penalty_decay := gossipsub_default_score.BEHAVIOUR_PENALTY_DECAY |}
  end.

Definition peer_score_thresholds (config : NodeConfig) : ThresholdsConfig :=
  match thresholds config with
  | Some t =>
      {| gossip_threshold := gossip_threshold t;
         publish_threshold := publish_threshold t;
         graylist_threshold := graylist_threshold t;
         accept_px_threshold := accept_px_threshold t;
         opportunistic_graft_threshold := opportunistic_graft_threshold t |}
  | None =>
      {| gossip_threshold := gossipsub_default_thresholds.GOSSIP;
         publish_threshold := gossipsub_default_thresholds.PUBLISH;
         graylist_threshold := gossipsub_default_thresholds.GRAYLIST;
         accept_px_threshold := gossipsub_default_thresholds.ACCEPT_PX;
         opportunistic_graft_threshold := gossipsub_default_thresholds.OPPORTUNISTIC_GRAFT |}
  end.

Definition gossipsub_of (config : NodeConfig) (keypair : Keypair) : Result string Gossipsub :=
  gossipsub_config ←
    of_sum (fun e => "gossipsub config: " +:+ e) (gossipsub_config_build (gossipsub_params config));
  gossipsub_behaviour ←
    of_sum (fun e => "gossipsub behaviour: " +:+ e) (gossipsub_new keypair gossipsub_config);
  if negb (peer_score_disabled config) then
    let '(gs, r) := with_peer_score gossipsub_behaviour (peer_score_params config)
                      (peer_score_thresholds config) in
    _ ← of_sum (fun e => "peer scoring: " +:+ e) r; Ok gs
  else Ok gossipsub_behaviour.

(** [if flag { Some(x).into() } else { None.into() }]. *)
Definition toggle {A} (flag : bool) (x : A) : option A := if flag then Some x else None.

Definition mdns_of (config : NodeConfig) (local_peer_id : PeerId) : Result string (option Mdns) :=
  if enable_mdns config then
    m ← of_sum (fun e => "mdns: " +:+ e) (mdns_new local_peer_id); Ok (Some m)
  else Ok None.

Definition relay_config_of (config : NodeConfig) : RelayConfig :=
  {| max_reservations := relay_max_reservations config;
     max_circuits := relay_max_circuits config;
     max_circuit_duration := relay_max_circuit_duration_secs config;
     max_circuit_bytes := relay_max_circuit_bytes config |}.

(** Subscribing to the configured topics, in order. *)
Definition subscribe_topic (topic_str : string) (swarm : Swarm) : Result string Swarm :=
  let '(gs, r) := gs_subscribe (gossipsub (behaviour swarm)) (topic_new topic_str) in
  let swarm := set_behaviour swarm (set_gossipsub (behaviour swarm) gs) in
  _ ← of_sum (fun e => "subscribe " +:+ topic_str +:+ ": " +:+ e) r; Ok swarm.

(** Listening on the configured addresses, in order. *)
Definition listen_addr (addr_str : string) (swarm : Swarm) : Result string Swarm :=
  addr ← of_sum (fun e => "invalid listen addr " +:+ addr_str +:+ ": " +:+ e) (addr_parse addr_str);
  let '(swarm, r) := listen_on swarm addr in
  _ ← of_sum (fun e => "listen: " +:+ e) r; Ok swarm.

(** What a started node consists of: the handle returned to Elixir and the
    arguments of the spawned [swarm_loop]. *)
Record Started := mkStarted {
  started_handle : NodeHandle;
  started_swarm : Swarm;
  started_auto_dial : bool;
}.

(** The behaviours, the swarm being built with [relay_client] by the builder. *)
Definition behaviour_of (config : NodeConfig) (keypair : Keypair) (limits : ConnectionLimits)
    (gs : Gossipsub) (mdns : option Mdns) (rpc_protocol : StreamProtocol)
    (relay_client : RelayClient) : NodeBehaviour :=
  let local_peer_id := to_peer_id (public keypair) in
  {| connection_limits := limits_new limits;
     memory_limits := memory_limits_new (memory_max_percentage config);
     identify := identify_new "/ex-libp2p/0.1.0" (public keypair);
     ping := ping_default;
     gossipsub := gs;
     request_response := rr_new rpc_protocol (rpc_request_timeout_secs config);
     kademlia := toggle (enable_kademlia config) (kad_new local_peer_id);
     mdns := mdns;
     rendezvous_client := toggle (enable_rendezvous_client config) (rv_client_new keypair);
     rendezvous_server := toggle (enable_rendezvous_server config) rv_server_new;
     relay_client := relay_client;
     relay_server := toggle (enable_relay_server config)
                       (relay_new local_peer_id (relay_config_of config));
     dcutr := toggle (enable_relay config) (dcutr_new local_peer_id);
     autonat := toggle (enable_autonat config) (autonat_new local_peer_id);
     autonat_server := toggle (enable_autonat_server config) autonat_server_new;
     upnp := toggle (enable_upnp config) upnp_default |}.

Definition start_node_inner (config_map : gmap string Term) : Result string Started :=
  config ← from_map config_map;
  _ ← runtime;
  keypair ←
    match keypair_bytes config with
    | Some bytes => of_sum (fun e => "invalid keypair: " +:+ e) (from_protobuf_encoding bytes)
    | None => Ok (generate_ed25519 entropy)
    end;
  let local_peer_id := to_peer_id (public keypair) in
  let peer_id_str := to_base58 local_peer_id in
  limits ← connection_limits_of config;
  gs ← gossipsub_of config keypair;
  mdns ← mdns_of config local_peer_id;
  rpc_protocol ←
    of_sum (fun e => "invalid protocol name: " +:+ e) (try_from_owned (rpc_protocol_name config));
  _ ← of_sum (fun e => "tcp transport: " +:+ e) (with_tcp keypair);
  _ ← of_sum (fun e => "dns: " +:+ e) (with_dns keypair);
  relay_client ← of_sum (fun e => "relay client: " +:+ e) (with_relay_client keypair);
  let swarm := build_swarm keypair
    (behaviour_of config keypair limits gs mdns rpc_protocol relay_client)
    (idle_connection_timeout_secs config) in
  swarm ← for_each (gossipsub_topics config) subscribe_topic swarm;
  swarm ← for_each (listen_addrs config) listen_addr swarm;
  Ok {| started_handle := mkNodeHandle peer_id_str registry;
        started_swarm := swarm;
        started_auto_dial := mdns_auto_dial config |}.

(** [catch_unwind] turns a panic into an error. *)
Definition start_node (config_map : gmap string Term) : Result NifError Started :=
  match start_node_inner config_map with
  | Ok handle => Ok handle
  | Err e => Err (Internal e)
  | Panic => Err (NifPanic "panic caught in start_node — check Rust logs")
  end.
End start_node.

#[local] Set Default Proof Using "Type".

(** ** Specification *)
Section start_specs.
Context `{!Protocols, !Identity, !Metrics} {Swarm Term : Type}.
Context `{!SwarmOps Swarm, !Builder Swarm, !TermDec Term}.

(** An option of a nested map: the value given, or the production default. *)
Definition nested_f64 (map : gmap string Term) (group key : string) (default_ : f64) : f64 :=
  default default_
    (term ← map !! group;
     inner ← (if is_atom term then None else dec_map term);
     value ← (inner : gmap string Term) !! key;
     dec_f64 value).

(** An optional protocol is present exactly when its flag is set; that of
    [enable_relay] is [dcutr]. *)
Definition toggles_match (c : NodeConfig) (b : NodeBehaviour) : Prop :=
  Forall (fun x => x.1 = x.2)
    [(bool_decide (is_Some (kademlia b)), enable_kademlia c);
     (bool_decide (is_Some (mdns b)), enable_mdns c);
     (bool_decide (is_Some (rendezvous_client b)), enable_rendezvous_client c);
     (bool_decide (is_Some (rendezvous_server b)), enable_rendezvous_server c);
     (bool_decide (is_Some (relay_server b)), enable_relay_server c);
     (bool_decide (is_Some (dcutr b)), enable_relay c);
     (bool_decide (is_Some (autonat b)), enable_autonat c);
     (bool_decide (is_Some (autonat_server b)), enable_autonat_server c);
     (bool_decide (is_Some (upnp b)), enable_upnp c)].

(** The limits on connections: the configured ones, and their sum for the total
    of established ones, which a build without overflow checks wraps. *)
Definition limits_spec (c : NodeConfig) : ConnectionLimits :=
  {| lim_pending_incoming := Some (max_pending_incoming c);
     lim_pending_outgoing := Some (max_pending_outgoing c);
     lim_established_incoming := Some (max_established_incoming c);
     lim_established_outgoing := Some (max_established_outgoing c);
     lim_established_per_peer := Some (max_established_per_peer c);
     lim_established := Some ((max_established_incoming c + max_established_outgoing c) `mod` 2 ^ 32) |}.

(** Entries of the map that a node does not use: [enable_websocket] with any
    term, and [bootstrap_peers] with any list of strings. *)
Definition unused (key : string) (term : Term) : Prop :=
  key = "enable_websocket" \/ (key = "bootstrap_peers" /\ is_Some (dec_string_list term)).

(** Peer scoring is on unless it is disabled, with the parameters above. *)
Definition scored (c : NodeConfig) (keypair : Keypair) (gs : Gossipsub) : Prop :=
  exists gc gs0, gossipsub_config_build (gossipsub_params c) = inr gc /\
    gossipsub_new keypair gc = inr gs0 /\
    if peer_score_disabled c then gs = gs0
    else with_peer_score gs0 (peer_score_params c) (peer_score_thresholds c) = (gs, inr tt).

(** The swarms before and after a sequence of successful operations. *)
Inductive each_ok {A} (step : A -> Swarm -> Result string Swarm) : list A -> Swarm -> Swarm -> Prop :=
  | each_nil s : each_ok step [] s s
  | each_cons x l s1 s2 s3 : step x s1 = Ok s2 -> each_ok step l s2 s3 -> each_ok step (x :: l) s1 s3.

Lemma for_each_no_panic {A} (step : A -> Swarm -> Result string Swarm) l s :
  (forall x s, step x s <> Panic) -> for_each l step s <> Panic.
Proof.
  intros Hstep. revert s. induction l as [|x l IH]; intros s; [done|].
  cbn. apply not_bind_panic; [apply Hstep|intros s']. apply IH.
Qed.

Lemma for_each_ok {A} (step : A -> Swarm -> Result string Swarm) l s1 s2 :
  for_each l step s1 = Ok s2 -> each_ok step l s1 s2.
Proof.
  revert s1. induction l as [|x l IH]; intros s1 H3; cbn in H3.
  - injection H3 as ->. constructor.
  - invert_bind. econstructor; [done|by apply IH].
Qed.

Lemma of_sum_ok {E A} (f : E -> string) (r : E + A) a : of_sum f r = Ok a -> r = inr a.
Proof. destruct r; cbn; congruence. Qed.

Lemma of_sum_panic {E A} (f : E -> string) (r : E + A) : of_sum f r <> Panic.
Proof. by destruct r. Qed.

Lemma from_map_no_panic (map : gmap string Term) : from_map map <> Panic.
Proof.
  unfold from_map, mbind, Result_bind. rewrite !get_string_list_spec. by repeat case_match.
Qed.

Lemma gossipsub_of_no_panic c k : gossipsub_of c k <> Panic.
Proof.
  unfold gossipsub_of. apply not_bind_panic; [apply of_sum_panic|intros gc].
  apply not_bind_panic; [apply of_sum_panic|intros gs]. destruct (negb _); [|done].
  destruct (with_peer_score _ _ _) as [g r]. apply not_bind_panic; [apply of_sum_panic|done].
Qed.

Lemma mdns_of_no_panic c p : mdns_of c p <> Panic.
Proof.
  unfold mdns_of. destruct (enable_mdns c); [|done].
  apply not_bind_panic; [apply of_sum_panic|done].
Qed.

Lemma subscribe_topic_no_panic topic (s : Swarm) : subscribe_topic topic s <> Panic.
Proof.
  unfold subscribe_topic. destruct (gs_subscribe _ _) as [g r].
  apply not_bind_panic; [apply of_sum_panic|done].
Qed.

Lemma listen_addr_no_panic addr (s : Swarm) : listen_addr addr s <> Panic.
Proof.
  unfold listen_addr. apply not_bind_panic; [apply of_sum_panic|intros a].
  destruct (listen_on s a) as [s' r]. apply not_bind_panic; [apply of_sum_panic|done].
Qed.

Lemma toggle_flag {A} (flag : bool) (x : A) : bool_decide (is_Some (toggle flag x)) = flag.
Proof. by destruct flag. Qed.

Lemma connection_limits_spec checks c limits :
  connection_limits_of checks c = Ok limits ->
  limits = limits_spec c /\
  (checks = true -> in_width 32 (max_established_incoming c + max_established_outgoing c)).
Proof.
  unfold connection_limits_of, u32_add. intros Hl. invert_bind.
  destruct (checks && _) eqn:Hc; [done|]. injection E as <-. split; [done|]. intros ->.
  by case_bool_decide.
Qed.

(** A configuration with other values of the options that are not used. *)
Definition with_unused (peers : list string) (websocket : bool) (c : NodeConfig) : NodeConfig :=
  {| keypair_bytes := keypair_bytes c; listen_addrs := listen_addrs c; bootstrap_peers := peers;
     gossipsub_topics := gossipsub_topics c; gossipsub_mesh_n := gossipsub_mesh_n c;
     gossipsub_mesh_n_low := gossipsub_mesh_n_low c; gossipsub_mesh_n_high := gossipsub_mesh_n_high c;
     gossipsub_gossip_lazy := gossipsub_gossip_lazy c;
     gossipsub_max_transmit_size := gossipsub_max_transmit_size c;
     gossipsub_heartbeat_interval_ms := gossipsub_heartbeat_interval_ms c; enable_mdns := enable_mdns c;
     mdns_auto_dial := mdns_auto_dial c; enable_kademlia := enable_kademlia c;
     enable_relay := enable_relay c; enable_relay_server := enable_relay_server c;
     enable_autonat := enable_autonat c; enable_autonat_server := enable_autonat_server c;
     enable_upnp := enable_upnp c; enable_websocket := websocket;
     enable_rendezvous_client := enable_rendezvous_client c;
     enable_rendezvous_server := enable_rendezvous_server c; rpc_protocol_name := rpc_protocol_name c;
     rpc_request_timeout_secs := rpc_request_timeout_secs c;
     idle_connection_timeout_secs := idle_connection_timeout_secs c;
     max_established_incoming := max_established_incoming c;
     max_established_outgoing := max_established_outgoing c; max_pending_incoming := max_pending_incoming c;
     max_pending_outgoing := max_pending_outgoing c; max_established_per_peer := max_established_per_peer c;
     memory_max_percentage := memory_max_percentage c; relay_max_reservations := relay_max_reservations c;
     relay_max_circuits := relay_max_circuits c;
     relay_max_circuit_duration_secs := relay_max_circuit_duration_secs c;
     relay_max_circuit_bytes := relay_max_circuit_bytes c; peer_score_disabled := peer_score_disabled c;
     peer_score := peer_score c; thresholds := thresholds c |}.

Lemma from_map_unused (map : gmap string Term) key v c :
  unused key v -> from_map map = Ok c ->
  exists peers websocket, from_map (<[key := v]> map) = Ok (with_unused peers websocket c).
Proof.
  intros Hu Hc. exists (match get_string_list (<[key := v]> map) "bootstrap_peers" with Ok l => l | _ => [] end).
  exists (get_bool (<[key := v]> map) "enable_websocket" false).
  assert (exists l, get_string_list (<[key := v]> map) "bootstrap_peers" = Ok l) as [l Hl].
  { unfold from_map in Hc. invert_bind. destruct Hu as [->|[-> [l Hl]]]; unfold get_string_list.
    - rewrite lookup_insert_ne by done. by eexists.
    - rewrite lookup_insert_eq, Hl. by eexists. }
  unfold from_map in Hc |- *. rewrite Hl. clear Hl.
  invert_bind.
  assert (forall k, k <> "enable_websocket" -> k <> "bootstrap_peers" -> <[key := v]> map !! k = map !! k) as Hk.
  { intros k Hws Hbp. apply lookup_insert_ne. by destruct Hu as [->|[-> _]]. }
  unfold with_unused, get_string_list, get_string, get_binary, get_bool, get_u64, get_u32, get_usize, get_f64,
    get_peer_score, get_thresholds in *.
  repeat match goal with |- context [<[key := v]> map !! ?k] => rewrite (Hk k) by done end.
  by rewrite E, E1.
Qed.

Lemma gossipsub_of_scored c k gs : gossipsub_of c k = Ok gs -> scored c k gs.
Proof.
  unfold gossipsub_of, scored. intros H3. invert_bind.
  apply of_sum_ok in E, E0. exists a, a0. split; [done|]. split; [done|].
  destruct (peer_score_disabled c); cbn [negb] in H3; [by injection H3|].
  destruct (with_peer_score a0 (peer_score_params c) (peer_score_thresholds c)) as [g [e|[]]];
    cbn in H3; congruence.
Qed.

Lemma mdns_of_flag c p m : mdns_of c p = Ok m -> bool_decide (is_Some m) = enable_mdns c.
Proof.
  unfold mdns_of. destruct (enable_mdns c); intros H3; invert_bind; done.
Qed.
End start_specs.

(** ** Properties *)
Section start_properties.
Context `{!Protocols, !Identity, !Metrics} {Swarm Term : Type}.
Context `{!SwarmOps Swarm, !Builder Swarm, !TermDec Term}.
Context (overflow_checks : bool) (entropy : Entropy) (registry : Registry).
Context (runtime : Result string (TokioRuntime (Swarm:=Swarm))).

Local Abbreviation start_node_inner :=
  (start_node_inner (Swarm:=Swarm) (Term:=Term) overflow_checks entropy registry runtime).
Local Abbreviation start_node :=
  (start_node (Swarm:=Swarm) (Term:=Term) overflow_checks entropy registry runtime).

(** Each peer-scoring parameter and threshold that is applied is the value
    the caller supplies for it, or else the constant of [policy.rs], whichever
    of the options is missing: the whole group, or single entries of it. The
    defaults written inline in [config.rs] agree with [policy.rs]. *)
Theorem scoring_defaults (map : gmap string Term) c :
  from_map map = Ok c ->
  let s := nested_f64 map "gossipsub_peer_score" in
  let t := nested_f64 map "gossipsub_thresholds" in
  peer_score_params c =
    {| ip_colocation_factor_weight :=
         s "ip_colocation_factor_weight" gossipsub_default_score.IP_COLOCATION_FACTOR_WEIGHT;
       ip_colocation_factor_threshold :=
         s "ip_colocation_factor_threshold" gossipsub_default_score.IP_COLOCATION_FACTOR_THRESHOLD;
       behaviour_penalty_weight :=
         s "behaviour_penalty_weight" gossipsub_default_score.BEHAVIOUR_PENALTY_WEIGHT;
       behaviour_penalty_decay :=
         s "behaviour_penalty_decay" gossipsub_default_score.BEHAVIOUR_PENALTY_DECAY |} /\
  peer_score_thresholds c =
    {| gossip_threshold := t "gossip_threshold" gossipsub_default_thresholds.GOSSIP;
       publish_threshold := t "publish_threshold" gossipsub_default_thresholds.PUBLISH;
       graylist_threshold := t "graylist_threshold" gossipsub_default_thresholds.GRAYLIST;
       accept_px_threshold := t "accept_px_threshold" gossipsub_default_thresholds.ACCEPT_PX;
       opportunistic_graft_threshold :=
         t "opportunistic_graft_threshold" gossipsub_default_thresholds.OPPORTUNISTIC_GRAFT |}.
Proof.
  intros Hc. unfold from_map in Hc. invert_bind. unfold peer_score_params, peer_score_thresholds, nested_f64.
  cbn [peer_score thresholds]. unfold get_peer_score, get_thresholds, get_f64.
  split.
  - destruct (map !! "gossipsub_peer_score") as [t|]; [|done]. cbn. destruct (is_atom t); [done|].
    by destruct (dec_map t).
  - destruct (map !! "gossipsub_thresholds") as [t|]; [|done]. cbn. destruct (is_atom t); [done|].
    by destruct (dec_map t).
Qed.

(** The peer id of the handle is that of the configured key. *)
Lemma start_node_inner_peer_id map s :
  start_node_inner map = Ok s ->
  exists c keypair, from_map map = Ok c /\
    match keypair_bytes c with
    | Some bytes => from_protobuf_encoding bytes = inr keypair
    | None => keypair = generate_ed25519 entropy
    end /\
    handle_peer_id (started_handle s) = to_base58 (to_peer_id (public keypair)).
Proof.
  unfold StartNode.start_node_inner. intros Hs. invert_bind. exists a, a1. split; [done|]. split; [|done].
  destruct (keypair_bytes a); [by eapply of_sum_ok|congruence].
Qed.

(** What a node does not use can be changed in its configuration. *)
Lemma start_node_unused map s key v :
  unused key v -> start_node_inner map = Ok s -> start_node_inner (<[key := v]> map) = Ok s.
Proof.
  intros Hu Hs. destruct (from_map map) as [c| |] eqn:Hc; unfold StartNode.start_node_inner in *; rewrite Hc in Hs; try done.
  destruct (from_map_unused map key v c Hu Hc) as (peers & websocket & Hc'). rewrite Hc'. exact Hs.
Qed.

(** C12: A started node is what the configuration asks for, as far as the code
    follows it: it has the identity of the given key; the optional protocols
    exactly when their flags are set; the configured limits on connections and
    memory - the total of established connections is the sum of two, which fits
    [u32] in a build with overflow checks and wraps in one without; peer scoring
    unless it is disabled; and it has subscribed to all topics and then listens
    on all addresses, in order.  The relay client is there whatever the
    configuration: [enable_relay] switches [dcutr] only.  And two of the options
    change nothing: with any value of [enable_websocket], and any bootstrap
    peers, the same node is started. *)
Theorem started_node_matches_config `{!BuilderOk Swarm} map s :
  start_node_inner map = Ok s ->
  exists c keypair b sw1 sw2,
    from_map map = Ok c /\
    match keypair_bytes c with
    | Some bytes => from_protobuf_encoding bytes = inr keypair
    | None => keypair = generate_ed25519 entropy
    end /\
    handle_peer_id (started_handle s) = to_base58 (to_peer_id (public keypair)) /\
    connection_limits b = limits_new (Swarm:=Swarm) (limits_spec c) /\
    (overflow_checks = true -> in_width 32 (max_established_incoming c + max_established_outgoing c)) /\
    memory_limits b = memory_limits_new (Swarm:=Swarm) (memory_max_percentage c) /\
    toggles_match c b /\ with_relay_client (Swarm:=Swarm) keypair = inr (relay_client b) /\
    scored (Swarm:=Swarm) c keypair (gossipsub b) /\
    behaviour sw1 = b /\
    each_ok subscribe_topic (gossipsub_topics c) sw1 sw2 /\
    each_ok listen_addr (listen_addrs c) sw2 (started_swarm s) /\
    started_auto_dial s = mdns_auto_dial c /\
    forall key v, unused key v -> start_node_inner (<[key := v]> map) = Ok s.
Proof.
  intros Hs. pose proof (fun key v Hu => start_node_unused map s key v Hu Hs) as Hunused. revert Hs.
  unfold StartNode.start_node_inner at 1. intros Hs. invert_bind.
  match goal with E : of_sum _ (with_relay_client _) = Ok ?rc |- _ => rename rc into relay; apply of_sum_ok in E end.
  match goal with E : connection_limits_of _ _ = Ok _ |- _ => apply connection_limits_spec in E as [-> Hw] end.
  exists a, a1. eexists (behaviour_of a a1 _ a3 a4 a5 relay), (build_swarm a1 _ _), _.
  split; [done|]. split.
  { destruct (keypair_bytes a); [by eapply of_sum_ok|congruence]. }
  split; [done|]. split; [done|]. split; [done|]. split; [done|]. split.
  { unfold toggles_match, behaviour_of. repeat (apply Forall_cons; split; cbn [fst snd]); cbn;
      rewrite ?toggle_flag; try done. by eapply mdns_of_flag. }
  split; [done|]. split; [by eapply gossipsub_of_scored|]. split; [apply build_swarm_behaviour|].
  split; [by apply for_each_ok|]. split; [by apply for_each_ok|]. split; [done|exact Hunused].
Qed.

(** C28: The total number of established connections is limited to the sum of
    the incoming and outgoing limits when that sum fits [u32]. When it does
    not, the addition panics in a build with overflow checks, and a release
    build starts the node with a total limit below each of the two limits. *)
Theorem established_limit (c : NodeConfig) :
  config_wf c ->
  let sum := max_established_incoming c + max_established_outgoing c in
  if bool_decide (sum < 2 ^ 32) then
    lim_established <$> connection_limits_of overflow_checks c = Ok (Some sum)
  else if overflow_checks then connection_limits_of overflow_checks c = Panic
  else exists l, lim_established <$> connection_limits_of overflow_checks c = Ok (Some l) /\
    0 <= l < Z.min (max_established_incoming c) (max_established_outgoing c).
Proof.
  intros [_ Hw] sum. unfold in_width in Hw.
  rewrite !Forall_cons in Hw. destruct Hw as (Hi & Ho & _).
  unfold connection_limits_of, u32_add. fold sum.
  case_bool_decide as Hs.
  - rewrite bool_decide_true by (unfold in_width; lia). rewrite andb_false_r. cbn.
    unfold as_u32. by rewrite wrap_small by (unfold in_width; lia).
  - rewrite bool_decide_false by (unfold in_width; lia). destruct overflow_checks; [done|].
    cbn. eexists. split; [done|]. unfold as_u32, wrap.
    assert (sum `mod` 2 ^ 32 = sum - 2 ^ 32) as ->; [|lia].
    symmetry. apply (Z.mod_unique_pos _ _ 1); lia.
Qed.

(** Starting a node never unwinds into the Erlang VM: every failure is an
    error term. An [internal_error] carries the text of the stage that failed;
    a [nif_panic] occurs only for the overflow of the connection limits, in a
    build with overflow checks. *)
Theorem start_node_errors map :
  runtime <> Panic ->
  match start_node map with
  | Ok s => start_node_inner map = Ok s
  | Err (Internal e) => start_node_inner map = Err e
  | Err (NifPanic _) =>
      overflow_checks = true /\
      exists c, from_map map = Ok c /\
        ~ in_width 32 (max_established_incoming c + max_established_outgoing c)
  | _ => False
  end.
Proof.
  intros Hrt. unfold StartNode.start_node. destruct (start_node_inner map) as [s|e|] eqn:Hs; [done..|].
  unfold StartNode.start_node_inner in Hs.
  apply bind_panic in Hs as [Hs|(c & Hc & Hs)]; [by apply from_map_no_panic in Hs|].
  apply bind_panic in Hs as [Hs|(rt & _ & Hs)]; [done|].
  apply bind_panic in Hs as [Hs|(k & _ & Hs)];
    [destruct (keypair_bytes c); [by apply of_sum_panic in Hs|done]|].
  apply bind_panic in Hs as [Hs|(l & _ & Hs)].
  { unfold connection_limits_of, u32_add in Hs. apply bind_panic in Hs as [Hs|(? & _ & Hs)]; [|done].
    destruct overflow_checks; [|done]. split; [done|]. exists c. split; [done|].
    by case_bool_decide. }
  exfalso. revert Hs. apply not_bind_panic; [apply gossipsub_of_no_panic|intros gs].
  apply not_bind_panic; [apply mdns_of_no_panic|intros m].
  do 4 (apply not_bind_panic; [apply of_sum_panic|intros ?]).
  apply not_bind_panic; [apply for_each_no_panic, subscribe_topic_no_panic|intros sw1].
  apply not_bind_panic; [apply for_each_no_panic, listen_addr_no_panic|done].
Qed.

(** All nodes of a process share one runtime: whatever other threads do
    meanwhile, a successful [get_runtime] returns the runtime that is in the
    cell from then on, every later call returns the same one, and the lost race
    is never reported as a failure. *)
Theorem runtime_shared {Rt} (cell : option Rt) built raced :
  let '(r, cell1) := get_runtime cell built raced in
  match r with
  | Ok rt => cell1 = Some rt /\
      (forall built2 raced2, get_runtime cell1 built2 raced2 = (Ok rt, cell1)) /\
      (cell = Some rt \/ (cell = None /\ rt = default rt raced))
  | Err e => cell = None /\ exists cause, built = inl cause /\
      e = "Failed to create tokio runtime: " +:+ cause
  | Panic => False
  end.
Proof.
  unfold get_runtime. destruct cell as [rt|]; [by auto|].
  destruct built as [e|rt]; [by eauto|]. destruct raced as [rt'|]; cbn; auto.
Qed.
End start_properties.

(** ** A simulated builder, and witnesses *)
#[export] Instance sim_builder : Builder SimSwarm := {|
  TokioRuntime := unit;
  default_hash b := Z.of_nat (length b);
  limits_new _ := tt;
  GossipsubConfig := GossipsubParams;
  gossipsub_config_build p :=
    if mesh_n_low p <=? mesh_n p then inr p else inl "mesh_n_low exceeds mesh_n";
  gossipsub_new _ _ := inr (mkSimGossipsub [] []);
  with_peer_score g _ _ := (g, inr tt);
  kad_new _ := [];
  identify_new _ _ := tt;
  mdns_new _ := inr tt;
  StreamProtocol := string;
  try_from_owned s := if String.prefix "/" s then inr s else inl "no leading slash";
  rr_new _ _ := [];
  relay_new _ _ := tt;
  dcutr_new _ := tt;
  autonat_new _ := tt;
  autonat_server_new := tt;
  upnp_default := tt;
  rv_client_new _ := mkSimRendezvous [] [];
  rv_server_new := tt;
  memory_limits_new _ := tt;
  ping_default := tt;
  with_tcp _ := inr tt;
  with_dns _ := inr tt;
  with_relay_client _ := inr tt;
  build_swarm _ b _ := mkSimSwarm b [] [] [] |}.

#[export] Instance sim_builder_ok : BuilderOk SimSwarm.
Proof. by split. Qed.

Definition sim_config : gmap string ETerm :=
  <["gossipsub_topics" := EList [EStr "chat"; EStr "news"]]>
    (<["listen_addrs" := EList [EStr "/ip4/0.0.0.0/tcp/0"]]>
       (<["enable_kademlia" := EBool false]> ∅)).

Definition sim_entropy : @Entropy SimProtocols sim_identity := [].
Definition sim_runtime : Result string (TokioRuntime (Builder:=sim_builder)) := Ok tt.
Definition sim_registry : @Registry sim_metrics := tt.

Definition sim_start : Result string (Started (Swarm:=SimSwarm)) :=
  start_node_inner true sim_entropy sim_registry sim_runtime sim_config.

Example sim_start_ok :
  (fun s => (topics (gossipsub (sim_behaviour (started_swarm s))), listening (started_swarm s)))
    <$> sim_start = Ok (["chat"; "news"], ["/ip4/0.0.0.0/tcp/0"]).
Proof. vm_compute. reflexivity. Qed.

Lemma scoring_defaults_witness :
  exists c, from_map sim_config = Ok c /\
    behaviour_penalty_decay (peer_score_params c) =
      gossipsub_default_score.BEHAVIOUR_PENALTY_DECAY.
Proof.
  destruct (from_map sim_config) as [c| |] eqn:Hc; [|vm_compute in Hc; discriminate Hc..].
  exists c. split; [done|]. rewrite (proj1 (scoring_defaults sim_config c Hc)).
  vm_compute. reflexivity.
Defined.

Lemma started_node_matches_config_witness :
  exists s c, sim_start = Ok s /\ from_map sim_config = Ok c /\
    started_auto_dial s = mdns_auto_dial c.
Proof.
  destruct sim_start as [s| |] eqn:Hs; [|vm_compute in Hs; discriminate Hs..].
  destruct (started_node_matches_config (Swarm:=SimSwarm) true sim_entropy sim_registry sim_runtime sim_config s Hs)
    as (c & k & b & sw1 & sw2 & Hc & _ & _ & _ & _ & _ & _ & _ & _ & _ & _ & _ & Ha & _).
  exists s, c. auto.
Defined.

Lemma established_limit_witness :
  exists c, from_map sim_config = Ok c /\
    lim_established <$> connection_limits_of true c = Ok (Some 512).
Proof.
  destruct (from_map sim_config) as [c| |] eqn:Hc; [|vm_compute in Hc; discriminate Hc..].
  exists c. split; [done|].
  pose proof (established_limit true c (from_map_wf sim_config c Hc)) as H.
  vm_compute in Hc. injection Hc as <-. exact H.
Defined.

Lemma start_node_errors_witness :
  start_node_inner (Swarm:=SimSwarm) true sim_entropy sim_registry sim_runtime
    (<["listen_addrs" := EInt 1]> sim_config) = Err "invalid listen_addrs".
Proof.
  exact (start_node_errors (Swarm:=SimSwarm) true sim_entropy sim_registry sim_runtime
           (<["listen_addrs" := EInt 1]> sim_config) ltac:(discriminate)).
Defined.
