(* ===== verification/NodeCalls.v ===== *)
(** * Properties of the native functions

    The rules every exported function follows ([exported] lists them, as
    [rustler::init!] collects them), the outcome of sending a command, the
    rejection of bad arguments, the keypair functions, and calls run to their end
    against the swarm task. *)
From S2P Require Import Prelude Bytes Policy Terms NifError Libp2p Sim DhtState Commands Events.
From S2P Require Import SwarmLoop Answers Routing Channel Nif System StartNode.
From stdpp Require Import options.

#[local] Set Default Proof Using "Type".

(** ** The exported functions

    Those that take the handle of a node. *)
Inductive node_function `{!Protocols, !Metrics} {LocalPid : Type} (alloc : Z -> bool) :
    forall {R : Type}, Nif LocalPid R -> Prop :=
  | x_stop_node : node_function alloc stop_node
  | x_register_event_handler pid : node_function alloc (register_event_handler pid)
  | x_get_peer_id h : node_function alloc (get_peer_id h)
  | x_connected_peers : node_function alloc connected_peers
  | x_listening_addrs : node_function alloc listening_addrs
  | x_bandwidth_stats : node_function alloc bandwidth_stats
  | x_prometheus_metrics h : node_function alloc (prometheus_metrics h)
  | x_dial addr : node_function alloc (dial addr)
  | x_publish topic data : node_function alloc (publish topic data)
  | x_subscribe topic : node_function alloc (subscribe topic)
  | x_unsubscribe topic : node_function alloc (unsubscribe topic)
  | x_gossipsub_mesh_peers topic : node_function alloc (gossipsub_mesh_peers topic)
  | x_gossipsub_all_peers : node_function alloc gossipsub_all_peers
  | x_gossipsub_peer_score p : node_function alloc (gossipsub_peer_score p)
  | x_dht_put k v : node_function alloc (dht_put k v)
  | x_dht_get k : node_function alloc (dht_get k)
  | x_dht_find_peer p : node_function alloc (dht_find_peer p)
  | x_dht_provide k : node_function alloc (dht_provide k)
  | x_dht_find_providers k : node_function alloc (dht_find_providers k)
  | x_dht_bootstrap : node_function alloc dht_bootstrap
  | x_kad_export_routing_table : node_function alloc (kad_export_routing_table alloc)
  | x_kad_import_routing_table data : node_function alloc (kad_import_routing_table data)
  | x_rpc_send_request p data : node_function alloc (rpc_send_request p data)
  | x_rpc_send_response id data : node_function alloc (rpc_send_response id data)
  | x_listen_via_relay addr : node_function alloc (listen_via_relay addr)
  | x_rendezvous_register ns ttl p : node_function alloc (rendezvous_register ns ttl p)
  | x_rendezvous_discover ns p : node_function alloc (rendezvous_discover ns p)
  | x_rendezvous_unregister ns p : node_function alloc (rendezvous_unregister ns p).

(** All: with [start_node] and the keypair functions, which use no node. *)
Inductive exported `{!Protocols, !Identity, !Metrics} {Swarm Term LocalPid : Type}
    `{!SwarmOps Swarm, !Builder Swarm, !TermDec Term, !TermEnc Term} (alloc : Z -> bool) :
    forall {R : Type}, Nif LocalPid R -> Prop :=
  | x_node_function {R} (p : Nif LocalPid R) : node_function alloc p -> exported alloc p
  | x_start_node overflow_checks entropy registry (runtime : Result string TokioRuntime) (config : gmap string Term) :
      exported alloc (lift (start_node (Swarm:=Swarm) overflow_checks entropy registry runtime config))
  | x_generate_keypair entropy : exported alloc (mret (generate_keypair (Term:=Term) entropy))
  | x_keypair_from_protobuf data : exported alloc (mret (keypair_from_protobuf (Term:=Term) data)).
Arguments exported {_ _ _} Swarm Term {_ _ _ _ _} alloc {R} _.

(** No branch of a program ends in a panic. *)
Fixpoint no_panic `{!Protocols} {LocalPid R} (p : Nif LocalPid R) : Prop :=
  match p with
  | Done r => r <> Panic
  | Oneshot t k => forall tx, no_panic (k tx)
  | TrySend cmd k => forall r, no_panic (k r)
  | BlockingRecv t tx k => forall v, no_panic (k v)
  end.

Section discipline.
Context `{!Protocols} {LocalPid : Type}.

(** The oneshot discipline: a program creates a reply channel only when it has no
    other; it sends a channel it has created with the next command, which carries
    no other channel, before it does anything else; if the command is accepted it
    waits for the reply, of the type of the channel, next; and it ends only
    without a channel. *)
Fixpoint disciplined {R} (h : Held) (p : Nif LocalPid R) : Prop :=
  match p with
  | Done _ => h = Nothing
  | Oneshot t k => h = Nothing /\ forall tx, disciplined (Created t tx) (k tx)
  | TrySend cmd k =>
      match command_reply cmd with
      | None => h = Nothing /\ forall r, disciplined Nothing (k r)
      | Some (existT t tx) =>
          h = Created t tx /\ disciplined (Awaited t tx) (k Sent) /\
          disciplined Nothing (k Channel.Full) /\ disciplined Nothing (k Channel.Closed)
      end
  | BlockingRecv t tx k => h = Awaited t tx /\ forall v, disciplined Nothing (k v)
  end.

Lemma disciplined_wf {R} h (p : Nif LocalPid R) : disciplined h p -> nif_wf h p.
Proof.
  revert h. induction p as [r|t k IH|cmd k IH|t tx k IH]; intros h; cbn; [done|naive_solver| |naive_solver].
  destruct (command_reply cmd) as [[]|]; naive_solver.
Qed.

Definition safe {R} (p : Nif LocalPid R) : Prop := disciplined Nothing p /\ no_panic p.

Lemma safe_ret {R} (a : R) : safe (mret a).
Proof. by split. Qed.

Lemma safe_send_ok cmd : command_reply cmd = None -> safe (send_ok cmd).
Proof. intros Hc. split; [cbn; rewrite Hc; split; [done|]|]; by intros []. Qed.

Lemma safe_query {R t} (mk : Sender t -> Command LocalPid) (f : reply_val t -> Nif LocalPid R) :
  (forall tx, command_reply (mk tx) = Some (existT t tx)) -> (forall v, safe (f v)) ->
  safe (v ← query_typed mk; f v).
Proof.
  intros Hmk Hf. split.
  - split; [done|]. intros tx. cbn. rewrite Hmk. split_and!; try done. by intros [v|]; [apply Hf|].
  - intros tx []; [|done..]. intros [v|]; [apply Hf|done].
Qed.

Lemma safe_lift {R A} (r : Result NifError A) (f : A -> Nif LocalPid R) :
  r <> Panic -> (forall a, safe (f a)) -> safe (a ← lift r; f a).
Proof. intros Hr Hf. destruct r; [apply Hf|by split|done]. Qed.

Lemma of_sum_no_panic {E A} (f : E -> NifError) (r : E + A) : of_sum f r <> Panic.
Proof. by destruct r. Qed.

Lemma map_err_no_panic {E A} (f : E -> NifError) (r : Result E A) : r <> Panic -> map_err f r <> Panic.
Proof. by destruct r. Qed.

Lemma safe_lift_of_sum {R E A} (g : E -> NifError) (r : E + A) (f : A -> Nif LocalPid R) :
  (forall a, safe (f a)) -> safe (a ← lift (of_sum g r); f a).
Proof. apply safe_lift. by destruct r. Qed.
End discipline.

Ltac safe :=
  repeat first
    [ apply safe_ret
    | apply safe_send_ok; reflexivity
    | lazymatch goal with
      | |- safe (mbind _ (query_typed (t:=?t) ?mk)) =>
          refine (safe_query (t:=t) mk _ _ _); [reflexivity|intros]
      end
    | apply safe_lift_of_sum; intros
    | match goal with |- safe (let '(_, _) := ?x in _) => destruct x end ].

Section calls.
Context `{!Protocols, !Metrics} {LocalPid : Type}.
Context (alloc : Z -> bool).

(** Every branch of a function on a node follows the discipline. *)
Lemma node_function_safe {R} (p : Nif LocalPid R) : node_function alloc p -> safe p.
Proof.
  destruct 1; unfold connected_peers, listening_addrs, bandwidth_stats, prometheus_metrics, dial,
    gossipsub_mesh_peers, gossipsub_all_peers, gossipsub_peer_score, dht_find_peer,
    kad_export_routing_table, kad_import_routing_table, rpc_send_request, listen_via_relay,
    rendezvous_register, rendezvous_discover, rendezvous_unregister, parse_peer_id,
    parse_multiaddr; safe.
  - split; [split; [done|]|]; by intros [].
  - split; [split; [done|]|]; by intros [].
  - apply safe_lift; [by destruct (alloc _)|]. intros. safe.
  - apply safe_lift.
    + intros E. destruct (decode data) eqn:Hd; try done. by apply decode_no_panic in Hd.
    + intros. safe.
  - split; cbn; [split; [done|]|]; intros tx.
    + split; [done|]. split; [|done]. split; [done|]. by intros [].
    + intros []; [|done..]. by intros [].
Qed.

Lemma node_function_wf {R} (p : Nif LocalPid R) : node_function alloc p -> nif_wf Nothing p.
Proof. intros Hp. apply disciplined_wf. by apply node_function_safe. Qed.

(** ** What a function makes of the outcome of sending

    The points of a program that it can come to. *)
Inductive stage {R} (p : Nif LocalPid R) : Nif LocalPid R -> Prop :=
  | stage_start : stage p p
  | stage_oneshot t k tx : stage p (Oneshot t k) -> stage p (k tx)
  | stage_send cmd k r : stage p (TrySend cmd k) -> stage p (k r)
  | stage_recv t tx k v : stage p (BlockingRecv t tx k) -> stage p (k v).

(** The two commands whose loss is not reported. *)
Definition best_effort (cmd : Command LocalPid) : bool :=
  match cmd with Shutdown | RegisterEventHandler _ => true | _ => false end.

(** A queued command: the function has succeeded, or waits for the reply. *)
Definition goes_on {R} (cmd : Command LocalPid) (p : Nif LocalPid R) : Prop :=
  match command_reply cmd with
  | None => exists a, p = Done (Ok a)
  | Some (existT t tx) => exists k, p = BlockingRecv t tx k
  end.

Definition reported {R} (cmd : Command LocalPid) (k : SendResult -> Nif LocalPid R) : Prop :=
  goes_on cmd (k Sent) /\
  k Channel.Full = (if best_effort cmd then k Sent else Done (Err ChannelFull)) /\
  k Channel.Closed = (if best_effort cmd then k Sent else Done (Err NodeStopped)).

Fixpoint reports {R} (p : Nif LocalPid R) : Prop :=
  match p with
  | Done _ => True
  | Oneshot t k => forall tx, reports (k tx)
  | TrySend cmd k => reported cmd k /\ forall r, reports (k r)
  | BlockingRecv t tx k => forall v, reports (k v)
  end.

Lemma reports_stage {R} (p q : Nif LocalPid R) : reports p -> stage p q -> reports q.
Proof. intros Hp. induction 1 as [|t k tx _ IH|cmd k r _ IH|t tx k v _ IH]; [done|apply IH..]. Qed.

Lemma reports_send_ok cmd : command_reply cmd = None -> best_effort cmd = false -> reports (send_ok cmd).
Proof.
  intros Hc Hb. split; [|by intros []]. unfold reported, goes_on. rewrite Hc, Hb. split; [by eexists|done].
Qed.

Lemma reports_query {R t} (mk : Sender t -> Command LocalPid) (f : reply_val t -> Nif LocalPid R) :
  (forall tx, command_reply (mk tx) = Some (existT t tx)) -> (forall v, reports (f v)) ->
  reports (v ← query_typed mk; f v).
Proof.
  intros Hmk Hf tx. assert (best_effort (mk tx) = false) as Hb by (specialize (Hmk tx); by destruct (mk tx)).
  split.
  - unfold reported, goes_on. rewrite Hmk, Hb. split; [by eexists|done].
  - intros []; cbn; [|done..]. intros [v|]; cbn; [apply Hf|done].
Qed.

Lemma reports_lift {R A} (r : Result NifError A) (f : A -> Nif LocalPid R) :
  (forall a, reports (f a)) -> reports (a ← lift r; f a).
Proof. intros Hf. destruct r; [apply Hf|done..]. Qed.

#[local] Ltac reports :=
  repeat first
    [ done
    | apply reports_send_ok; reflexivity
    | lazymatch goal with
      | |- reports (mbind _ (query_typed (t:=?t) ?mk)) =>
          refine (reports_query (t:=t) mk _ _ _); [reflexivity|intros]
      end
    | apply reports_lift; intros
    | match goal with |- reports (let '(_, _) := ?x in _) => destruct x end ].

Lemma node_function_reports {R} (p : Nif LocalPid R) : node_function alloc p -> reports p.
Proof.
  destruct 1; unfold connected_peers, listening_addrs, bandwidth_stats, prometheus_metrics, dial,
    gossipsub_mesh_peers, gossipsub_all_peers, gossipsub_peer_score, dht_find_peer,
    kad_export_routing_table, kad_import_routing_table, rpc_send_request, listen_via_relay,
    rendezvous_register, rendezvous_discover, rendezvous_unregister, parse_peer_id,
    parse_multiaddr; reports.
  - split; [|done]. split; [by eexists|done].
  - split; [|done]. split; [by eexists|done].
  - intros tx. split; [split; [by eexists|done]|]. intros []; [|done..]. by intros [].
Qed.

(** ** Properties *)

(** Malformed arguments are rejected before anything happens: a peer id, a
    multiaddr or a snapshot that does not parse makes the function return the
    typed error at once, without a command or a oneshot channel. *)
Theorem bad_arguments_rejected (s e : string) (data : bytes) (de : DhtStateError) :
  (peer_parse s = inl e ->
     gossipsub_peer_score (LocalPid:=LocalPid) s = Done (Err (InvalidPeerId e)) /\
     dht_find_peer (LocalPid:=LocalPid) s = Done (Err (InvalidPeerId e)) /\
     (forall d, rpc_send_request (LocalPid:=LocalPid) s d = Done (Err (InvalidPeerId e))) /\
     (forall ns ttl, rendezvous_register (LocalPid:=LocalPid) ns ttl s = Done (Err (InvalidPeerId e))) /\
     (forall ns, rendezvous_discover (LocalPid:=LocalPid) ns s = Done (Err (InvalidPeerId e))) /\
     (forall ns, rendezvous_unregister (LocalPid:=LocalPid) ns s = Done (Err (InvalidPeerId e)))) /\
  (addr_parse s = inl e ->
     dial (LocalPid:=LocalPid) s = Done (Err (InvalidMultiaddr e)) /\
     listen_via_relay (LocalPid:=LocalPid) s = Done (Err (InvalidMultiaddr e))) /\
  (decode data = Err de ->
     kad_import_routing_table (LocalPid:=LocalPid) data = Done (Err (import_error de)) /\
     match import_error de with
     | NifError.InputTooLarge got max => got = len data /\ max = Policy.MAX_DHT_EXPORT_BYTES
     | Internal _ => len data <= Policy.MAX_DHT_EXPORT_BYTES
     | _ => False
     end).
Proof.
  split_and!.
  - intros Hp. unfold gossipsub_peer_score, dht_find_peer, rpc_send_request, rendezvous_register,
      rendezvous_discover, rendezvous_unregister, parse_peer_id. rewrite Hp. done.
  - intros Ha. unfold dial, listen_via_relay, parse_multiaddr. by rewrite Ha.
  - intros Hd. split; [unfold kad_import_routing_table; by rewrite Hd|].
    pose proof (decode_err_explains _ _ Hd) as He.
    destruct (Z.lt_ge_cases Policy.MAX_DHT_EXPORT_BYTES (len data)) as [Hlt|Hge].
    + rewrite (decode_too_large _ Hlt) in Hd. by injection Hd as <-.
    + destruct de; cbn in He |- *; by destruct_and?.
Qed.
End calls.

(** ** All exported functions *)
Section all_functions.
Context `{!Protocols, !Identity, !Metrics} {Swarm Term LocalPid : Type}.
Context `{!SwarmOps Swarm, !Builder Swarm, !TermDec Term, !TermEnc Term}.
Context (alloc : Z -> bool).

Local Abbreviation exported := (exported (LocalPid:=LocalPid) Swarm Term alloc).

(** C26: Every exported function follows the oneshot discipline - it sends each
    reply channel it creates with exactly one command, waits for the reply if that
    was accepted, blocks on nothing else, and has no reply channel left when it
    returns - and no branch of it panics, whatever its arguments, the replies and
    the state of the channel are. *)
Theorem exported_functions_safe {R} (p : Nif LocalPid R) : exported p -> safe p.
Proof.
  destruct 1 as [R p Hp|checks entropy registry runtime config| |]; [by eapply node_function_safe| |done..].
  split; cbn; [done|]. unfold start_node. by destruct (start_node_inner _ _ _ _ _).
Qed.
End all_functions.

(** ** Keypairs *)
Section keypairs.
Context `{!Protocols, !Identity} {Term : Type} `{!TermEnc Term}.

(** A generated keypair can be saved and restored: the protobuf encoding
    returned by [generate_keypair] gives, through [keypair_from_protobuf], the
    same public key and peer id; and an input above the cap is refused with its
    size without being decoded. *)
Theorem keypair_roundtrip `{!IdentityOk} entropy b :
  to_protobuf_encoding (generate_ed25519 entropy) = inr b ->
  exists pub peer,
    generate_keypair (Term:=Term) entropy =
      enc_tuple [enc_atom a_ok; enc_binary pub; enc_str peer; enc_binary b] /\
    keypair_from_protobuf (Term:=Term) b =
      if len b >? MAX_KEYPAIR_BYTES
      then enc_tuple [enc_atom a_error;
             NifError.encode (NifError.InputTooLarge (len b) MAX_KEYPAIR_BYTES)]
      else enc_tuple [enc_atom a_ok; enc_binary pub; enc_str peer].
Proof.
  intros Hb. unfold generate_keypair, keypair_from_protobuf. rewrite Hb.
  eexists _, _. split; [done|]. rewrite (protobuf_roundtrip _ _ Hb). done.
Qed.
End keypairs.

(** ** Calls on an idle node *)
Section quiet.
Context `{!Protocols} {Swarm LocalPid Term : Type} `{!SwarmOps Swarm, !TermEnc Term}.
Context {Chan : Type} `{!Mpsc Chan (Command LocalPid), !MpscOk Chan (Command LocalPid)}.
Context (alloc : Z -> bool) (auto : bool).

#[local] Set Default Proof Using "Type*".

Local Abbreviation turn := (turn (LocalPid:=LocalPid) (Term:=Term) alloc auto).
Local Abbreviation reachable := (reachable (Term:=Term) (Chan:=Chan) alloc auto).

(** A call alone on a new node: it runs until it blocks, the task receives the
    command, and the call goes on. *)
Definition alone {R} (p : Nif LocalPid R) : list (Action (LocalPid:=LocalPid) (R:=R)) :=
  [Spawn p; StepCall 0; StepCall 0; LoopRecv; StepCall 0].

(** A program that asks: it creates a channel, sends a command with it and, if
    the command was sent, blocks on the reply and goes on with [g]. *)
Definition ask {R t} (mk : Sender t -> Command LocalPid) (k : Sender t -> SendResult -> Nif LocalPid R) :
    Nif LocalPid R :=
  Oneshot t (fun tx => TrySend (mk tx) (k tx)).

Lemma insert_snoc {A} (l : list A) x y : <[length l := y]> (l ++ [x]) = l ++ [y].
Proof. by rewrite <-(Nat.add_0_r (length l)), insert_app_r. Qed.

Section asking.
Context {R : Type} {t : ReplyTy}.
Implicit Types (s : Sys (Swarm:=Swarm) (LocalPid:=LocalPid) (Chan:=Chan) (R:=R)).

Local Abbreviation act := (act (Swarm:=Swarm) (LocalPid:=LocalPid) (Term:=Term) (Chan:=Chan) (R:=R) alloc auto).
Local Abbreviation run := (run (Swarm:=Swarm) (LocalPid:=LocalPid) (Term:=Term) (Chan:=Chan) (R:=R) alloc auto).

(** Nothing is queued at a node that is alive. *)
Definition idle s (st : LoopState Swarm LocalPid) : Prop :=
  sys_ok s /\ loop s = Some st /\ queue (chan s) = [] /\ handle s = true.

Lemma idle_start sw : idle (start sw) (init_state sw).
Proof.
  destruct (channel_ok (A:=Command LocalPid) COMMAND_CHANNEL_CAPACITY) as (Hq & _); [done|].
  split_and!; [apply sys_ok_start|done|done|done].
Qed.

(** The command of a call on an idle node is queued. *)
Lemma send_queued s st i cmd k :
  idle s st -> calls s !! i = Some (TrySend cmd k) ->
  let s' := act (StepCall i) s in
  sys_ok s' /\ loop s' = Some st /\ queue (chan s') = [cmd] /\ handle s' = true /\
  calls s' = <[i := k Sent]> (calls s).
Proof.
  intros (Hok & Hl & Hq & Hh) Hi. split; [by apply sys_ok_act|]. cbn [System.act]. unfold step_call. rewrite Hi.
  pose proof (send_command_spec s cmd Hok Hh) as Hs. destruct (send_command s cmd) as [s' r].
  destruct Hs as (Hl' & _ & Hc & Hh' & _ & _ & _ & Hr). rewrite Hq in Hr.
  destruct r; [|by destruct Hr as (_ & _ & ? & _)|by destruct Hr as [Hn _]; rewrite Hl in Hn].
  destruct Hr as (_ & Hqs & _). cbn [set_call calls loop chan handle].
  by rewrite Hl', Hl, Hqs, Hc.
Qed.

(** The task takes the one command that is queued. *)
Lemma queued_received s st cmd :
  sys_ok s -> loop s = Some st -> queue (chan s) = [cmd] -> handle s = true -> ends (Recv (Some cmd)) = false ->
  let s' := act LoopRecv s in
  idle s' (state (turn (Recv (Some cmd)) st)) /\ calls s' = calls s /\
  settled s' = settle (settled s) (effects_of (turn (Recv (Some cmd)) st)).
Proof.
  intros Hok Hl Hq Hh He s'. assert (sys_ok s') as Hok' by (by apply sys_ok_act).
  pose proof (recv_view (Term:=Term) alloc auto s Hok) as (Hc & Hh' & Hv).
  rewrite Hl, Hq in Hv. cbv zeta in Hv. rewrite He in Hv. destruct Hv as (Hl' & Hq' & Hs').
  split_and!; try done. split_and!; try done. by etrans.
Qed.

Context (mk : Sender t -> Command LocalPid) (k : Sender t -> SendResult -> Nif LocalPid R).
Context (g : option (reply_val t) -> Nif LocalPid R).
Context (mk_reply : forall tx, command_reply (mk tx) = Some (existT t tx)).
Context (k_sent : forall tx, k tx Sent = BlockingRecv t tx g).
Context (g_wf : forall w, nif_wf Nothing (g w)).
Context (k_wf : forall tx, nif_wf Nothing (k tx Channel.Full) /\ nif_wf Nothing (k tx Channel.Closed)).

Lemma ask_wf : nif_wf Nothing (ask mk k).
Proof using mk_reply k_sent g_wf k_wf.
  intros tx. cbn. rewrite mk_reply, k_sent. split_and!; [done|by split|by apply k_wf..].
Qed.

(** On an idle node the question is queued, with a new reply channel. *)
Lemma ask_queued s st :
  idle s st ->
  let tx := next_oneshot s in
  let i := length (calls s) in
  let s' := run [Spawn (ask mk k); StepCall i; StepCall i] s in
  sys_ok s' /\ loop s' = Some st /\ queue (chan s') = [mk tx] /\ handle s' = true /\
  calls s' = calls s ++ [BlockingRecv t tx g].
Proof using All.
  intros (Hok & Hl & Hq & Hh) tx i.
  assert (act (StepCall i) (act (Spawn (ask mk k)) s) =
    mkSys (chan s) (loop s) (settled s) (tx + 1) (calls s ++ [TrySend (mk tx) (k tx)]) (handle s)) as E.
  { cbn [System.act]. rewrite Hh. cbn [System.act]. unfold step_call. cbn [calls]. rewrite list_lookup_middle by done.
    cbn. unfold i. by rewrite insert_snoc. }
  assert (idle (act (StepCall i) (act (Spawn (ask mk k)) s)) st) as Hi.
  { split; [apply sys_ok_act; [done|]; apply sys_ok_act; [apply ask_wf|done]|]. by rewrite E. }
  cbn [System.run foldl]. rewrite E in *.
  destruct (send_queued _ st i (mk tx) (k tx) Hi) as (H1 & H2 & H3 & H4 & H5).
  { cbn [calls]. by rewrite list_lookup_middle. }
  split_and!; [done..|]. rewrite H5. cbn [calls]. unfold i. by rewrite k_sent, insert_snoc.
Qed.

(** The reply it gets is the one the task's turn sends. *)
Lemma ask_answered s st (tx : Sender t) i v :
  sys_ok s -> loop s = Some st -> queue (chan s) = [mk tx] -> handle s = true ->
  calls s !! i = Some (BlockingRecv t tx g) ->
  (exists l, Forall is_log l /\ effects_of (turn (Recv (Some (mk tx))) st) = l ++ [Reply t tx v]) ->
  let s' := run [LoopRecv; StepCall i] s in
  idle s' (state (turn (Recv (Some (mk tx))) st)) /\ calls s' = <[i := g (Some v)]> (calls s).
Proof using mk_reply.
  intros Hok Hl Hq Hh Hi (l & Hlog & He).
  assert (ends (Recv (Some (mk tx))) = false) as Hend.
  { pose proof (mk_reply tx) as Hr. by destruct (mk tx). }
  destruct (queued_received s st (mk tx) Hok Hl Hq Hh Hend) as ((Hok' & Hl' & Hq' & Hh') & Hc & Hs).
  rewrite He, settle_app, (settle_silent _ l) in Hs by (by apply replies_log).
  cbn [System.run foldl]. set (s' := act LoopRecv s) in *. clearbody s'.
  assert (act (StepCall i) s' = set_call s' i (g (Some v))) as E.
  { cbn [System.act]. unfold step_call. rewrite Hc, Hi, Hs. cbn [settle foldl].
    by rewrite lookup_insert_eq, received_value. }
  split; [|by rewrite E; cbn; rewrite Hc]. split; [by apply sys_ok_act|]. by rewrite E.
Qed.
End asking.

Lemma quiet_ask {R t} (mk : Sender t -> Command LocalPid) (k : Sender t -> SendResult -> Nif LocalPid R)
    (g : option (reply_val t) -> Nif LocalPid R) (v : reply_val t) (sw : Swarm) :
  (forall tx, command_reply (mk tx) = Some (existT t tx)) ->
  (forall tx, k tx Sent = BlockingRecv t tx g) ->
  (forall w, nif_wf Nothing (g w)) ->
  (forall tx, nif_wf Nothing (k tx Channel.Full) /\ nif_wf Nothing (k tx Channel.Closed)) ->
  (exists l, Forall is_log l /\
     effects_of (turn (Recv (Some (mk 0%N))) (init_state sw)) = l ++ [Reply t 0%N v]) ->
  calls (reachable (alone (ask mk k)) sw) !! 0%nat = Some (g (Some v)) /\
  loop (reachable (alone (ask mk k)) sw) =
    Some (state (turn (Recv (Some (mk 0%N))) (init_state sw))).
Proof.
  intros Hmk Hk Hg Hf He.
  destruct (ask_queued mk k g Hmk Hk Hg Hf (start sw) (init_state sw) (idle_start sw)) as (H1 & H2 & H3 & H4 & H5).
  destruct (ask_answered mk g Hmk _ _ _ 0%nat v H1 H2 H3 H4) as ((_ & Hl & _) & Hc); [by rewrite H5|done|].
  change (reachable (alone (ask mk k)) sw) with
    (run (Term:=Term) alloc auto [LoopRecv; StepCall 0] (run (Term:=Term) alloc auto
       [Spawn (ask mk k); StepCall (length (calls (start (Chan:=Chan) (R:=R) sw)));
        StepCall (length (calls (start (Chan:=Chan) (R:=R) sw)))] (start sw))).
  rewrite Hc, Hl, H5. done.
Qed.

(** A query is such a program. *)
Lemma quiet_query {R t} (mk : Sender t -> Command LocalPid) (f : reply_val t -> Nif LocalPid R)
    (v : reply_val t) (sw : Swarm) :
  (forall tx, command_reply (mk tx) = Some (existT t tx)) ->
  (forall w, nif_wf Nothing (f w)) ->
  (exists l, Forall is_log l /\
     effects_of (turn (Recv (Some (mk 0%N))) (init_state sw)) = l ++ [Reply t 0%N v]) ->
  calls (reachable (alone (w ← query_typed mk; f w)) sw) !! 0%nat = Some (f v) /\
  loop (reachable (alone (w ← query_typed mk; f w)) sw) =
    Some (state (turn (Recv (Some (mk 0%N))) (init_state sw))).
Proof.
  intros Hmk Hf He.
  refine (quiet_ask mk (fun tx r => nif_bind f (match send_error r with
      | Some e => Done (Err e)
      | None => BlockingRecv t tx (fun v => Done (ok_or NodeStopped v))
      end)) (fun v => nif_bind f (Done (ok_or NodeStopped v))) v sw Hmk _ _ _ He); [done| |done].
  intros [w|]; [apply Hf|done].
Qed.

(** The routing table survives a restart through the native interface:
    [kad_export_routing_table] on a node with Kademlia returns [{:ok, blob}],
    and [kad_import_routing_table] of that blob on another such node adds
    exactly the exported (peer, address) pairs, in order, and returns their
    number - provided the table fits the format and its size can be allocated. *)
Theorem export_import_calls `{!ProtocolsOk} sw1 sw2 kad1 kad2 :
  kademlia (behaviour sw1) = Some kad1 -> kademlia (behaviour sw2) = Some kad2 ->
  table_entries_fit (kad_kbuckets kad1).2 ->
  alloc (len (encode (export_entries (kad_kbuckets kad1).2))) = true ->
  let pairs := table_pairs (kad_kbuckets kad1).2 in
  exists blob,
    calls (reachable (alone (kad_export_routing_table alloc)) sw1) !! 0%nat =
      Some (Done (Ok (a_ok, blob))) /\
    calls (reachable (alone (kad_import_routing_table blob)) sw2) !! 0%nat =
      Some (Done (Ok (a_ok, as_u64 (len pairs)))) /\
    exists st, loop (reachable (alone (kad_import_routing_table blob)) sw2) = Some st /\
      swarm st =
        set_behaviour sw2 (set_kademlia (behaviour sw2) (add_pairs kad2 pairs)).
Proof.
  intros H1 H2 [Hwf Hlen] Halloc pairs. set (es := export_entries (kad_kbuckets kad1).2) in *.
  exists (encode es). split.
  - destruct (quiet_query (t:=TEntries) (fun tx => DhtExportRoutingTable tx)
      (fun result =>
         entries ← lift (of_sum (fun _ => DhtNotEnabled) result);
         _ ← lift (if alloc (len (encode entries)) then Ok tt
                   else Err (Internal ("alloc " +:+ pretty (len (encode entries)) +:+ " bytes")));
         mret (a_ok, encode entries)) (inr es) sw1) as [Hc _]; [done| | |].
    + intros [|entries]; [done|]. unfold lift. cbn -[encode len].
      by destruct (alloc (len (encode entries))).
    + exists []. split; [constructor|]. by apply turn_export.
    + refine (eq_trans Hc _). unfold lift. cbn -[encode len]. by rewrite Halloc.
  - destruct (readable_export (kad_kbuckets kad1).2) as [Hp _].
    destruct (turn_import (Term:=Term) alloc auto (init_state (LocalPid:=LocalPid) sw2) 0%N kad2 es H2)
      as (l & He & Hl & _ & Hsw).
    assert (decode (encode es) = Ok es) as Hd.
    { rewrite <-(app_nil_r (encode _)). apply decode_complete; [done|]. by rewrite app_nil_r. }
    assert (kad_import_routing_table (LocalPid:=LocalPid) (encode es) =
      (result ← query_typed (t:=TCount) (fun tx => DhtImportRoutingTable es tx);
       count ← lift (of_sum (fun _ => DhtNotEnabled) result);
       mret (a_ok, as_u64 count))) as Ei by (unfold kad_import_routing_table; by rewrite Hd).
    rewrite Ei.
    destruct (quiet_query (t:=TCount) (fun tx => DhtImportRoutingTable es tx)
      (fun result =>
         count ← lift (of_sum (fun _ => DhtNotEnabled) result); mret (a_ok, as_u64 count))
      (inr (len (readable_pairs es))) sw2) as [Hc Hst]; [done| | |].
    + by intros [].
    + exists l. split; [done|exact He].
    + unfold pairs. rewrite <-Hp. split; [exact Hc|].
      eexists. split; [exact Hst|]. exact Hsw.
Qed.

(** C19: Sending never blocks and never lies: a native function that sends a
    command goes on - it returns its success, or waits for the reply - when the
    command was queued; with the queue full it fails with [channel_full] and with
    the task gone with [node_stopped], and then nothing was queued.  The two
    exceptions are [stop_node] and [register_event_handler], the functions that
    send [Shutdown] and [RegisterEventHandler]: they return [:ok] although their
    command was not queued. *)
Theorem send_outcome {R} (acts : list (Action (LocalPid:=LocalPid) (R:=R))) sw n
    (p : Nif LocalPid R) cmd k :
  Forall action_wf acts -> node_function alloc p -> stage p (TrySend cmd k) ->
  let s := reachable acts sw in
  let s' := act (Term:=Term) alloc auto (StepCall n) s in
  calls s !! n = Some (TrySend cmd k) ->
  match loop s, Z.of_nat (length (queue (chan s))) <? COMMAND_CHANNEL_CAPACITY with
  | Some _, true =>
      queue (chan s') = queue (chan s) ++ [cmd] /\
      calls s' !! n = Some (k Sent) /\ goes_on cmd (k Sent)
  | Some _, false =>
      queue (chan s') = queue (chan s) /\
      calls s' !! n = Some (if best_effort cmd then k Sent else Done (Err ChannelFull))
  | None, _ =>
      queue (chan s') = queue (chan s) /\
      calls s' !! n = Some (if best_effort cmd then k Sent else Done (Err NodeStopped))
  end.
Proof.
  intros Hwf Hp Hst s s' Hn. assert (sys_ok s) as Hok by (by apply sys_ok_reachable).
  pose proof (reports_stage _ _ (node_function_reports _ _ Hp) Hst) as [(Hsent & Hfull & Hclosed) _].
  assert (handle s = true) as Hh.
  { destruct (handle s) eqn:E; [done|]. exfalso.
    by eapply forallb_insert_false, (sys_dropped _ Hok). }
  pose proof (send_command_spec s cmd Hok Hh) as Hspec. subst s'. cbn [act]. unfold step_call.
  rewrite Hn. apply lookup_lt_Some in Hn.
  destruct (send_command s cmd) as [s' r]. destruct Hspec as (_ & _ & Hc & _ & _ & _ & _ & Hq).
  cbn [set_call calls chan]. rewrite Hc, list_lookup_insert_eq by done.
  destruct r; [destruct Hq as ([st ->] & -> & Hlt & _)|destruct Hq as ([st ->] & -> & Hlt & _)|
               by destruct Hq as (-> & -> & _); rewrite Hclosed].
  - by rewrite (proj2 (Z.ltb_lt _ _) Hlt).
  - by rewrite Hlt, Z.ltb_irrefl, Hfull.
Qed.

(** On a node whose task has ended, a query fails with [node_stopped]
    within two steps, without blocking. *)
Theorem query_on_stopped_node {R t} (acts : list (Action (LocalPid:=LocalPid) (R:=R))) sw n
    (mk : Sender t -> Command LocalPid) (f : reply_val t -> Nif LocalPid R) :
  Forall action_wf acts ->
  (forall tx, command_reply (mk tx) = Some (existT t tx)) ->
  let s := reachable acts sw in
  loop s = None -> calls s !! n = Some (w ← query_typed mk; f w) ->
  calls (run (Term:=Term) alloc auto [StepCall n; StepCall n] s) !! n = Some (Done (Err NodeStopped)).
Proof.
  intros Hwf Hmk s Hl Hn. assert (sys_ok s) as Hok by (by apply sys_ok_reachable).
  set (s1 := act (Term:=Term) alloc auto (StepCall n) s).
  assert (sys_ok s1) as Hok1 by (by apply sys_ok_act).
  assert (calls s1 !! n = Some (TrySend (mk (next_oneshot s)) (fun r => nif_bind f
    (match send_error r with
     | Some e => Done (Err e)
     | None => BlockingRecv t (next_oneshot s) (fun v => Done (ok_or NodeStopped v))
     end)))) as Hn1.
  { subst s1. cbn [act]. unfold step_call. rewrite Hn. cbn [mbind Nif_bind nif_bind query_typed calls].
    apply list_lookup_insert_eq. by apply lookup_lt_Some in Hn. }
  assert (loop s1 = None) as Hl1 by exact (exited_act alloc auto (StepCall n) s Hok Hl).
  assert (handle s1 = true) as Hh1.
  { destruct (handle s1) eqn:E; [done|]. exfalso.
    by eapply forallb_insert_false, (sys_dropped _ Hok1). }
  change (run alloc auto _ s) with (act (Term:=Term) alloc auto (StepCall n) s1). clearbody s1.
  pose proof (send_command_spec s1 (mk (next_oneshot s)) Hok1 Hh1) as Hs.
  cbn [act]. unfold step_call. rewrite Hn1. apply lookup_lt_Some in Hn1.
  destruct (send_command s1 (mk (next_oneshot s))) as [s2 r].
  destruct Hs as (_ & _ & Hc & _ & _ & _ & _ & Hr). cbn [set_call calls].
  rewrite Hc, list_lookup_insert_eq by done. rewrite Hl1 in Hr.
  destruct r; [by destruct Hr as [[] _]..|done].
Qed.
End quiet.

(** ** Witnesses *)
Lemma exported_functions_safe_witness :
  safe (dial (LocalPid:=nat) (H:=SimProtocols) "/ip4/127.0.0.1/tcp/1").
Proof.
  apply (exported_functions_safe (H:=SimProtocols) (Swarm:=SimSwarm) (Term:=ETerm) (fun _ => true)).
  constructor. constructor.
Defined.

Definition sim_sending : list (Action (LocalPid:=nat) (R:=Atom)) := [Spawn (subscribe "news")].

Local Abbreviation sim_sent :=
  (act (Swarm:=SimSwarm) (Term:=ETerm) (fun _ => true) true (StepCall 0)
     (reachable (Term:=ETerm) (Chan:=ListChan (Command nat)) (fun _ => true) true sim_sending sim_full)).

Lemma send_outcome_witness :
  queue (chan sim_sent) = [Subscribe "news"] /\ exists a, calls sim_sent !! 0%nat = Some (Done (Ok a)).
Proof.
  pose proof (send_outcome (Term:=ETerm) (Chan:=ListChan (Command nat)) (fun _ => true) true sim_sending sim_full 0
    (subscribe "news") (Subscribe "news") _ ltac:(repeat constructor; by intros []) ltac:(constructor)
    ltac:(apply stage_start) eq_refl) as (Hq & Hc & [a Ha]).
  split; [exact Hq|]. exists a. rewrite Hc. f_equal. exact Ha.
Defined.

Lemma bad_arguments_rejected_witness :
  dial (LocalPid:=nat) (H:=SimProtocols) "nonsense" = Done (Err (InvalidMultiaddr "invalid multiaddr")) /\
  kad_import_routing_table (LocalPid:=nat) (H:=SimProtocols) [] =
    Done (Err (Internal "truncated at offset 0, need 4")).
Proof.
  split.
  - apply (bad_arguments_rejected (H:=SimProtocols) "nonsense" "invalid multiaddr" [] (Truncated 0 4)).
    reflexivity.
  - apply (bad_arguments_rejected (H:=SimProtocols) "nonsense" "invalid multiaddr" [] (Truncated 0 4)).
    reflexivity.
Defined.

Lemma export_import_calls_witness :
  exists blob,
    calls (reachable (Term:=ETerm) (Chan:=ListChan (Command nat)) (fun _ => true) true
      (alone (kad_import_routing_table blob)) sim_full) !! 0%nat = Some (Done (Ok (a_ok, 2))).
Proof.
  destruct (export_import_calls (LocalPid:=nat) (Term:=ETerm) (Chan:=ListChan (Command nat))
    (fun _ => true) true (sim_node (Some sim_table) None) sim_full (sim_table : @Kad SimProtocols) [])
    as (blob & _ & Hc & _).
  - reflexivity.
  - reflexivity.
  - split.
    + apply (bool_decide_unpack _). vm_compute. exact I.
    + vm_compute. discriminate.
  - reflexivity.
  - exists blob. exact Hc.
Defined.

Lemma keypair_roundtrip_witness :
  exists pub peer,
    keypair_from_protobuf (Term:=ETerm) [Byte.x08] = ETuple [EAtom a_ok; EBin pub; EStr peer].
Proof.
  destruct (keypair_roundtrip (H0:=sim_identity) (Term:=ETerm) [Byte.x08] [Byte.x08] eq_refl)
    as (pub & peer & _ & E).
  exists pub, peer. exact E.
Defined.

Definition sim_stopped : list (Action (LocalPid:=nat) (R:=list string)) :=
  [Spawn (_ ← stop_node; mret []); StepCall 0; LoopRecv; Spawn connected_peers].

Lemma query_on_stopped_node_witness :
  calls (run (Term:=ETerm) (fun _ => true) true [StepCall 1; StepCall 1]
    (reachable (Term:=ETerm) (Chan:=ListChan (Command nat)) (fun _ => true) true sim_stopped sim_full))
    !! 1%nat = Some (Done (Err NodeStopped)).
Proof.
  apply (query_on_stopped_node (Term:=ETerm) (Chan:=ListChan (Command nat)) (fun _ => true) true
    sim_stopped sim_full 1 (t:=TPeers) (fun tx => ConnectedPeers tx)
    (fun peers => mret (peer_ids_to_strings peers))).
  - unfold sim_stopped. do 3 (apply Forall_cons; split; [first [exact I|by intros []]|]).
    apply Forall_singleton. intros tx. split; [done|]. split; [split; [done|by intros []]|done].
  - done.
  - reflexivity.
  - reflexivity.
Defined.
