(* ===== verification/HandlerRegistry.v ===== *)
(** * The handler registry

    Model of [lib/ex_libp2p/node/handler_registry.ex]: the process that knows
    which processes subscribed to which events of which node.  The callbacks
    are functions on the registry's state and on what it uses of the Erlang
    virtual machine ([Vm]): monitors, whose [:DOWN] messages arrive in its
    mailbox.  A callback may raise ([None]).  [step] is the transition relation
    of the registry among processes that call it and exit at any time. *)
From S2P Require Import Prelude.
From stdpp Require Import gmap sets relations.
From stdpp Require Import options.

Abbreviation Pid := N (only parsing).
Abbreviation Ref := N (only parsing).

(** ** Monitors

    [watching] are the monitors the registry holds that have not fired,
    [downs] the [:DOWN] messages in its mailbox, oldest first, [exited] the
    processes that are no more: a process identifier is not used again. *)
Record Vm := mkVm {
  watching : gmap Ref Pid;
  downs : list (Ref * Pid);
  exited : gset Pid;
  next_ref : Ref;
}.

(** [Process.monitor]: of an exited process it delivers [:DOWN] at once. *)
Definition monitor (pid : Pid) (vm : Vm) : Ref * Vm :=
  let ref := next_ref vm in
  (ref,
   if decide (pid ∈ exited vm) then
     mkVm (watching vm) (downs vm ++ [(ref, pid)]) (exited vm) (N.succ ref)
   else mkVm (<[ref := pid]> (watching vm)) (downs vm) (exited vm) (N.succ ref)).

(** [Process.demonitor(ref, [:flush])]. *)
Definition demonitor_flush (ref : Ref) (vm : Vm) : Vm :=
  mkVm (delete ref (watching vm)) (filter (fun d => d.1 <> ref) (downs vm)) (exited vm) (next_ref vm).

(** A process exits: its monitors fire.  Erlang orders the [:DOWN] messages of
    the monitors of one process in no particular way: [order] is any order of
    the monitors that watch it. *)
Definition monitors_of (pid : Pid) (vm : Vm) : gmap Ref Pid :=
  filter (fun kv => kv.2 = pid) (watching vm).

Definition fires (pid : Pid) (vm : Vm) (order : list (Ref * Pid)) : Prop :=
  order ≡ₚ map_to_list (monitors_of pid vm).

Definition exit_pid (pid : Pid) (order : list (Ref * Pid)) (vm : Vm) : Vm :=
  mkVm (filter (fun kv => kv.2 <> pid) (watching vm)) (downs vm ++ order)
    ({[pid]} ∪ exited vm) (next_ref vm).

(** ** Lists of pairs as Elixir's [List.keymember?], [keyfind], [keydelete] at 0 *)
Section keylist.
Context {A B : Type} `{EqDecision A}.
Implicit Types (l : list (A * B)).

Definition keymember l (k : A) : bool := existsb (fun e => bool_decide (e.1 = k)) l.
Definition keyfind l (k : A) : option (A * B) := List.find (fun e => bool_decide (e.1 = k)) l.
Fixpoint keydelete l (k : A) : list (A * B) :=
  match l with
  | [] => []
  | e :: l => if decide (e.1 = k) then l else e :: keydelete l k
  end.
End keylist.

Section registry.
Context {EventType Event : Type} `{Countable EventType}.

Record State := mkState {
  subscriptions : gmap (Pid * EventType) (list (Pid * Ref));
  monitors : gmap Ref (Pid * Pid * EventType);
}.

Definition init_state : State := mkState ∅ ∅.

Definition entries_of (st : State) (key : Pid * EventType) : list (Pid * Ref) :=
  default [] (subscriptions st !! key).

(** What remains of a list of entries, [Map.delete] when it is empty. *)
Definition put_entries (key : Pid * EventType) (entries : list (Pid * Ref))
    (m : gmap (Pid * EventType) (list (Pid * Ref))) :
    gmap (Pid * EventType) (list (Pid * Ref)) :=
  match entries with
  | [] => delete key m
  | _ => <[key := entries]> m
  end.

Definition already_registered (st : State) (key : Pid * EventType) (pid : Pid) : bool :=
  keymember (entries_of st key) pid.

Definition remove_subscription (st : State) (key : Pid * EventType) (pid : Pid) (vm : Vm) :
    State * Vm :=
  match keyfind (entries_of st key) pid with
  | Some (_, ref) =>
      (mkState (put_entries key (keydelete (entries_of st key) pid) (subscriptions st))
         (delete ref (monitors st)),
       demonitor_flush ref vm)
  | None => (st, vm)
  end.

(** [case Map.pop(...)] has no clause for a reference of another process. *)
Definition remove_dead_subscriber (st : State) (ref : Ref) (dead_pid : Pid) : option State :=
  match monitors st !! ref with
  | Some (pid, node, event_type) =>
      if decide (pid = dead_pid) then
        let key := (node, event_type) in
        Some (mkState (put_entries key (keydelete (entries_of st key) dead_pid) (subscriptions st))
                (delete ref (monitors st)))
      else None
  | None => Some st
  end.

(** The entries of the keys of a node, their references. *)
Definition refs_of_node (st : State) (node : Pid) : list Ref :=
  map_to_list (filter (fun kv => kv.1.1 = node) (subscriptions st)) ≫= fun kv => map snd kv.2.

Definition remove_all_for_node (st : State) (node : Pid) (vm : Vm) : State * Vm :=
  let refs_to_drop := refs_of_node st node in
  (mkState (filter (fun kv => kv.1.1 <> node) (subscriptions st))
     (foldr delete (monitors st) refs_to_drop),
   foldr demonitor_flush vm refs_to_drop).

(** ** Callbacks *)
Inductive Request :=
  | Register (node : Pid) (event_type : EventType) (pid : Pid)
  | Unregister (node : Pid) (event_type : EventType) (pid : Pid)
  | Count (node : Pid) (event_type : EventType)
  | Cleanup_node (node : Pid)
  | Sync
  | Unknown_request.

Inductive Answer := Reply_ok | Reply_count (n : nat) | Reply_unknown_call.

Definition register (node : Pid) (event_type : EventType) (pid : Pid) (st : State) (vm : Vm) :
    State * Vm :=
  let key := (node, event_type) in
  if already_registered st key pid then (st, vm)
  else
    let '(ref, vm) := monitor pid vm in
    (mkState (<[key := (pid, ref) :: entries_of st key]> (subscriptions st))
       (<[ref := (pid, node, event_type)]> (monitors st)), vm).

Definition handle_call (r : Request) (st : State) (vm : Vm) : Answer * State * Vm :=
  match r with
  | Register node event_type pid =>
      let '(st, vm) := register node event_type pid st vm in (Reply_ok, st, vm)
  | Unregister node event_type pid =>
      let '(st, vm) := remove_subscription st (node, event_type) pid vm in (Reply_ok, st, vm)
  | Count node event_type => (Reply_count (length (entries_of st (node, event_type))), st, vm)
  | Cleanup_node node =>
      let '(st, vm) := remove_all_for_node st node vm in (Reply_ok, st, vm)
  | Sync => (Reply_ok, st, vm)
  | Unknown_request => (Reply_unknown_call, st, vm)
  end.

(** [{:libp2p, event_type, event}] to each subscriber. *)
Definition handle_dispatch (node : Pid) (event_type : EventType) (event : Event) (st : State) :
    list (Pid * (EventType * Event)) :=
  map (fun e => (e.1, (event_type, event))) (entries_of st (node, event_type)).

(** ** The registry among other processes *)
Record World := mkWorld { reg : State; vm : Vm }.

Inductive Action :=
  | Call (r : Request)
  | Cast (node : Pid) (event_type : EventType) (event : Event)
  | Exit (pid : Pid)
  | Down.

Inductive Output :=
  | Answered (a : Answer)
  | Sent (l : list (Pid * (EventType * Event)))
  | Quiet.

Inductive step : World -> Action -> Output -> World -> Prop :=
  | step_call w r a st' vm' :
      handle_call r (reg w) (vm w) = (a, st', vm') ->
      step w (Call r) (Answered a) (mkWorld st' vm')
  | step_cast w node event_type event :
      step w (Cast node event_type event) (Sent (handle_dispatch node event_type event (reg w))) w
  | step_exit w pid order :
      fires pid (vm w) order ->
      step w (Exit pid) Quiet (mkWorld (reg w) (exit_pid pid order (vm w)))
  | step_down w ref pid rest st' :
      downs (vm w) = (ref, pid) :: rest ->
      remove_dead_subscriber (reg w) ref pid = Some st' ->
      step w Down Quiet
        (mkWorld st' (mkVm (watching (vm w)) rest (exited (vm w)) (next_ref (vm w)))).

Definition init_world : World := mkWorld init_state (mkVm ∅ [] ∅ 0%N).

Inductive reachable : World -> Prop :=
  | reachable_init : reachable init_world
  | reachable_step w a o w' : reachable w -> step w a o w' -> reachable w'.
End registry.

(** ** Lemmas on lists of pairs *)
Section keylist_lemmas.
Context {A B : Type} `{EqDecision A}.
Implicit Types (l : list (A * B)).

Lemma keymember_spec l k : keymember l k = true <-> k ∈ map fst l.
Proof.
  unfold keymember. rewrite existsb_exists. setoid_rewrite bool_decide_eq_true.
  rewrite list_elem_of_fmap. setoid_rewrite <-list_elem_of_In. naive_solver.
Qed.

Lemma keyfind_spec l k :
  match keyfind l k with
  | Some e => e ∈ l /\ e.1 = k
  | None => k ∉ map fst l
  end.
Proof.
  unfold keyfind. destruct (List.find _ l) as [e|] eqn:E.
  - apply find_some in E as [E1 E2]. apply bool_decide_eq_true in E2. by rewrite list_elem_of_In.
  - rewrite list_elem_of_fmap. intros (e & -> & He%list_elem_of_In).
    apply (find_none _ _ E) in He. by apply bool_decide_eq_false in He.
Qed.

Lemma keydelete_elem l k x : NoDup (map fst l) -> x ∈ keydelete l k <-> x ∈ l /\ x.1 <> k.
Proof.
  induction l as [|e l IH]; cbn; [split; [by intros ?%elem_of_nil|by intros [?%elem_of_nil _]]|].
  intros [Hn Hd]%NoDup_cons. destruct (decide (e.1 = k)) as [<-|Hk].
  - split; [|by intros [[->|]%elem_of_cons ?]]. intros Hx. split; [by right|].
    intros Ex. apply Hn, list_elem_of_fmap. by exists x.
  - rewrite !elem_of_cons, (IH Hd). naive_solver.
Qed.

Lemma keydelete_fst l k : map fst (keydelete l k) `sublist_of` map fst l.
Proof.
  induction l as [|e l IH]; cbn; [constructor|].
  destruct (decide (e.1 = k)); cbn; [by apply sublist_cons|by apply sublist_skip].
Qed.

Lemma fst_inj l p r1 r2 : NoDup (map fst l) -> (p, r1) ∈ l -> (p, r2) ∈ l -> r1 = r2.
Proof.
  induction l as [|e l IH]; cbn; [by intros _ ?%elem_of_nil|].
  intros [Hn Hd]%NoDup_cons H1 H2.
  apply elem_of_cons in H1 as [<-|H1]; apply elem_of_cons in H2 as [E|H2].
  - by injection E.
  - destruct Hn. apply list_elem_of_fmap. by exists (p, r2).
  - subst e. destruct Hn. apply list_elem_of_fmap. by exists (p, r1).
  - by apply IH.
Qed.
End keylist_lemmas.

(** ** The monitors of a registry

    [armed m vm]: the monitors that exist or have fired unnoticed are those of
    [m], from references to the processes they watch. *)
Record armed (m : gmap Ref Pid) (vm : Vm) : Prop := {
  armed_iff ref pid : m !! ref = Some pid <-> watching vm !! ref = Some pid \/ (ref, pid) ∈ downs vm;
  armed_ref ref : is_Some (m !! ref) -> (ref < next_ref vm)%N;
  armed_live ref pid : watching vm !! ref = Some pid -> pid ∉ exited vm;
  armed_down ref pid : (ref, pid) ∈ downs vm -> pid ∈ exited vm;
  armed_nodup : NoDup (map fst (downs vm));
}.

Section vm_lemmas.
Implicit Types (m : gmap Ref Pid) (vm : Vm).

Lemma down_fst_lookup m vm ref : armed m vm -> ref ∈ map fst (downs vm) -> is_Some (m !! ref).
Proof.
  intros Ha. rewrite list_elem_of_fmap. intros ([r p] & -> & Hd). exists p.
  apply (armed_iff _ _ Ha). by right.
Qed.

Lemma monitor_armed m vm pid :
  armed m vm ->
  let '(ref, vm') := monitor pid vm in
  m !! ref = None /\ armed (<[ref := pid]> m) vm' /\ exited vm' = exited vm.
Proof.
  intros Ha. unfold monitor. assert (m !! next_ref vm = None) as Hn.
  { apply eq_None_not_Some. intros Hs. apply (armed_ref _ _ Ha) in Hs. lia. }
  assert (forall r, is_Some (<[next_ref vm := pid]> m !! r) -> (r < N.succ (next_ref vm))%N) as Hr.
  { intros r. rewrite lookup_insert_is_Some. intros [<-|[_ Hs]]; [lia|].
    apply (armed_ref _ _ Ha) in Hs. lia. }
  split; [done|]. split; [|by destruct (decide (pid ∈ exited vm))].
  destruct (decide (pid ∈ exited vm)) as [Hp|Hp];
    split; cbn; try done; try apply Ha.
  - intros r p. rewrite elem_of_app, list_elem_of_singleton.
    destruct (decide (r = next_ref vm)) as [->|Hne].
    + rewrite lookup_insert_eq. split; [intros [= ->]; by auto|].
      intros [Hw|[Hd|[= ->]]]; [| |done]; exfalso.
      * assert (m !! next_ref vm = Some p) by (apply Ha; by left). congruence.
      * assert (m !! next_ref vm = Some p) by (apply Ha; by right). congruence.
    + rewrite lookup_insert_ne by done. rewrite (armed_iff _ _ Ha). naive_solver.
  - intros r p [Hd|[= -> ->]%list_elem_of_singleton]%elem_of_app; [by apply (armed_down _ _ Ha) in Hd|done].
  - rewrite map_app. apply NoDup_app. split; [apply Ha|]. split; [|apply NoDup_singleton].
    cbn. intros r Hd ->%list_elem_of_singleton. apply (down_fst_lookup _ _ _ Ha) in Hd as [? ?]. congruence.
  - intros r p. destruct (decide (r = next_ref vm)) as [->|Hne].
    + rewrite !lookup_insert_eq. split; [by auto|]. intros [Hw|Hd]; [done|].
      assert (m !! next_ref vm = Some p) by (apply Ha; by right). congruence.
    + rewrite !lookup_insert_ne by done. apply Ha.
  - intros r p. rewrite lookup_insert_Some. intros [[_ <-]|[_ Hw]]; [done|by apply (armed_live _ _ Ha) in Hw].
Qed.

Lemma demonitor_armed m vm ref : armed m vm -> armed (delete ref m) (demonitor_flush ref vm).
Proof.
  intros Ha. split; cbn.
  - intros r p. rewrite !lookup_delete_Some, list_elem_of_filter, (armed_iff _ _ Ha). cbn. naive_solver.
  - intros r [p [_ Hs]%lookup_delete_Some]. apply (armed_ref _ _ Ha). by exists p.
  - intros r p [_ Hw]%lookup_delete_Some. by apply (armed_live _ _ Ha) in Hw.
  - intros r p [_ Hd]%list_elem_of_filter. by apply (armed_down _ _ Ha) in Hd.
  - eapply sublist_NoDup; [apply (armed_nodup _ _ Ha)|]. apply (fmap_sublist fst), sublist_filter.
Qed.

Lemma fires_elem pid vm order r p :
  fires pid vm order -> (r, p) ∈ order <-> watching vm !! r = Some p /\ p = pid.
Proof.
  intros Hf. rewrite Hf, elem_of_map_to_list. unfold monitors_of. by rewrite map_lookup_filter_Some.
Qed.

Lemma exit_armed m vm pid order : fires pid vm order -> armed m vm -> armed m (exit_pid pid order vm).
Proof.
  intros Hf Ha. pose proof (fun r p => fires_elem pid vm order r p Hf) as Ho. unfold exit_pid. split; cbn.
  - intros r p. rewrite (armed_iff _ _ Ha), map_lookup_filter_Some, elem_of_app, Ho. cbn. destruct (decide (p = pid)); naive_solver.
  - apply Ha.
  - intros r p [Hw Hp]%map_lookup_filter_Some. apply (armed_live _ _ Ha) in Hw. set_solver.
  - intros r p [Hd|[_ ->]%Ho]%elem_of_app; [|set_solver].
    apply (armed_down _ _ Ha) in Hd. set_solver.
  - rewrite map_app. apply NoDup_app. split; [apply Ha|]. split.
    2: { rewrite (Permutation_map fst Hf). apply NoDup_fst_map_to_list. }
    intros r Hd. rewrite list_elem_of_fmap. intros ([r' p] & -> & Hw). cbn in *.
    apply Ho in Hw as [Hw _].
    apply list_elem_of_fmap in Hd as ([r2 p2] & E & Hd). cbn in E. subst r2.
    assert (p2 = p) as ->.
    { assert (m !! r' = Some p2) by (apply Ha; by right).
      assert (m !! r' = Some p) by (apply Ha; by left). congruence. }
    apply (armed_live _ _ Ha) in Hw. by apply (armed_down _ _ Ha) in Hd.
Qed.

Lemma down_armed m vm ref pid rest :
  downs vm = (ref, pid) :: rest -> armed m vm ->
  m !! ref = Some pid /\ pid ∈ exited vm /\
  armed (delete ref m) (mkVm (watching vm) rest (exited vm) (next_ref vm)).
Proof.
  intros Hd Ha. assert ((ref, pid) ∈ downs vm) as Hin by (rewrite Hd; by left).
  assert (m !! ref = Some pid) as Hm by (apply Ha; by right).
  assert (pid ∈ exited vm) as Hp by (by apply (armed_down _ _ Ha) in Hin).
  split; [done|]. split; [done|]. pose proof (armed_nodup _ _ Ha) as Hn. rewrite Hd in Hn.
  apply NoDup_cons in Hn as [Hout Hn]. cbn in Hout. split; cbn.
  - intros r p. rewrite lookup_delete_Some, (armed_iff _ _ Ha), Hd, elem_of_cons. split.
    + intros [Hr [Hw|[[= -> ->]|Hr']]]; [by left|done|by right].
    + intros [Hw|Hr']; (split; [|by auto]); intros <-.
      * assert (m !! ref = Some p) by (apply Ha; by left).
        apply (armed_live _ _ Ha) in Hw. congruence.
      * apply Hout, list_elem_of_fmap. by exists (ref, p).
  - intros r [p [_ Hs]%lookup_delete_Some]. apply (armed_ref _ _ Ha). by exists p.
  - apply Ha.
  - intros r p Hr. apply (armed_down _ _ Ha r p). rewrite Hd. by right.
  - done.
Qed.
End vm_lemmas.

Section registry_proofs.
Context {EventType Event : Type} `{Countable EventType}.
Implicit Types (st : State (EventType:=EventType)) (w : World (EventType:=EventType)).

Local Abbreviation Key := (Pid * EventType)%type.
Local Abbreviation step := (step (EventType:=EventType) (Event:=Event)).

(** ** The invariant

    The two maps are inverse to each other, no process is listed twice under a
    key, no key is kept without entries, and the monitors are those of the
    virtual machine. *)
Record index_ok st : Prop := {
  index_iff ref pid node e :
    monitors st !! ref = Some (pid, node, e) <-> (pid, ref) ∈ entries_of st (node, e);
  index_entries key l : subscriptions st !! key = Some l -> l <> [] /\ NoDup (map fst l);
}.

(** The process each reference of the reverse index watches. *)
Definition watched st : gmap Ref Pid := (fun t : Pid * Pid * EventType => t.1.1) <$> monitors st.

Record world_ok w : Prop := {
  world_index : index_ok (reg w);
  world_armed : armed (watched (reg w)) (vm w);
}.

Lemma entries_nodup st key : index_ok st -> NoDup (map fst (entries_of st key)).
Proof.
  intros Hi. unfold entries_of. destruct (subscriptions st !! key) eqn:E; [|constructor].
  by apply (index_entries _ Hi) in E as [_ E].
Qed.

Lemma entries_put (key : Key) (l : list (Pid * Ref)) (m : gmap Key (list (Pid * Ref))) mon (key' : Key) :
  entries_of (mkState (put_entries key l m) mon) key' =
    if decide (key = key') then l else entries_of (mkState m mon) key'.
Proof.
  unfold entries_of, put_entries. cbn. destruct (decide (key = key')) as [<-|Hne].
  - destruct l; [by rewrite lookup_delete_eq|by rewrite lookup_insert_eq].
  - destruct l; [by rewrite lookup_delete_ne|by rewrite lookup_insert_ne].
Qed.

Lemma entries_mon st mon key : entries_of (mkState (subscriptions st) mon) key = entries_of st key.
Proof. done. Qed.

Lemma put_entries_ok (key : Key) (l : list (Pid * Ref)) (m : gmap Key (list (Pid * Ref))) :
  NoDup (map fst l) -> (forall k l, m !! k = Some l -> l <> [] /\ NoDup (map fst l)) ->
  forall k l', put_entries key l m !! k = Some l' -> l' <> [] /\ NoDup (map fst l').
Proof.
  intros Hl Hm k l'. destruct l as [|x l]; cbn.
  - rewrite lookup_delete_Some. intros [_ Hk]. by apply (Hm k).
  - rewrite lookup_insert_Some. intros [[_ <-]|[_ Hk]]; [by split|by apply (Hm k)].
Qed.

(** Removing one entry with its reference. *)
Lemma index_remove st node e pid ref :
  index_ok st -> (pid, ref) ∈ entries_of st (node, e) ->
  index_ok (mkState (put_entries (node, e) (keydelete (entries_of st (node, e)) pid) (subscriptions st))
              (delete ref (monitors st))).
Proof.
  intros Hi Hin. pose proof (entries_nodup st (node, e) Hi) as Hn. split.
  - intros r p n e'. cbn [monitors]. rewrite lookup_delete_Some, entries_put, (index_iff _ Hi).
    assert (forall p' n' e'', (p', ref) ∈ entries_of st (n', e'') ->
      p' = pid /\ n' = node /\ e'' = e) as Hsame.
    { intros p' n' e''. rewrite <-(index_iff _ Hi). apply (index_iff _ Hi) in Hin. rewrite Hin. by intros [= -> -> ->]. }
    destruct (decide ((node, e) = (n, e'))) as [[= <- <-]|Hne].
    + rewrite keydelete_elem by done. cbn. split.
      * intros [Hr Hp]. split; [done|]. intros ->. by destruct Hr; eapply fst_inj.
      * intros [Hp Hne]. split; [|done]. intros <-. by apply Hsame in Hp as [? _].
    + rewrite entries_mon. split; [by intros [_ ?]|]. intros Hp. split; [|done].
      intros <-. apply Hsame in Hp as (_ & -> & ->). done.
  - cbn. apply put_entries_ok; [|apply Hi]. eapply sublist_NoDup; [exact Hn|apply keydelete_fst].
Qed.

Lemma index_register st node e pid ref :
  index_ok st -> monitors st !! ref = None -> pid ∉ map fst (entries_of st (node, e)) ->
  index_ok (mkState (<[(node, e) := (pid, ref) :: entries_of st (node, e)]> (subscriptions st))
              (<[ref := (pid, node, e)]> (monitors st))).
Proof.
  intros Hi Hr Hp.
  assert (forall p n e', (p, ref) ∉ entries_of st (n, e')) as Hfresh.
  { intros p n e'. rewrite <-(index_iff _ Hi), Hr. done. }
  split.
  - intros r p n e'. cbn [monitors].
    change (entries_of _ (n, e')) with
      (entries_of (mkState (put_entries (node, e) ((pid, ref) :: entries_of st (node, e)) (subscriptions st)) ∅) (n, e')).
    rewrite entries_put. destruct (decide ((node, e) = (n, e'))) as [[= <- <-]|Hne].
    + rewrite elem_of_cons, lookup_insert_Some, (index_iff _ Hi). split.
      * intros [[<- [= <-]]|[_ Hin]]; [by left|by right].
      * intros [[= -> ->]|Hin]; [by left|right]. split; [|done]. intros <-. by apply Hfresh in Hin.
    + rewrite entries_mon, lookup_insert_Some, (index_iff _ Hi). split.
      * intros [[_ [= -> -> ->]]|[_ Hin]]; done.
      * intros Hin. right. split; [|done]. intros <-. by apply Hfresh in Hin.
  - cbn. intros k l. rewrite lookup_insert_Some. intros [[_ <-]|[_ Hk]].
    + split; [done|]. cbn. apply NoDup_cons. split; [done|by apply entries_nodup].
    + by apply (index_entries _ Hi) in Hk.
Qed.

(** Removing a node with the references of its entries. *)
Lemma lookup_foldr_delete {A} (m : gmap Ref A) l r :
  foldr delete m l !! r = if decide (r ∈ l) then None else m !! r.
Proof.
  induction l as [|x l IH]; cbn; [by case_decide as E; [apply elem_of_nil in E|]|].
  rewrite lookup_delete, IH. repeat case_decide; set_solver.
Qed.

Lemma fmap_foldr_delete {A B} (f : A -> B) (m : gmap Ref A) l :
  f <$> foldr delete m l = foldr delete (f <$> m) l.
Proof. induction l; cbn; [done|]. by rewrite fmap_delete, IHl. Qed.

Lemma refs_of_node_elem st node r :
  r ∈ refs_of_node st node <-> exists pid e, (pid, r) ∈ entries_of st (node, e).
Proof.
  unfold refs_of_node, entries_of. rewrite list_elem_of_bind. split.
  - intros ([[n e] l] & Hr & [Hk Hn]%elem_of_map_to_list%map_lookup_filter_Some). cbn in *. subst n.
    apply list_elem_of_fmap in Hr as ([p r'] & -> & Hr). exists p, e. by rewrite Hk.
  - intros (p & e & Hr). destruct (subscriptions st !! (node, e)) as [l|] eqn:Hk;
      [|by apply elem_of_nil in Hr]. exists ((node, e), l). cbn. split.
    + apply list_elem_of_fmap. by exists (p, r).
    + by apply elem_of_map_to_list, map_lookup_filter_Some.
Qed.

Lemma index_cleanup st node :
  index_ok st ->
  index_ok (mkState (filter (fun kv => kv.1.1 <> node) (subscriptions st))
              (foldr delete (monitors st) (refs_of_node st node))).
Proof.
  intros Hi. assert (forall n e, entries_of (mkState (filter (fun kv : Key * _ => kv.1.1 <> node)
    (subscriptions st)) ∅) (n, e) = if decide (n = node) then [] else entries_of st (n, e)) as He.
  { intros n e. unfold entries_of. cbn. rewrite map_lookup_filter. cbn.
    destruct (subscriptions st !! (n, e)); cbn; repeat case_decide; try case_guard; done. }
  split.
  - intros r p n e. cbn [monitors]. change (entries_of _ (n, e)) with
      (entries_of (mkState (filter (fun kv : Key * _ => kv.1.1 <> node) (subscriptions st)) ∅) (n, e)).
    rewrite He, lookup_foldr_delete. destruct (decide (r ∈ refs_of_node st node)) as [Hr|Hr].
    + split; [done|]. case_decide as Hn; [by intros ?%elem_of_nil|]. intros Hp.
      apply refs_of_node_elem in Hr as (p' & e' & Hp'). apply (index_iff _ Hi) in Hp, Hp'. congruence.
    + rewrite (index_iff _ Hi). case_decide as Hn; [subst n|done]. split; [|by intros ?%elem_of_nil].
      intros Hp. destruct Hr. apply refs_of_node_elem. by exists p, e.
  - cbn. intros k l [Hk _]%map_lookup_filter_Some. by apply (index_entries _ Hi) in Hk.
Qed.

Lemma armed_foldr m v l : armed m v -> armed (foldr delete m l) (foldr demonitor_flush v l).
Proof. intros Ha. induction l; cbn; [done|]. by apply demonitor_armed. Qed.

Lemma monitors_watched st ref : watched st !! ref = None -> monitors st !! ref = None.
Proof. unfold watched. rewrite lookup_fmap. by destruct (monitors st !! ref). Qed.

Lemma watched_remove m ref s : watched (mkState s (delete ref m)) = delete ref (watched (mkState s m)).
Proof. apply fmap_delete. Qed.

Lemma call_ok r st v :
  index_ok st -> armed (watched st) v ->
  let '(_, st', v') := handle_call r st v in
  index_ok st' /\ armed (watched st') v' /\ exited v' = exited v.
Proof.
  intros Hi Ha. destruct r as [node e pid|node e pid|node e|node| |]; cbn; try done.
  - unfold register, already_registered.
    destruct (keymember (entries_of st (node, e)) pid) eqn:Hm; [done|].
    pose proof (monitor_armed _ _ pid Ha) as Hmon. destruct (monitor pid v) as [ref v'].
    destruct Hmon as (Hr & Ha' & He). apply monitors_watched in Hr. split; [|split; [|done]].
    + apply index_register; [done..|]. intros Hin. apply keymember_spec in Hin. congruence.
    + unfold watched in *. cbn. by rewrite fmap_insert.
  - unfold remove_subscription. pose proof (keyfind_spec (entries_of st (node, e)) pid) as Hk.
    destruct (keyfind _ pid) as [[p ref]|]; [|done]. destruct Hk as [Hk Hp]. cbn in Hp. subst p.
    split; [by apply index_remove|]. split; [|done].
    unfold watched in *. cbn. rewrite fmap_delete. by apply demonitor_armed.
  - split; [by apply index_cleanup|]. split.
    + unfold watched in *. cbn. rewrite fmap_foldr_delete. by apply armed_foldr.
    + generalize (refs_of_node st node). intros l. by induction l.
Qed.

Lemma down_ok w ref pid rest :
  world_ok w -> downs (vm w) = (ref, pid) :: rest ->
  exists node e, (pid, ref) ∈ entries_of (reg w) (node, e) /\ pid ∈ exited (vm w) /\
    let st' := mkState (put_entries (node, e) (keydelete (entries_of (reg w) (node, e)) pid)
                 (subscriptions (reg w))) (delete ref (monitors (reg w))) in
    remove_dead_subscriber (reg w) ref pid = Some st' /\
    world_ok (mkWorld st' (mkVm (watching (vm w)) rest (exited (vm w)) (next_ref (vm w)))).
Proof.
  intros [Hi Ha] Hd. destruct (down_armed _ _ _ _ _ Hd Ha) as (Hm & Hp & Ha').
  unfold watched in Hm. rewrite lookup_fmap in Hm.
  destruct (monitors (reg w) !! ref) as [[[p node] e]|] eqn:Hr; [|done].
  injection Hm as Hm. cbn in Hm. subst p. exists node, e.
  assert ((pid, ref) ∈ entries_of (reg w) (node, e)) as Hin by (by apply (index_iff _ Hi)).
  split; [done|]. split; [done|]. cbv zeta. split.
  - unfold remove_dead_subscriber. rewrite Hr. by rewrite decide_True by done.
  - split; cbn; [by apply index_remove|]. unfold watched in *. cbn. by rewrite fmap_delete.
Qed.

Lemma step_ok w a o w' : world_ok w -> step w a o w' -> world_ok w'.
Proof.
  intros Hok Hs. pose proof Hok as [Hi Ha]. destruct Hs as [w r ans st' vm' Hc|w|w pid order Ho|w ref pid rest st' Hd Hr].
  - pose proof (call_ok r _ _ Hi Ha) as Hok'. rewrite Hc in Hok'. destruct Hok' as (? & ? & _). by split.
  - done.
  - split; [done|]. by apply exit_armed.
  - destruct (down_ok w ref pid rest Hok Hd) as (n & e & _ & _ & Hr' & Hok'). cbv zeta in *. congruence.
Qed.

Lemma reachable_ok w : reachable (Event:=Event) w -> world_ok w.
Proof.
  induction 1 as [|w a o w' _ IH Hs]; [|by eapply step_ok].
  split.
  - split; [|by intros ? ?]. intros ref pid node e. cbn. split; [done|by intros ?%elem_of_nil].
  - split; cbn; try done.
    + intros ref pid. unfold watched. cbn. rewrite fmap_empty, !lookup_empty.
      split; [done|by intros [|?%elem_of_nil]].
    + intros ref. unfold watched. cbn. rewrite fmap_empty, lookup_empty. by intros [].
    + by intros ? ? ?%elem_of_nil.
    + constructor.
Qed.

(** ** Abstract specification

    What the registry promises is a set of subscriptions. *)
Definition subscribed st : gset (Pid * EventType * Pid) :=
  list_to_set (map_to_list (subscriptions st) ≫= fun kv =>
                 map (fun e => (kv.1.1, kv.1.2, e.1)) kv.2).

Lemma subscribed_elem st n e p :
  (n, e, p) ∈ subscribed st <-> p ∈ map fst (entries_of st (n, e)).
Proof.
  unfold subscribed, entries_of. rewrite elem_of_list_to_set, list_elem_of_bind, !list_elem_of_fmap. split.
  - intros ([[n' e'] l] & Hx & Hk%elem_of_map_to_list). apply list_elem_of_fmap in Hx as (x & [= -> -> ->] & Hx).
    cbn in *. exists x. by rewrite Hk.
  - intros (x & -> & Hx). destruct (subscriptions st !! (n, e)) as [l|] eqn:Hk; [|by apply elem_of_nil in Hx].
    exists ((n, e), l). cbn. split; [|by apply elem_of_map_to_list].
    apply list_elem_of_fmap. by exists x.
Qed.

Definition spec_call (r : Request) (S : gset (Pid * EventType * Pid)) :
    Answer * gset (Pid * EventType * Pid) :=
  match r with
  | Register node e pid => (Reply_ok, {[(node, e, pid)]} ∪ S)
  | Unregister node e pid => (Reply_ok, S ∖ {[(node, e, pid)]})
  | Count node e => (Reply_count (size (filter (fun t => t.1 = (node, e)) S)), S)
  | Cleanup_node node => (Reply_ok, filter (fun t => t.1.1 <> node) S)
  | Sync => (Reply_ok, S)
  | Unknown_request => (Reply_unknown_call, S)
  end.

(** [dead]: the processes that have exited. *)
Inductive spec_step (dead : gset Pid) :
    gset (Pid * EventType * Pid) -> Action (Event:=Event) -> Output -> gset (Pid * EventType * Pid) -> Prop :=
  | spec_step_call S r a S' : spec_call r S = (a, S') -> spec_step dead S (Call r) (Answered a) S'
  | spec_step_cast S node e event l :
      NoDup (map fst l) ->
      (forall pid m, (pid, m) ∈ l <-> (node, e, pid) ∈ S /\ m = (e, event)) ->
      spec_step dead S (Cast node e event) (Sent l) S
  | spec_step_exit S pid : spec_step dead S (Exit pid) Quiet S
  | spec_step_down S node e pid :
      (node, e, pid) ∈ S -> pid ∈ dead ->
      spec_step dead S Down Quiet (S ∖ {[(node, e, pid)]}).

Lemma keydelete_map_fst (l : list (Pid * Ref)) (k p : Pid) :
  NoDup (map fst l) -> p ∈ map fst (keydelete l k) <-> p ∈ map fst l /\ p <> k.
Proof.
  intros Hn. rewrite !list_elem_of_fmap. setoid_rewrite (keydelete_elem l k _ Hn). naive_solver.
Qed.

Lemma subscribed_remove st node e pid mon :
  index_ok st ->
  subscribed (mkState (put_entries (node, e) (keydelete (entries_of st (node, e)) pid)
                (subscriptions st)) mon) = subscribed st ∖ {[(node, e, pid)]}.
Proof.
  intros Hi. apply set_eq. intros [[n e'] p].
  rewrite elem_of_difference, elem_of_singleton, !subscribed_elem, entries_put.
  destruct (decide ((node, e) = (n, e'))) as [[= <- <-]|Hne].
  - rewrite keydelete_map_fst by by apply entries_nodup. split; [intros [? ?]|intros [? Hp]]; (split; [done|congruence]).
  - rewrite entries_mon. split; [|by intros [? _]]. intros ?. split; [done|congruence].
Qed.

Lemma subscribed_count st node e :
  index_ok st -> length (entries_of st (node, e)) = size (filter (fun t => t.1 = (node, e)) (subscribed st)).
Proof.
  intros Hi. rewrite <-(length_map fst), <-(length_map (fun p => (node, e, p))).
  rewrite <-(size_list_to_set (C:=gset (Pid * EventType * Pid))).
  - f_equal. apply set_eq. intros [[n e'] p].
    rewrite elem_of_filter, elem_of_list_to_set, subscribed_elem, list_elem_of_fmap. cbn. naive_solver.
  - apply NoDup_fmap_2; [by intros ? ? [= ->]|]. by apply entries_nodup.
Qed.

Lemma call_refines r st v :
  index_ok st ->
  let '(a, st', _) := handle_call r st v in
  spec_call r (subscribed st) = (a, subscribed st').
Proof.
  intros Hi. destruct r as [node e pid|node e pid|node e|node| |]; cbn; try done.
  - unfold register, already_registered.
    destruct (keymember (entries_of st (node, e)) pid) eqn:Hm.
    + f_equal. apply keymember_spec in Hm. rewrite <-subscribed_elem in Hm. set_solver.
    + destruct (monitor pid v) as [ref v']. f_equal. apply set_eq. intros [[n e'] p].
      rewrite elem_of_union, elem_of_singleton, !subscribed_elem. unfold entries_of at 2. cbn.
      rewrite lookup_insert. case_decide as E; cbn.
      * injection E as <- <-. rewrite elem_of_cons. naive_solver.
      * split; [by intros [[= -> -> ->]|?]|by right].
  - unfold remove_subscription. pose proof (keyfind_spec (entries_of st (node, e)) pid) as Hk.
    destruct (keyfind _ pid) as [[p ref]|]; f_equal.
    + by rewrite subscribed_remove.
    + rewrite <-subscribed_elem in Hk. set_solver.
  - by rewrite subscribed_count.
  - f_equal. apply set_eq. intros [[n e] p].
    rewrite elem_of_filter, !subscribed_elem. unfold entries_of at 2. cbn. rewrite map_lookup_filter. cbn.
    unfold entries_of. destruct (subscriptions st !! (n, e)); cbn; [|set_solver].
    case_guard; cbn; set_solver.
Qed.

Lemma dispatch_refines st node e (event : Event) :
  index_ok st ->
  let l := handle_dispatch node e event st in
  NoDup (map fst l) /\
  forall pid m, (pid, m) ∈ l <-> (node, e, pid) ∈ subscribed st /\ m = (e, event).
Proof.
  intros Hi. unfold handle_dispatch. cbn. rewrite map_map. cbn. split; [by apply entries_nodup|].
  intros pid m. rewrite subscribed_elem, !list_elem_of_fmap. naive_solver.
Qed.

Lemma step_refines w a o w' :
  reachable (Event:=Event) w -> step w a o w' ->
  spec_step (exited (vm w)) (subscribed (reg w)) a o (subscribed (reg w')).
Proof.
  intros Hr%reachable_ok Hs. pose proof Hr as [Hi Ha].
  destruct Hs as [w r ans st' vm' Hc|w node e event|w pid order Ho|w ref pid rest st' Hd Hrm].
  - constructor. pose proof (call_refines r (reg w) (vm w) Hi) as Hcr. by rewrite Hc in Hcr.
  - destruct (dispatch_refines (reg w) node e event Hi). by constructor.
  - constructor.
  - destruct (down_ok w ref pid rest Hr Hd) as (n & e & Hin & Hp & Hr' & _). cbv zeta in Hr'.
    rewrite Hrm in Hr'. injection Hr' as ->. cbn. rewrite subscribed_remove by done.
    constructor; [|done]. apply subscribed_elem, list_elem_of_fmap. by exists (pid, ref).
Qed.

(** *** Runs *)
Inductive runs : World -> list (Action (Event:=Event)) -> World -> Prop :=
  | runs_nil w : runs w [] w
  | runs_cons w a o w1 l w2 : step w a o w1 -> runs w1 l w2 -> runs w (a :: l) w2.

Lemma runs_app w l l' w' : runs w (l ++ l') w' <-> exists w1, runs w l w1 /\ runs w1 l' w'.
Proof.
  split.
  - revert w. induction l as [|a l IH]; intros w Hr; [by exists w; split; [constructor|]|].
    cbn [app] in Hr. inversion Hr as [|? ? ? w1 ? ? Hs Hl]; subst. destruct (IH _ Hl) as (w2 & H1 & H2).
    exists w2. split; [by econstructor|done].
  - intros (w1 & H1 & H2). induction H1; [done|]. econstructor; [done|by apply IHruns].
Qed.

Lemma runs_reachable w l w' : reachable (Event:=Event) w -> runs w l w' -> reachable (Event:=Event) w'.
Proof. intros Hw Hr. induction Hr; [done|]. apply IHHr. by eapply reachable_step. Qed.

Lemma call_exited r st v : exited (handle_call r st v).2 = exited v.
Proof.
  destruct r as [node e pid|node e pid|node e|node| |]; cbn; try done.
  - unfold register, monitor. destruct (already_registered _ _ _); [done|]. by case_decide.
  - unfold remove_subscription. by destruct (keyfind _ _) as [[p ref]|].
  - by induction (refs_of_node st node).
Qed.

Lemma step_exited w a o w' : step w a o w' -> exited (vm w) ⊆ exited (vm w').
Proof.
  intros Hs. destruct Hs as [w r ans st' vm' Hc| | |]; cbn; [|done|set_solver|done].
  pose proof (call_exited r (reg w) (vm w)) as He. rewrite Hc in He. cbn in He. by rewrite He.
Qed.

Lemma runs_exited w l w' : runs w l w' -> exited (vm w) ⊆ exited (vm w').
Proof. induction 1 as [|w a o w1 l w2 Hs%step_exited _ IH]; set_solver. Qed.

(** The action does not remove a subscription, but by the end of its process. *)
Definition keeps (node : Pid) (e : EventType) (pid : Pid) (a : Action (Event:=Event)) : Prop :=
  match a with
  | Call (Unregister n e' p) => (n, e', p) <> (node, e, pid)
  | Call (Cleanup_node n) => n <> node
  | _ => True
  end.

Lemma step_keeps w a o w' node e pid :
  reachable (Event:=Event) w -> step w a o w' -> keeps node e pid a -> pid ∉ exited (vm w) ->
  (node, e, pid) ∈ subscribed (reg w) -> (node, e, pid) ∈ subscribed (reg w').
Proof.
  intros Hw Hs Hk Hp. pose proof (step_refines w a o w' Hw Hs) as Hr.
  inversion Hr as [S r a' S' Hc| | |S n e' p Hin Hd]; subst; try done.
  - destruct r; cbn in Hc, Hk; injection Hc as <- <-; set_solver.
  - intros Hsub. apply elem_of_difference. split; [done|]. by intros [= -> -> ->]%elem_of_singleton.
Qed.

Lemma runs_keep w l w' node e pid :
  reachable (Event:=Event) w -> runs w l w' -> Forall (keeps node e pid) l -> pid ∉ exited (vm w') ->
  (node, e, pid) ∈ subscribed (reg w) -> (node, e, pid) ∈ subscribed (reg w').
Proof.
  intros Hw Hr. induction Hr as [w|w a o w1 l w2 Hs Hr IH]; [done|]. intros [Hk Hl]%Forall_cons Hp Hsub.
  pose proof (step_exited _ _ _ _ Hs) as H1. pose proof (runs_exited _ _ _ Hr) as H2.
  apply IH; [by eapply reachable_step|done|done|]. eapply step_keeps; [done..|set_solver|done].
Qed.

(** A subscription made in a run and not removed after is there at its end. *)
Lemma registered_stays w l w' node e pid l1 l2 :
  reachable (Event:=Event) w -> runs w l w' -> pid ∉ exited (vm w') ->
  l = l1 ++ Call (Register node e pid) :: l2 -> Forall (keeps node e pid) l2 ->
  (node, e, pid) ∈ subscribed (reg w').
Proof.
  intros Hw Hr Hp -> Hl. apply runs_app in Hr as (w1 & Hr1 & Hr2). inversion Hr2 as [|? ? o w2 ? ? Hs Hr]; subst.
  pose proof (runs_reachable _ _ _ Hw Hr1) as Hw1. eapply runs_keep; [by eapply reachable_step|done|done|done|].
  pose proof (step_refines _ _ _ _ Hw1 Hs) as Hc. inversion Hc as [S r a S' E| | |]; subst.
  cbn in E. injection E as _ <-. set_solver.
Qed.

(** ** Properties *)

(** C2: The registry's two maps never disagree: in every state it can reach,
    the reverse index holds exactly the listed subscribers under their monitor
    references, no process is listed twice for an event, no list is kept empty,
    and each subscriber is either watched and alive or has a [:DOWN] message
    waiting. *)
Theorem registry_invariant w :
  reachable (Event:=Event) w -> world_ok w.
Proof. apply reachable_ok. Qed.

(** C1: The registry implements a set of subscriptions: registering adds one,
    unregistering, cleaning up after a node and the exit of a subscriber remove
    exactly theirs, counting counts them, and an event is sent once to each
    process subscribed to it and to no other. *)
Theorem registry_refines w a o w' :
  reachable (Event:=Event) w -> step w a o w' ->
  spec_step (exited (vm w)) (subscribed (reg w)) a o (subscribed (reg w')).
Proof.
  apply step_refines.
Qed.

(** C36: No stale subscriber accumulates: from every reachable state, handling
    the waiting [:DOWN] messages succeeds - none of them is one the registry
    has no clause for - and leaves exactly the subscriptions of processes that
    are alive. *)
Theorem dead_subscribers_removed w :
  reachable (Event:=Event) w ->
  exists w', nsteps (fun w w' => step w Down Quiet w') (length (downs (vm w))) w w' /\
    downs (vm w') = [] /\ exited (vm w') = exited (vm w) /\
    subscribed (reg w') = filter (fun t => t.2 ∉ exited (vm w)) (subscribed (reg w)).
Proof.
  intros Hr%reachable_ok. remember (length (downs (vm w))) as k eqn:Hk.
  revert w Hr Hk. induction k as [|k IH]; intros w Hok Hk.
  - symmetry in Hk. apply nil_length_inv in Hk. exists w. split; [constructor|]. split; [done|]. split; [done|].
    apply set_eq. intros [[n e] p]. rewrite elem_of_filter. cbn. split; [|by intros [_ ?]].
    intros Hs. split; [|done]. destruct Hok as [Hi Ha].
    apply subscribed_elem, list_elem_of_fmap in Hs as ([p' ref] & -> & Hin). cbn.
    apply (index_iff _ Hi) in Hin. assert (watched (reg w) !! ref = Some p') as Hw.
    { unfold watched. by rewrite lookup_fmap, Hin. }
    apply (armed_iff _ _ Ha) in Hw as [Hw|Hw]; [by apply (armed_live _ _ Ha) in Hw|].
    rewrite Hk in Hw. by apply elem_of_nil in Hw.
  - destruct (downs (vm w)) as [|[ref pid] rest] eqn:Hd; [done|]. cbn in Hk. injection Hk as Hk.
    destruct (down_ok w ref pid rest Hok Hd) as (n & e & _ & Hp & Hrm & Hok'). cbv zeta in Hrm, Hok'.
    destruct (IH _ Hok' Hk) as (w' & Hs & H1 & H2 & H3). exists w'. split; [|split; [done|]].
    + eapply nsteps_l; [|exact Hs]. by apply step_down with ref pid.
    + split; [done|]. rewrite H3. cbn [vm exited reg]. rewrite subscribed_remove by apply Hok.
      apply set_eq. intros [[n' e'] p]. rewrite !elem_of_filter, elem_of_difference, elem_of_singleton. cbn.
      naive_solver.
Qed.
End registry_proofs.

(** ** Witnesses

    Processes 7 and 8 subscribe to an event of node 1, and 7 exits; event types
    are numbers here. *)
Definition sim_event : nat := 4.

Definition sim_call (r : Request) (w : World (EventType:=nat)) : World :=
  let '(_, st, v) := handle_call r (reg w) (vm w) in mkWorld st v.

Definition sim_registered : World (EventType:=nat) :=
  sim_call (Register 1%N sim_event 8%N)
    (sim_call (Register 1%N sim_event 7%N) init_world).

Definition sim_exited : World (EventType:=nat) :=
  mkWorld (reg sim_registered) (exit_pid 7%N [(0%N, 7%N)] (vm sim_registered)).

Lemma sim_call_step r w : exists a, step (Event:=nat) w (Call r) (Answered a) (sim_call r w).
Proof.
  unfold sim_call. destruct (handle_call r (reg w) (vm w)) as [[a st] v] eqn:E.
  exists a. by constructor.
Qed.

Lemma sim_exited_reachable : reachable (Event:=nat) sim_exited.
Proof.
  eapply reachable_step; [|apply (step_exit sim_registered 7%N [(0%N, 7%N)])].
  2: { change ([(0%N, 7%N)] ≡ₚ map_to_list (monitors_of 7%N (vm sim_registered))). reflexivity. }
  edestruct sim_call_step as [a1 H1]. eapply reachable_step; [|exact H1].
  edestruct sim_call_step as [a2 H2]. eapply reachable_step; [|exact H2].
  apply reachable_init.
Qed.

Lemma registry_invariant_witness :
  entries_of (reg sim_exited) (1%N, sim_event) = [(8%N, 1%N); (7%N, 0%N)] /\
  world_ok sim_exited.
Proof. split; [reflexivity|]. exact (registry_invariant sim_exited sim_exited_reachable). Defined.

Lemma registry_refines_witness :
  spec_step (exited (vm sim_exited)) (subscribed (reg sim_exited))
    (Cast 1%N sim_event 5%nat)
    (Sent [(8%N, (sim_event, 5%nat)); (7%N, (sim_event, 5%nat))])
    (subscribed (reg sim_exited)).
Proof.
  apply (registry_refines sim_exited (Cast 1%N sim_event 5%nat)).
  - exact sim_exited_reachable.
  - exact (step_cast sim_exited 1%N sim_event 5%nat).
Defined.

Lemma dead_subscribers_removed_witness :
  exists w', subscribed (reg w') = {[(1%N, sim_event, 8%N)]}.
Proof.
  destruct (dead_subscribers_removed (Event:=nat) sim_exited sim_exited_reachable) as (w' & _ & _ & _ & E).
  exists w'. rewrite E. vm_compute. reflexivity.
Defined.
