(* ===== verification/Subscriptions.v ===== *)
(** * Subscriptions

    Model of [register_handler] and [unregister_handler] of
    [lib/ex_libp2p/node.ex] and of the functions of that name of the front ends,
    and the way of an event to its subscribers: the swarm loop tells the node
    process, which has the registry forward typed events. *)
From S2P Require Import Prelude Bytes Policy Terms Libp2p Sim Commands Events SwarmLoop Requests.
From S2P Require Import Answers NodeEvents HandlerRegistry.
From stdpp Require Import gmap sets.
From stdpp Require Import options.

(** ** [ExLibp2p.Node] *)

(** The requests to the registry, which answers [:ok], and the result; [node] is
    what [GenServer.whereis] finds.  [None]: the call raises. *)
Definition Registration : Type := list (Request (EventType:=Atom)) * option ETerm.

Definition no_node : ETerm := ETuple [EAtom a_error; EName "no_node"].

Definition register_handler (node : option Pid) (event_type : Atom) (pid : Pid) : Registration :=
  match node with
  | None => ([], Some no_node)
  | Some node_pid => ([Register node_pid event_type pid], Some (EAtom a_ok))
  end.

Definition unregister_handler (node : option Pid) (event_type : Atom) (pid : Pid) : Registration :=
  match node with
  | None => ([], Some no_node)
  | Some node_pid => ([Unregister node_pid event_type pid], Some (EAtom a_ok))
  end.

(** ** The front ends *)
Inductive FrontEnd :=
  | DHT | Discovery | Gossipsub | Relay | Rendezvous | RequestResponse | TaskTracker_init.

Definition event_types (f : FrontEnd) : list Atom :=
  match f with
  | DHT => [a_dht_query_result]
  | Discovery | Rendezvous => [a_peer_discovered]
  | Gossipsub => [a_gossipsub_message]
  | Relay => [a_nat_status_changed; a_relay_reservation_accepted; a_hole_punch_outcome; a_external_addr_confirmed]
  | RequestResponse => [a_inbound_request; a_outbound_response]
  | TaskTracker_init => [a_connection_closed]
  end.

(** [:ok = Node.register_handler(...)] for all types but the last; the node is
    looked up for each. *)
Fixpoint register_each (whereis : nat -> option Pid) (k : nat) (types : list Atom) (pid : Pid) : Registration :=
  match types with
  | [] => ([], None)
  | [event_type] => register_handler (whereis k) event_type pid
  | event_type :: types =>
      match register_handler (whereis k) event_type pid with
      | (calls, Some (EAtom a_ok)) =>
          let '(calls', r) := register_each whereis (S k) types pid in (calls ++ calls', r)
      | (calls, _) => (calls, None)
      end
  end.

Definition front_end_register (f : FrontEnd) (whereis : nat -> option Pid) (pid : Pid) : Registration :=
  register_each whereis 0 (event_types f) pid.

(** ** Messages to subscribers

    A message of the loop to the node process [n.1] becomes the messages the
    node sends through the registry. *)
Definition forwarded (r : State (EventType:=Atom)) (n : Pid * ETerm) : list (Pid * (Atom * NodeEvent.t)) :=
  (handle_info n.2).1 ≫= fun d =>
    match d with
    | Dispatch event_type event => handle_dispatch n.1 event_type event r
    | _ => []
    end.

Definition inbox_of (pid : Pid) (l : list (Pid * (Atom * NodeEvent.t))) : list (Atom * NodeEvent.t) :=
  map snd (filter (fun m => m.1 = pid) l).

Lemma inbox_entries (l : list (Pid * Ref)) pid (x : Atom * NodeEvent.t) :
  NoDup (map fst l) ->
  inbox_of pid (map (fun e => (e.1, x)) l) = if decide (pid ∈ map fst l) then [x] else [].
Proof.
  unfold inbox_of. induction l as [|[p ref] l IH]; cbn [map fst]; intros Hn; [done|].
  apply NoDup_cons in Hn as [Hp Hn]. rewrite filter_cons. cbn [fst].
  destruct (decide (p = pid)) as [->|Hne]; cbn [map snd]; rewrite (IH Hn).
  - rewrite (decide_False _ _ Hp), decide_True by by left. done.
  - destruct (decide (pid ∈ map fst l)) as [Hl|Hl].
    + by rewrite decide_True by by right.
    + rewrite decide_False; [done|]. by intros [->|]%elem_of_cons.
Qed.

Lemma inbox_dispatch node event_type event (r : State) pid :
  index_ok r ->
  inbox_of pid (handle_dispatch node event_type event r) =
    if decide ((node, event_type, pid) ∈ subscribed r) then [(event_type, event)] else [].
Proof.
  intros Hi. unfold handle_dispatch. rewrite inbox_entries by by apply entries_nodup.
  pose proof (subscribed_elem r node event_type pid). by repeat case_decide; tauto || done.
Qed.

Lemma inbox_app pid l l' : inbox_of pid (l ++ l') = inbox_of pid l ++ inbox_of pid l'.
Proof. unfold inbox_of. by rewrite filter_app, map_app. Qed.

(** An event as a subscriber gets it. *)
Definition typed_event (e : NodeEvent.t) : Atom * NodeEvent.t := (event_type_for e, e).

(** What reaches a process of the events that a message carries. *)
Lemma inbox_forwarded (r : State) node m pid events :
  index_ok r -> (handle_info m).1 = dispatches events ->
  inbox_of pid (forwarded r (node, m)) =
    map typed_event (filter (fun e => (node, event_type_for e, pid) ∈ subscribed r) events).
Proof.
  intros Hi Hm. unfold forwarded. cbn [fst snd]. rewrite Hm. clear Hm. unfold dispatches.
  induction events as [|e events IH]; [done|]. cbn [map].
  rewrite bind_cons, inbox_app, inbox_dispatch, filter_cons, IH by done. by case_decide.
Qed.

(** ** Properties *)

(** [register_handler] of a front end asks the registry for its types. *)
Lemma front_end_calls f whereis node pid :
  (forall k, (k < length (event_types f))%nat -> whereis k = Some node) ->
  front_end_register f whereis pid = (map (fun t => Register node t pid) (event_types f), Some (EAtom a_ok)).
Proof.
  intros Hw. unfold front_end_register.
  destruct f; cbn [event_types register_each length map] in *; rewrite !Hw by lia; reflexivity.
Qed.

(** A call of a run that is not undone in it. *)
Definition stands (l : list (Action (EventType:=Atom) (Event:=NodeEvent.t))) (r : Request (EventType:=Atom)) : Prop :=
  match r with
  | Register node t pid => exists l1 l2, l = l1 ++ Call r :: l2 /\ Forall (keeps node t pid) l2
  | _ => True
  end.

Section subscribers.
Context `{!Protocols} {Swarm : Type} `{!SwarmOps Swarm}.
Context (alloc : Z -> bool) (auto : bool).
Implicit Types (st : LoopState Swarm Pid).

Local Abbreviation turn := (turn (LocalPid:=Pid) (Term:=ETerm) alloc auto).

(** What a process gets of a swarm event. *)
Lemma inbox_turn now ev st node (r : State) pid :
  event_handler st = Some node -> index_ok r ->
  inbox_of pid (notifications (effects_of (turn (Event now ev) st)) ≫= forwarded r) =
    map typed_event (filter (fun e => (node, event_type_for e, pid) ∈ subscribed r)
      (heard (event_peers ev) (expected_events alloc st ev))).
Proof.
  intros Hn Hi. pose proof (turn_handled alloc auto now ev st node Hn) as Ht.
  destruct (notifications _) as [|[pid' m] []]; [|  |done].
  - rewrite Ht. by destruct (event_peers ev); cbn [heard]; [|case_decide].
  - destruct Ht as (-> & Hh & _). cbn [mbind list_bind]. rewrite app_nil_r. by apply inbox_forwarded.
Qed.

(** C9: Subscribers hear of everything once: after a process has called
    [register_handler] of a front end for a node, and whatever else the registry
    does - others subscribe, unsubscribe and exit, the same process registers
    again - a swarm event at the node gives it, of the types of that front end,
    exactly the typed events it amounts to, each once and in order, as long as
    the process lives and has not unregistered, and the node has not stopped.
    All of them, when [PeerId.new] accepts the identifiers of the peers they are
    about; of a batch with one it does not accept, those before that peer, where
    the node process raises. *)
Theorem subscriber_hears f whereis node pid w l w' now ev st :
  (forall k, (k < length (event_types f))%nat -> whereis k = Some node) ->
  reachable (Event:=NodeEvent.t) w -> runs w l w' -> pid ∉ exited (vm w') ->
  Forall (stands l) (front_end_register f whereis pid).1 ->
  event_handler st = Some node ->
  filter (fun m => m.1 ∈ event_types f)
    (inbox_of pid (notifications (effects_of (turn (Event now ev) st)) ≫= forwarded (reg w'))) =
  map typed_event (filter (fun e => event_type_for e ∈ event_types f)
    (heard (event_peers ev) (expected_events alloc st ev))).
Proof.
  intros Hw Hr Hrun Hp Hs Hn. rewrite (front_end_calls f whereis node pid Hw) in Hs. cbn [fst] in Hs.
  pose proof (runs_reachable _ _ _ Hr Hrun) as [Hi _]%reachable_ok. rewrite (inbox_turn now ev st node) by done.
  assert (forall t, t ∈ event_types f -> (node, t, pid) ∈ subscribed (reg w')) as Hsub.
  { intros t Ht. rewrite Forall_forall in Hs.
    destruct (Hs (Register node t pid)) as (l1 & l2 & E & Hl); [apply list_elem_of_fmap; by exists t|].
    by eapply registered_stays. }
  generalize (heard (event_peers ev) (expected_events alloc st ev)). intros es. induction es as [|e es IH]; [done|].
  rewrite !filter_cons. specialize (Hsub (event_type_for e)).
  destruct (decide (event_type_for e ∈ event_types f)) as [Ht|Ht].
  - rewrite decide_True by auto. cbn [map]. rewrite filter_cons_True by done. by rewrite IH.
  - case_decide; [cbn [map]; by rewrite filter_cons_False|done].
Qed.
End subscribers.

(** ** Witness *)
Definition sim_node_pid : Pid := 1%N.
Definition sim_subscriber : Pid := 4%N.

Definition sim_run : list (Action (EventType:=Atom) (Event:=NodeEvent.t)) :=
  [Call (Register sim_node_pid a_connection_closed sim_subscriber); Exit 9%N; Call Sync].

Definition sim_told_loop : LoopState SimSwarm Pid := set_event_handler (SwarmLoop.init_state sim_full) (Some sim_node_pid).

Lemma subscriber_hears_witness :
  exists w, runs init_world sim_run w /\
    filter (fun m => m.1 ∈ event_types TaskTracker_init)
      (inbox_of sim_subscriber
        (notifications (effects_of (turn (Term:=ETerm) (fun _ => true) false
          (Event 0 (ConnectionClosed sim_peer 0 None)) sim_told_loop)) ≫= forwarded (reg w))) =
    [(a_connection_closed, NodeEvent.ConnectionClosed (peer_struct sim_peer) (EInt 0) (EStr "unknown"))].
Proof.
  eexists. split.
  - eapply runs_cons; [apply step_call; reflexivity|].
    eapply runs_cons; [apply (step_exit _ _ []); apply Permutation_refl|]. eapply runs_cons; [apply step_call; reflexivity|]. apply runs_nil.
  - refine (subscriber_hears (fun _ => true) false TaskTracker_init (fun _ => Some sim_node_pid) sim_node_pid sim_subscriber
      init_world sim_run _ 0 (ConnectionClosed sim_peer 0 None) sim_told_loop _ _ _ _ _ _).
    + done.
    + apply reachable_init.
    + eapply runs_cons; [apply step_call; reflexivity|].
      eapply runs_cons; [apply (step_exit _ _ []); apply Permutation_refl|]. eapply runs_cons; [apply step_call; reflexivity|]. apply runs_nil.
    + change (sim_subscriber ∉ ({[9%N]} ∪ ∅ : gset Pid)). unfold sim_subscriber. set_solver.
    + repeat constructor. exists [], [Exit 9%N; Call Sync]. split; [reflexivity|repeat constructor].
    + reflexivity.
Defined.
