(* ===== verification/TaskTracker.v ===== *)
(** * The task tracker

    Model of [lib/ex_libp2p/otp/task_tracker.ex]: the process that records the
    tasks dispatched to remote peers and reports those left orphaned when the
    last connection to a peer closes.  Its callbacks are functions on its state
    and the requests and messages it receives; the clock is an argument.  The
    last part composes the tracker with the swarm loop, the event parsing of the
    node and the handler registry. *)
From S2P Require Import Prelude Bytes Policy Terms Libp2p Sim Commands Events SwarmLoop Requests.
From S2P Require Import Answers NodeEvents HandlerRegistry Subscriptions.
From stdpp Require Import gmap sets.
From stdpp Require Import options.

(** The reason of a failure: the tracker's own [:peer_lost], or the caller's. *)
Inductive Reason := Peer_lost | Given (reason : ETerm).
Inductive Status := Pending | Completed | Failed (reason : Reason).

Definition is_pending (s : Status) : bool := match s with Pending => true | _ => false end.

(** [target] is the name of the process the task was sent to. *)
Record Task := mkTask {
  id : string;
  peer_id : bytes;
  target : string;
  message : ETerm;
  dispatched_at : Z;
  status : Status;
}.

Definition set_status (s : Status) (t : Task) : Task :=
  mkTask (id t) (peer_id t) (target t) (message t) (dispatched_at t) s.

Record Tracker := mkTracker {
  tasks : gmap string Task;
  subscribers : list Pid;
  counter : N;
}.

Definition init_tracker : Tracker := mkTracker ∅ [] 0.

Definition set_tasks (ts : Tracker) (m : gmap string Task) : Tracker :=
  mkTracker m (subscribers ts) (counter ts).

Inductive TrackerCall :=
  | Dispatch_task (peer_id : bytes) (target : string) (message : ETerm)
  | Complete (task_id : string)
  | Fail_task (task_id : string) (reason : ETerm)
  | Get (task_id : string)
  | Pending_for_peer (peer_id : bytes)
  | All_pending
  | Subscribe_tracker (pid : Pid)
  | Cleanup
  | Unknown_call.

Inductive TrackerReply :=
  | R_ok
  | R_id (task_id : string)
  | R_task (task : Task)
  | R_tasks (l : list Task)
  | R_removed (n : nat)
  | R_not_found
  | R_unknown_call.

Definition task_name (n : N) : string := "task-" +:+ pretty n.

Definition update_task_status (ts : Tracker) (task_id : string) (new_status : Status) :
    TrackerReply * Tracker :=
  match tasks ts !! task_id with
  | Some task => (R_ok, set_tasks ts (<[task_id := set_status new_status task]> (tasks ts)))
  | None => (R_not_found, ts)
  end.

Definition pending_tasks (ts : Tracker) (extra_filter : Task -> bool) : list Task :=
  filter (fun t => is_pending (status t) = true /\ extra_filter t = true)
    (map snd (map_to_list (tasks ts))).

Definition handle_tracker_call (now : Z) (c : TrackerCall) (ts : Tracker) : TrackerReply * Tracker :=
  match c with
  | Dispatch_task p tg m =>
      let tid := task_name (counter ts + 1) in
      (R_id tid,
       mkTracker (<[tid := mkTask tid p tg m now Pending]> (tasks ts)) (subscribers ts) (counter ts + 1))
  | Complete task_id => update_task_status ts task_id Completed
  | Fail_task task_id reason => update_task_status ts task_id (Failed (Given reason))
  | Get task_id =>
      (match tasks ts !! task_id with Some task => R_task task | None => R_not_found end, ts)
  | Pending_for_peer p => (R_tasks (pending_tasks ts (fun t => bool_decide (peer_id t = p))), ts)
  | All_pending => (R_tasks (pending_tasks ts (fun _ => true)), ts)
  | Subscribe_tracker pid => (R_ok, mkTracker (tasks ts) (pid :: subscribers ts) (counter ts))
  | Cleanup =>
      (R_removed (size (filter (fun kv => is_pending (status kv.2) = false) (tasks ts))),
       set_tasks ts (filter (fun kv => is_pending (status kv.2) = true) (tasks ts)))
  | Unknown_call => (R_unknown_call, ts)
  end.

(** ** Losing a peer

    The message [{:task_tracker, :peer_lost, peer_id, orphaned_tasks}]. *)
Record PeerLost := mkPeerLost { lost_peer : bytes; orphaned_tasks : list Task }.

(** One step of the [Enum.reduce] over the tasks. *)
Definition lose_step (peer : bytes) (acc : gmap string Task * list Task) (kv : string * Task) :
    gmap string Task * list Task :=
  let '(tasks_acc, orphaned_acc) := acc in
  let '(tid, task) := kv in
  if is_pending (status task) && bool_decide (peer_id task = peer) then
    let failed := set_status (Failed Peer_lost) task in
    (<[tid := failed]> tasks_acc, failed :: orphaned_acc)
  else (tasks_acc, orphaned_acc).

(** A message [{:libp2p, event_type, event}]; [alive] is [Process.alive?]. *)
Definition handle_tracker_info (alive : Pid -> bool) (msg : Atom * NodeEvent.t) (ts : Tracker) :
    list (Pid * PeerLost) * Tracker :=
  match msg with
  | (a_connection_closed, NodeEvent.ConnectionClosed peer (EInt 0) _) =>
      let '(updated_tasks, orphaned) :=
        foldl (lose_step peer) (tasks ts, []) (map_to_list (tasks ts)) in
      match orphaned with
      | [] => ([], ts)
      | _ =>
          (map (fun pid => (pid, mkPeerLost peer orphaned))
             (filter (fun pid => alive pid = true) (subscribers ts)),
           set_tasks ts updated_tasks)
      end
  | _ => ([], ts)
  end.

(** ** Runs *)
Inductive TrackerInput :=
  | Call_in (now : Z) (c : TrackerCall)
  | Info_in (alive : Pid -> bool) (msg : Atom * NodeEvent.t).

Definition tracker_step (i : TrackerInput) (ts : Tracker) : option TrackerReply * Tracker :=
  match i with
  | Call_in now c => let '(r, ts) := handle_tracker_call now c ts in (Some r, ts)
  | Info_in alive msg => (None, (handle_tracker_info alive msg ts).2)
  end.

Fixpoint tracker_run (inputs : list TrackerInput) (ts : Tracker) : list TrackerReply * Tracker :=
  match inputs with
  | [] => ([], ts)
  | i :: inputs =>
      let '(r, ts) := tracker_step i ts in
      let '(l, ts) := tracker_run inputs ts in
      (option_list r ++ l, ts)
  end.

Definition lost_with (peer : bytes) (t : Task) : bool :=
  is_pending (status t) && bool_decide (peer_id t = peer).

Definition mark_lost (peer : bytes) (t : Task) : Task :=
  if lost_with peer t then set_status (Failed Peer_lost) t else t.

(** The tasks a peer's loss orphans, as they are reported. *)
Definition orphans (peer : bytes) (m : gmap string Task) : list Task :=
  map (set_status (Failed Peer_lost)) (filter (fun t => lost_with peer t = true) (map snd (map_to_list m))).

Lemma lose_fold_tasks peer l m acc tid :
  NoDup (map fst l) ->
  (foldl (lose_step peer) (m, acc) l).1 !! tid =
    match (list_to_map l : gmap string Task) !! tid with
    | Some t => if lost_with peer t then Some (mark_lost peer t) else m !! tid
    | None => m !! tid
    end.
Proof.
  revert m acc. induction l as [|[k t] l IH]; intros m acc Hn; [done|].
  apply NoDup_cons in Hn as [Hk Hn]. cbn [foldl lose_step list_to_map foldr].
  fold (lost_with peer t). assert ((list_to_map l : gmap string Task) !! k = None) as Hl
    by (by apply not_elem_of_list_to_map_1).
  change (list_to_map ((k, t) :: l) : gmap string Task) with (<[k := t]> (list_to_map l : gmap string Task)).
  cbn [fst snd]. destruct (decide (k = tid)) as [<-|Hne].
  - rewrite lookup_insert_eq. destruct (lost_with peer t) eqn:Hp; rewrite IH, Hl by done.
    + unfold mark_lost. rewrite Hp. by rewrite lookup_insert_eq.
    + done.
  - rewrite lookup_insert_ne by done. destruct (lost_with peer t) eqn:Hp; rewrite IH by done; [|done].
    by rewrite lookup_insert_ne by done.
Qed.

Lemma lose_fold_orphans peer l m acc :
  (foldl (lose_step peer) (m, acc) l).2 =
    reverse (map (set_status (Failed Peer_lost)) (filter (fun t => lost_with peer t = true) (map snd l))) ++ acc.
Proof.
  revert m acc. induction l as [|[k t] l IH]; intros m acc; [done|].
  cbn [foldl lose_step map snd]. fold (lost_with peer t). rewrite filter_cons.
  destruct (lost_with peer t) eqn:Hp; cbn [decide_rel].
  - rewrite decide_True by done. rewrite IH. cbn [map]. by rewrite reverse_cons, <-(assoc_L (++)).
  - rewrite decide_False by done. by rewrite IH.
Qed.

Lemma lose_fold peer m :
  let r := foldl (lose_step peer) (m, []) (map_to_list m) in
  r.1 = mark_lost peer <$> m /\ r.2 = reverse (orphans peer m).
Proof.
  cbn. split.
  - apply map_eq. intros tid. rewrite lose_fold_tasks by apply NoDup_fst_map_to_list.
    rewrite list_to_map_to_list, lookup_fmap. destruct (m !! tid) as [t|]; cbn; [|done].
    unfold mark_lost. by destruct (lost_with peer t).
  - rewrite lose_fold_orphans. by rewrite app_nil_r.
Qed.

Lemma orphans_nil peer m : orphans peer m = [] -> mark_lost peer <$> m = m.
Proof.
  intros Ho. apply map_eq. intros tid. rewrite lookup_fmap. destruct (m !! tid) as [t|] eqn:E; [|done].
  cbn. unfold mark_lost. destruct (lost_with peer t) eqn:Hp; [|done]. exfalso.
  unfold orphans in Ho. apply fmap_nil_inv in Ho.
  assert (t ∈ filter (fun t => lost_with peer t = true) (map snd (map_to_list m))) as Hin.
  { apply list_elem_of_filter. split; [done|]. apply list_elem_of_fmap. exists (tid, t).
    split; [done|]. by apply elem_of_map_to_list. }
  rewrite Ho in Hin. by apply elem_of_nil in Hin.
Qed.

(** What the tracker does when a peer's last connection closes. *)
Lemma lost_peer_effect alive peer cause ts :
  let '(out, ts') :=
    handle_tracker_info alive (a_connection_closed, NodeEvent.ConnectionClosed peer (EInt 0) cause) ts in
  tasks ts' = mark_lost peer <$> tasks ts /\
  subscribers ts' = subscribers ts /\ counter ts' = counter ts /\
  out = match orphans peer (tasks ts) with
        | [] => []
        | o => map (fun pid => (pid, mkPeerLost peer (reverse o)))
                 (filter (fun pid => alive pid = true) (subscribers ts))
        end.
Proof.
  cbn [handle_tracker_info]. pose proof (lose_fold peer (tasks ts)) as [Ht Ho].
  destruct (foldl _ _ _) as [m o]. cbn in Ht, Ho. subst m o.
  pose proof (orphans_nil peer (tasks ts)) as Hnil.
  destruct (orphans peer (tasks ts)) as [|t l] eqn:E; [cbn; by rewrite Hnil|].
  destruct (reverse (t :: l)) eqn:Er; [by apply (f_equal length) in Er; rewrite length_reverse in Er|done].
Qed.

(** The identifiers handed out, in order. *)
Definition assigned (l : list TrackerReply) : list string :=
  omap (fun r => match r with R_id tid => Some tid | _ => None end) l.

Definition names_upto (n : N) : list string :=
  map (fun k => task_name (N.of_nat k)) (seq 1 (N.to_nat n)).

(** Every task is stored under its own identifier, one that was handed out. *)
Definition tasks_ok (ts : Tracker) : Prop :=
  forall tid t, tasks ts !! tid = Some t -> id t = tid /\ tid ∈ names_upto (counter ts).

Lemma task_name_inj : Inj (=) (=) task_name.
Proof. intros a b E. by apply (inj (String.append "task-")), pretty_N_inj in E. Qed.

Lemma names_upto_succ n : names_upto (n + 1) = names_upto n ++ [task_name (n + 1)].
Proof.
  unfold names_upto. replace (N.to_nat (n + 1)) with (S (N.to_nat n)) by lia.
  rewrite seq_S, map_app. cbn. do 3 f_equal. lia.
Qed.

Lemma names_upto_elem n tid :
  tid ∈ names_upto n <-> exists k, (1 <= k <= n)%N /\ tid = task_name k.
Proof.
  unfold names_upto. rewrite list_elem_of_fmap. setoid_rewrite elem_of_seq. split.
  - intros (k & -> & Hk). exists (N.of_nat k). split; [lia|done].
  - intros (k & Hk & ->). exists (N.to_nat k). split; [f_equal; lia|lia].
Qed.

Lemma names_upto_nodup n : NoDup (names_upto n).
Proof. apply NoDup_fmap_2; [intros a b ?%task_name_inj; lia|]. apply NoDup_seq. Qed.

Lemma name_fresh ts : tasks_ok ts -> tasks ts !! task_name (counter ts + 1) = None.
Proof.
  intros Hok. apply eq_None_not_Some. intros [t [_ Hin]%Hok].
  apply names_upto_elem in Hin as (k & Hk & ?%task_name_inj). lia.
Qed.

Lemma id_mark_lost peer t : id (mark_lost peer t) = id t.
Proof. unfold mark_lost. by destruct (lost_with peer t). Qed.

(** The other messages change nothing. *)
Lemma handle_tracker_info_tasks alive msg ts :
  let ts' := (handle_tracker_info alive msg ts).2 in
  subscribers ts' = subscribers ts /\ counter ts' = counter ts /\
  (tasks ts' = tasks ts \/ exists peer, tasks ts' = mark_lost peer <$> tasks ts).
Proof.
  destruct msg as [a e]. cbn zeta.
  destruct a; try (by split_and!; [| |left]). destruct e as [|p n c| | | | | | | | | | |]; try (by split_and!; [| |left]).
  destruct n as [| | |[]| | | | | | |]; try (by split_and!; [| |left]).
  pose proof (lost_peer_effect alive p c ts) as Hl. cbn [handle_tracker_info] in *.
  destruct (foldl _ _ _) as [m o]. destruct o; destruct Hl as (H1 & H2 & H3 & _).
  all: split_and!; [done..|]; right; by exists p.
Qed.

Lemma update_ok ts tid s :
  tasks_ok ts ->
  let '(r, ts') := update_task_status ts tid s in
  tasks_ok ts' /\ names_upto (counter ts') = names_upto (counter ts) ++ assigned [r].
Proof.
  intros Hok. unfold update_task_status. destruct (tasks ts !! tid) as [t|] eqn:E; cbn; rewrite app_nil_r; [|done].
  split; [|done]. apply Hok in E. intros tid' t'. cbn.
  intros [[<- <-]|[_ Ht]]%lookup_insert_Some; [done|by apply Hok].
Qed.

Lemma tracker_step_ok i ts :
  tasks_ok ts ->
  let '(r, ts') := tracker_step i ts in
  tasks_ok ts' /\ names_upto (counter ts') = names_upto (counter ts) ++ assigned (option_list r).
Proof.
  intros Hok. destruct i as [now c|alive msg]; cbn [tracker_step].
  - destruct c as [p tg m|tid|tid reason|tid|p| |pid| |]; cbn [handle_tracker_call];
      try (by cbn; rewrite app_nil_r).
    + split; [|apply names_upto_succ]. intros tid t. cbn. rewrite names_upto_succ.
      intros [[<- <-]|[_ [? Hin]%Hok]]%lookup_insert_Some; (split; [done|]); set_solver.
    + generalize (update_ok ts tid Completed Hok). by destruct (update_task_status _ _ _).
    + generalize (update_ok ts tid (Failed (Given reason)) Hok). by destruct (update_task_status _ _ _).
    + split; [done|]. destruct (tasks ts !! tid); cbn; by rewrite app_nil_r.
    + split; [|cbn; by rewrite app_nil_r]. intros tid t. cbn. intros [? _]%map_lookup_filter_Some. by apply Hok.
  - pose proof (handle_tracker_info_tasks alive msg ts) as (_ & Hc & Ht). cbn.
    rewrite Hc, app_nil_r. split; [|done]. intros tid t. rewrite Hc.
    destruct Ht as [->|[p ->]]; [apply Hok|]. rewrite lookup_fmap_Some.
    intros (t' & <- & Hin). rewrite id_mark_lost. by apply Hok.
Qed.

Lemma assigned_app l l' : assigned (l ++ l') = assigned l ++ assigned l'.
Proof. apply omap_app. Qed.

Lemma tracker_run_ok inputs ts :
  tasks_ok ts ->
  let '(l, ts') := tracker_run inputs ts in
  tasks_ok ts' /\ names_upto (counter ts') = names_upto (counter ts) ++ assigned l.
Proof.
  revert ts. induction inputs as [|i inputs IH]; intros ts Hok; cbn; [by rewrite app_nil_r|].
  pose proof (tracker_step_ok i ts Hok) as Hs. destruct (tracker_step i ts) as [r ts1].
  destruct Hs as [Hok1 Hn]. specialize (IH ts1 Hok1). destruct (tracker_run inputs ts1) as [l ts2].
  destruct IH as [Hok2 Hn2]. split; [done|]. by rewrite Hn2, Hn, assigned_app, (assoc_L (++)).
Qed.

Lemma init_tracker_ok : tasks_ok init_tracker.
Proof. by intros ? ?. Qed.

(** What a step does to one task. *)
Lemma update_lookup ts tid t tid' s :
  tasks ts !! tid = Some t ->
  tasks (update_task_status ts tid' s).2 !! tid = Some (if decide (tid = tid') then set_status s t else t).
Proof.
  intros Ht. unfold update_task_status. destruct (decide (tid = tid')) as [<-|Hne].
  - rewrite Ht. cbn. by rewrite lookup_insert_eq.
  - destruct (tasks ts !! tid') as [t'|]; cbn; [by rewrite lookup_insert_ne|done].
Qed.

(** [t'] is [t] with a status that is not pending again. *)
Definition moves_on (t t' : Task) : Prop :=
  exists s, t' = set_status s t /\ (status t <> Pending -> s <> Pending).

Lemma moves_on_refl t : moves_on t t.
Proof. exists (status t). split; [by destruct t|done]. Qed.

Lemma moves_on_mark peer t : moves_on t (mark_lost peer t).
Proof. unfold mark_lost. destruct (lost_with peer t); [by eexists|apply moves_on_refl]. Qed.

Lemma update_moves ts tid t tid' s (P : Prop) :
  tasks ts !! tid = Some t -> s <> Pending ->
  match tasks (let '(r, ts') := update_task_status ts tid' s in (Some r, ts')).2 !! tid with
  | Some t' => moves_on t t'
  | None => P
  end.
Proof.
  intros Ht Hs. pose proof (update_lookup ts tid t tid' s Ht) as Hl.
  destruct (update_task_status ts tid' s) as [r ts']. cbn in *. rewrite Hl.
  case_decide; [by exists s|apply moves_on_refl].
Qed.

(** ** The tracker on a node

    The tracker handles its own messages in order. *)
Fixpoint handle_all (alive : Pid -> bool) (msgs : list (Atom * NodeEvent.t)) (ts : Tracker) :
    list (Pid * PeerLost) * Tracker :=
  match msgs with
  | [] => ([], ts)
  | msg :: msgs =>
      let '(out, ts) := handle_tracker_info alive msg ts in
      let '(l, ts) := handle_all alive msgs ts in
      (out ++ l, ts)
  end.

(** ** Properties *)

(** The tracker never loses track: after any sequence of calls and messages
    the identifiers it has handed out are the numbered names in order, none
    twice, and every task is stored under its own identifier, one of them. *)
Theorem tracker_ids inputs :
  let '(l, ts) := tracker_run inputs init_tracker in
  assigned l = names_upto (counter ts) /\ NoDup (assigned l) /\ tasks_ok ts.
Proof.
  pose proof (tracker_run_ok inputs init_tracker init_tracker_ok) as Hr.
  destruct (tracker_run inputs init_tracker) as [l ts]. destruct Hr as [Hok Hn].
  change (names_upto (counter init_tracker)) with ([] : list string) in Hn. cbn in Hn.
  rewrite <-Hn. split_and!; [done|apply names_upto_nodup|done].
Qed.

(** C35: A task goes forward: at any point of any run, a step leaves a task as
    it is but for its status, which never becomes pending again; and the only
    step that drops a task is a cleanup, which never drops a pending one. *)
Theorem task_lifecycle inputs i tid t :
  tasks (tracker_run inputs init_tracker).2 !! tid = Some t ->
  match tasks (tracker_step i (tracker_run inputs init_tracker).2).2 !! tid with
  | Some t' => moves_on t t'
  | None => status t <> Pending /\ exists now, i = Call_in now Cleanup
  end.
Proof.
  pose proof (tracker_run_ok inputs init_tracker init_tracker_ok) as Hr.
  destruct (tracker_run inputs init_tracker) as [l ts]. destruct Hr as [Hok _]. cbn [snd]. intros Ht.
  destruct i as [now c|alive msg]; cbn [tracker_step].
  - destruct c as [p tg m|tid' |tid' reason|tid' |p| |pid| |]; cbn;
      try (rewrite Ht; apply moves_on_refl).
    + rewrite lookup_insert_ne; [rewrite Ht; apply moves_on_refl|].
      intros <-. by rewrite (name_fresh ts Hok) in Ht.
    + by apply update_moves.
    + by apply update_moves.
    + rewrite map_lookup_filter, Ht. cbn. case_guard as E; cbn; [apply moves_on_refl|].
      split; [|by exists now]. intros Hp. by rewrite Hp in E.
  - pose proof (handle_tracker_info_tasks alive msg ts) as (_ & _ & [E|[p E]]); cbn in *; rewrite E.
    + rewrite Ht. apply moves_on_refl.
    + rewrite lookup_fmap, Ht. cbn. apply moves_on_mark.
Qed.

Lemma orphans_mark_lost peer m : orphans peer (mark_lost peer <$> m) = [].
Proof.
  unfold orphans. destruct (filter _ _) as [|t l] eqn:E; [done|]. exfalso.
  assert (t ∈ filter (fun t => lost_with peer t = true) (map snd (map_to_list (mark_lost peer <$> m)))) as Hin
    by (rewrite E; by left).
  apply list_elem_of_filter in Hin as [Hl Hin]. apply list_elem_of_fmap in Hin as ([tid t'] & -> & Hk).
  apply elem_of_map_to_list in Hk. cbn in *. rewrite lookup_fmap_Some in Hk. destruct Hk as (t0 & <- & _).
  unfold mark_lost in Hl. destruct (lost_with peer t0) eqn:Ht; [done|congruence].
Qed.

(** The notices of a loss: the orphaned tasks, in one message to each live
    subscriber. *)
Definition notices (alive : Pid -> bool) (peer : bytes) (ts : Tracker) : list (Pid * PeerLost) :=
  match orphans peer (tasks ts) with
  | [] => []
  | o => map (fun pid => (pid, mkPeerLost peer (reverse o))) (filter (fun pid => alive pid = true) (subscribers ts))
  end.

Lemma handle_all_one alive msg ts : handle_all alive [msg] ts = handle_tracker_info alive msg ts.
Proof. cbn. destruct (handle_tracker_info alive msg ts). by rewrite app_nil_r. Qed.

Lemma still_connected alive peer (n : Z) cause ts :
  n <> 0%Z -> handle_tracker_info alive (a_connection_closed, NodeEvent.ConnectionClosed peer (EInt n) cause) ts = ([], ts).
Proof. by destruct n. Qed.

Section detection.
Context `{!Protocols} {Swarm : Type} `{!SwarmOps Swarm}.
Context (alloc : Z -> bool) (auto : bool).
Implicit Types (st : LoopState Swarm Pid).

Local Abbreviation turn := (turn (LocalPid:=Pid) (Term:=ETerm) alloc auto).

(** C3: The loss of a peer is detected end to end: when the swarm reports a
    closed connection and the tracker is subscribed in the registry, its tasks
    pending on that peer fail as lost - all of them and no others - exactly if
    that was the peer's last connection and [PeerId.new] accepts the peer's
    identifier; each subscription of a live process gets one message with those
    tasks, if there are any (the tracker keeps every subscription, so a process
    that subscribed twice gets two); a second report of the loss is silent. *)
Theorem lost_peer_detected now st node p n cause w tracker alive ts :
  event_handler st = Some node ->
  reachable (Event:=NodeEvent.t) w -> (node, a_connection_closed, tracker) ∈ subscribed (reg w) ->
  let msgs := notifications (effects_of (turn (Event now (ConnectionClosed p n cause)) st)) ≫= forwarded (reg w) in
  let '(out, ts') := handle_all alive (inbox_of tracker msgs) ts in
  let lost := bool_decide (n = 0%Z /\ valid_peer p) in
  tasks ts' = (if lost then mark_lost (peer_struct p) <$> tasks ts else tasks ts) /\
  out = (if lost then notices alive (peer_struct p) ts else []) /\
  (forall alive', (handle_all alive' (inbox_of tracker msgs) ts').1 = []).
Proof.
  intros Hn [Hi _]%reachable_ok Hs. cbv zeta.
  rewrite (inbox_turn alloc auto now _ st node) by done. cbn [expected_events event_peers heard].
  destruct (decide (valid_peer p)) as [Hv|Hv]; [|rewrite filter_nil; by rewrite bool_decide_false by by intros [_ ?]].
  rewrite filter_cons_True by done. rewrite filter_nil. unfold typed_event. cbn [map event_type_for]. rewrite handle_all_one.
  destruct (decide (n = 0%Z)) as [->|Hn0].
  2: { rewrite still_connected by done. rewrite bool_decide_false by by intros [? _].
       split_and!; [done..|]. intros alive'. rewrite handle_all_one. by rewrite still_connected. }
  rewrite bool_decide_true by done.
  pose proof (lost_peer_effect alive (peer_struct p) (EStr (default "unknown" cause)) ts) as Hl.
  destruct (handle_tracker_info _ _ _) as [out ts']. destruct Hl as (Ht & Hsub & _ & Ho).
  split_and!; [done|by rewrite Ho|]. intros alive'. rewrite handle_all_one.
  pose proof (lost_peer_effect alive' (peer_struct p) (EStr (default "unknown" cause)) ts') as Hl.
  destruct (handle_tracker_info _ _ _) as [out' ts'']. destruct Hl as (_ & _ & _ & ->).
  by rewrite Ht, orphans_mark_lost.
Qed.
End detection.

(** ** Witnesses *)
Definition sim_tracker_pid : Pid := 4%N.

Definition sim_tracking : list TrackerInput :=
  [Call_in 100 (Dispatch_task (peer_struct sim_peer) "worker" (EInt 1));
   Call_in 101 (Dispatch_task (peer_struct sim_peer) "worker" (EInt 2));
   Call_in 102 (Subscribe_tracker 9%N); Call_in 103 (Complete "task-1")].

Definition sim_tracker : Tracker := (tracker_run sim_tracking init_tracker).2.

Definition sim_tracker_world : World (EventType:=Atom) :=
  let '(_, st, v) := handle_call (Register 1%N a_connection_closed sim_tracker_pid)
    (reg (init_world (EventType:=Atom))) (vm (init_world (EventType:=Atom))) in mkWorld st v.

Definition sim_watched_loop : LoopState SimSwarm Pid := set_event_handler (SwarmLoop.init_state sim_full) (Some 1%N).

Lemma sim_tracker_reachable : reachable (Event:=NodeEvent.t) sim_tracker_world.
Proof.
  eapply reachable_step; [apply reachable_init|].
  apply (step_call (init_world (EventType:=Atom)) (Register 1%N a_connection_closed sim_tracker_pid) Reply_ok). reflexivity.
Qed.

Definition sim_done : Task := mkTask "task-1" (peer_struct sim_peer) "worker" (EInt 1) 100 Completed.

Lemma task_lifecycle_witness :
  tasks (tracker_step (Call_in 200 Cleanup) sim_tracker).2 !! "task-1" = None /\
  status sim_done <> Pending /\ exists now, Call_in 200 Cleanup = Call_in now Cleanup.
Proof.
  assert (tasks (tracker_step (Call_in 200 Cleanup) sim_tracker).2 !! "task-1" = None) as E
    by (vm_compute; reflexivity).
  split; [exact E|].
  pose proof (task_lifecycle sim_tracking (Call_in 200 Cleanup) "task-1" sim_done
    ltac:(vm_compute; reflexivity)) as H.
  fold sim_tracker in H. rewrite E in H. exact H.
Defined.

Lemma lost_peer_detected_witness :
  (handle_all (fun _ => true) (inbox_of sim_tracker_pid
    (notifications (effects_of (turn (Term:=ETerm) (fun _ => true) false
       (Event 0 (ConnectionClosed sim_peer 0 None)) sim_watched_loop)) ≫= forwarded (reg sim_tracker_world)))
    sim_tracker).1 =
  [(9%N, mkPeerLost (peer_struct sim_peer)
     [mkTask "task-2" (peer_struct sim_peer) "worker" (EInt 2) 101 (Failed Peer_lost)])].
Proof.
  pose proof (lost_peer_detected (fun _ => true) false 0 sim_watched_loop 1%N sim_peer 0 None sim_tracker_world
    sim_tracker_pid (fun _ => true) sim_tracker eq_refl) as H.
  cbv zeta in H. destruct (handle_all _ _ _) as [out ts'].
  destruct H as (_ & -> & _).
  - exact sim_tracker_reachable.
  - vm_compute. done.
  - vm_compute. reflexivity.
Defined.
