(* ===== verification/ElixirConfig.v ===== *)
(** * The configuration on the Elixir side

    Model of [lib/ex_libp2p/node/config.ex], the subgroups in
    [lib/ex_libp2p/node/config/] and the scoring structs of
    [lib/ex_libp2p/gossipsub/peer_score.ex].  A struct field holds any Elixir
    term ([ETerm]); a keyword list is a list of pairs; an expression that may
    raise is an option.  The properties compose [new] and [to_nif_map] with
    [Config.from_map], which reads the map on the native side. *)
From S2P Require Import Prelude Bytes Policy Terms Config.
From stdpp Require Import options.

Definition nil : ETerm := EAtom a_nil.
Definition Keywords : Type := list (string * ETerm).

(** ** [Keyword] and [struct] *)

(** [Keyword.fetch] and [opts[:key]] find the first value of a key. *)
Fixpoint keyword_fetch (opts : Keywords) (key : string) : option ETerm :=
  match opts with
  | [] => None
  | (k, v) :: opts => if bool_decide (k = key) then Some v else keyword_fetch opts key
  end.

Definition keyword_take (opts : Keywords) (keys : list string) : Keywords :=
  filter (fun kv => kv.1 ∈ keys) opts.

(** [Keyword.validate!] raises for a key that is unknown or repeated. *)
Definition keyword_validate (opts : Keywords) (known : list string) : option unit :=
  if bool_decide (Forall (fun k => k ∈ known) (map fst opts) /\ NoDup (map fst opts)) then Some tt else None.

(** The value of a field after [struct(Module, fields)]: the last one given,
    or its default. *)
Definition field (fields : Keywords) (name : string) (default_ : ETerm) : ETerm :=
  foldl (fun acc kv => if bool_decide (kv.1 = name) then kv.2 else acc) default_ fields.

Definition take_with_renames (opts : Keywords) (rename_map : list (string * string)) : Keywords :=
  foldl (fun acc '(flat_key, name) =>
    match keyword_fetch opts flat_key with
    | Some value => (name, value) :: acc
    | None => acc
    end) [] rename_map.

Definition float (num den : Z) : ETerm := EFloat (f64_lit num den).

(** ** The subgroups *)
Module Identity.
Record t := mk { keypair_bytes : ETerm }.
Definition default_ : t := mk nil.
End Identity.

Module Network.
Record t := mk {
  listen_addrs : ETerm;
  idle_connection_timeout_secs : ETerm;
  max_pending_incoming : ETerm;
  max_pending_outgoing : ETerm;
  max_established_incoming : ETerm;
  max_established_outgoing : ETerm;
  max_established_per_peer : ETerm;
  memory_max_percentage : ETerm;
  enable_websocket : ETerm;
}.

Definition struct (f : Keywords) : t := {|
  listen_addrs := field f "listen_addrs" (EList [EStr "/ip4/0.0.0.0/tcp/0"; EStr "/ip4/0.0.0.0/udp/0/quic-v1"]);
  idle_connection_timeout_secs := field f "idle_connection_timeout_secs" (EInt 60);
  max_pending_incoming := field f "max_pending_incoming" (EInt 128);
  max_pending_outgoing := field f "max_pending_outgoing" (EInt 64);
  max_established_incoming := field f "max_established_incoming" (EInt 256);
  max_established_outgoing := field f "max_established_outgoing" (EInt 256);
  max_established_per_peer := field f "max_established_per_peer" (EInt 2);
  memory_max_percentage := field f "memory_max_percentage" (float 9 10);
  enable_websocket := field f "enable_websocket" (EBool false) |}.
End Network.

Module Discovery.
Record t := mk {
  bootstrap_peers : ETerm;
  enable_mdns : ETerm;
  enable_kademlia : ETerm;
  mdns_auto_dial : ETerm;
  dht_state_path : ETerm;
}.

Definition struct (f : Keywords) : t := {|
  bootstrap_peers := field f "bootstrap_peers" (EList []);
  enable_mdns := field f "enable_mdns" (EBool true);
  enable_kademlia := field f "enable_kademlia" (EBool true);
  mdns_auto_dial := field f "mdns_auto_dial" (EBool true);
  dht_state_path := field f "dht_state_path" nil |}.
End Discovery.

Module Gossipsub.
Record t := mk {
  topics : ETerm;
  mesh_n : ETerm;
  mesh_n_low : ETerm;
  mesh_n_high : ETerm;
  gossip_lazy : ETerm;
  max_transmit_size : ETerm;
  heartbeat_interval_ms : ETerm;
  peer_score : ETerm;
  thresholds : ETerm;
  peer_score_disabled : ETerm;
}.

Definition struct (f : Keywords) : t := {|
  topics := field f "topics" (EList []);
  mesh_n := field f "mesh_n" (EInt 6);
  mesh_n_low := field f "mesh_n_low" (EInt 4);
  mesh_n_high := field f "mesh_n_high" (EInt 12);
  gossip_lazy := field f "gossip_lazy" (EInt 6);
  max_transmit_size := field f "max_transmit_size" (EInt 65536);
  heartbeat_interval_ms := field f "heartbeat_interval_ms" (EInt 1000);
  peer_score := field f "peer_score" nil;
  thresholds := field f "thresholds" nil;
  peer_score_disabled := field f "peer_score_disabled" (EBool false) |}.
End Gossipsub.

Module RequestResponse.
Record t := mk { protocol_name : ETerm; request_timeout_secs : ETerm }.

Definition struct (f : Keywords) : t := {|
  protocol_name := field f "protocol_name" (EStr "/ex-libp2p/rpc/1.0.0");
  request_timeout_secs := field f "request_timeout_secs" (EInt 30) |}.
End RequestResponse.

Module Relay.
Record t := mk {
  enable : ETerm;
  enable_server : ETerm;
  enable_autonat : ETerm;
  enable_autonat_server : ETerm;
  enable_upnp : ETerm;
  max_reservations : ETerm;
  max_circuits : ETerm;
  max_circuit_duration_secs : ETerm;
  max_circuit_bytes : ETerm;
}.

Definition struct (f : Keywords) : t := {|
  enable := field f "enable" (EBool false);
  enable_server := field f "enable_server" (EBool false);
  enable_autonat := field f "enable_autonat" (EBool false);
  enable_autonat_server := field f "enable_autonat_server" (EBool false);
  enable_upnp := field f "enable_upnp" (EBool false);
  max_reservations := field f "max_reservations" (EInt 128);
  max_circuits := field f "max_circuits" (EInt 16);
  max_circuit_duration_secs := field f "max_circuit_duration_secs" (EInt 120);
  max_circuit_bytes := field f "max_circuit_bytes" (EInt 131072) |}.
End Relay.

Module Rendezvous.
Record t := mk { enable_client : ETerm; enable_server : ETerm }.

Definition struct (f : Keywords) : t := {|
  enable_client := field f "enable_client" (EBool false);
  enable_server := field f "enable_server" (EBool false) |}.
End Rendezvous.

(** ** The scoring structs: [struct!] raises for an unknown field *)
Definition struct_bang (defaults opts : Keywords) : option ETerm :=
  if bool_decide (Forall (fun k => k ∈ map fst defaults) (map fst opts)) then
    Some (EStruct (map (fun kv => (kv.1, field opts kv.1 kv.2)) defaults))
  else None.

Module PeerScore.
Definition fields : Keywords :=
  [("ip_colocation_factor_weight", float (-53) 1); ("ip_colocation_factor_threshold", float 3 1);
   ("behaviour_penalty_weight", float (-1592) 100); ("behaviour_penalty_decay", float 986 1000)].
Definition new (opts : Keywords) : option ETerm := struct_bang fields opts.
End PeerScore.

Module Thresholds.
Definition fields : Keywords :=
  [("gossip_threshold", float (-4000) 1); ("publish_threshold", float (-8000) 1);
   ("graylist_threshold", float (-16000) 1); ("accept_px_threshold", float 100 1);
   ("opportunistic_graft_threshold", float 5 1)].
Definition new (opts : Keywords) : option ETerm := struct_bang fields opts.
End Thresholds.

(** ** [ExLibp2p.Node.Config] *)
Module NodeConfig.
Record t := mk {
  identity : Identity.t;
  network : Network.t;
  discovery : Discovery.t;
  gossipsub : Gossipsub.t;
  request_response : RequestResponse.t;
  relay : Relay.t;
  rendezvous : Rendezvous.t;
}.

Definition identity_keys : list string := ["keypair_bytes"].
Definition network_keys : list string :=
  ["listen_addrs"; "idle_connection_timeout_secs"; "max_pending_incoming"; "max_pending_outgoing";
   "max_established_incoming"; "max_established_outgoing"; "max_established_per_peer";
   "memory_max_percentage"; "enable_websocket"].
Definition discovery_keys : list string :=
  ["bootstrap_peers"; "enable_mdns"; "enable_kademlia"; "mdns_auto_dial"; "dht_state_path"].
Definition gossipsub_renames : list (string * string) :=
  [("gossipsub_topics", "topics"); ("gossipsub_mesh_n", "mesh_n"); ("gossipsub_mesh_n_low", "mesh_n_low");
   ("gossipsub_mesh_n_high", "mesh_n_high"); ("gossipsub_gossip_lazy", "gossip_lazy");
   ("gossipsub_max_transmit_size", "max_transmit_size");
   ("gossipsub_heartbeat_interval_ms", "heartbeat_interval_ms"); ("gossipsub_peer_score", "peer_score");
   ("gossipsub_thresholds", "thresholds"); ("gossipsub_peer_score_disabled", "peer_score_disabled")].
Definition request_response_renames : list (string * string) :=
  [("rpc_protocol_name", "protocol_name"); ("rpc_request_timeout_secs", "request_timeout_secs")].
Definition relay_renames : list (string * string) :=
  [("enable_relay", "enable"); ("enable_relay_server", "enable_server"); ("enable_autonat", "enable_autonat");
   ("enable_autonat_server", "enable_autonat_server"); ("enable_upnp", "enable_upnp");
   ("relay_max_reservations", "max_reservations"); ("relay_max_circuits", "max_circuits");
   ("relay_max_circuit_duration_secs", "max_circuit_duration_secs");
   ("relay_max_circuit_bytes", "max_circuit_bytes")].
Definition rendezvous_renames : list (string * string) :=
  [("enable_rendezvous_client", "enable_client"); ("enable_rendezvous_server", "enable_server")].

Definition known_keys : list string :=
  identity_keys ++ network_keys ++ discovery_keys ++ map fst gossipsub_renames ++
  map fst request_response_renames ++ map fst relay_renames ++ map fst rendezvous_renames.

Definition new (opts : Keywords) : option t :=
  _ ← keyword_validate opts known_keys;
  Some {|
    identity := Identity.mk (default nil (keyword_fetch opts "keypair_bytes"));
    network := Network.struct (keyword_take opts network_keys);
    discovery := Discovery.struct (keyword_take opts discovery_keys);
    gossipsub := Gossipsub.struct (take_with_renames opts gossipsub_renames);
    request_response := RequestResponse.struct (take_with_renames opts request_response_renames);
    relay := Relay.struct (take_with_renames opts relay_renames);
    rendezvous := Rendezvous.struct (take_with_renames opts rendezvous_renames) |}.

(** [t <= 0] in the order of Elixir terms, where numbers come first. *)
Definition at_most_zero (term : ETerm) : bool :=
  match term with
  | EInt z => z <=? 0
  | EFloat f => negb (f64_lt (f64_of_Z 0) f)
  | _ => false
  end.

Inductive invalid := No_listen_addrs | Invalid_timeout.

Definition validate (config : t) : invalid + t :=
  match Network.listen_addrs (network config) with
  | EList [] => inl No_listen_addrs
  | _ =>
      if at_most_zero (Network.idle_connection_timeout_secs (network config)) then inl Invalid_timeout
      else inr config
  end.

(** No clause for a term that is neither [nil] nor a struct. *)
Definition stringify_struct (term : ETerm) : option ETerm :=
  match term with
  | EAtom a_nil => Some nil
  | EStruct fields => Some (EMap fields)
  | _ => None
  end.

Definition nif_entries (config : t) (peer_score thresholds : ETerm) : list (string * ETerm) :=
   [("keypair_bytes", Identity.keypair_bytes (identity config));
    ("listen_addrs", Network.listen_addrs (network config));
    ("idle_connection_timeout_secs", Network.idle_connection_timeout_secs (network config));
    ("max_pending_incoming", Network.max_pending_incoming (network config));
    ("max_pending_outgoing", Network.max_pending_outgoing (network config));
    ("max_established_incoming", Network.max_established_incoming (network config));
    ("max_established_outgoing", Network.max_established_outgoing (network config));
    ("max_established_per_peer", Network.max_established_per_peer (network config));
    ("memory_max_percentage", Network.memory_max_percentage (network config));
    ("enable_websocket", Network.enable_websocket (network config));
    ("bootstrap_peers", Discovery.bootstrap_peers (discovery config));
    ("enable_mdns", Discovery.enable_mdns (discovery config));
    ("enable_kademlia", Discovery.enable_kademlia (discovery config));
    ("mdns_auto_dial", Discovery.mdns_auto_dial (discovery config));
    ("gossipsub_topics", Gossipsub.topics (gossipsub config));
    ("gossipsub_mesh_n", Gossipsub.mesh_n (gossipsub config));
    ("gossipsub_mesh_n_low", Gossipsub.mesh_n_low (gossipsub config));
    ("gossipsub_mesh_n_high", Gossipsub.mesh_n_high (gossipsub config));
    ("gossipsub_gossip_lazy", Gossipsub.gossip_lazy (gossipsub config));
    ("gossipsub_max_transmit_size", Gossipsub.max_transmit_size (gossipsub config));
    ("gossipsub_heartbeat_interval_ms", Gossipsub.heartbeat_interval_ms (gossipsub config));
    ("gossipsub_peer_score", peer_score);
    ("gossipsub_thresholds", thresholds);
    ("peer_score_disabled", Gossipsub.peer_score_disabled (gossipsub config));
    ("rpc_protocol_name", RequestResponse.protocol_name (request_response config));
    ("rpc_request_timeout_secs", RequestResponse.request_timeout_secs (request_response config));
    ("enable_relay", Relay.enable (relay config));
    ("enable_relay_server", Relay.enable_server (relay config));
    ("enable_autonat", Relay.enable_autonat (relay config));
    ("enable_autonat_server", Relay.enable_autonat_server (relay config));
    ("enable_upnp", Relay.enable_upnp (relay config));
    ("relay_max_reservations", Relay.max_reservations (relay config));
    ("relay_max_circuits", Relay.max_circuits (relay config));
    ("relay_max_circuit_duration_secs", Relay.max_circuit_duration_secs (relay config));
    ("relay_max_circuit_bytes", Relay.max_circuit_bytes (relay config));
    ("enable_rendezvous_client", Rendezvous.enable_client (rendezvous config));
    ("enable_rendezvous_server", Rendezvous.enable_server (rendezvous config))].

Definition to_nif_map (config : t) : option (gmap string ETerm) :=
  peer_score ← stringify_struct (Gossipsub.peer_score (gossipsub config));
  thresholds ← stringify_struct (Gossipsub.thresholds (gossipsub config));
  Some (list_to_map (nif_entries config peer_score thresholds)).
End NodeConfig.

Import NodeConfig.

(** ** Lemmas on keyword lists *)
Lemma field_cons kv (l : Keywords) k d :
  field (kv :: l) k d = field l k (if bool_decide (kv.1 = k) then kv.2 else d).
Proof. done. Qed.

Lemma field_absent (l : Keywords) k d : k ∉ map fst l -> field l k d = d.
Proof.
  revert d. induction l as [|[k' v] l IH]; cbn [map fst]; intros d Hk; [done|]. rewrite field_cons. cbn [fst].
  rewrite bool_decide_eq_false_2 by set_solver. apply IH. set_solver.
Qed.

Lemma field_given (l : Keywords) k v d : NoDup (map fst l) -> (k, v) ∈ l -> field l k d = v.
Proof.
  revert d. induction l as [|[k' v'] l IH]; cbn [map fst]; intros d; [by intros _ ?%elem_of_nil|].
  intros [Hk Hn]%NoDup_cons [[= <- <-]|Hin]%elem_of_cons; rewrite field_cons; cbn [fst snd].
  - by rewrite bool_decide_eq_true_2, field_absent.
  - by apply IH.
Qed.

Lemma keyword_fetch_Some (l : Keywords) k v : keyword_fetch l k = Some v -> (k, v) ∈ l.
Proof.
  induction l as [|[k' v'] l IH]; cbn; [done|]. case_bool_decide as E; [intros [= ->]; subst; by left|].
  intros ?%IH. by right.
Qed.

Lemma keyword_fetch_None (l : Keywords) k : keyword_fetch l k = None -> k ∉ map fst l.
Proof.
  induction l as [|[k' v'] l IH]; cbn; [set_solver|]. case_bool_decide as E; [done|].
  intros ?%IH. set_solver.
Qed.

Lemma field_take (opts : Keywords) keys k d :
  NoDup (map fst opts) -> k ∈ keys ->
  field (keyword_take opts keys) k d = default d (keyword_fetch opts k).
Proof.
  intros Hn Hk. assert (map fst (keyword_take opts keys) `sublist_of` map fst opts) as Hs
    by apply (fmap_sublist fst), sublist_filter.
  destruct (keyword_fetch opts k) as [v|] eqn:E; cbn.
  - apply field_given; [by eapply sublist_NoDup|]. apply list_elem_of_filter. split; [done|].
    by apply keyword_fetch_Some.
  - apply field_absent. intros Hin. apply keyword_fetch_None in E. apply E.
    by eapply elem_of_sublist.
Qed.

Lemma take_with_renames_app (opts : Keywords) l l' :
  take_with_renames opts (l ++ l') =
    foldl (fun acc '(flat_key, name) =>
      match keyword_fetch opts flat_key with Some value => (name, value) :: acc | None => acc end)
      (take_with_renames opts l) l'.
Proof. apply foldl_app. Qed.

(** The renamed options, newest first. *)
Lemma take_with_renames_omap (opts : Keywords) (renames : list (string * string)) :
  take_with_renames opts renames =
    reverse (omap (fun '(flat_key, name) => (name,.) <$> keyword_fetch opts flat_key) renames).
Proof.
  induction renames as [|[k n] l IH] using rev_ind; [done|].
  rewrite take_with_renames_app, IH, omap_app, reverse_app. cbn.
  by destruct (keyword_fetch opts k).
Qed.

Lemma omap_renames_fst (opts : Keywords) (renames : list (string * string)) :
  map fst (omap (fun '(flat_key, name) => (name,.) <$> keyword_fetch opts flat_key) renames)
    `sublist_of` map snd renames.
Proof.
  induction renames as [|[k n] l IH]; cbn; [constructor|].
  destruct (keyword_fetch opts k); cbn; [by apply sublist_skip|by apply sublist_cons].
Qed.

Lemma snd_inj_elem {A B} (l : list (A * B)) a1 a2 b :
  NoDup (map snd l) -> (a1, b) ∈ l -> (a2, b) ∈ l -> a1 = a2.
Proof.
  induction l as [|[a b'] l IH]; cbn [map snd]; [by intros _ ?%elem_of_nil|].
  intros [Hb Hn]%NoDup_cons [E1|H1]%elem_of_cons [E2|H2]%elem_of_cons; simplify_eq;
    [done| | |by eapply IH].
  - destruct Hb. apply list_elem_of_fmap. eexists; split; [|exact H2]; done.
  - destruct Hb. apply list_elem_of_fmap. eexists; split; [|exact H1]; done.
Qed.

Lemma field_renamed (opts : Keywords) (renames : list (string * string)) k name d :
  NoDup (map snd renames) -> (k, name) ∈ renames ->
  field (take_with_renames opts renames) name d = default d (keyword_fetch opts k).
Proof.
  intros Hn Hk. rewrite take_with_renames_omap. pose proof (omap_renames_fst opts renames) as Hs.
  destruct (keyword_fetch opts k) as [v|] eqn:E; cbn.
  - apply field_given.
    + change (map fst) with (fmap (M:=list) (@fst string ETerm)). rewrite fmap_reverse.
      rewrite reverse_Permutation. by eapply sublist_NoDup.
    + apply elem_of_reverse, list_elem_of_omap. exists (k, name). by rewrite E.
  - apply field_absent. rewrite list_elem_of_fmap. intros ([n v] & -> & Hin).
    apply elem_of_reverse, list_elem_of_omap in Hin as ([k' n'] & Hin & (w & Ew & [= -> ->])%fmap_Some).
    cbn in Hk. assert (k' = k) as -> by (by eapply snd_inj_elem). congruence.
Qed.

(** ** The options and their native keys *)

(** The key under which an option travels; the state path does not. *)
Definition nif_key (option_key : string) : string :=
  if bool_decide (option_key = "gossipsub_peer_score_disabled") then "peer_score_disabled" else option_key.

Definition scoring_keys : list string := ["gossipsub_peer_score"; "gossipsub_thresholds"].
Definition sent_keys : list string := filter (fun k => k <> "dht_state_path") known_keys.

Definition option_term (k : string) (v : ETerm) : option ETerm :=
  if bool_decide (k ∈ scoring_keys) then stringify_struct v else Some v.

(** What an option given to [new] sends to the native side. *)
Definition sent_option (opts : Keywords) (k : string) : option ETerm :=
  keyword_fetch opts k ≫= option_term k.

(** The map a caller would write by hand: the given options only. *)
Definition given_options (opts : Keywords) : gmap string ETerm :=
  list_to_map (omap (fun k => (nif_key k,.) <$> sent_option opts k) sent_keys).

(** The entries of the map in the order of the options. *)
Definition sent_defaults : list (string * ETerm) :=
  [("keypair_bytes", nil);
   ("listen_addrs", EList [EStr "/ip4/0.0.0.0/tcp/0"; EStr "/ip4/0.0.0.0/udp/0/quic-v1"]);
   ("idle_connection_timeout_secs", EInt 60); ("max_pending_incoming", EInt 128);
   ("max_pending_outgoing", EInt 64); ("max_established_incoming", EInt 256);
   ("max_established_outgoing", EInt 256); ("max_established_per_peer", EInt 2);
   ("memory_max_percentage", float 9 10); ("enable_websocket", EBool false);
   ("bootstrap_peers", EList []); ("enable_mdns", EBool true); ("enable_kademlia", EBool true);
   ("mdns_auto_dial", EBool true); ("gossipsub_topics", EList []); ("gossipsub_mesh_n", EInt 6);
   ("gossipsub_mesh_n_low", EInt 4); ("gossipsub_mesh_n_high", EInt 12); ("gossipsub_gossip_lazy", EInt 6);
   ("gossipsub_max_transmit_size", EInt 65536); ("gossipsub_heartbeat_interval_ms", EInt 1000);
   ("gossipsub_peer_score", nil); ("gossipsub_thresholds", nil);
   ("gossipsub_peer_score_disabled", EBool false);
   ("rpc_protocol_name", EStr "/ex-libp2p/rpc/1.0.0"); ("rpc_request_timeout_secs", EInt 30);
   ("enable_relay", EBool false); ("enable_relay_server", EBool false); ("enable_autonat", EBool false);
   ("enable_autonat_server", EBool false); ("enable_upnp", EBool false); ("relay_max_reservations", EInt 128);
   ("relay_max_circuits", EInt 16); ("relay_max_circuit_duration_secs", EInt 120);
   ("relay_max_circuit_bytes", EInt 131072); ("enable_rendezvous_client", EBool false);
   ("enable_rendezvous_server", EBool false)].

Ltac closed_decide := apply (bool_decide_unpack _); vm_compute; exact I.

Ltac find_elem := repeat first [by apply list_elem_of_here | apply list_elem_of_further].

Lemma new_Some opts c :
  new opts = Some c -> Forall (fun k => k ∈ known_keys) (map fst opts) /\ NoDup (map fst opts) /\ c =
  {|
    identity := Identity.mk (default nil (keyword_fetch opts "keypair_bytes"));
    network := Network.struct (keyword_take opts network_keys);
    discovery := Discovery.struct (keyword_take opts discovery_keys);
    gossipsub := Gossipsub.struct (take_with_renames opts gossipsub_renames);
    request_response := RequestResponse.struct (take_with_renames opts request_response_renames);
    relay := Relay.struct (take_with_renames opts relay_renames);
    rendezvous := Rendezvous.struct (take_with_renames opts rendezvous_renames) |}.
Proof.
  unfold new, keyword_validate. case_bool_decide as Hv; [|done]. intros [= <-]. by destruct Hv.
Qed.

(** What [new] leaves in a field, by the list its key is in. *)
Lemma kept_take opts keys k d :
  NoDup (map fst opts) -> bool_decide (k ∈ keys) = true ->
  field (keyword_take opts keys) k d = default d (keyword_fetch opts k).
Proof. intros Hn Hk%bool_decide_eq_true. by apply field_take. Qed.

Lemma kept_renamed opts renames k name d :
  bool_decide (NoDup (map snd renames) /\ (k, name) ∈ renames) = true ->
  field (take_with_renames opts renames) name d = default d (keyword_fetch opts k).
Proof. intros [Hn Hk]%bool_decide_eq_true. by apply field_renamed. Qed.

Ltac kept :=
  first [ reflexivity
        | apply kept_take; [assumption|vm_compute; reflexivity]
        | apply kept_renamed; vm_compute; reflexivity ].

Lemma scoring_fields opts c :
  new opts = Some c ->
  Gossipsub.peer_score (gossipsub c) = default nil (keyword_fetch opts "gossipsub_peer_score") /\
  Gossipsub.thresholds (gossipsub c) = default nil (keyword_fetch opts "gossipsub_thresholds").
Proof. intros (_ & Hn & ->)%new_Some. split; cbn [gossipsub Gossipsub.struct Gossipsub.peer_score Gossipsub.thresholds]; kept. Qed.

Lemma nif_entries_keys c ps th : NoDup (map fst (nif_entries c ps th)).
Proof. cbn [nif_entries map fst]. closed_decide. Qed.

Lemma to_nif_map_Some c m :
  to_nif_map c = Some m ->
  exists ps th,
    stringify_struct (Gossipsub.peer_score (gossipsub c)) = Some ps /\
    stringify_struct (Gossipsub.thresholds (gossipsub c)) = Some th /\
    m = list_to_map (nif_entries c ps th) /\
    forall k v, (k, v) ∈ nif_entries c ps th -> m !! k = Some v.
Proof.
  unfold to_nif_map. intros (ps & Hps & (th & Hth & E)%bind_Some)%bind_Some.
  apply (inj Some) in E. exists ps, th. split_and!; [done..|].
  intros k v Hin. rewrite <-E. apply elem_of_list_to_map_1; [apply nif_entries_keys|done].
Qed.

Section sent.
Context (opts : Keywords) (m : gmap string ETerm) (entries : list (string * ETerm)).
Context (Hm : forall k v, (k, v) ∈ entries -> m !! k = Some v).

Lemma sent_plain k d v :
  bool_decide (k ∈ scoring_keys) = false -> (nif_key k, v) ∈ entries -> v = default d (keyword_fetch opts k) ->
  m !! nif_key k = match keyword_fetch opts k with Some v => option_term k v | None => Some d end.
Proof using Hm.
  intros Hk Hin Hv. rewrite (Hm _ _ Hin), Hv. unfold option_term. rewrite Hk.
  by destruct (keyword_fetch opts k).
Qed.

Lemma sent_scoring k v :
  bool_decide (k ∈ scoring_keys) = true -> (nif_key k, v) ∈ entries ->
  stringify_struct (default nil (keyword_fetch opts k)) = Some v ->
  m !! nif_key k = match keyword_fetch opts k with Some v => option_term k v | None => Some nil end.
Proof using Hm.
  intros Hk Hin Hv. rewrite (Hm _ _ Hin), <-Hv. unfold option_term. rewrite Hk.
  by destruct (keyword_fetch opts k).
Qed.
End sent.

Ltac in_entries :=
  match goal with |- (nif_key ?k, _) ∈ _ =>
    let k' := eval vm_compute in (nif_key k) in change (nif_key k) with k' end;
  cbn [nif_entries]; find_elem.

Ltac sent_entry :=
  first
    [ eapply sent_plain; [eassumption|vm_compute; reflexivity|in_entries|kept]
    | eapply sent_scoring; [eassumption|vm_compute; reflexivity|in_entries|assumption] ].

(** What the map holds for each option. *)
Lemma sent_entries opts c m :
  new opts = Some c -> to_nif_map c = Some m ->
  Forall (fun kd => m !! nif_key kd.1 =
    match keyword_fetch opts kd.1 with Some v => option_term kd.1 v | None => Some kd.2 end) sent_defaults.
Proof.
  intros Hc (ps & th & Hps & Hth & _ & Hm)%to_nif_map_Some.
  destruct (scoring_fields opts c Hc) as [Eps Eth]. rewrite Eps in Hps. rewrite Eth in Hth. clear Eps Eth.
  apply new_Some in Hc as (_ & Hn & ->).
  unfold sent_defaults. repeat (apply Forall_cons; split; [cbn [fst snd]; sent_entry|]). by apply Forall_nil.
Qed.

Lemma sent_defaults_keys : sent_keys = map fst sent_defaults.
Proof. vm_compute. reflexivity. Qed.

Lemma sent_key_default k : k ∈ sent_keys -> exists d, (k, d) ∈ sent_defaults.
Proof. rewrite sent_defaults_keys. intros ([k' d] & -> & Hk)%list_elem_of_fmap. by exists d. Qed.

Lemma option_term_sent opts c m k v :
  new opts = Some c -> to_nif_map c = Some m -> keyword_fetch opts k = Some v -> is_Some (option_term k v).
Proof.
  intros Hc (ps & th & Hps & Hth & _ & _)%to_nif_map_Some Hv.
  destruct (scoring_fields opts c Hc) as [Eps Eth]. rewrite Eps in Hps. rewrite Eth in Hth.
  unfold option_term. case_bool_decide as Hk; [|done].
  apply elem_of_cons in Hk as [->|[->|[]%elem_of_nil]%elem_of_cons]; rewrite Hv in *; by eexists.
Qed.

Lemma NoDup_map_inj {A B} (f : A -> B) l x y :
  NoDup (map f l) -> x ∈ l -> y ∈ l -> f x = f y -> x = y.
Proof.
  intros Hn Hx Hy E. apply (snd_inj_elem (map (fun x => (x, f x)) l) x y (f x)).
  - by rewrite map_map.
  - apply list_elem_of_fmap. by exists x.
  - apply list_elem_of_fmap. exists y. by rewrite E.
Qed.

Lemma given_options_lookup opts k : k ∈ sent_keys -> given_options opts !! nif_key k = sent_option opts k.
Proof.
  intros Hk. unfold given_options.
  assert (NoDup (map nif_key sent_keys)) as Hn by closed_decide.
  assert (map fst (omap (fun k => (nif_key k,.) <$> sent_option opts k) sent_keys) `sublist_of` map nif_key sent_keys) as Hs.
  { clear Hn Hk. induction sent_keys as [|k' l IH]; cbn; [constructor|].
    destruct (sent_option opts k'); cbn; [by apply sublist_skip|by apply sublist_cons]. }
  destruct (sent_option opts k) as [v|] eqn:E.
  - apply elem_of_list_to_map_1; [by eapply sublist_NoDup|]. apply list_elem_of_omap. exists k. by rewrite E.
  - apply not_elem_of_list_to_map_1. rewrite list_elem_of_fmap. intros ([n v] & Hnk & Hin). cbn in Hnk. subst n.
    apply list_elem_of_omap in Hin as (k' & Hk' & (w & Ew & [= E1 E2])%fmap_Some).
    assert (k' = k) as ->; [|congruence].
    apply (NoDup_map_inj nif_key sent_keys); done.
Qed.

Lemma stringify_default opts k :
  stringify_struct (default nil (keyword_fetch opts k)) = None ->
  exists v, keyword_fetch opts k = Some v /\ stringify_struct v = None.
Proof. destruct (keyword_fetch opts k) as [v|]; cbn; [by exists v|done]. Qed.

(** ** Properties *)

(** C29: Options reach the native side: [new] accepts exactly the lists whose
    keys are known and given once; for an accepted list, [to_nif_map] raises
    only if a scoring option is neither [nil] nor a struct, and otherwise every
    known option but the state path arrives under its native key, with the
    given value or the default, and nothing else does. *)
Theorem options_reach_native opts :
  (is_Some (new opts) <-> Forall (fun k => k ∈ known_keys) (map fst opts) /\ NoDup (map fst opts)) /\
  (forall c, new opts = Some c ->
    (to_nif_map c = None <-> exists k v, k ∈ scoring_keys /\ keyword_fetch opts k = Some v /\ stringify_struct v = None) /\
    forall m, to_nif_map c = Some m ->
      dom m = list_to_set (map nif_key sent_keys) /\
      forall k d, (k, d) ∈ sent_defaults ->
        m !! nif_key k = Some (default d (sent_option opts k))).
Proof.
  split.
  { unfold new, keyword_validate. case_bool_decide as Hv; cbn; [by split|]. split; [by intros []|done]. }
  intros c Hc. split.
  - destruct (scoring_fields opts c Hc) as [Eps Eth]. unfold to_nif_map. rewrite Eps, Eth. split.
    + destruct (stringify_struct (default nil (keyword_fetch opts "gossipsub_peer_score"))) eqn:E1; cbn.
      * destruct (stringify_struct (default nil (keyword_fetch opts "gossipsub_thresholds"))) eqn:E2; cbn; [done|].
        apply stringify_default in E2 as (v & ? & ?). intros _.
        exists "gossipsub_thresholds", v. split_and!; [right; left|done..].
      * apply stringify_default in E1 as (v & ? & ?). intros _.
        exists "gossipsub_peer_score", v. split_and!; [left|done..].
    + intros (k & v & Hk & Hf & Hs).
      assert (stringify_struct (default nil (keyword_fetch opts k)) = None) as E by (by rewrite Hf).
      apply elem_of_cons in Hk as [->|[->|[]%elem_of_nil]%elem_of_cons]; rewrite E; [done|].
      by destruct (stringify_struct (default nil (keyword_fetch opts "gossipsub_peer_score"))).
  - intros m Hm. split.
    + destruct (to_nif_map_Some c m Hm) as (ps & th & _ & _ & -> & _).
      rewrite dom_list_to_map_L. f_equal.
    + intros k d Hk. pose proof (sent_entries opts c m Hc Hm) as Hs. rewrite Forall_forall in Hs.
      apply Hs in Hk. cbn in Hk. rewrite Hk. unfold sent_option.
      destruct (keyword_fetch opts k) as [v|] eqn:E; cbn; [|done].
      destruct (option_term_sent opts c m k v Hc Hm E) as [w Hw]. by rewrite Hw.
Qed.

(** ** The two sides' defaults *)
Section agreement.
Context (m given : gmap string ETerm).

(** [k] is in [m] as given, or with the default [dflt]. *)
Definition filled (k : string) (dflt : ETerm) : Prop := m !! k = Some (default dflt (given !! k)).

(** A getter of the native side cannot tell a default from a missing option. *)
Lemma same_value {A} (dec : ETerm -> option A) (d : A) k dflt :
  filled k dflt -> dec dflt = Some d -> default d (m !! k ≫= dec) = default d (given !! k ≫= dec).
Proof. unfold filled. intros -> Hd. destruct (given !! k); cbn; [done|]. by rewrite Hd. Qed.

Lemma same_usize (d : Z) k dflt :
  filled k dflt -> dec_u64 dflt = Some d -> as_u64 d = d -> get_usize m k d = get_usize given k d.
Proof.
  unfold filled, get_usize. intros -> Hd Hw. destruct (given !! k); cbn [default mbind option_bind]; [done|].
  rewrite Hd. cbn [fmap option_fmap option_map default]. done.
Qed.

Lemma same_option {A} (dec : ETerm -> option A) k dflt :
  filled k dflt -> dec dflt = None -> m !! k ≫= dec = given !! k ≫= dec.
Proof. unfold filled. intros -> Hd. by destruct (given !! k). Qed.

Lemma same_list k dflt :
  filled k dflt -> dec_string_list dflt = Some [] \/ is_Some (given !! k) ->
  get_string_list m k = get_string_list given k.
Proof.
  unfold filled, get_string_list. intros -> [Hd|[v ->]]; [|done]. destruct (given !! k); cbn [default]; [done|].
  by rewrite Hd.
Qed.

Definition filled_defaults : list (string * ETerm) :=
  Eval vm_compute in map (fun kd => (nif_key kd.1, kd.2)) sent_defaults.

Lemma from_map_filled :
  (forall k d, (k, d) ∈ filled_defaults -> filled k d) -> is_Some (given !! "listen_addrs") ->
  from_map m = from_map given.
Proof.
  intros Hs Hg. unfold from_map.
  rewrite !(same_list "listen_addrs" _ (Hs "listen_addrs" _ ltac:(find_elem))) by by right.
  repeat match goal with
  | |- context [get_string_list m ?k] =>
      rewrite (same_list k _ (Hs k _ ltac:(find_elem))) by by left
  | |- context [get_u64 m ?k ?d] =>
      rewrite (same_value dec_u64 d k _ (Hs k _ ltac:(find_elem)) eq_refl : get_u64 m k d = get_u64 given k d)
  | |- context [get_u32 m ?k ?d] =>
      rewrite (same_value dec_u32 d k _ (Hs k _ ltac:(find_elem)) eq_refl : get_u32 m k d = get_u32 given k d)
  | |- context [get_bool m ?k ?d] =>
      rewrite (same_value dec_bool d k _ (Hs k _ ltac:(find_elem)) eq_refl : get_bool m k d = get_bool given k d)
  | |- context [get_f64 m ?k ?d] =>
      rewrite (same_value dec_f64 d k _ (Hs k _ ltac:(find_elem)) eq_refl : get_f64 m k d = get_f64 given k d)
  | |- context [get_string m ?k ?d] =>
      rewrite (same_value dec_string d k _ (Hs k _ ltac:(find_elem)) eq_refl : get_string m k d = get_string given k d)
  | |- context [get_usize m ?k ?d] =>
      rewrite (same_usize d k _ (Hs k _ ltac:(find_elem)) eq_refl eq_refl)
  | |- context [get_binary m ?k] =>
      rewrite (same_option (fun t => if is_atom t then None else dec_binary t) k _
                 (Hs k _ ltac:(find_elem)) eq_refl : get_binary m k = get_binary given k)
  end.
  rewrite (same_option _ _ _ (Hs "gossipsub_peer_score" _ ltac:(find_elem)) eq_refl :
    get_peer_score m = get_peer_score given).
  rewrite (same_option _ _ _ (Hs "gossipsub_thresholds" _ ltac:(find_elem)) eq_refl :
    get_thresholds m = get_thresholds given).
  reflexivity.
Qed.
End agreement.

Lemma options_filled opts c m :
  new opts = Some c -> to_nif_map c = Some m ->
  forall k d, (k, d) ∈ filled_defaults -> filled m (given_options opts) k d.
Proof.
  intros Hc Hm nk d Hnk.
  change filled_defaults with (map (fun kd => (nif_key kd.1, kd.2)) sent_defaults) in Hnk.
  apply list_elem_of_fmap in Hnk as ([k d'] & [= -> ->] & Hk). unfold filled. cbn [fst snd].
  rewrite given_options_lookup.
  2: { rewrite sent_defaults_keys. apply list_elem_of_fmap. by exists (k, d'). }
  pose proof (sent_entries opts c m Hc Hm) as Hs. rewrite Forall_forall in Hs.
  apply Hs in Hk. cbn [fst snd] in Hk. rewrite Hk. unfold sent_option.
  destruct (keyword_fetch opts k) as [v|] eqn:E; cbn; [|done].
  destruct (option_term_sent opts c m k v Hc Hm E) as [w Hw]. by rewrite Hw.
Qed.

(** C6: The defaults of the two sides agree: for every accepted list of options
    that includes the listen addresses, the map with all of Elixir's defaults
    filled in and the map of the given options alone are the same configuration
    to the native side. *)
Theorem defaults_agree opts c m :
  new opts = Some c -> to_nif_map c = Some m -> is_Some (keyword_fetch opts "listen_addrs") ->
  from_map m = from_map (given_options opts).
Proof.
  intros Hc Hm [v Hl]. apply from_map_filled; [by eapply options_filled|].
  change "listen_addrs" with (nif_key "listen_addrs"). rewrite given_options_lookup by closed_decide.
  unfold sent_option. rewrite Hl. by exists v.
Qed.

(** ** Configurations of both sides *)
Definition binary_or_nil (b : option bytes) : ETerm := match b with Some b => EBin b | None => nil end.

Definition peer_score_struct (p : PeerScoreConfig) : ETerm :=
  EStruct [("ip_colocation_factor_weight", EFloat (ip_colocation_factor_weight p));
    ("ip_colocation_factor_threshold", EFloat (ip_colocation_factor_threshold p));
    ("behaviour_penalty_weight", EFloat (behaviour_penalty_weight p));
    ("behaviour_penalty_decay", EFloat (behaviour_penalty_decay p))].

Definition thresholds_struct (t : ThresholdsConfig) : ETerm :=
  EStruct [("gossip_threshold", EFloat (gossip_threshold t));
    ("publish_threshold", EFloat (publish_threshold t));
    ("graylist_threshold", EFloat (graylist_threshold t));
    ("accept_px_threshold", EFloat (accept_px_threshold t));
    ("opportunistic_graft_threshold", EFloat (opportunistic_graft_threshold t))].

Definition struct_or_nil {A} (f : A -> ETerm) (o : option A) : ETerm :=
  match o with Some a => f a | None => nil end.

(** The Elixir configuration whose fields hold, each in its own type, what the
    native configuration [c] holds. *)
Definition elixir_config (c : Config.NodeConfig) (dht_state_path : ETerm) : NodeConfig.t := {|
  identity := Identity.mk (binary_or_nil (Config.keypair_bytes c));
  network := {|
    Network.listen_addrs := EList (map EStr (Config.listen_addrs c));
    Network.idle_connection_timeout_secs := EInt (Config.idle_connection_timeout_secs c);
    Network.max_pending_incoming := EInt (Config.max_pending_incoming c);
    Network.max_pending_outgoing := EInt (Config.max_pending_outgoing c);
    Network.max_established_incoming := EInt (Config.max_established_incoming c);
    Network.max_established_outgoing := EInt (Config.max_established_outgoing c);
    Network.max_established_per_peer := EInt (Config.max_established_per_peer c);
    Network.memory_max_percentage := EFloat (Config.memory_max_percentage c);
    Network.enable_websocket := EBool (Config.enable_websocket c) |};
  discovery := {|
    Discovery.bootstrap_peers := EList (map EStr (Config.bootstrap_peers c));
    Discovery.enable_mdns := EBool (Config.enable_mdns c);
    Discovery.enable_kademlia := EBool (Config.enable_kademlia c);
    Discovery.mdns_auto_dial := EBool (Config.mdns_auto_dial c);
    Discovery.dht_state_path := dht_state_path |};
  gossipsub := {|
    Gossipsub.topics := EList (map EStr (Config.gossipsub_topics c));
    Gossipsub.mesh_n := EInt (Config.gossipsub_mesh_n c);
    Gossipsub.mesh_n_low := EInt (Config.gossipsub_mesh_n_low c);
    Gossipsub.mesh_n_high := EInt (Config.gossipsub_mesh_n_high c);
    Gossipsub.gossip_lazy := EInt (Config.gossipsub_gossip_lazy c);
    Gossipsub.max_transmit_size := EInt (Config.gossipsub_max_transmit_size c);
    Gossipsub.heartbeat_interval_ms := EInt (Config.gossipsub_heartbeat_interval_ms c);
    Gossipsub.peer_score := struct_or_nil peer_score_struct (Config.peer_score c);
    Gossipsub.thresholds := struct_or_nil thresholds_struct (Config.thresholds c);
    Gossipsub.peer_score_disabled := EBool (Config.peer_score_disabled c) |};
  request_response := {|
    RequestResponse.protocol_name := EStr (Config.rpc_protocol_name c);
    RequestResponse.request_timeout_secs := EInt (Config.rpc_request_timeout_secs c) |};
  relay := {|
    Relay.enable := EBool (Config.enable_relay c);
    Relay.enable_server := EBool (Config.enable_relay_server c);
    Relay.enable_autonat := EBool (Config.enable_autonat c);
    Relay.enable_autonat_server := EBool (Config.enable_autonat_server c);
    Relay.enable_upnp := EBool (Config.enable_upnp c);
    Relay.max_reservations := EInt (Config.relay_max_reservations c);
    Relay.max_circuits := EInt (Config.relay_max_circuits c);
    Relay.max_circuit_duration_secs := EInt (Config.relay_max_circuit_duration_secs c);
    Relay.max_circuit_bytes := EInt (Config.relay_max_circuit_bytes c) |};
  rendezvous := {|
    Rendezvous.enable_client := EBool (Config.enable_rendezvous_client c);
    Rendezvous.enable_server := EBool (Config.enable_rendezvous_server c) |} |}.

Section read.
Context (m : gmap string ETerm) (k : string).

Lemma read_list l : m !! k = Some (EList (map EStr l)) -> get_string_list m k = Ok l.
Proof.
  unfold get_string_list. intros ->. cbn. replace (mapM _ _) with (Some l); [done|].
  induction l as [|s l IH]; cbn; [done|]. by rewrite <-IH.
Qed.
Lemma read_string s d : m !! k = Some (EStr s) -> get_string m k d = s.
Proof. unfold get_string. by intros ->. Qed.
Lemma read_bool b d : m !! k = Some (EBool b) -> get_bool m k d = b.
Proof. unfold get_bool. by intros ->. Qed.
Lemma read_f64 f d : m !! k = Some (EFloat f) -> get_f64 m k d = f.
Proof. unfold get_f64. by intros ->. Qed.
Lemma read_u64 z d : m !! k = Some (EInt z) -> in_width 64 z -> get_u64 m k d = z.
Proof. unfold get_u64. intros -> Hz. cbn. by rewrite decide_True. Qed.
Lemma read_u32 z d : m !! k = Some (EInt z) -> in_width 32 z -> get_u32 m k d = z.
Proof. unfold get_u32. intros -> Hz. cbn. by rewrite decide_True. Qed.
Lemma read_usize z d : m !! k = Some (EInt z) -> in_width 64 z -> get_usize m k d = z.
Proof. unfold get_usize. intros -> Hz. cbn. rewrite decide_True by done. cbn. by apply wrap_small. Qed.
Lemma read_binary b : m !! k = Some (binary_or_nil b) -> get_binary m k = b.
Proof. unfold get_binary. intros ->. by destruct b. Qed.
End read.

Definition stringified {A} (f : A -> ETerm) (o : option A) : ETerm :=
  match stringify_struct (struct_or_nil f o) with Some t => t | None => nil end.

Lemma read_peer_score (m : gmap string ETerm) p :
  m !! "gossipsub_peer_score" = Some (stringified peer_score_struct p) -> get_peer_score m = p.
Proof. unfold get_peer_score. intros ->. destruct p as [[]|]; [|done]. reflexivity. Qed.

Lemma read_thresholds (m : gmap string ETerm) t :
  m !! "gossipsub_thresholds" = Some (stringified thresholds_struct t) -> get_thresholds m = t.
Proof. unfold get_thresholds. intros ->. destruct t as [[]|]; [|done]. reflexivity. Qed.

Ltac written := cbn [nif_entries elixir_config]; find_elem.

(** C30: A configuration survives the crossing: for every native configuration
    whose integers fit their fields there is an Elixir configuration, field by
    field the same, whose map the native side reads back as exactly that
    configuration; so each field is read from the key and in the type it is
    written under, whatever the state path. *)
Theorem config_survives_crossing (c : Config.NodeConfig) dht_state_path :
  config_wf c ->
  from_map <$> to_nif_map (elixir_config c dht_state_path) = Some (Ok c).
Proof.
  intros [H64 H32].
  repeat match goal with H : Forall _ (_ :: _) |- _ => apply Forall_cons in H as [? H] end.
  destruct (to_nif_map (elixir_config c dht_state_path)) as [m|] eqn:Em.
  2: { exfalso. revert Em. unfold to_nif_map. cbn. by destruct (peer_score c), (thresholds c). }
  apply to_nif_map_Some in Em as (ps & th & Hps & Hth & _ & Hm).
  cbn [elixir_config gossipsub Gossipsub.peer_score Gossipsub.thresholds] in Hps, Hth.
  assert (ps = stringified peer_score_struct (peer_score c)) as -> by (unfold stringified; by rewrite Hps).
  assert (th = stringified thresholds_struct (thresholds c)) as -> by (unfold stringified; by rewrite Hth).
  clear Hps Hth. cbn [fmap option_fmap option_map]. f_equal. unfold from_map.
  repeat match goal with
  | |- context [get_string_list m ?k] => erewrite (read_list m k) by (apply Hm; written)
  | |- context [get_string m ?k ?d] => erewrite (read_string m k _ d) by (apply Hm; written)
  | |- context [get_bool m ?k ?d] => erewrite (read_bool m k _ d) by (apply Hm; written)
  | |- context [get_f64 m ?k ?d] => erewrite (read_f64 m k _ d) by (apply Hm; written)
  | |- context [get_u64 m ?k ?d] => erewrite (read_u64 m k _ d); [|apply Hm; written|assumption]
  | |- context [get_u32 m ?k ?d] => erewrite (read_u32 m k _ d); [|apply Hm; written|assumption]
  | |- context [get_usize m ?k ?d] => erewrite (read_usize m k _ d); [|apply Hm; written|assumption]
  | |- context [get_binary m ?k] => erewrite (read_binary m k) by (apply Hm; written)
  end.
  rewrite (read_peer_score m (peer_score c)) by (apply Hm; written).
  rewrite (read_thresholds m (thresholds c)) by (apply Hm; written).
  by destruct c.
Qed.

(** ** Witnesses *)
Definition sim_options : Keywords :=
  [("listen_addrs", EList [EStr "/ip4/127.0.0.1/tcp/4001"]); ("gossipsub_peer_score_disabled", EBool true);
   ("gossipsub_thresholds", EStruct [("gossip_threshold", float (-10) 1)]); ("dht_state_path", EStr "/tmp/dht")].

Definition sim_config : NodeConfig.t := {|
    identity := Identity.mk nil;
    network := Network.struct (keyword_take sim_options network_keys);
    discovery := Discovery.struct (keyword_take sim_options discovery_keys);
    gossipsub := Gossipsub.struct (take_with_renames sim_options gossipsub_renames);
    request_response := RequestResponse.struct [];
    relay := Relay.struct [];
    rendezvous := Rendezvous.struct [] |}.

Definition sim_map : gmap string ETerm :=
  list_to_map (nif_entries sim_config nil (EMap [("gossip_threshold", float (-10) 1)])).

Lemma sim_config_new : new sim_options = Some sim_config.
Proof. vm_compute. reflexivity. Qed.

Lemma sim_config_map : to_nif_map sim_config = Some sim_map.
Proof.
  assert (stringify_struct (Gossipsub.peer_score (gossipsub sim_config)) = Some nil) as E1
    by (vm_compute; reflexivity).
  assert (stringify_struct (Gossipsub.thresholds (gossipsub sim_config)) =
    Some (EMap [("gossip_threshold", float (-10) 1)])) as E2 by (vm_compute; reflexivity).
  unfold to_nif_map. rewrite E1, E2. reflexivity.
Qed.

Lemma defaults_agree_witness : from_map sim_map = from_map (given_options sim_options).
Proof.
  apply (defaults_agree sim_options sim_config sim_map sim_config_new sim_config_map).
  vm_compute. by eexists.
Defined.

Lemma options_reach_native_witness :
  new sim_options = Some sim_config /\
  sim_map !! "peer_score_disabled" = Some (EBool true).
Proof.
  split; [exact sim_config_new|].
  destruct (options_reach_native sim_options) as [_ Hr]. destruct (Hr sim_config sim_config_new) as [_ Hs].
  destruct (Hs sim_map sim_config_map) as [_ Hl].
  exact (Hl "gossipsub_peer_score_disabled" (EBool false) ltac:(find_elem)).
Defined.

Definition sim_native : Config.NodeConfig :=
  match from_map (<["keypair_bytes" := EBin []]> (<["gossipsub_peer_score" := EMap []]> ∅)) with
  | Ok c => c
  | _ => Config.mkNodeConfig None [] [] [] 0 0 0 0 0 0 false false false false false false false false false
           false false "" 0 0 0 0 0 0 0 (f64_of_Z 0) 0 0 0 0 false None None
  end.

Lemma config_survives_crossing_witness :
  from_map <$> to_nif_map (elixir_config sim_native nil) = Some (Ok sim_native).
Proof.
  apply (config_survives_crossing sim_native nil).
  split; repeat constructor; vm_compute; first [done|by intros].
Defined.
