(* ===== verification/NativeCalls.v ===== *)
(** * The native module as Elixir sees it

    Model of [lib/ex_libp2p/native/nif.ex]: calling a stub of the module runs
    the Rust function of the same name, and rustler translates arguments and
    results.  A function that returns an error returns [{:error, error}] to
    Elixir; an argument that does not decode raises.  [Ty] is the language of
    the [@spec] annotations, with a decision procedure; the property is that
    what the Rust functions return is what the annotations say. *)
From S2P Require Import Prelude Bytes Policy Terms NifError Libp2p Sim DhtState Commands Channel Nif StartNode.
From stdpp Require Import options.

(** ** Types of Elixir terms

    [T_struct] is a map or struct with atom keys. *)
Inductive Ty :=
  | T_atom (a : Atom)
  | T_any_atom
  | T_string
  | T_binary
  | T_non_neg_integer
  | T_float
  | T_any
  | T_struct
  | T_list (ty : Ty)
  | T_tuple (tys : list Ty)
  | T_or (ty1 ty2 : Ty).

Fixpoint has_type (ty : Ty) (t : ETerm) : bool :=
  match ty with
  | T_atom a => match t with EAtom b => bool_decide (a = b) | _ => false end
  | T_any_atom => match t with EAtom _ | EName _ | EBool _ => true | _ => false end
  | T_string => match t with EStr _ => true | _ => false end
  | T_binary => match t with EStr _ | EBin _ => true | _ => false end
  | T_non_neg_integer => match t with EInt z => 0 <=? z | _ => false end
  | T_float => match t with EFloat _ => true | _ => false end
  | T_any => true
  | T_struct => match t with EStruct _ => true | _ => false end
  | T_list ty => match t with EList l => forallb (has_type ty) l | _ => false end
  | T_tuple tys =>
      match t with
      | ETuple l =>
          (fix go (tys : list Ty) (l : list ETerm) : bool :=
             match tys, l with
             | [], [] => true
             | ty :: tys, t :: l => has_type ty t && go tys l
             | _, _ => false
             end) tys l
      | _ => false
      end
  | T_or ty1 ty2 => has_type ty1 t || has_type ty2 t
  end.

(** [nif_error()]. *)
Definition T_nif_error : Ty := T_tuple [T_any_atom; T_string].
Definition T_error (ty : Ty) : Ty := T_tuple [T_atom a_error; ty].
Definition T_ok : Ty := T_atom a_ok.
Definition T_ok_of (tys : list Ty) : Ty := T_tuple (T_ok :: tys).
Definition or_error (ty : Ty) : Ty := T_or ty (T_error T_nif_error).

Section native_calls.
Context `{!Protocols, !Metrics} {LocalPid : Type}.
(** Whether [OwnedBinary::new(n)] succeeds; whether a binary is valid UTF-8,
    as decoding a [String] argument requires. *)
Context (alloc : Z -> bool) (utf8 : string -> bool).

(** The stubs that take the handle of a node, with their other arguments. *)
Inductive NativeCall :=
  | N_stop_node
  | N_register_event_handler (pid : LocalPid)
  | N_get_peer_id
  | N_connected_peers
  | N_listening_addrs
  | N_dial (addr : string)
  | N_publish (topic : string) (data : bytes)
  | N_subscribe (topic : string)
  | N_unsubscribe (topic : string)
  | N_gossipsub_mesh_peers (topic : string)
  | N_gossipsub_all_peers
  | N_gossipsub_peer_score (peer_id : string)
  | N_dht_put (key value : bytes)
  | N_dht_get (key : bytes)
  | N_dht_find_peer (peer_id : string)
  | N_dht_provide (key : bytes)
  | N_dht_find_providers (key : bytes)
  | N_dht_bootstrap
  | N_kad_export_routing_table
  | N_kad_import_routing_table (data : bytes)
  | N_rpc_send_request (peer_id : string) (data : bytes)
  | N_rpc_send_response (channel_id : string) (data : bytes)
  | N_listen_via_relay (relay_addr : string)
  | N_bandwidth_stats
  | N_prometheus_metrics
  | N_rendezvous_register (namespace : string) (ttl : Z) (rendezvous_peer : string)
  | N_rendezvous_discover (namespace rendezvous_peer : string)
  | N_rendezvous_unregister (namespace rendezvous_peer : string).

(** The annotations of the callbacks, with [err] for the type of errors: in the
    behaviours of [native/*.ex] any term. *)
Definition callback_spec (err : Ty) (c : NativeCall) : Ty :=
  let or_error ty := T_or ty (T_error err) in
  match c with
  | N_stop_node | N_register_event_handler _ => T_ok
  | N_get_peer_id => T_string
  | N_connected_peers | N_listening_addrs => T_list T_string
  | N_gossipsub_mesh_peers _ | N_gossipsub_all_peers => or_error (T_ok_of [T_list T_string])
  | N_gossipsub_peer_score _ => or_error (T_ok_of [T_float])
  | N_kad_export_routing_table => or_error (T_ok_of [T_binary])
  | N_kad_import_routing_table _ => or_error (T_ok_of [T_non_neg_integer])
  | N_rpc_send_request _ _ => or_error (T_ok_of [T_string])
  | N_bandwidth_stats => or_error (T_ok_of [T_non_neg_integer; T_non_neg_integer])
  | N_prometheus_metrics => or_error (T_ok_of [T_string])
  | _ => or_error T_ok
  end.

(** The [@spec]s of [nif.ex]. *)
Definition native_spec : NativeCall -> Ty := callback_spec T_nif_error.

(** The arguments decode: strings are UTF-8, the [u64] is in range. *)
Definition arguments_ok (c : NativeCall) : bool :=
  match c with
  | N_dial s | N_publish s _ | N_subscribe s | N_unsubscribe s | N_gossipsub_mesh_peers s
  | N_gossipsub_peer_score s | N_dht_find_peer s | N_rpc_send_request s _ | N_rpc_send_response s _
  | N_listen_via_relay s => utf8 s
  | N_rendezvous_register ns ttl p => utf8 ns && bool_decide (in_width 64 ttl) && utf8 p
  | N_rendezvous_discover ns p | N_rendezvous_unregister ns p => utf8 ns && utf8 p
  | _ => true
  end.

Definition error_term (e : NifError) : ETerm := ETuple [EAtom a_error; NifError.encode e].

(** A function's result, translated by [enc], or the error tuple. *)
Fixpoint as_term {R} (enc : R -> ETerm) (p : Nif LocalPid R) : Nif LocalPid ETerm :=
  match p with
  | Done (Ok a) => Done (Ok (enc a))
  | Done (Err e) => Done (Ok (error_term e))
  | Done Panic => Done Panic
  | Oneshot t k => Oneshot t (fun tx => as_term enc (k tx))
  | TrySend cmd k => TrySend cmd (fun r => as_term enc (k r))
  | BlockingRecv t tx k => BlockingRecv t tx (fun v => as_term enc (k v))
  end.

Definition strings (l : list string) : ETerm := EList (map EStr l).
Definition pair_term {A} (enc : A -> ETerm) (r : Atom * A) : ETerm := ETuple [EAtom r.1; enc r.2].

Definition native_function (handle : NodeHandle) (c : NativeCall) : Nif LocalPid ETerm :=
  match c with
  | N_stop_node => as_term EAtom stop_node
  | N_register_event_handler pid => as_term EAtom (register_event_handler pid)
  | N_get_peer_id => as_term EStr (get_peer_id handle)
  | N_connected_peers => as_term strings connected_peers
  | N_listening_addrs => as_term strings listening_addrs
  | N_dial addr => as_term EAtom (dial addr)
  | N_publish topic data => as_term EAtom (publish topic data)
  | N_subscribe topic => as_term EAtom (subscribe topic)
  | N_unsubscribe topic => as_term EAtom (unsubscribe topic)
  | N_gossipsub_mesh_peers topic => as_term (pair_term strings) (gossipsub_mesh_peers topic)
  | N_gossipsub_all_peers => as_term (pair_term strings) gossipsub_all_peers
  | N_gossipsub_peer_score p => as_term (pair_term EFloat) (gossipsub_peer_score p)
  | N_dht_put key value => as_term EAtom (dht_put key value)
  | N_dht_get key => as_term EAtom (dht_get key)
  | N_dht_find_peer p => as_term EAtom (dht_find_peer p)
  | N_dht_provide key => as_term EAtom (dht_provide key)
  | N_dht_find_providers key => as_term EAtom (dht_find_providers key)
  | N_dht_bootstrap => as_term EAtom dht_bootstrap
  | N_kad_export_routing_table => as_term (pair_term EBin) (kad_export_routing_table alloc)
  | N_kad_import_routing_table data => as_term (pair_term EInt) (kad_import_routing_table data)
  | N_rpc_send_request p data => as_term (pair_term EStr) (rpc_send_request p data)
  | N_rpc_send_response id data => as_term EAtom (rpc_send_response id data)
  | N_listen_via_relay addr => as_term EAtom (listen_via_relay addr)
  | N_bandwidth_stats =>
      as_term (fun '(a, bin, bout) => ETuple [EAtom a; EInt bin; EInt bout]) bandwidth_stats
  | N_prometheus_metrics => as_term (pair_term EStr) (prometheus_metrics handle)
  | N_rendezvous_register ns ttl p => as_term EAtom (rendezvous_register ns ttl p)
  | N_rendezvous_discover ns p => as_term EAtom (rendezvous_discover ns p)
  | N_rendezvous_unregister ns p => as_term EAtom (rendezvous_unregister ns p)
  end.

(** A call of the module: [None] if it raises [ArgumentError]. *)
Definition native (handle : NodeHandle) (c : NativeCall) : Nif LocalPid (option ETerm) :=
  if arguments_ok c then t ← native_function handle c; mret (Some t) else mret None.

(** ** Every outcome of a program

    [always P p]: whatever the state of the command channel, and whatever is
    replied, [p] can only end in a result that satisfies [P].  Replies hold
    [u64] where Rust does. *)
Definition reply_wf (t : ReplyTy) : reply_val t -> Prop :=
  match t with
  | TBandwidth => fun v => in_width 64 v.1 /\ in_width 64 v.2
  | _ => fun _ => True
  end.

Fixpoint always {R} (P : Result NifError R -> Prop) (p : Nif LocalPid R) : Prop :=
  match p with
  | Done r => P r
  | Oneshot t k => forall tx, always P (k tx)
  | TrySend cmd k => forall r, always P (k r)
  | BlockingRecv t tx k => always P (k None) /\ forall v, reply_wf t v -> always P (k (Some v))
  end.

Lemma always_mono {R} (P Q : Result NifError R -> Prop) p :
  (forall r, P r -> Q r) -> always P p -> always Q p.
Proof. intros HPQ. induction p; cbn; naive_solver. Qed.

Lemma always_bind {R S} (P : Result NifError S -> Prop) (f : R -> Nif LocalPid S) p :
  always (fun r => match r with Ok a => always P (f a) | Err e => P (Err e) | Panic => P Panic end) p ->
  always P (p ≫= f).
Proof.
  unfold mbind, Nif_bind.
  induction p as [[a|e|]| | |t rx k IH]; cbn; [done..|naive_solver|naive_solver|].
  intros [H1 H2]. split; [by apply IH|]. intros v Hv. apply IH. by apply H2.
Qed.

Lemma always_as_term {R} (P : Result NifError ETerm -> Prop) (enc : R -> ETerm) p :
  always (fun r => match r with Ok a => P (Ok (enc a)) | Err e => P (Ok (error_term e)) | Panic => P Panic end) p ->
  always P (as_term enc p).
Proof.
  induction p as [[a|e|]| | |t rx k IH]; cbn; [done..|naive_solver|naive_solver|].
  intros [H1 H2]. split; [by apply IH|]. intros v Hv. apply IH. by apply H2.
Qed.

(** ** Types of the outcomes *)
Definition typed (ty : Ty) (r : Result NifError ETerm) : Prop :=
  match r with Ok t => has_type ty t = true | _ => False end.

Lemma typed_error ty e : typed (or_error ty) (Ok (error_term e)).
Proof. cbn. by rewrite orb_true_r. Qed.

Lemma typed_or_error ty r : typed ty r -> typed (or_error ty) r.
Proof. destruct r; cbn; [|done..]. by intros ->. Qed.

Lemma typed_strings l : has_type (T_list T_string) (strings l) = true.
Proof. cbn. induction l; done. Qed.

Lemma typed_pair {A} ty (enc : A -> ETerm) x :
  has_type ty (enc x) = true -> has_type (T_ok_of [ty]) (pair_term enc (a_ok, x)) = true.
Proof. cbn. by intros ->. Qed.

(** The result of a function, as a term of its type or as an error. *)
Definition fits {R} (ty : Ty) (enc : R -> ETerm) (r : Result NifError R) : Prop :=
  match r with Ok a => has_type ty (enc a) = true | Err _ => True | Panic => False end.

Lemma fits_or_error {R} ty (enc : R -> ETerm) p :
  always (fits ty enc) p -> always (typed (or_error ty)) (as_term enc p).
Proof.
  intros Hp. apply always_as_term. revert Hp. apply always_mono.
  intros [a|e|]; cbn; [by intros ->|by rewrite orb_true_r|done].
Qed.

Lemma fits_lift {R A} ty (enc : R -> ETerm) (r : Result NifError A) f :
  r <> Panic -> (forall a, always (fits ty enc) (f a)) -> always (fits ty enc) (a ← lift r; f a).
Proof. intros Hr Hf. apply always_bind. destruct r; cbn; done. Qed.

Lemma fits_lift_of_sum {R E A} ty (enc : R -> ETerm) (g : E -> NifError) (r : E + A) f :
  (forall a, always (fits ty enc) (f a)) -> always (fits ty enc) (a ← lift (of_sum g r); f a).
Proof. apply fits_lift. by destruct r. Qed.

Lemma fits_send_ok cmd : always (fits T_ok EAtom) (send_ok cmd).
Proof. by intros []. Qed.

Lemma fits_query {R t} ty (enc : R -> ETerm) (mk : Sender t -> Command LocalPid) f :
  (forall v, reply_wf t v -> always (fits ty enc) (f v)) -> always (fits ty enc) (v ← query_typed mk; f v).
Proof. intros Hf. apply always_bind. intros tx []; cbn; [|done..]. by split. Qed.
End native_calls.
Arguments NativeCall LocalPid : clear implicits.

Ltac fits :=
  repeat first
    [ apply fits_send_ok
    | lazymatch goal with
      | |- always _ (mbind _ (query_typed (t:=?t) _)) => apply (fits_query (t:=t)); intros
      | |- always _ (mbind _ (lift (of_sum _ _))) => apply fits_lift_of_sum; intros
      end ].

Section specs.
Context `{!Protocols, !Metrics} {LocalPid : Type}.
Context (alloc : Z -> bool) (utf8 : string -> bool).

Definition list_annotated (c : NativeCall LocalPid) : bool :=
  match c with N_connected_peers | N_listening_addrs => true | _ => false end.

Lemma fits_import data :
  always (fits (T_ok_of [T_non_neg_integer]) (pair_term EInt)) (kad_import_routing_table (LocalPid:=LocalPid) data).
Proof.
  apply fits_lift.
  - intros E. destruct (decode data) eqn:Hd; try done. by apply decode_no_panic in Hd.
  - intros. fits. cbn. rewrite bool_decide_eq_true_2, andb_true_r by done.
    apply Z.leb_le. by destruct (wrap_range 64 a0).
Qed.

Lemma fits_send_request p data :
  always (fits (T_ok_of [T_string]) (pair_term EStr)) (rpc_send_request (LocalPid:=LocalPid) p data).
Proof.
  apply fits_lift_of_sum. intros peer_id tx. cbn. intros []; cbn; [|done..]. by split.
Qed.

Lemma native_function_typed (handle : NodeHandle) (c : NativeCall LocalPid) :
  always (typed (if list_annotated c then or_error (native_spec c) else native_spec c))
    (native_function alloc handle c).
Proof.
  destruct c; unfold native_spec; cbn [list_annotated callback_spec native_function]; try (by cbn; repeat intros []);
    try (apply fits_or_error;
         first [apply fits_import|apply fits_send_request|idtac];
         unfold dial, gossipsub_peer_score, dht_find_peer, listen_via_relay, rendezvous_register,
           rendezvous_discover, rendezvous_unregister, bandwidth_stats, prometheus_metrics,
           gossipsub_mesh_peers, gossipsub_all_peers, connected_peers, listening_addrs,
           kad_export_routing_table;
         unfold parse_multiaddr, parse_peer_id; fits; try done).
  - exact (typed_strings _).
  - exact (typed_strings _).
  - exact (typed_pair (T_list T_string) strings _ (typed_strings _)).
  - exact (typed_pair (T_list T_string) strings _ (typed_strings _)).
  - by destruct (alloc _).
  - destruct v as [bin bout]. destruct H1 as [[? _] [? _]]. cbn in *.
    rewrite !andb_true_iff. split_and!; try done; by apply Z.leb_le.
Qed.

(** *** The module

    All its functions: those on a node, [start_node] with a term as its
    configuration, and the keypair functions. *)
Context `{!Identity} {Swarm : Type} `{!SwarmOps Swarm, !Builder Swarm}.
Context (overflow_checks : bool) (registry : Registry) (runtime : Result string TokioRuntime).

Inductive Stub :=
  | On_node (handle : NodeHandle) (c : NativeCall LocalPid)
  | Start_node (config : ETerm) (entropy : Entropy)
  | Generate_keypair (entropy : Entropy)
  | Keypair_from_protobuf (data : bytes).

(** A value that Elixir gets: a term, or a reference to a started node. *)
Inductive StubValue := Term_of (t : ETerm) | Reference (s : Started (Swarm:=Swarm)).

Inductive StubTy := T_term (ty : Ty) | T_reference.

Definition has_stub_type (ty : StubTy) (v : StubValue) : bool :=
  match ty, v with
  | T_term ty, Term_of t => has_type ty t
  | T_reference, Reference _ => true
  | _, _ => false
  end.

(** The [@spec]s of all stubs. *)
Definition stub_spec (s : Stub) : StubTy :=
  match s with
  | On_node _ c => T_term (native_spec c)
  | Start_node _ _ => T_reference
  | Generate_keypair _ => T_term (T_or (T_ok_of [T_binary; T_string; T_binary]) (T_error T_any_atom))
  | Keypair_from_protobuf _ => T_term (or_error (T_ok_of [T_binary; T_string]))
  end.

Definition stub_arguments_ok (s : Stub) : bool :=
  match s with
  | On_node _ c => arguments_ok utf8 c
  | Start_node config _ => bool_decide (is_Some (dec_map config))
  | _ => true
  end.

(** A call of a stub: [None] if it raises. *)
Definition stub (s : Stub) : Nif LocalPid (option StubValue) :=
  match s with
  | On_node handle c => native alloc utf8 handle c ≫= fun t : option ETerm => mret (Term_of <$> t)
  | Start_node config entropy =>
      match dec_map config with
      | Some config_map =>
          match start_node overflow_checks entropy registry runtime (config_map : gmap string ETerm) with
          | Ok started => mret (Some (Reference started))
          | Err e => mret (Some (Term_of (error_term e)))
          | Panic => Done Panic
          end
      | None => mret None
      end
  | Generate_keypair entropy => mret (Some (Term_of (generate_keypair entropy)))
  | Keypair_from_protobuf data => mret (Some (Term_of (keypair_from_protobuf data)))
  end.

(** What stubs return besides what their annotations say. *)
Definition deviation (s : Stub) : option Ty :=
  match s with
  | On_node _ c => if list_annotated c then Some (T_error T_nif_error) else None
  | Start_node _ _ => Some (T_error T_nif_error)
  | Generate_keypair _ => Some (T_tuple [T_atom a_error; T_binary; T_string; T_binary])
  | Keypair_from_protobuf _ => None
  end.

(** C7: The functions of the native module keep to their [@spec]s, but for four:
    whatever the state of the channel and the replies are, a call whose arguments
    decode does not raise and returns a value of the annotated type.  The
    exceptions: [connected_peers] and [listening_addrs], annotated as plain lists,
    can also return [{:error, nif_error}]; so can [start_node], annotated as
    [reference()]; and [generate_keypair] returns [{:error, binary, string,
    binary}] when the key cannot be encoded, where [{:error, atom}] is annotated. *)
Theorem native_specs_hold (s : Stub) :
  stub_arguments_ok s = true ->
  always (fun r => exists v, r = Ok (Some v) /\
      (has_stub_type (stub_spec s) v = true \/
       exists ty, deviation s = Some ty /\ has_stub_type (T_term ty) v = true))
    (stub s).
Proof.
  destruct s as [handle c|config entropy|entropy|data]; cbn [stub_arguments_ok stub]; intros Hargs.
  - unfold native. rewrite Hargs. apply always_bind, always_bind.
    generalize (native_function_typed handle c). apply always_mono.
    intros [t|e|]; cbn [typed]; [|done..]. intros Ht. cbn. exists (Term_of t). split; [done|].
    destruct (list_annotated c) eqn:Hl; [|by left].
    apply orb_true_iff in Ht as [Ht|Ht]; [by left|right]. by eexists.
  - apply bool_decide_eq_true in Hargs as [m Hm]. rewrite Hm. unfold start_node.
    destruct (start_node_inner _ _ _ _ _); cbn; eexists; (split; [done|]); [by left|right..]; by eexists.
  - cbn. eexists. split; [done|]. unfold generate_keypair. destruct (to_protobuf_encoding _); cbn.
    + right. by eexists.
    + by left.
  - cbn. eexists. split; [done|]. left. unfold keypair_from_protobuf.
    destruct (_ >? _); [done|]. by destruct (from_protobuf_encoding data).
Qed.
End specs.

(** ** Native modules

    A node is given its native module as an option.  The behaviours of
    [native.ex] and [native/*.ex] say what such a module promises: a callback
    that takes its arguments returns a term of its annotation - but where a list
    is annotated, also an error - and one that does not raises. *)
Class NativeModule `{!Protocols} (Handle LocalPid : Type) := {
  native_error : Ty;
  accepts : NativeCall LocalPid -> bool;
  call_native : Handle -> NativeCall LocalPid -> Nif LocalPid (option ETerm);
}.

(** How a function may end: with a term of the type, or by raising if it may. *)
Definition replies (ty : Ty) (may_raise : bool) (r : Result NifError (option ETerm)) : Prop :=
  match r with
  | Ok (Some t) => has_type ty t = true
  | Ok None => may_raise = true
  | _ => False
  end.

Lemma replies_mono ty (b1 b2 : bool) r : (b1 = true -> b2 = true) -> replies ty b1 r -> replies ty b2 r.
Proof. destruct r as [[]|e|]; cbn; auto. Qed.

Section behaviours.
Context `{!Protocols} {Handle LocalPid : Type} `{!NativeModule Handle LocalPid}.

Definition or_native_error (ty : Ty) : Ty := T_or ty (T_error native_error).

Definition callback_result (c : NativeCall LocalPid) : Ty :=
  let ty := callback_spec native_error c in if list_annotated c then or_native_error ty else ty.

Class NativeModuleOk : Prop := {
  native_conforms h c : accepts c = true -> always (replies (callback_result c) false) (call_native h c);
  native_refuses h c : accepts c = false -> call_native h c = mret None;
  accepts_lists c : list_annotated c = true -> accepts c = true;
}.
End behaviours.
Arguments NativeModuleOk {_} Handle LocalPid {_}.

(** [ExLibp2p.Native.Nif]. *)
Section nif_module.
Context `{!Protocols, !Metrics} {LocalPid : Type}.
Context (alloc : Z -> bool) (utf8 : string -> bool).

Definition nif_module : NativeModule NodeHandle LocalPid := {|
  native_error := T_nif_error;
  accepts := arguments_ok utf8;
  call_native := native alloc utf8;
|}.

Lemma nif_module_ok : @NativeModuleOk _ NodeHandle LocalPid nif_module.
Proof.
  split; cbn [accepts call_native nif_module].
  - intros h c Hc. unfold native. rewrite Hc. apply always_bind. generalize (native_function_typed alloc h c).
    apply always_mono. by intros [].
  - intros h c Hc. unfold native. by rewrite Hc.
  - by intros [].
Qed.
End nif_module.

Lemma native_specs_hold_witness :
  always (LocalPid:=nat) (H:=SimProtocols) (fun r => exists v : StubValue (Swarm:=SimSwarm), r = Ok (Some v) /\
      has_stub_type (T_term (or_error (T_ok_of [T_float]))) v = true)
    (stub (fun _ => true) (fun _ => true) true tt (Ok tt)
       (On_node (mkNodeHandle "me" tt) (N_gossipsub_peer_score "peer"))).
Proof.
  eapply always_mono; [|exact (native_specs_hold (LocalPid:=nat) (H:=SimProtocols) (Swarm:=SimSwarm)
    (fun _ => true) (fun _ => true) true tt (Ok tt)
    (On_node (mkNodeHandle "me" tt) (N_gossipsub_peer_score "peer")) eq_refl)].
  intros r (v & -> & [Ht|(ty & Hc & _)]); [|discriminate Hc]. exists v. split; [reflexivity|exact Ht].
Defined.
