(* ===== verification/NativeRuns.v ===== *)
(** * Native calls of a running node

    What the native module adds to [System]: its calls follow the rules of
    [System.nif_wf] when they are composed into larger programs; and the steps
    by which a program gets on at an idle node, for the files that run callbacks
    of Elixir processes to their end. *)
From S2P Require Import Prelude Bytes Policy Terms NifError Libp2p Sim DhtState Commands Events SwarmLoop.
From S2P Require Import Answers Channel Nif System NodeCalls NativeCalls.
From stdpp Require Import options.

#[local] Set Default Proof Using "Type".

(** ** Composed programs *)
Section programs.
Context `{!Protocols} {LocalPid : Type}.

Lemma nif_wf_as_term {R} h (enc : R -> ETerm) (p : Nif LocalPid R) : nif_wf h p -> nif_wf h (as_term enc p).
Proof.
  revert h. induction p as [[a|e|]|t k IH|cmd k IH|t tx k IH]; intros h; cbn; try naive_solver.
  destruct (command_reply cmd) as [[]|]; naive_solver.
Qed.

Lemma nif_wf_bind {R S} h (f : R -> Nif LocalPid S) p :
  nif_wf h p -> (forall a h, nif_wf h (f a)) -> nif_wf h (p ≫= f).
Proof.
  intros Hp Hf. change (nif_wf h (nif_bind f p)). revert h Hp.
  induction p as [[a|e|]|t k IH|cmd k IH|t tx k IH]; intros h; cbn; try naive_solver.
  destruct (command_reply cmd) as [[]|]; naive_solver.
Qed.

(** A program that follows the rules may come where no channel is used. *)
Lemma nif_wf_any {R} h (p : Nif LocalPid R) : nif_wf Nothing p -> nif_wf h p.
Proof.
  destruct p as [r|t k|cmd k|t tx k]; cbn; [done|done| |by intros [? _]].
  destruct (command_reply cmd) as [[]|]; [by intros [? _]|done].
Qed.

Context `{!Metrics} (alloc : Z -> bool) (utf8 : string -> bool).

Lemma native_wf handle (c : NativeCall LocalPid) :
  nif_wf Nothing (native (LocalPid:=LocalPid) alloc utf8 handle c).
Proof.
  unfold native. destruct (arguments_ok utf8 c); [|done]. apply nif_wf_bind; [|done].
  destruct c; apply nif_wf_as_term; apply (node_function_wf alloc); constructor.
Qed.
End programs.

(** ** Steps at an idle node *)
Section steps.
Context `{!Protocols} {Swarm LocalPid Term : Type} `{!SwarmOps Swarm, !TermEnc Term}.
Context {Chan : Type} `{!Mpsc Chan (Command LocalPid), !MpscOk Chan (Command LocalPid)}.
Context (alloc : Z -> bool) (auto : bool) {R : Type}.
Implicit Types (s : Sys (Swarm:=Swarm) (LocalPid:=LocalPid) (Chan:=Chan) (R:=R)) (p : Nif LocalPid R).

#[local] Set Default Proof Using "Type*".

Local Abbreviation turn := (turn (LocalPid:=LocalPid) (Term:=Term) alloc auto).
Local Abbreviation act := (act (Term:=Term) alloc auto).
Local Abbreviation run := (run (Term:=Term) alloc auto).

(** [p] asks for a reply with [mk] and goes on with [g]. *)
Definition asks {t} (mk : Sender t -> Command LocalPid) (g : option (reply_val t) -> Nif LocalPid R) p : Prop :=
  exists k, p = ask mk k /\ forall tx, k tx Sent = BlockingRecv t tx g.

Lemma acts_app l l' s : run (l ++ l') s = run l' (run l s).
Proof. apply foldl_app. Qed.

Lemma spawn_idle s st p :
  idle s st -> nif_wf Nothing p ->
  let s' := act (Spawn p) s in idle s' st /\ calls s' = calls s ++ [p].
Proof.
  intros (Hok & Hl & Hq & Hh) Hp s'. assert (sys_ok s') as Hok' by (by apply sys_ok_act).
  subst s'. cbn [System.act] in *. rewrite Hh in *. done.
Qed.

(** A command without a reply is sent and taken. *)
Lemma send_steps s st j cmd k :
  idle s st -> calls s !! j = Some (TrySend cmd k) ->
  let s' := run [StepCall j; LoopRecv] s in
  calls s' = <[j := k Sent]> (calls s) /\
  (if ends (Recv (Some cmd)) then loop s' = None else idle s' (state (turn (Recv (Some cmd)) st))).
Proof.
  intros Hi Hj. destruct (send_queued (Term:=Term) alloc auto s st j cmd k Hi Hj) as (Hok & Hl & Hq & Hh & Hc).
  cbn [System.run foldl]. set (s1 := act (StepCall j) s) in *. clearbody s1.
  destruct (ends (Recv (Some cmd))) eqn:He.
  - pose proof (recv_view (Term:=Term) alloc auto s1 Hok) as (Hc' & _ & Hv). rewrite Hl, Hq in Hv.
    cbv zeta in Hv. rewrite He in Hv. split; [by rewrite Hc'|apply Hv].
  - destruct (queued_received (Term:=Term) alloc auto s1 st cmd Hok Hl Hq Hh He) as (Hi' & Hc' & _).
    split; [by rewrite Hc'|done].
Qed.

(** A question is sent, taken and answered. *)
Lemma ask_steps {t} (mk : Sender t -> Command LocalPid) (g : option (reply_val t) -> Nif LocalPid R) s st j p v :
  idle s st -> calls s !! j = Some p -> asks mk g p ->
  (forall tx, command_reply (mk tx) = Some (existT t tx)) ->
  (forall tx, exists l, Forall is_log l /\ effects_of (turn (Recv (Some (mk tx))) st) = l ++ [Reply t tx v]) ->
  let s' := run [StepCall j; StepCall j; LoopRecv; StepCall j] s in
  exists tx, idle s' (state (turn (Recv (Some (mk tx))) st)) /\ calls s' = <[j := g (Some v)]> (calls s).
Proof.
  intros Hi Hj (k & -> & Hk) Hmk He. set (tx := next_oneshot s). exists tx.
  pose proof Hi as (Hok & Hl & Hq & Hh).
  assert (act (StepCall j) s =
    mkSys (chan s) (loop s) (settled s) (tx + 1) (<[j := TrySend (mk tx) (k tx)]> (calls s)) (handle s)) as E.
  { cbn [System.act]. unfold step_call. by rewrite Hj. }
  assert (idle (act (StepCall j) s) st) as Hi1.
  { split; [by apply sys_ok_act|]. by rewrite E. }
  assert (calls (act (StepCall j) s) = <[j := TrySend (mk tx) (k tx)]> (calls s)) as Hc1 by (by rewrite E).
  cbn [System.run foldl]. set (s1 := act (StepCall j) s) in *. clearbody s1. clear E.
  pose proof (lookup_lt_Some _ _ _ Hj) as Hlt.
  destruct (send_queued (Term:=Term) alloc auto s1 st j (mk tx) (k tx) Hi1) as (Hok2 & Hl2 & Hq2 & Hh2 & Hc2).
  { rewrite Hc1. by apply list_lookup_insert_eq. }
  set (s2 := act (StepCall j) s1) in *. clearbody s2.
  destruct (ask_answered (Term:=Term) alloc auto mk g Hmk s2 st tx j v Hok2 Hl2 Hq2 Hh2) as (Hi' & Hc').
  - rewrite Hc2, Hc1, Hk, list_insert_insert_eq. by apply list_lookup_insert_eq.
  - apply He.
  - split; [exact Hi'|]. change (calls (run [LoopRecv; StepCall j] s2) = <[j := g (Some v)]> (calls s)).
    by rewrite Hc', Hc2, Hc1, !list_insert_insert_eq.
Qed.
End steps.

Ltac asks := eexists; split; [reflexivity|intros; reflexivity].
