(* ===== verification/Storage.v ===== *)
(** * Files and keypairs

    Model of [lib/ex_libp2p/keypair/storage.ex], the behaviour as a class with
    its contract; of [lib/ex_libp2p/keypair/storage/file.ex], its POSIX
    implementation, as sequences of file system steps that other processes can
    interleave with; and of [lib/ex_libp2p/keypair.ex], the keypairs kept in
    such a storage. *)
From S2P Require Import Prelude Bytes Policy Terms NifError Libp2p Sim DhtState Nif.
From stdpp Require Import options.

(** ** The storage behaviour

    A reason is a POSIX error atom, given by its name. *)
Definition Posix : Type := string.

Class Storage (FS : Type) : Type := {
  storage_read : FS -> string -> Posix + bytes;
  storage_write : FS -> string -> bytes -> FS * (Posix + unit);
}.

Class StorageOk (FS : Type) `{!Storage FS} : Prop := {
  read_written fs path b fs' : storage_write fs path b = (fs', inr tt) -> storage_read fs' path = inr b;
  failed_write_keeps fs path b fs' e :
    storage_write fs path b = (fs', inl e) -> storage_read fs' path = storage_read fs path;
}.

(** ** The file system *)
Module File.
Record File := mkFile { contents : bytes; mode : Z }.
Abbreviation Fs := (gmap string File).

(** The mode of a file created without one. *)
Definition default_mode : Z := 420.
Definition owner_only : Z := 384.

Inductive Step :=
  | Truncate (path : string)
  | Append (path : string) (chunk : bytes)
  | Chmod (path : string) (mode : Z)
  | Rename (source destination : string)
  | Rm (path : string).

Definition exec (s : Step) (fs : Fs) : Fs :=
  match s with
  | Truncate p =>
      <[p := mkFile [] (match fs !! p with Some f => mode f | None => default_mode end)]> fs
  | Append p chunk => alter (fun f => mkFile (contents f ++ chunk) (mode f)) p fs
  | Chmod p m => alter (fun f => mkFile (contents f) m) p fs
  | Rename src dst => match fs !! src with Some f => <[dst := f]> (delete src fs) | None => fs end
  | Rm p => delete p fs
  end.

Fixpoint run (l : list Step) (fs : Fs) : Fs :=
  match l with [] => fs | s :: l => run l (exec s fs) end.

Definition tmp_path (path : string) : string := path +:+ ".tmp".

(** The steps of a successful [write/2], the data arriving in [chunks]. *)
Definition write_steps (path : string) (chunks : list bytes) : list Step :=
  Truncate (tmp_path path) :: map (Append (tmp_path path)) chunks ++
  [Chmod (tmp_path path) owner_only; Rename (tmp_path path) path].

(** Where an operation of [write/2] fails, and what [File.write] had written. *)
Inductive Fault :=
  | Open_fault (reason : Posix)
  | Write_fault (written : bytes) (reason : Posix)
  | Chmod_fault (reason : Posix)
  | Rename_fault (reason : Posix).

Definition read (fs : Fs) (path : string) : Posix + bytes :=
  match fs !! path with Some f => inr (contents f) | None => inl "enoent" end.

Definition write (fault : option Fault) (fs : Fs) (path : string) (b : bytes) : Fs * (Posix + unit) :=
  let tmp := tmp_path path in
  let cleanup l reason := (run (l ++ [Rm tmp]) fs, inl reason) in
  match fault with
  | None => (run (write_steps path [b]) fs, inr tt)
  | Some (Open_fault e) => cleanup [] e
  | Some (Write_fault written e) => cleanup [Truncate tmp; Append tmp written] e
  | Some (Chmod_fault e) => cleanup [Truncate tmp; Append tmp b] e
  | Some (Rename_fault e) => cleanup [Truncate tmp; Append tmp b; Chmod tmp owner_only] e
  end.
End File.

(** A file system that fails as its first component says, once per write. *)
#[export] Instance FileStorage : Storage (list (option File.Fault) * File.Fs) := {|
  storage_read fs path := File.read fs.2 path;
  storage_write fs path b :=
    let fault := match fs.1 with f :: _ => f | [] => None end in
    let '(fs', r) := File.write fault fs.2 path b in
    ((tail fs.1, fs'), r);
|}.

(** ** Lemmas *)
Import File.

Lemma tmp_path_ne path : tmp_path path <> path.
Proof.
  unfold tmp_path. intros E. assert (String.length (path +:+ ".tmp") = String.length path) as El by congruence.
  revert El. clear E. induction path as [|c path IH]; cbn; [done|]. intros [= El]. by apply IH.
Qed.

Lemma run_app l l' fs : run (l ++ l') fs = run l' (run l fs).
Proof. revert fs. by induction l as [|s l IH]; intros fs; cbn. Qed.

(** The names a step may change. *)
Definition touches (s : Step) (path : string) : Prop :=
  match s with
  | Truncate p | Append p _ | Chmod p _ | Rm p => p = path
  | Rename src dst => src = path \/ dst = path
  end.

Lemma exec_untouched s fs path : ~ touches s path -> exec s fs !! path = fs !! path.
Proof.
  destruct s as [p|p c|p m|src dst|p]; cbn; intros Hn.
  - by rewrite lookup_insert_ne.
  - by rewrite lookup_alter_ne.
  - by rewrite lookup_alter_ne.
  - destruct (fs !! src); [|done]. rewrite lookup_insert_ne by tauto. rewrite lookup_delete_ne by tauto. done.
  - by rewrite lookup_delete_ne.
Qed.

Lemma run_untouched l fs path : Forall (fun s => ~ touches s path) l -> run l fs !! path = fs !! path.
Proof.
  revert fs. induction l as [|s l IH]; intros fs; cbn; [done|]. intros [Hs Hl]%Forall_cons.
  by rewrite IH, exec_untouched.
Qed.

(** The effect of a step on some names depends on those names only. *)
Definition agree (names : list string) (fs1 fs2 : Fs) : Prop := forall p, p ∈ names -> fs1 !! p = fs2 !! p.

Definition within (names : list string) (s : Step) : Prop :=
  match s with
  | Truncate p | Append p _ | Chmod p _ | Rm p => p ∈ names
  | Rename src dst => src ∈ names /\ dst ∈ names
  end.

Lemma exec_agree names s fs1 fs2 : within names s -> agree names fs1 fs2 -> agree names (exec s fs1) (exec s fs2).
Proof.
  intros Hw Ha p Hp. destruct s as [q|q c|q m|src dst|q]; cbn in *.
  - rewrite !lookup_insert. case_decide; [by rewrite (Ha q)|by apply Ha].
  - rewrite !lookup_alter. case_decide; [by rewrite (Ha q)|by apply Ha].
  - rewrite !lookup_alter. case_decide; [by rewrite (Ha q)|by apply Ha].
  - destruct Hw as [Hs Hd]. rewrite <-(Ha src Hs). destruct (fs1 !! src); [|by apply Ha].
    rewrite !lookup_insert, !lookup_delete. repeat case_decide; try done. by apply Ha.
  - rewrite !lookup_delete. case_decide; [done|by apply Ha].
Qed.

Lemma append_chunks tmp chunks fs f :
  fs !! tmp = Some f ->
  run (map (Append tmp) chunks) fs !! tmp = Some (mkFile (contents f ++ concat chunks) (mode f)).
Proof.
  revert fs f. induction chunks as [|c l IH]; intros fs f Hf; cbn.
  - rewrite Hf, app_nil_r. by destruct f.
  - rewrite (IH _ (mkFile (contents f ++ c) (mode f))); cbn; [by rewrite <-(assoc_L (++))|].
    by rewrite lookup_alter_eq, Hf.
Qed.

(** A completed write. *)
Lemma run_write_steps path chunks fs :
  run (write_steps path chunks) fs !! path = Some (mkFile (concat chunks) owner_only) /\
  run (write_steps path chunks) fs !! tmp_path path = None.
Proof.
  unfold write_steps. cbn [run]. rewrite run_app. set (fs1 := exec (Truncate (tmp_path path)) fs).
  assert (exists m, run (map (Append (tmp_path path)) chunks) fs1 !! tmp_path path = Some (mkFile (concat chunks) m)) as [m Hm].
  { eassert (fs1 !! tmp_path path = Some (mkFile [] _)) as Hf by apply lookup_insert_eq.
    eexists. exact (append_chunks _ chunks fs1 _ Hf). }
  cbn [run exec]. rewrite lookup_alter_eq, Hm. cbn. split; [by rewrite lookup_insert_eq|].
  rewrite lookup_insert_ne by (intros E; by apply (tmp_path_ne path)). apply lookup_delete_eq.
Qed.

Lemma write_steps_within path chunks : Forall (within [tmp_path path; path]) (write_steps path chunks).
Proof.
  unfold write_steps. apply Forall_cons. split; [by left|]. apply Forall_app. split.
  - apply Forall_map, Forall_forall. intros c _. by left.
  - apply Forall_cons. split; [by left|]. apply Forall_singleton. split; [by left|by right; left].
Qed.

(** Before its last step a write has not touched its path. *)
Lemma write_prefix_untouched path chunks own :
  own `prefix_of` write_steps path chunks -> own <> write_steps path chunks ->
  Forall (fun s => ~ touches s path) own.
Proof.
  intros Hp Hne. set (body := Truncate (tmp_path path) :: map (Append (tmp_path path)) chunks ++ [Chmod (tmp_path path) owner_only]).
  assert (write_steps path chunks = body ++ [Rename (tmp_path path) path]) as E.
  { unfold write_steps, body. cbn. by rewrite <-(assoc_L (++)). }
  rewrite E in Hp, Hne.
  apply Forall_forall. intros st Hst.
  assert (st ∈ body) as Hin.
  { destruct Hp as [l E']. destruct l as [|x l] using rev_ind; [rewrite app_nil_r in E'; congruence|].
    rewrite (assoc_L (++)) in E'. apply app_inj_tail in E' as [-> _]. apply elem_of_app. by left. }
  intros Ht. unfold body in Hin. apply elem_of_cons in Hin as [->|Hin]; [by apply (tmp_path_ne path)|].
  apply elem_of_app in Hin as [Hin|Hin].
  - apply list_elem_of_fmap in Hin as (c & -> & _). by apply (tmp_path_ne path).
  - apply list_elem_of_singleton in Hin as ->. by apply (tmp_path_ne path).
Qed.

(** ** Atomicity of [write/2]

    A history is the steps of the file system in order; the marked ones are
    those of one call of [write/2], the others of other processes. *)
Definition own_steps (h : list (bool * Step)) : list Step := map snd (filter (fun s => s.1 = true) h).

Definition foreign (names : list string) (s : bool * Step) : Prop :=
  s.1 = true \/ Forall (fun p => ~ touches s.2 p) names.

Lemma history_agree names h fs1 fs2 :
  Forall (foreign names) h -> Forall (within names) (own_steps h) -> agree names fs1 fs2 ->
  agree names (run (map snd h) fs1) (run (own_steps h) fs2).
Proof.
  revert fs1 fs2. induction h as [|[o s] h IH]; intros fs1 fs2; [done|].
  intros [Hs Hh]%Forall_cons. unfold own_steps in *. rewrite filter_cons. cbn [fst map snd run].
  case_decide as Ho; cbn [map snd run].
  - intros [Hw Hws]%Forall_cons Ha. apply IH; [done..|]. by apply exec_agree.
  - intros Hws Ha. apply IH; [done..|]. intros p Hp. destruct Hs as [Hs|Hs]; [done|]. cbn [snd] in Hs.
    rewrite Forall_forall in Hs. rewrite exec_untouched by by apply Hs. by apply Ha.
Qed.

#[export] Instance Step_eq_dec : EqDecision Step.
Proof. solve_decision. Defined.

(** The steps of a call of [write/2] so far: some of a successful one, or those
    before a failure and the removal of the temporary file. *)
Definition writing (path : string) (chunks : list bytes) (own : list Step) : Prop :=
  own `prefix_of` write_steps path chunks \/
  exists before, before `prefix_of` write_steps path chunks /\ before <> write_steps path chunks /\
    own = before ++ [Rm (tmp_path path)].

Lemma run_writing path chunks own fs :
  writing path chunks own ->
  run own fs !! path =
    if decide (own = write_steps path chunks) then Some (mkFile (concat chunks) owner_only) else fs !! path.
Proof.
  intros Hw. destruct (decide (own = write_steps path chunks)) as [->|Hne]; [by apply run_write_steps|].
  destruct Hw as [Hp|(before & Hp & Hb & ->)].
  - by apply run_untouched, (write_prefix_untouched path chunks).
  - rewrite run_app. cbn. rewrite lookup_delete_ne by apply tmp_path_ne.
    by apply run_untouched, (write_prefix_untouched path chunks).
Qed.

Lemma writing_within path chunks own : writing path chunks own -> Forall (within [tmp_path path; path]) own.
Proof.
  pose proof (write_steps_within path chunks) as Hall. rewrite Forall_forall in Hall.
  assert (forall l, l `prefix_of` write_steps path chunks -> Forall (within [tmp_path path; path]) l) as Hpre.
  { intros l [k E]. apply Forall_forall. intros s Hs. apply Hall. rewrite E. apply elem_of_app. by left. }
  intros [Hp|(before & Hp & _ & ->)]; [by apply Hpre|].
  apply Forall_app. split; [by apply Hpre|]. apply Forall_singleton. by left.
Qed.

(** C31: [write/2] is atomic: at every point of every history in which the other
    processes leave the path and its temporary file alone, however the data is
    split and whether or not the call fails or is cut short, the path holds
    either what it held before or, once the last step is done, the complete new
    data, readable by the owner only. *)
Theorem write_atomic path chunks h fs :
  Forall (foreign [tmp_path path; path]) h -> writing path chunks (own_steps h) ->
  run (map snd h) fs !! path =
    if decide (own_steps h = write_steps path chunks) then Some (mkFile (concat chunks) owner_only) else fs !! path.
Proof.
  intros Hf Hw. rewrite <-(run_writing path chunks (own_steps h) fs Hw).
  apply (history_agree [tmp_path path; path] h fs fs Hf); [by eapply writing_within|done|by right; left].
Qed.

(** Two calls of [write/2] on the same path share its temporary file. *)
Inductive merge {A} : list A -> list A -> list A -> Prop :=
  | merge_nil : merge [] [] []
  | merge_left x l1 l2 l : merge l1 l2 l -> merge (x :: l1) l2 (x :: l)
  | merge_right x l1 l2 l : merge l1 l2 l -> merge l1 (x :: l2) (x :: l).

Lemma concurrent_writers_tear :
  exists other l,
    other `prefix_of` write_steps "k" [[Byte.x62]] /\
    merge (write_steps "k" [[Byte.x61; Byte.x61]]) other l /\
    read (run l ∅) "k" = inr [].
Proof.
  exists [Truncate "k.tmp"].
  exists [Truncate "k.tmp"; Append "k.tmp" [Byte.x61; Byte.x61]; Truncate "k.tmp"; Chmod "k.tmp" owner_only; Rename "k.tmp" "k"].
  split; [|split].
  - by eexists.
  - apply merge_left, merge_left, merge_right, merge_left, merge_left, merge_nil.
  - vm_compute. reflexivity.
Qed.

#[export] Instance FileStorageOk : StorageOk (list (option Fault) * Fs).
Proof.
  split.
  - intros [faults fs] path b fs'. cbn.
    destruct faults as [|[[]|] faults]; cbn [write]; try (by intros [=]); intros [= <-];
      change (read (run (write_steps path [b]) fs) path = inr b); unfold read;
      rewrite (proj1 (run_write_steps path [b] fs)); cbn; by rewrite app_nil_r.
  - assert (forall before fs path b, before `prefix_of` write_steps path [b] -> before <> write_steps path [b] ->
      read (run (before ++ [Rm (tmp_path path)]) fs) path = read fs path) as Hr.
    { intros before fs path b Hp Hne. unfold read.
      rewrite (run_writing path [b]) by (right; by eexists). rewrite decide_False; [done|].
      intros E. assert (Rm (tmp_path path) ∈ write_steps path [b]) as Hin by (rewrite <-E; set_solver).
      cbn in Hin. set_solver. }
    intros [faults fs] path b fs' e. cbn.
    destruct faults as [|[[r|w r|r|r]|] faults]; cbn [write]; try (by intros [=]); intros [= <- <-]; cbn [snd].
    + apply (Hr [] fs path b); [by eexists|done].
    + apply (Hr [Truncate (tmp_path path); Append (tmp_path path) w] fs path w); [by eexists|done].
    + apply (Hr [Truncate (tmp_path path); Append (tmp_path path) b] fs path b); [by eexists|done].
    + apply (Hr [Truncate (tmp_path path); Append (tmp_path path) b; Chmod (tmp_path path) owner_only] fs path b);
        [by eexists|done].
Qed.

(** ** [ExLibp2p.Keypair]

    A call raises ([None]) where the code has no clause. *)
Module ElixirKeypair.
Record t := mk {
  public_key : bytes;
  peer_id : string;
  protobuf_bytes : option bytes;
}.

Inductive LoadError := File_not_found | Invalid_keypair | Read_error (reason : Posix).

Section keypair.
Context `{!Protocols, !Identity} {FS : Type} `{!Storage FS}.

(** What [generate/0] makes of the native result. *)
Definition of_generated (result : ETerm) : option (ETerm + t) :=
  match result with
  | ETuple [EAtom a_ok; EBin public_key; EStr peer_id; EBin protobuf_bytes] =>
      Some (inr (mk public_key peer_id (Some protobuf_bytes)))
  | ETuple [EAtom a_error; reason] => Some (inl reason)
  | _ => None
  end.

Definition generate (entropy : Entropy) : option (ETerm + t) := of_generated (generate_keypair entropy).

Definition to_protobuf (k : t) : option bytes := protobuf_bytes k.

Definition from_protobuf (bytes : bytes) : option (LoadError + t) :=
  match keypair_from_protobuf bytes with
  | ETuple [EAtom a_ok; EBin public_key; EStr peer_id] => Some (inr (mk public_key peer_id (Some bytes)))
  | ETuple [EAtom a_error; _] => Some (inl Invalid_keypair)
  | _ => None
  end.

Definition save (k : t) (path : string) (fs : FS) : option (FS * (Posix + unit)) :=
  bytes ← protobuf_bytes k; Some (storage_write fs path bytes).

(** [save!] raises on an error, too. *)
Definition save_bang (k : t) (path : string) (fs : FS) : option FS :=
  match save k path fs with
  | Some (fs, inr tt) => Some fs
  | _ => None
  end.

Definition load (path : string) (fs : FS) : option (LoadError + t) :=
  match storage_read fs path with
  | inr bytes => from_protobuf bytes
  | inl reason =>
      Some (inl (if bool_decide (reason = "enoent") then File_not_found else Read_error reason))
  end.

Definition load_bang (path : string) (fs : FS) : option t :=
  match load path fs with
  | Some (inr k) => Some k
  | _ => None
  end.

(** The keypair of an identity. *)
Definition of_identity (k : Keypair) (b : bytes) : t :=
  mk (encode_protobuf (public k)) (to_base58 (to_peer_id (public k))) (Some b).

Lemma generate_spec entropy :
  generate entropy =
    match to_protobuf_encoding (generate_ed25519 entropy) with
    | inr b => Some (inr (of_identity (generate_ed25519 entropy) b))
    | inl _ => None
    end.
Proof. unfold generate, generate_keypair. by destruct (to_protobuf_encoding _). Qed.

Lemma from_protobuf_spec b :
  from_protobuf b =
    Some (if len b >? MAX_KEYPAIR_BYTES then inl Invalid_keypair
          else match from_protobuf_encoding b with
               | inr k => inr (of_identity k b)
               | inl _ => inl Invalid_keypair
               end).
Proof.
  unfold from_protobuf, keypair_from_protobuf. destruct (len b >? MAX_KEYPAIR_BYTES); [done|].
  by destruct (from_protobuf_encoding b).
Qed.

Lemma saved_loads `{!StorageOk FS} k path fs fs' b :
  protobuf_bytes k = Some b -> save k path fs = Some (fs', inr tt) -> load path fs' = from_protobuf b.
Proof.
  unfold save, load. intros ->. cbn. intros [= Hw]. by rewrite (read_written _ _ _ _ Hw).
Qed.
End keypair.
End ElixirKeypair.

(** ** Witnesses *)
Lemma write_atomic_witness :
  run (map snd [(true, Truncate "k.tmp"); (false, Truncate "other"); (true, Append "k.tmp" [Byte.x61])])
    {["k" := mkFile [Byte.x62] owner_only]} !! "k" = Some (mkFile [Byte.x62] owner_only).
Proof.
  rewrite (write_atomic "k" [[Byte.x61]; [Byte.x62]]).
  - rewrite decide_False; [reflexivity|discriminate].
  - do 3 (apply Forall_cons; split; [first [by left | right; repeat constructor; cbn; discriminate]|]). constructor.
  - left. by eexists.
Defined.
