(* ===== verification/NodeServer.v ===== *)
(** * The node process and its front ends

    Model of the calls of [lib/ex_libp2p/node.ex]: [handle_call/3], which
    dispatches to [node/network_ops.ex] and [node/nif_ops.ex] with the helpers
    of [node/result.ex]; [safe_call] of [call.ex]; and the modules whose
    functions are calls to a node: [DHT], [Gossipsub], [RequestResponse],
    [Relay], [Rendezvous], [Metrics] and the queries of [Node].  A callback is a
    program over the command channel, as the native functions it calls; it
    raises ([None]) where the code does, and its process exits. *)
From S2P Require Import Prelude Bytes Policy Terms NifError Libp2p Sim DhtState Commands Channel Nif.
From S2P Require Import NodeEvents NativeCalls.
From stdpp Require Import options.

(** ** [ExLibp2p.Node.Result] *)
Module Result_.
Definition normalize_ok (result : ETerm) : ETerm :=
  match result with
  | ETuple [EAtom a_ok; _] => EAtom a_ok
  | other => other
  end.

Definition tag (result : ETerm) : ETerm :=
  match result with
  | EAtom a_ok => EAtom a_ok
  | ETuple [EAtom a_ok; _] => EAtom a_ok
  | ETuple [EAtom a_error; _] => EAtom a_error
  | _ => EAtom a_unknown
  end.
End Result_.

(** The messages of the calls. *)
Inductive NodeCall :=
  | C_peer_id
  | C_connected_peers
  | C_listening_addrs
  | C_dial (addr : string)
  | C_listen_via_relay (relay_addr : string)
  | C_publish (topic : string) (data : bytes)
  | C_subscribe (topic : string)
  | C_unsubscribe (topic : string)
  | C_gossipsub_mesh_peers (topic : string)
  | C_gossipsub_all_peers
  | C_gossipsub_peer_score (peer_id_str : string)
  | C_dht_put (key value : bytes)
  | C_dht_get (key : bytes)
  | C_dht_find_peer (peer_id_str : string)
  | C_dht_provide (key : bytes)
  | C_dht_find_providers (key : bytes)
  | C_dht_bootstrap
  | C_rpc_send_request (peer_id_str : string) (data : bytes)
  | C_rpc_send_response (channel_id : string) (data : bytes)
  | C_bandwidth_stats
  | C_prometheus_metrics
  | C_rendezvous_register (namespace : string) (ttl : Z) (rendezvous_peer : string)
  | C_rendezvous_discover (namespace rendezvous_peer : string)
  | C_rendezvous_unregister (namespace rendezvous_peer : string)
  | C_unknown.

Definition peer_term (id : bytes) : ETerm := EStruct [("id", EBin id)].

(** [Enum.map(term, &PeerId.new!/1)]. *)
Definition new_peers (t : ETerm) : option (list ETerm) :=
  match t with
  | EList l => mapM (fun raw => peer_term <$> PeerIdStruct.new raw) l
  | _ => None
  end.

Definition error_atom (name : string) : ETerm := ETuple [EAtom a_error; EName name].

Record NodeState (Handle : Type) := mkNodeState {
  node_handle : Handle;
  node_peer_id : bytes;
  dht_state_path : ETerm;
}.
Arguments mkNodeState {_}.
Arguments node_handle {_}.
Arguments node_peer_id {_}.
Arguments dht_state_path {_}.

(** The native module of the node, the field [native] of its state, is an
    instance of the class of its behaviours. *)
Section node_server.
Context `{!Protocols} {Handle LocalPid : Type} `{!NativeModule Handle LocalPid}.

Local Abbreviation NodeState := (NodeState Handle).
Local Abbreviation program := (Nif LocalPid (option ETerm)).
Local Abbreviation native := call_native.

(** A term, if there is one, goes through [f]. *)
Definition returning (p : program) (f : ETerm -> option ETerm) : program :=
  p ≫= fun r : option ETerm => mret (r ≫= f).

(** ** [ExLibp2p.Node.NifOps] *)
Definition normalized (p : program) : program := returning p (fun t => Some (Result_.normalize_ok t)).

Definition nif_ops_handle (call : NodeCall) (state : NodeState) : program :=
  let handle := node_handle state in
  match call with
  | C_publish topic data => normalized (native handle (N_publish topic data))
  | C_subscribe topic => normalized (native handle (N_subscribe topic))
  | C_unsubscribe topic => normalized (native handle (N_unsubscribe topic))
  | C_gossipsub_mesh_peers topic => native handle (N_gossipsub_mesh_peers topic)
  | C_gossipsub_all_peers => native handle N_gossipsub_all_peers
  | C_gossipsub_peer_score peer_id_str => native handle (N_gossipsub_peer_score peer_id_str)
  | C_dht_put key value => native handle (N_dht_put key value)
  | C_dht_get key => native handle (N_dht_get key)
  | C_dht_find_peer peer_id_str => native handle (N_dht_find_peer peer_id_str)
  | C_dht_provide key => native handle (N_dht_provide key)
  | C_dht_find_providers key => native handle (N_dht_find_providers key)
  | C_dht_bootstrap => native handle N_dht_bootstrap
  | C_rpc_send_request peer_id_str data => native handle (N_rpc_send_request peer_id_str data)
  | C_rpc_send_response channel_id data => native handle (N_rpc_send_response channel_id data)
  | C_bandwidth_stats => native handle N_bandwidth_stats
  | C_prometheus_metrics => native handle N_prometheus_metrics
  | C_rendezvous_register namespace ttl rendezvous_peer =>
      native handle (N_rendezvous_register namespace ttl rendezvous_peer)
  | C_rendezvous_discover namespace rendezvous_peer =>
      native handle (N_rendezvous_discover namespace rendezvous_peer)
  | C_rendezvous_unregister namespace rendezvous_peer =>
      native handle (N_rendezvous_unregister namespace rendezvous_peer)
  | _ => mret (Some (error_atom "unknown_call"))
  end.

(** ** [ExLibp2p.Node.NetworkOps] *)
Definition network_ops_handles (call : NodeCall) : bool :=
  match call with
  | C_peer_id | C_connected_peers | C_listening_addrs | C_dial _ | C_listen_via_relay _ => true
  | _ => false
  end.

Definition ok_term (t : ETerm) : ETerm := ETuple [EAtom a_ok; t].

Definition network_ops_handle (call : NodeCall) (state : NodeState) : program :=
  let handle := node_handle state in
  match call with
  | C_peer_id => mret (Some (ok_term (peer_term (node_peer_id state))))
  | C_connected_peers =>
      returning (native handle N_connected_peers) (fun t => peers ← new_peers t; Some (ok_term (EList peers)))
  | C_listening_addrs => returning (native handle N_listening_addrs) (fun t => Some (ok_term t))
  | C_dial addr => normalized (native handle (N_dial addr))
  | C_listen_via_relay relay_addr => native handle (N_listen_via_relay relay_addr)
  | _ => mret None
  end.

(** The reply of a call; the state stays as it is. *)
Definition handle_call (call : NodeCall) (state : NodeState) : program :=
  if network_ops_handles call then network_ops_handle call state else nif_ops_handle call state.

(** ** [ExLibp2p.Call] *)
Inductive ServerOutcome := Replied (t : ETerm) | Exited (reason : ETerm).

Definition safe_call (o : ServerOutcome) : ETerm :=
  match o with
  | Replied t => t
  | Exited reason => ETuple [EAtom a_error; ETuple [EName "node_unavailable"; reason]]
  end.

(** The exit reasons of a call: the node raises, it is gone, or its reply comes
    after the timeout. *)
Record Exits := mkExits { crashed : ETerm; no_process : ETerm; timed_out : ETerm }.

(** A call to a node given by its process, alive or not: whether the node is
    alive after it, and the result.  A node that replies late goes on. *)
Definition call_process (exits : Exits) (alive late : bool) (call : NodeCall) (state : NodeState) :
    Nif LocalPid (bool * ETerm) :=
  if alive then
    handle_call call state ≫= fun r : option ETerm =>
    mret (match r with
          | Some t => (true, safe_call (if late then Exited (timed_out exits) else Replied t))
          | None => (false, safe_call (Exited (crashed exits)))
          end)
  else mret (false, safe_call (Exited (no_process exits))).

(** ** The front ends

    The functions that are a call to a node.  ([Dialing.FrontFunction] has all
    functions of the front ends: [dial] and [bootstrap] are more than a call, and
    those that register handlers, in [Subscriptions], are none.) *)
Inductive Api :=
  | A_Node_peer_id
  | A_Node_connected_peers
  | A_Node_listening_addrs
  | A_DHT_put_record (key value : bytes)
  | A_DHT_get_record (key : bytes)
  | A_DHT_find_peer (peer_id : bytes)
  | A_DHT_provide (key : bytes)
  | A_DHT_find_providers (key : bytes)
  | A_DHT_bootstrap
  | A_Gossipsub_subscribe (topic : string)
  | A_Gossipsub_unsubscribe (topic : string)
  | A_Gossipsub_publish (topic : string) (data : bytes)
  | A_Gossipsub_mesh_peers (topic : string)
  | A_Gossipsub_all_peers
  | A_Gossipsub_peer_score (peer_id : bytes)
  | A_RequestResponse_send_request (peer_id data : bytes)
  | A_RequestResponse_send_response (channel_id : string) (data : bytes)
  | A_Relay_listen_via_relay (relay_addr : string)
  | A_Rendezvous_register (namespace : string) (peer : bytes) (ttl_secs : Z)
  | A_Rendezvous_discover (namespace : string) (peer : bytes)
  | A_Rendezvous_unregister (namespace : string) (peer : bytes)
  | A_Metrics_bandwidth
  | A_Metrics_prometheus_scrape.

(** The message a function sends. *)
Definition api_message (f : Api) : NodeCall :=
  match f with
  | A_Node_peer_id => C_peer_id
  | A_Node_connected_peers => C_connected_peers
  | A_Node_listening_addrs => C_listening_addrs
  | A_DHT_put_record key value => C_dht_put key value
  | A_DHT_get_record key => C_dht_get key
  | A_DHT_find_peer p => C_dht_find_peer (bytes_string p)
  | A_DHT_provide key => C_dht_provide key
  | A_DHT_find_providers key => C_dht_find_providers key
  | A_DHT_bootstrap => C_dht_bootstrap
  | A_Gossipsub_subscribe topic => C_subscribe topic
  | A_Gossipsub_unsubscribe topic => C_unsubscribe topic
  | A_Gossipsub_publish topic data => C_publish topic data
  | A_Gossipsub_mesh_peers topic => C_gossipsub_mesh_peers topic
  | A_Gossipsub_all_peers => C_gossipsub_all_peers
  | A_Gossipsub_peer_score p => C_gossipsub_peer_score (bytes_string p)
  | A_RequestResponse_send_request p data => C_rpc_send_request (bytes_string p) data
  | A_RequestResponse_send_response id data => C_rpc_send_response id data
  | A_Relay_listen_via_relay addr => C_listen_via_relay addr
  | A_Rendezvous_register namespace p ttl => C_rendezvous_register namespace ttl (bytes_string p)
  | A_Rendezvous_discover namespace p => C_rendezvous_discover namespace (bytes_string p)
  | A_Rendezvous_unregister namespace p => C_rendezvous_unregister namespace (bytes_string p)
  | A_Metrics_bandwidth => C_bandwidth_stats
  | A_Metrics_prometheus_scrape => C_prometheus_metrics
  end.

(** What a function makes of the reply: the result, or it raises in the caller. *)
Definition api_result (f : Api) (reply : ETerm) : option ETerm :=
  match f with
  | A_Gossipsub_mesh_peers _ | A_Gossipsub_all_peers =>
      match reply with
      | ETuple [EAtom a_ok; peers] => (fun l => ok_term (EList l)) <$> new_peers peers
      | ETuple [EAtom a_error; _] => Some reply
      | _ => None
      end
  | A_Metrics_bandwidth =>
      match reply with
      | ETuple [EAtom a_ok; bytes_in; bytes_out] =>
          Some (ok_term (EStruct [("bytes_in", bytes_in); ("bytes_out", bytes_out)]))
      | ETuple [EAtom a_error; _] => Some reply
      | _ => None
      end
  | _ => Some reply
  end.

Definition api_call (exits : Exits) (alive late : bool) (f : Api) (state : NodeState) : program :=
  r ← call_process exits alive late (api_message f) state; mret (api_result f r.2).

(** The [@spec] of a function; [PeerId.t()] is a struct. *)
Definition api_spec (f : Api) : Ty :=
  let or_error ty := T_or ty (T_error T_any) in
  match f with
  | A_Node_peer_id => or_error (T_ok_of [T_struct])
  | A_Node_connected_peers | A_Gossipsub_mesh_peers _ | A_Gossipsub_all_peers =>
      or_error (T_ok_of [T_list T_struct])
  | A_Node_listening_addrs => or_error (T_ok_of [T_list T_string])
  | A_Gossipsub_peer_score _ => or_error (T_ok_of [T_float])
  | A_RequestResponse_send_request _ _ => or_error (T_ok_of [T_string])
  | A_Metrics_bandwidth => or_error (T_ok_of [T_struct])
  | A_Metrics_prometheus_scrape => or_error (T_ok_of [T_string])
  | _ => or_error T_ok
  end.
End node_server.

(** ** What the replies are *)
Section replies.
Context `{!Protocols} {Handle LocalPid : Type} `{!NativeModule Handle LocalPid, !NativeModuleOk Handle LocalPid}.
#[local] Set Default Proof Using "Type*".

Local Abbreviation NodeState := (NodeState Handle).
Local Abbreviation program := (Nif LocalPid (option ETerm)).
Local Abbreviation native := call_native.
Local Abbreviation or_error := or_native_error.

(** The callback of the native module that a call uses. *)
Definition native_callback (call : NodeCall) : option (NativeCall LocalPid) :=
  match call with
  | C_peer_id | C_unknown => None
  | C_connected_peers => Some N_connected_peers
  | C_listening_addrs => Some N_listening_addrs
  | C_dial addr => Some (N_dial addr)
  | C_listen_via_relay relay_addr => Some (N_listen_via_relay relay_addr)
  | C_publish topic data => Some (N_publish topic data)
  | C_subscribe topic => Some (N_subscribe topic)
  | C_unsubscribe topic => Some (N_unsubscribe topic)
  | C_gossipsub_mesh_peers topic => Some (N_gossipsub_mesh_peers topic)
  | C_gossipsub_all_peers => Some N_gossipsub_all_peers
  | C_gossipsub_peer_score p => Some (N_gossipsub_peer_score p)
  | C_dht_put key value => Some (N_dht_put key value)
  | C_dht_get key => Some (N_dht_get key)
  | C_dht_find_peer p => Some (N_dht_find_peer p)
  | C_dht_provide key => Some (N_dht_provide key)
  | C_dht_find_providers key => Some (N_dht_find_providers key)
  | C_dht_bootstrap => Some N_dht_bootstrap
  | C_rpc_send_request p data => Some (N_rpc_send_request p data)
  | C_rpc_send_response id data => Some (N_rpc_send_response id data)
  | C_bandwidth_stats => Some N_bandwidth_stats
  | C_prometheus_metrics => Some N_prometheus_metrics
  | C_rendezvous_register ns ttl p => Some (N_rendezvous_register ns ttl p)
  | C_rendezvous_discover ns p => Some (N_rendezvous_discover ns p)
  | C_rendezvous_unregister ns p => Some (N_rendezvous_unregister ns p)
  end.

(** The native module takes the arguments of a call. *)
Definition call_accepted (call : NodeCall) : bool :=
  match native_callback call with Some c => accepts c | None => true end.

(** The type of the reply to a call. *)
Definition call_spec (call : NodeCall) : Ty :=
  match call with
  | C_peer_id => T_ok_of [T_struct]
  | C_connected_peers => T_ok_of [T_list T_struct]
  | C_listening_addrs => T_ok_of [or_error (T_list T_string)]
  | C_gossipsub_mesh_peers _ | C_gossipsub_all_peers => or_error (T_ok_of [T_list T_string])
  | C_gossipsub_peer_score _ => or_error (T_ok_of [T_float])
  | C_rpc_send_request _ _ => or_error (T_ok_of [T_string])
  | C_bandwidth_stats => or_error (T_ok_of [T_non_neg_integer; T_non_neg_integer])
  | C_prometheus_metrics => or_error (T_ok_of [T_string])
  | C_unknown => T_error T_any_atom
  | _ => or_error T_ok
  end.

Definition may_raise (call : NodeCall) : bool :=
  match call with C_connected_peers => true | _ => negb (call_accepted call) end.

Lemma native_replies handle (c : NativeCall LocalPid) :
  always (replies (callback_result c) (negb (accepts c))) (native handle c).
Proof using Type*.
  destruct (accepts c) eqn:Hc; [by apply native_conforms|]. by rewrite native_refuses.
Qed.

Lemma always_returning (P Q : Result NifError (option ETerm) -> Prop) (p : program) f :
  always P p ->
  (forall r, P r -> match r with Ok o => Q (Ok (o ≫= f)) | _ => Q r end) ->
  always Q (returning p f).
Proof.
  intros Hp HQ. apply always_bind. revert Hp. apply always_mono. intros [o|e|] Hr; by apply HQ in Hr.
Qed.

Lemma replies_normalized handle (c : NativeCall LocalPid) :
  callback_result c = or_error T_ok ->
  always (replies (or_error T_ok) (negb (accepts c))) (normalized (native handle c)).
Proof using Type*.
  intros Hc. eapply always_returning; [by apply native_replies|]. rewrite Hc.
  intros [[t|]|e|]; cbn -[has_type]; try done. intros Ht.
  destruct t as [| | | |[|[[]| | | | | | | | | |] [|x [|y l]]]| | | | | |]; try done.
Qed.

Lemma mapM_peer_structs l l' :
  mapM (fun raw => peer_term <$> PeerIdStruct.new raw) l = Some l' -> forallb (has_type T_struct) l' = true.
Proof.
  revert l'. induction l as [|raw l IH]; cbn; intros l'; [by intros [= <-]|].
  intros (t & (id & _ & ->)%fmap_Some & (l2 & Hl2 & [= <-])%bind_Some)%bind_Some.
  cbn. by apply IH.
Qed.

Lemma new_peers_typed t l : new_peers t = Some l -> has_type (T_ok_of [T_list T_struct]) (ok_term (EList l)) = true.
Proof.
  destruct t; try done. cbn -[has_type]. intros Hl%mapM_peer_structs.
  change (has_type (T_ok_of [T_list T_struct]) (ok_term (EList l))) with
    (forallb (has_type T_struct) l && true). by rewrite Hl.
Qed.

Lemma native_list handle (c : NativeCall LocalPid) :
  list_annotated c = true -> always (replies (or_error (T_list T_string)) false) (native handle c).
Proof using Type*.
  intros Hc. replace (or_error (T_list T_string)) with (callback_result c) by (by destruct c).
  by apply native_conforms, accepts_lists.
Qed.

Lemma handle_call_replies call state :
  always (replies (call_spec call) (may_raise call)) (handle_call call state).
Proof.
  destruct call; cbn [handle_call network_ops_handles network_ops_handle nif_ops_handle];
    try lazymatch goal with
      | |- always _ (call_native ?h ?c) => exact (native_replies h c)
      | |- always _ (normalized (call_native ?h ?c)) => exact (replies_normalized h c eq_refl)
      | |- always _ (mret _) => done
      end.
  - eapply always_returning; [by apply native_list|].
    intros [[t|]|e|]; try done. intros _. cbn [mbind option_bind]. destruct (new_peers t) as [l|] eqn:E; [|done].
    exact (new_peers_typed _ _ E).
  - eapply always_returning; [by apply native_list|].
    intros [[t|]|e|]; try done. cbn -[has_type]. intros Ht.
    change (has_type (or_error (T_list T_string)) t && true = true). by rewrite Ht.
Qed.

(** A call whose arguments do not decode raises at once. *)
Lemma handle_call_bad_arguments call state :
  call_accepted call = false -> handle_call call state = mret None.
Proof.
  destruct call; try done; intros Hbad;
    cbn [handle_call network_ops_handles network_ops_handle nif_ops_handle];
    unfold normalized, returning; by rewrite (native_refuses _ _ Hbad).
Qed.

Lemma spec_error ty reason :
  has_type (T_or ty (T_error T_any)) (ETuple [EAtom a_error; ETuple [EName "node_unavailable"; reason]]) = true.
Proof. cbn. by rewrite orb_true_r. Qed.

(** Terms of a tuple type. *)
Lemma has_type_pair a ty t :
  has_type (T_tuple [T_atom a; ty]) t = true -> exists x, t = ETuple [EAtom a; x] /\ has_type ty x = true.
Proof.
  destruct t as [| | | |l| | | | | |]; cbn; try done. destruct l as [|t1 [|x [|y l]]]; cbn; rewrite ?andb_false_r; try done.
  destruct t1; cbn; try done. rewrite andb_true_r.
  intros [->%bool_decide_eq_true Hx]%andb_true_iff. by exists x.
Qed.

Lemma has_type_triple a ty1 ty2 t :
  has_type (T_tuple [T_atom a; ty1; ty2]) t = true -> exists x y, t = ETuple [EAtom a; x; y].
Proof.
  destruct t as [| | | |l| | | | | |]; cbn; try done.
  destruct l as [|t1 [|x [|y [|z l]]]]; cbn; rewrite ?andb_false_r; try done.
  destruct t1; cbn; try done. intros [->%bool_decide_eq_true _]%andb_true_iff. by exists x, y.
Qed.

Lemma has_type_or ty1 ty2 t : has_type (T_or ty1 ty2) t = true <-> has_type ty1 t = true \/ has_type ty2 t = true.
Proof. apply orb_true_iff. Qed.

(** An error of the native side is an error of any reason. *)
Lemma any_error ty t : has_type (or_error ty) t = true -> has_type (T_or ty (T_error T_any)) t = true.
Proof.
  unfold or_native_error. rewrite !has_type_or. intros [Ht|Ht]; [by left|right].
  by apply has_type_pair in Ht as (x & -> & _).
Qed.

Definition lists_peers (f : Api) : bool :=
  match f with A_Gossipsub_mesh_peers _ | A_Gossipsub_all_peers => true | _ => false end.

(** How a function of the front ends may end. *)
Definition api_outcome (f : Api) (r : Result NifError (option ETerm)) : Prop :=
  match r with
  | Ok (Some t) =>
      has_type (api_spec f) t = true \/
      f = A_Node_listening_addrs /\ has_type (T_ok_of [T_error native_error]) t = true
  | Ok None => lists_peers f = true
  | _ => False
  end.

Lemma peers_result f t :
  lists_peers f = true -> has_type (or_error (T_ok_of [T_list T_string])) t = true ->
  api_outcome f (Ok (api_result f t)).
Proof.
  intros Hf Ht. assert (api_outcome f (Ok (match t with
    | ETuple [EAtom a_ok; peers] => (fun l => ok_term (EList l)) <$> new_peers peers
    | ETuple [EAtom a_error; _] => Some t
    | _ => None
    end))) as Hout; [|by destruct f].
  apply has_type_or in Ht as [Ht|Ht]; apply has_type_pair in Ht as (x & -> & Hx).
  - destruct (new_peers x) as [l|] eqn:E; [|done]. left. apply new_peers_typed in E.
    destruct f; try done; apply has_type_or; by left.
  - left. destruct f; try done; apply has_type_or; by right.
Qed.

Lemma api_reply f t :
  has_type (call_spec (api_message f)) t = true -> api_outcome f (Ok (api_result f t)).
Proof.
  intros Ht. destruct (lists_peers f) eqn:Hf; [apply peers_result; [done|by destruct f]|].
  destruct f; try done; cbn [api_message call_spec] in Ht; cbn [api_result api_outcome api_spec];
    try (left; by apply any_error); try (left; apply has_type_or; by left).
  - apply has_type_pair in Ht as (x & -> & Hx). apply has_type_or in Hx as [Hx|Hx].
    + left. apply has_type_or. left. change (has_type (T_list T_string) x && true = true). by rewrite Hx.
    + right. split; [done|]. change (has_type (T_error native_error) x && true = true). by rewrite Hx.
  - apply has_type_or in Ht as [Ht|Ht].
    + apply has_type_triple in Ht as (x & y & ->). by left.
    + apply has_type_pair in Ht as (x & -> & Hx). left. apply has_type_or. by right.
Qed.

Lemma api_unavailable f reason : api_outcome f (Ok (api_result f (safe_call (Exited reason)))).
Proof. destruct f; left; cbn; by rewrite ?orb_true_r. Qed.

(** Whatever the node does, a function ends so. *)
Lemma api_call_outcome exits alive late f state :
  always (api_outcome f) (api_call exits alive late f state).
Proof.
  apply always_bind. unfold call_process. destruct alive; [|apply api_unavailable]. apply always_bind.
  generalize (handle_call_replies (api_message f) state). apply always_mono.
  intros [[t|]|e|]; cbn [replies]; try done; intros Ht; cbn; [|apply api_unavailable].
  destruct late; [apply api_unavailable|by apply api_reply].
Qed.

(** ** Properties *)

(** C32: A node process survives its calls: whatever its native module is - any
    that keeps to its behaviours - the replies and the state of the command channel
    are, a call is answered with a
    term of its type, unless the module does not take an argument ([nif_accepts]
    tells which arguments these are) - then the callback raises in any case, and
    the node exits - or the call asks for the connected peers, the one call whose
    reply may make the node raise. *)
Theorem node_answers_calls call state :
  if call_accepted call
  then always (replies (call_spec call) (match call with C_connected_peers => true | _ => false end))
         (handle_call call state)
  else handle_call call state = mret None.
Proof.
  destruct (call_accepted call) eqn:E; [|by apply handle_call_bad_arguments].
  pose proof (handle_call_replies call state) as Hr. revert Hr. apply always_mono. intros r.
  apply replies_mono. unfold may_raise. rewrite E. by destruct call.
Qed.
End replies.

(** ** Nodes on the native library *)
Section native_library.
Context `{!Protocols, !Metrics} {LocalPid : Type}.
Context (alloc : Z -> bool) (utf8 : string -> bool).

Local Abbreviation nif := (nif_module (LocalPid:=LocalPid) alloc utf8).

(** The native library takes strings that are UTF-8 and times to live that are
    [u64]s. *)
Lemma nif_accepts call :
  call_accepted (NativeModule0:=nif) call =
  match call with
  | C_dial s | C_listen_via_relay s | C_publish s _ | C_subscribe s | C_unsubscribe s
  | C_gossipsub_mesh_peers s | C_gossipsub_peer_score s | C_dht_find_peer s | C_rpc_send_request s _
  | C_rpc_send_response s _ => utf8 s
  | C_rendezvous_register ns ttl p => utf8 ns && bool_decide (in_width 64 ttl) && utf8 p
  | C_rendezvous_discover ns p | C_rendezvous_unregister ns p => utf8 ns && utf8 p
  | _ => true
  end.
Proof. by destruct call. Qed.

(** On a stopped node the query for the connected peers raises. *)
Lemma connected_peers_on_stopped_node state :
  exists k, handle_call (NativeModule0:=nif) C_connected_peers state =
      Oneshot TPeers (fun tx => TrySend (ConnectedPeers tx) (k tx)) /\
    forall tx, k tx Closed = Done (Ok None).
Proof. eexists. split; [reflexivity|]. done. Qed.
End native_library.

Definition sim_nif : @NativeModule SimProtocols (@NodeHandle sim_metrics) nat :=
  nif_module (H0:=sim_metrics) (fun _ => true) (fun s => negb (bool_decide (s = "bad"))).

Definition sim_served : NodeState NodeHandle := mkNodeState (mkNodeHandle "peer-0" (tt : @Registry sim_metrics)) [] (EAtom a_nil).

Lemma node_answers_calls_witness :
  always (replies (or_error T_ok) false) (handle_call (NativeModule0:=sim_nif) (C_subscribe "topic") sim_served) /\
  handle_call (NativeModule0:=sim_nif) (C_subscribe "bad") sim_served = mret None.
Proof.
  pose proof (nif_module_ok (H0:=sim_metrics) (LocalPid:=nat) (fun _ => true) (fun s => negb (bool_decide (s = "bad")))) as Hok.
  split.
  - exact (node_answers_calls (NativeModuleOk0:=Hok) (C_subscribe "topic") sim_served).
  - exact (node_answers_calls (NativeModuleOk0:=Hok) (C_subscribe "bad") sim_served).
Defined.
