(* ===== verification/Mock.v ===== *)
(** * The test double of the native library

    Model of [lib/ex_libp2p/native/mock.ex], the native module that the tests
    run nodes on.  It keeps the behaviours, so that what is proved of nodes holds
    of those under test; the properties say what a node shows on it, and that
    not all of its generated identifiers are valid. *)
From S2P Require Import Prelude Bytes Policy Terms NifError Libp2p Sim DhtState Commands NodeEvents.
From S2P Require Import Channel Nif NativeCalls NodeServer.
From stdpp Require Import options.

Module Mock.
Definition text (s : string) : bytes := String.list_byte_of_string s.

Definition mock_peer_id : string := "12D3KooWDpJ7As7BWAwRMfu1VU2WCqNjvq387JEYKDBj4kx6nXTN".
Definition mock_peer_id_2 : string := "12D3KooWRPmBBCBTuGh1cnUuFVr35GYnm4bRXYsSB94TXJLAg4mA".

(** The process dictionary under [:mock_dht_state], and the next unique integer. *)
Record World := mkWorld { mock_dht_state : option bytes; unique_integer : N }.

Definition empty_file : bytes := text "L2DT" ++ [Byte.x01; Byte.x00; Byte.x00; Byte.x00; Byte.x00].

Definition ok (l : list ETerm) : ETerm := ETuple (EAtom a_ok :: l).

Section mock.
Context `{!Protocols} {LocalPid : Type}.

Definition mock (c : NativeCall LocalPid) (w : World) : ETerm * World :=
  match c with
  | N_get_peer_id => (EStr mock_peer_id, w)
  | N_connected_peers => (EList [], w)
  | N_listening_addrs => (EList [EStr "/ip4/127.0.0.1/tcp/0"], w)
  | N_gossipsub_mesh_peers _ | N_gossipsub_all_peers => (ok [EList [EStr mock_peer_id_2]], w)
  | N_gossipsub_peer_score _ => (ok [EFloat (SpecFloat.S754_zero false)], w)
  | N_kad_export_routing_table => (ok [EBin (default empty_file (mock_dht_state w))], w)
  | N_kad_import_routing_table data => (ok [EInt 0], mkWorld (Some data) (unique_integer w))
  | N_rpc_send_request _ _ =>
      (ok [EStr ("mock-request-" +:+ pretty (unique_integer w))], mkWorld (mock_dht_state w) (unique_integer w + 1))
  | N_bandwidth_stats => (ok [EInt 0; EInt 0], w)
  | N_prometheus_metrics => (ok [EStr ("# mock — no metrics registered" +:+ String (Ascii.ascii_of_nat 10) "")], w)
  | _ => (EAtom a_ok, w)
  end.

(** A node on the mock: the handle is a reference. *)
Definition mock_module (w : World) : NativeModule N LocalPid := {|
  native_error := T_any;
  accepts _ := true;
  call_native _ c := mret (Some (mock c w).1);
|}.
End mock.

(** ** Generated keypairs *)

(** [String.pad_leading]. *)
Definition pad_leading (s : bytes) (count : nat) (padding : bytes) : bytes :=
  let n := (count - length s)%nat in take n (concat (replicate n padding)) ++ s.

Definition padding : bytes := text "ABCDEFGHJKLMNPQRSTUVWXYZabcdefghijkmnopqrs".

Definition peer_id (id : N) : bytes := text "12D3KooW" ++ pad_leading (text (pretty id)) 44 padding.

Definition proto_prefix : bytes := text "mock-proto:".

(** The public key, the identifier and the protobuf of the pair, from a unique
    integer. *)
Definition generate_keypair (id : N) : ETerm :=
  ok [EBin (text ("mock-pubkey-" +:+ pretty id)); EBin (peer_id id); EBin (proto_prefix ++ peer_id id)].

Definition keypair_from_protobuf (data : bytes) : ETerm :=
  if bool_decide (take (length proto_prefix) data = proto_prefix)
  then ok [EBin (text "mock-pubkey"); EBin (drop (length proto_prefix) data)]
  else ETuple [EAtom a_error; EName "invalid_keypair"].
End Mock.
Import Mock.

(** ** The behaviours *)
Section conformance.
Context `{!Protocols} {LocalPid : Type}.

(** The mock is a native module. *)
Lemma mock_module_ok w : @NativeModuleOk _ N LocalPid (mock_module w).
Proof. split; cbn [accepts call_native mock_module]; [by intros h []|done|done]. Qed.

(** What is imported is exported, and before that the table is empty. *)
Lemma mock_table data w :
  (mock (LocalPid:=LocalPid) N_kad_export_routing_table (mock (LocalPid:=LocalPid) (N_kad_import_routing_table data) w).2).1 =
    ok [EBin data] /\
  decode empty_file = Ok [].
Proof. split; [done|]. vm_compute. reflexivity. Qed.

(** The results of the front ends, errors apart. *)
Definition success_spec (f : Api) : Ty :=
  match api_spec f with T_or ty _ => ty | ty => ty end.

(** On the mock, the tests see the working paths of the front ends: a function
    called on a node that is alive and replies in time returns at once a result
    of its annotated type that is no error. *)
Theorem mock_calls_succeed w exits f state :
  exists t, api_call (NativeModule0:=mock_module (LocalPid:=LocalPid) w) exits true false f state = mret (Some t) /\
    has_type (success_spec f) t = true.
Proof. destruct f; (eexists; split; [reflexivity|reflexivity]). Qed.
End conformance.

(** ** The identifiers *)
Lemma base58_app a b : PeerIdStruct.base58 (a ++ b) = PeerIdStruct.base58 a && PeerIdStruct.base58 b.
Proof. induction a as [|c a IH]; [done|]. cbn [app PeerIdStruct.base58]. by rewrite IH, andb_assoc. Qed.

Lemma base58_forall a : PeerIdStruct.base58 a = true <-> Forall (fun c => c ∈ PeerIdStruct.base58_chars) a.
Proof. induction a as [|c a IH]; cbn [PeerIdStruct.base58]; [by split|]. by rewrite andb_true_iff, bool_decide_eq_true, Forall_cons, IH. Qed.

Lemma base58_padding n : PeerIdStruct.base58 (take n (concat (replicate n padding))) = true.
Proof.
  apply base58_forall, Forall_take, Forall_concat. generalize n. clear n. intros n. induction n as [|n IH]; cbn; constructor; [|done].
  apply base58_forall. vm_compute. reflexivity.
Qed.

Lemma padding_length n : (n <= length (concat (replicate n padding)))%nat.
Proof. induction n as [|n IH]; [done|]. cbn [replicate concat]. rewrite length_app. change (length padding) with 42%nat. lia. Qed.

Definition digits : bytes := text "0123456789".

(** Decimal numbers are digits. *)
Lemma pretty_digits (n : N) : Forall (fun c => c ∈ digits) (text (pretty n)).
Proof.
  assert (forall x, Ascii.byte_of_ascii (pretty_N_char x) ∈ digits) as Hc
    by (intros x; apply (bool_decide_unpack _); unfold pretty_N_char; by repeat case_match).
  unfold pretty, pretty_N. case_decide as Hn; [by repeat constructor|]. clear Hn.
  assert (Forall (fun c => c ∈ digits) (text "")) as Hs by constructor. revert Hs. generalize "" as s.
  induction (N.lt_wf_0 n) as [n _ IH]; intros s Hs. destruct (decide (0 < n)%N) as [Hn|Hn].
  - rewrite pretty_N_go_step by done. apply IH; [by apply N.div_lt|]. by constructor.
  - assert (n = 0%N) as -> by lia. by rewrite pretty_N_go_0.
Qed.

Lemma digits_base58 l :
  Forall (fun c => c ∈ digits) l -> PeerIdStruct.base58 l = negb (bool_decide (Byte.x30 ∈ l)).
Proof.
  assert (Forall (fun c => bool_decide (c ∈ PeerIdStruct.base58_chars) = negb (bool_decide (Byte.x30 = c))) digits) as Hd
    by (repeat constructor).
  rewrite Forall_forall in Hd. induction 1 as [|c l Hc _ IH]; [done|]. cbn [PeerIdStruct.base58].
  rewrite IH, Hd, <-negb_orb by done. f_equal. rewrite <-bool_decide_or. apply bool_decide_ext. by rewrite elem_of_cons.
Qed.

(** A generated identifier is one that [PeerId.new] accepts unless the unique
    integer has a zero among its digits: zero is no base58 digit. *)
Theorem generated_id_valid (id : N) :
  PeerIdStruct.new (EBin (peer_id id)) = if bool_decide (Byte.x30 ∈ text (pretty id)) then None else Some (peer_id id).
Proof.
  unfold PeerIdStruct.new. cbn [PeerIdStruct.binary].
  assert (PeerIdStruct.min_length <= length (peer_id id))%nat as Hl%Nat.leb_le.
  { unfold peer_id, pad_leading. rewrite !length_app, length_take.
    pose proof (padding_length (44 - length (text (pretty id)))).
    change PeerIdStruct.min_length with 40%nat. change (length (text "12D3KooW")) with 8%nat. lia. }
  rewrite Hl. unfold peer_id, pad_leading.
  rewrite !base58_app, base58_padding, (digits_base58 (text (pretty id))) by apply pretty_digits.
  by case_bool_decide.
Qed.

Example tenth_id_refused : PeerIdStruct.new (EBin (peer_id 9)) = Some (peer_id 9) /\ PeerIdStruct.new (EBin (peer_id 10)) = None.
Proof. vm_compute. by split. Qed.

(** A pair read back has the identifier it was generated with. *)
Lemma keypair_recovered id :
  keypair_from_protobuf (proto_prefix ++ peer_id id) = ok [EBin (text "mock-pubkey"); EBin (peer_id id)].
Proof.
  unfold keypair_from_protobuf. rewrite take_app_length, bool_decide_eq_true_2 by done. by rewrite drop_app_length.
Qed.
