(* ===== verification/NodeLife.v ===== *)
(** * The life of a node process

    Model of [init/1] and [terminate/2] of [lib/ex_libp2p/node.ex] with the
    import and export of the routing table they do.  [init] composes the options
    of [ElixirConfig], [start_node] of [StartNode] and the native functions; the
    snapshot file is kept in a [Storage].  The properties are about a node that
    is stopped and started again. *)
From S2P Require Import Prelude Bytes Policy Terms NifError Config Libp2p Sim DhtState Commands Events SwarmLoop.
From S2P Require Import Answers Routing NodeEvents Channel Nif System StartNode NodeCalls ElixirConfig NativeCalls NativeRuns.
From S2P Require Import Storage NodeServer.
From stdpp Require Import options.

Section node_life.
Context `{!Protocols, !Identity, !Metrics} {Swarm LocalPid FS : Type}.
Context `{!SwarmOps Swarm, !Builder Swarm, !Storage FS}.
Context (alloc : Z -> bool) (utf8 : string -> bool).

Local Abbreviation native := (native (LocalPid:=LocalPid) alloc utf8).

(** The path, typed [String.t() | nil], as a string; any other term, a character
    list for instance, is taken to make the storage raise. *)
Definition storage_path (path : ETerm) : option string :=
  match path with
  | EStr p => Some p
  | EBin b => Some (bytes_string b)
  | _ => None
  end.

Definition ok_or_error_tuple (t : option ETerm) : option unit :=
  match t with
  | Some (ETuple [EAtom a_ok; _]) | Some (ETuple [EAtom a_error; _]) => Some tt
  | _ => None
  end.

(** A failure is logged; a reply of neither shape raises. *)
Definition maybe_import_dht_state (handle : NodeHandle) (path : ETerm) (fs : FS) : Nif LocalPid (option unit) :=
  match path with
  | EAtom a_nil => mret (Some tt)
  | _ =>
      match storage_path path with
      | None => mret None
      | Some p =>
          match storage_read fs p with
          | inr bytes => native handle (N_kad_import_routing_table bytes) ≫= fun r => mret (ok_or_error_tuple r)
          | inl _ => mret (Some tt)
          end
      end
  end.

(** The snapshot as the storage is left; a failed write is logged. *)
Definition maybe_export_dht_state (state : NodeState NodeHandle) (fs : FS) : Nif LocalPid (option FS) :=
  match dht_state_path state with
  | EAtom a_nil => mret (Some fs)
  | path =>
      native (node_handle state) N_kad_export_routing_table ≫= fun r : option ETerm =>
      mret (match r with
            | Some (ETuple [EAtom a_ok; EBin bytes]) =>
                p ← storage_path path; Some (storage_write fs p bytes).1
            | Some (ETuple [EAtom a_error; _]) => Some fs
            | _ => None
            end)
  end.

(** [cleanup_node] exits if the registry is not alive. *)
Definition terminate (registry_alive : bool) (state : NodeState NodeHandle) (fs : FS) : Nif LocalPid (option FS) :=
  if registry_alive then
    maybe_export_dht_state state fs ≫= fun r : option FS =>
    match r with
    | Some fs => native (node_handle state) N_stop_node ≫= fun _ : option ETerm => mret (Some fs)
    | None => mret None
    end
  else mret None.

(** ** [init/1] *)
Inductive StopReason :=
  | Failed_validation (reason : NodeConfig.invalid)
  | Failed_native (e : NifError)
  | Failed_peer_id.

(** The callback raises, stops, or has a started node and goes on with [rest],
    which ends in the state of the process. *)
Inductive InitOutcome :=
  | Init_raised
  | Init_stopped (reason : StopReason)
  | Init_started (s : Started (Swarm:=Swarm)) (rest : Nif LocalPid (option (NodeState NodeHandle))).

Context (overflow_checks : bool) (entropy : Entropy) (registry : Registry).
Context (runtime : Result string (TokioRuntime (Swarm:=Swarm))).

Local Abbreviation start_node := (start_node (Swarm:=Swarm) (Term:=ETerm) overflow_checks entropy registry runtime).

Definition config_opts (opts : Keywords) : Keywords := filter (fun kv => kv.1 <> "native_module") opts.

(** The part of [init] after the native node has started. *)
Definition after_start (self : LocalPid) (config : NodeConfig.t) (fs : FS) (s : Started (Swarm:=Swarm)) : InitOutcome :=
  let handle := started_handle s in
  let dht_state_path := Discovery.dht_state_path (NodeConfig.discovery config) in
  match PeerIdStruct.new (EStr (handle_peer_id handle)) with
  | Some peer_id =>
      Init_started s
        (native handle (N_register_event_handler self) ≫= fun _ : option ETerm =>
         maybe_import_dht_state handle dht_state_path fs ≫= fun r : option unit =>
         mret (_ ← r; Some (mkNodeState handle peer_id dht_state_path)))
  | None => Init_stopped Failed_peer_id
  end.

Definition init (opts : Keywords) (self : LocalPid) (fs : FS) : InitOutcome :=
  match NodeConfig.new (config_opts opts) with
  | None => Init_raised
  | Some config =>
      match NodeConfig.validate config with
      | inl reason => Init_stopped (Failed_validation reason)
      | inr valid_config =>
          match NodeConfig.to_nif_map valid_config with
          | None => Init_raised
          | Some config_map =>
              match start_node config_map with
              | Ok s => after_start self valid_config fs s
              | Err e => Init_stopped (Failed_native e)
              | Panic => Init_raised
              end
          end
      end
  end.
End node_life.

(** ** What a started node went through *)
Section started.
Context `{!Protocols, !Identity, !Metrics} {Swarm LocalPid FS : Type}.
Context `{!SwarmOps Swarm, !Builder Swarm, !Storage FS}.
Context (alloc : Z -> bool) (utf8 : string -> bool).
Context (overflow_checks : bool) (entropy : Entropy) (registry : Registry).
Context (runtime : Result string (TokioRuntime (Swarm:=Swarm))).

Local Abbreviation init := (init (LocalPid:=LocalPid) (FS:=FS) alloc utf8 overflow_checks entropy registry runtime).

Lemma init_after_start opts self fs s rest :
  init opts self fs = Init_started s rest ->
  exists config m, NodeConfig.new (config_opts opts) = Some config /\
    NodeConfig.to_nif_map config = Some m /\
    start_node_inner (Term:=ETerm) overflow_checks entropy registry runtime m = Ok s /\
    after_start alloc utf8 self config fs s = Init_started s rest.
Proof.
  unfold NodeLife.init. destruct (NodeConfig.new _) as [config|]; [|done].
  destruct (NodeConfig.validate config) as [|valid] eqn:Hv; [done|].
  assert (valid = config) as ->.
  { revert Hv. unfold NodeConfig.validate. repeat case_match; congruence. }
  destruct (NodeConfig.to_nif_map config) as [m|] eqn:Hm; [|done].
  destruct (start_node _ _ _ _ m) as [s'|e|] eqn:Hs; [|done..]. intros Ha.
  assert (s' = s) as ->. { revert Ha. unfold after_start. by destruct (PeerIdStruct.new _); intros [= -> _]. }
  exists config, m. split_and!; try done.
  revert Hs. unfold start_node. by destruct (start_node_inner _ _ _ _ m) as [?|?|]; intros [= ->].
Qed.

Lemma init_started opts self fs s rest :
  init opts self fs = Init_started s rest ->
  exists config m, NodeConfig.new (config_opts opts) = Some config /\
    NodeConfig.to_nif_map config = Some m /\
    start_node_inner (Term:=ETerm) overflow_checks entropy registry runtime m = Ok s.
Proof. intros (config & m & Hc & Hm & Hs & _)%init_after_start. by exists config, m. Qed.

Lemma fetch_config_opts opts k :
  k <> "native_module" -> keyword_fetch (config_opts opts) k = keyword_fetch opts k.
Proof.
  intros Hk. induction opts as [|[k' v] l IH]; [done|]. unfold config_opts, filter in *. cbn [list_filter fst].
  case_decide as Hd; cbn [keyword_fetch].
  - destruct (bool_decide (k' = k)); [done|exact IH].
  - rewrite bool_decide_eq_false_2 by congruence. exact IH.
Qed.

(** The path that reaches the callback. *)
Lemma init_path opts self fs s rest p :
  init opts self fs = Init_started s rest -> keyword_fetch opts "dht_state_path" = Some p ->
  exists peer_id, rest =
    (native (LocalPid:=LocalPid) alloc utf8 (started_handle s) (N_register_event_handler self) ≫= fun _ : option ETerm =>
     maybe_import_dht_state alloc utf8 (started_handle s) p fs ≫= fun r : option unit =>
     mret (_ ← r; Some (mkNodeState (started_handle s) peer_id p))).
Proof.
  intros (config & m & Hc & _ & _ & Ha)%init_after_start Hp.
  assert (Discovery.dht_state_path (NodeConfig.discovery config) = p) as Ep.
  { apply new_Some in Hc as (_ & Hn & ->). cbn [NodeConfig.discovery Discovery.struct Discovery.dht_state_path].
    rewrite kept_take by (done || by vm_compute). by rewrite fetch_config_opts, Hp. }
  revert Ha. unfold after_start. rewrite Ep. destruct (PeerIdStruct.new _) as [peer_id|]; [|done].
  intros [= <-]. by exists peer_id.
Qed.
End started.

(** ** The routing table across a restart *)
Section restart.
Context `{!Protocols, !Identity, !Metrics} {Swarm LocalPid Term FS : Type}.
Context `{!SwarmOps Swarm, !Builder Swarm, !TermEnc Term, !Storage FS}.
Context {Chan : Type} `{!Mpsc Chan (Command LocalPid), !MpscOk Chan (Command LocalPid)}.
Context (alloc : Z -> bool) (utf8 : string -> bool) (auto : bool).
Context (overflow_checks : bool) (entropy : Entropy) (registry : Registry).
Context (runtime : Result string (TokioRuntime (Swarm:=Swarm))).

#[local] Set Default Proof Using "Type*".

Local Abbreviation init := (init (LocalPid:=LocalPid) (FS:=FS) alloc utf8 overflow_checks entropy registry runtime).
Local Abbreviation terminate := (terminate (LocalPid:=LocalPid) (FS:=FS) alloc utf8).
Local Abbreviation import := (maybe_import_dht_state (LocalPid:=LocalPid) alloc utf8).
Local Abbreviation export := (maybe_export_dht_state (LocalPid:=LocalPid) alloc utf8).
Local Abbreviation native := (native (LocalPid:=LocalPid) alloc utf8).
Local Abbreviation turn := (turn (LocalPid:=LocalPid) (Term:=Term) alloc auto).
Local Abbreviation run := (run (Swarm:=Swarm) (LocalPid:=LocalPid) (Term:=Term) (Chan:=Chan) alloc auto).

(** The steps of [terminate], as call [j] of the node that stops, and of the
    swarm task: the export, the answer to it, and the shutdown. *)
Definition stopping {R} (p : Nif LocalPid R) (j : nat) : list (Action (LocalPid:=LocalPid) (R:=R)) :=
  [Spawn p; StepCall j; StepCall j; LoopRecv; StepCall j; StepCall j; LoopRecv].

(** The steps of the rest of [init], the first call of the node that starts: the
    event handler, the import and the answer to it. *)
Definition starting {R} (p : Nif LocalPid R) : list (Action (LocalPid:=LocalPid) (R:=R)) :=
  [Spawn p; StepCall 0; LoopRecv; StepCall 0; StepCall 0; LoopRecv; StepCall 0].

(** The snapshot of a table decodes to its entries. *)
Lemma snapshot_decodes `{!ProtocolsOk} buckets :
  table_entries_fit buckets -> decode (encode (export_entries buckets)) = Ok (export_entries buckets).
Proof using All.
  intros [Hwf Hlen]. rewrite <-(app_nil_r (encode _)). apply decode_complete; [done|]. by rewrite app_nil_r.
Qed.

Lemma terminate_wf nd fs : nif_wf Nothing (terminate true nd fs).
Proof.
  unfold NodeLife.terminate, maybe_export_dht_state. apply nif_wf_bind.
  - destruct (dht_state_path nd) as [[]| | | | | | | | | |]; try done; by apply nif_wf_bind; [apply native_wf|].
  - intros [fs'|] h; [|done]. apply nif_wf_any, nif_wf_bind; [apply native_wf|done].
Qed.

Lemma import_wf handle path fs : nif_wf Nothing (import handle path fs).
Proof.
  assert (forall bytes, nif_wf Nothing (native handle (N_kad_import_routing_table bytes) ≫=
    fun r => mret (ok_or_error_tuple r))) as Hn by (intros; by apply nif_wf_bind; [apply native_wf|]).
  unfold maybe_import_dht_state. destruct path as [[]| | | | | | | | | |]; try done; cbn [storage_path];
    by destruct (storage_read fs _).
Qed.

(** [terminate] asks for the snapshot, and then sends the shutdown. *)
Lemma terminate_asks nd fs p :
  dht_state_path nd = EStr p ->
  exists g, asks (t:=TEntries) (fun tx => DhtExportRoutingTable tx) g (terminate true nd fs) /\
    forall es, alloc (len (encode es)) = true ->
      exists k, g (Some (inr es)) = TrySend Shutdown k /\
        k Sent = Done (Ok (Some (storage_write fs p (encode es)).1)).
Proof.
  intros Hp. unfold NodeLife.terminate, maybe_export_dht_state, NativeCalls.native. rewrite Hp.
  cbn [arguments_ok native_function]. unfold kad_export_routing_table.
  cbn [mbind Nif_bind nif_bind query_typed as_term storage_path].
  eexists. split; [asks|]. intros es Ha. cbn -[encode len]. rewrite Ha. eexists. by split.
Qed.

(** The import asks for the entries of a snapshot to be added. *)
Lemma import_asks {R} handle p fs es (f : option unit -> Nif LocalPid R) :
  storage_read fs p = inr (encode es) -> decode (encode es) = Ok es ->
  exists g, asks (t:=TCount) (fun tx => DhtImportRoutingTable es tx) g (import handle (EStr p) fs ≫= f) /\
    forall n : Z, g (Some (inr n)) = f (Some tt).
Proof.
  intros Hr Hd. unfold maybe_import_dht_state, NativeCalls.native. cbn [storage_path]. rewrite Hr.
  cbn [arguments_ok native_function]. unfold kad_import_routing_table. rewrite Hd.
  cbn [mbind Nif_bind nif_bind query_typed as_term lift map_err].
  eexists. split; [asks|done].
Qed.

(** A node that is idle stops. *)
Lemma node_stops (s1 : Sys) st1 kad nd p fs :
  idle s1 st1 -> kademlia (behaviour (swarm st1)) = Some kad -> dht_state_path nd = EStr p ->
  let blob := encode (export_entries (kad_kbuckets kad).2) in
  alloc (len blob) = true ->
  let s1' := run (stopping (terminate true nd fs) (length (calls s1))) s1 in
  calls s1' !! length (calls s1) = Some (Done (Ok (Some (storage_write fs p blob).1))) /\ loop s1' = None.
Proof.
  intros Hi Hk Hp blob Ha. destruct (terminate_asks nd fs p Hp) as (g & Hg & Hgv).
  destruct (Hgv _ Ha) as (k & Ek & Hk'). clear Hgv. set (j := length (calls s1)).
  destruct (spawn_idle (Term:=Term) alloc auto s1 st1 _ Hi (terminate_wf nd fs)) as [Hi1 Hc1].
  change (stopping (terminate true nd fs) j) with
    ([Spawn (terminate true nd fs)] ++ [StepCall j; StepCall j; LoopRecv; StepCall j] ++ [StepCall j; LoopRecv]).
  rewrite !acts_app. change (run [Spawn ?p] s1) with (act (Term:=Term) alloc auto (Spawn p) s1).
  set (s2 := act _ _ _ _) in *. clearbody s2.
  assert (calls s2 !! j = Some (terminate true nd fs)) as Hj by (rewrite Hc1; by apply list_lookup_middle).
  destruct (ask_steps (Term:=Term) alloc auto _ g s2 st1 j _ (inr (export_entries (kad_kbuckets kad).2) : reply_val TEntries) Hi1 Hj Hg)
    as (tx & Hi2 & Hc2); [done| |].
  { intros tx. exists []. split; [constructor|]. by apply turn_export. }
  set (s3 := run _ s2) in *. clearbody s3. apply lookup_lt_Some in Hj.
  assert (calls s3 = <[j := TrySend Shutdown k]> (calls s2)) as Hc3 by (rewrite <-Ek; exact Hc2). clear Hc2.
  destruct (send_steps (Term:=Term) alloc auto s3 _ j Shutdown k Hi2) as [Hc4 Hl3].
  { rewrite Hc3. by apply list_lookup_insert_eq. }
  split; [|exact Hl3]. rewrite Hc4, Hc3, list_insert_insert_eq, Hk'. by apply list_lookup_insert_eq.
Qed.

(** A node that has started takes over a snapshot. *)
Lemma node_starts opts self fs s rest kad p es :
  init opts self fs = Init_started s rest -> keyword_fetch opts "dht_state_path" = Some (EStr p) ->
  kademlia (behaviour (started_swarm s)) = Some kad ->
  storage_read fs p = inr (encode es) -> decode (encode es) = Ok es ->
  let s2 := run (starting rest) (System.start (started_swarm s)) in
  exists peer_id st, calls s2 !! 0%nat = Some (Done (Ok (Some (mkNodeState (started_handle s) peer_id (EStr p))))) /\
    loop s2 = Some st /\ event_handler st = Some self /\
    swarm st = set_behaviour (started_swarm s) (set_kademlia (behaviour (started_swarm s)) (add_pairs kad (readable_pairs es))).
Proof.
  intros Hinit Hopt Hk Hr Hd. destruct (init_path _ _ _ _ _ _ _ _ _ _ _ _ Hinit Hopt) as [peer_id Hrest].
  assert (nif_wf Nothing rest) as Hwf.
  { rewrite Hrest. apply nif_wf_bind; [apply native_wf|]. intros _ h. apply nif_wf_any.
    apply nif_wf_bind; [apply import_wf|done]. }
  destruct (import_asks (started_handle s) p fs es
    (fun r : option unit => mret (_ ← r; Some (mkNodeState (started_handle s) peer_id (EStr p)))) Hr Hd) as (g & Hg & Hgv).
  assert (exists k, rest = TrySend (RegisterEventHandler self) k /\ k Sent =
    (import (started_handle s) (EStr p) fs ≫= fun r : option unit =>
     mret (_ ← r; Some (mkNodeState (started_handle s) peer_id (EStr p))))) as (k & Hsend & Hsent).
  { rewrite Hrest. eexists. by split. }
  clear Hrest. set (sw := started_swarm s) in *.
  destruct (spawn_idle (Term:=Term) alloc auto (System.start sw) (SwarmLoop.init_state sw) rest (idle_start sw) Hwf) as [Hi1 Hc1].
  change (starting rest) with ([Spawn rest] ++ [StepCall 0; LoopRecv] ++ [StepCall 0; StepCall 0; LoopRecv; StepCall 0]).
  rewrite !acts_app. change (run [Spawn rest] ?s) with (act (Term:=Term) alloc auto (Spawn rest) s).
  set (s2 := act _ _ _ _) in *. clearbody s2.
  destruct (send_steps (Term:=Term) alloc auto s2 _ 0%nat (RegisterEventHandler self) k Hi1) as [Hc2 Hi2];
    [by rewrite Hc1, Hsend|].
  set (s3 := run _ s2) in *. clearbody s3. cbn [ends] in Hi2. set (st := state _) in Hi2.
  assert (swarm st = sw /\ event_handler st = Some self) as [Hsw Hh] by done. clearbody st.
  rewrite <-Hsw in Hk.
  assert (forall tx, exists l,
    effects_of (turn (Recv (Some (DhtImportRoutingTable es tx))) st) = l ++ [Reply TCount tx (inr (len (readable_pairs es)))] /\
    Forall is_log l /\ event_handler (state (turn (Recv (Some (DhtImportRoutingTable es tx))) st)) = event_handler st /\
    swarm (state (turn (Recv (Some (DhtImportRoutingTable es tx))) st)) =
      set_behaviour (swarm st) (set_kademlia (behaviour (swarm st)) (add_pairs kad (readable_pairs es)))) as Himp.
  { intros tx. destruct (turn_import (Term:=Term) alloc auto st tx kad es Hk) as (l & He & Hl & Hfr & Hs).
    exists l. split_and!; [exact He|exact Hl| |exact Hs]. by rewrite turn_handler. }
  destruct (ask_steps (Term:=Term) alloc auto _ g s3 st 0%nat _ (inr (len (readable_pairs es)) : reply_val TCount) Hi2
    ltac:(by rewrite Hc2, Hc1, Hsent) Hg) as (tx & (_ & Hl & _) & Hc3); [done| |].
  { intros tx. destruct (Himp tx) as (l & He & Hl & _). by exists l. }
  destruct (Himp tx) as (_ & _ & _ & Hhandler & Hswarm). eexists peer_id, _.
  split; [by rewrite Hc3, Hc2, Hc1, Hgv|]. split; [exact Hl|]. split; [by rewrite Hhandler|]. by rewrite Hswarm, Hsw.
Qed.

(** C5: The routing table survives a restart.  A node with Kademlia on, whose
    channel is empty, is stopped, and no other call comes in between: [terminate]
    runs to its end - the registry being up, the table fitting the format and its
    size being allocated -, the snapshot of the table is written to the storage,
    and then the swarm task ends.  A node is started on what the storage has
    become, with the same path and with Kademlia on: [init] runs to its end, the
    process being the event handler, and adds to the new table every peer of the
    old one with every address, in order.  If the write failed, what the path
    reads is what it read before. *)
Theorem restart_restores_table `{!ProtocolsOk, !StorageOk FS} (s1 : Sys) st1 kad1 nd p fs fs' r :
  idle s1 st1 -> kademlia (behaviour (swarm st1)) = Some kad1 -> dht_state_path nd = EStr p ->
  table_entries_fit (kad_kbuckets kad1).2 ->
  let blob := encode (export_entries (kad_kbuckets kad1).2) in
  alloc (len blob) = true -> storage_write fs p blob = (fs', r) ->
  let s1' := run (stopping (terminate true nd fs) (length (calls s1))) s1 in
  calls s1' !! length (calls s1) = Some (Done (Ok (Some fs'))) /\ loop s1' = None /\
  match r with
  | inl _ => storage_read fs' p = storage_read fs p
  | inr tt =>
      forall opts self s rest kad2,
        init opts self fs' = Init_started s rest -> keyword_fetch opts "dht_state_path" = Some (EStr p) ->
        kademlia (behaviour (started_swarm s)) = Some kad2 ->
        let s2 := run (starting rest) (System.start (started_swarm s)) in
        exists peer_id st2,
          calls s2 !! 0%nat = Some (Done (Ok (Some (mkNodeState (started_handle s) peer_id (EStr p))))) /\
          loop s2 = Some st2 /\ event_handler st2 = Some self /\
          swarm st2 = set_behaviour (started_swarm s)
            (set_kademlia (behaviour (started_swarm s)) (add_pairs kad2 (table_pairs (kad_kbuckets kad1).2)))
  end.
Proof.
  intros Hi Hk Hp Hfit blob Ha Hw. destruct (node_stops s1 st1 kad1 nd p fs Hi Hk Hp Ha) as [Hc Hl].
  fold blob in Hc. rewrite Hw in Hc. split; [exact Hc|]. split; [exact Hl|].
  destruct r as [e|[]]; [by eapply failed_write_keeps|]. intros opts self s rest kad2 Hinit Hopt Hk2.
  rewrite <-(proj1 (readable_export (kad_kbuckets kad1).2)).
  apply (node_starts opts self fs'); [done..|by eapply read_written|by apply snapshot_decodes].
Qed.
End restart.

(** ** The identity across a restart *)
Section identity.
Context `{!Protocols, !Identity, !Metrics} {Swarm LocalPid FS : Type}.
Context `{!SwarmOps Swarm, !Builder Swarm, !Storage FS}.
Context (alloc : Z -> bool) (utf8 : string -> bool).
Context (overflow_checks : bool) (entropy : Entropy) (registry : Registry).
Context (runtime : Result string (TokioRuntime (Swarm:=Swarm))).

Local Abbreviation init := (init (LocalPid:=LocalPid) (FS:=FS) alloc utf8 overflow_checks entropy registry runtime).

(** The key that reaches the native side. *)
Lemma init_keypair opts self fs s rest b :
  init opts self fs = Init_started s rest -> keyword_fetch opts "keypair_bytes" = Some (EBin b) ->
  exists keypair, from_protobuf_encoding b = inr keypair /\
    handle_peer_id (started_handle s) = to_base58 (to_peer_id (public keypair)).
Proof.
  intros (config & m & Hc & Hm & Hs)%init_started Hk.
  pose proof (sent_entries _ config m Hc Hm) as Hsent. apply Forall_inv in Hsent. cbn [fst snd] in Hsent.
  rewrite fetch_config_opts, Hk in Hsent by done.
  apply start_node_inner_peer_id in Hs as (c & keypair & Hmap & Hkey & Hid).
  exists keypair. split; [|exact Hid].
  unfold from_map in Hmap. invert_bind. cbn [keypair_bytes] in Hkey. unfold get_binary in Hkey.
  change (nif_key "keypair_bytes") with "keypair_bytes" in Hsent. rewrite Hsent in Hkey. exact Hkey.
Qed.

(** C34: An identity survives a restart: a generated keypair that was saved is
    loaded back as it was, and every node that starts with the loaded bytes as
    its [keypair_bytes], whatever its other options, has the peer id of the
    keypair. *)
Theorem identity_persists `{!IdentityOk, !StorageOk FS} seed k path fs1 fs2 :
  ElixirKeypair.generate seed = Some (inr k) ->
  ElixirKeypair.save k path fs1 = Some (fs2, inr tt) ->
  exists b, ElixirKeypair.to_protobuf k = Some b /\
    (len b <= MAX_KEYPAIR_BYTES -> ElixirKeypair.load path fs2 = Some (inr k)) /\
    forall opts self fs s rest,
      init opts self fs = Init_started s rest -> keyword_fetch opts "keypair_bytes" = Some (EBin b) ->
      handle_peer_id (started_handle s) = ElixirKeypair.peer_id k.
Proof.
  rewrite ElixirKeypair.generate_spec. destruct (to_protobuf_encoding _) as [|b] eqn:Hb; [done|]. intros [= <-] Hsave.
  apply protobuf_roundtrip in Hb. exists b. split_and!; [done| |].
  - intros Hlen. rewrite (ElixirKeypair.saved_loads (ElixirKeypair.of_identity (generate_ed25519 seed) b) _ _ _ b eq_refl Hsave), ElixirKeypair.from_protobuf_spec, Hb.
    by rewrite Z.gtb_ltb, (proj2 (Z.ltb_ge _ _)).
  - intros opts self fs s rest Hi Hk. destruct (init_keypair _ _ _ _ _ _ Hi Hk) as (kp & E & ->).
    rewrite Hb in E. by injection E as <-.
Qed.
End identity.

(** ** Witnesses *)
Definition sim_state : NodeState NodeHandle := mkNodeState (mkNodeHandle "peer-0" sim_registry) [] (EStr "dht").

Definition sim_seed : bytes := repeat Byte.x41 52.

Definition sim_opts : Keywords :=
  [("keypair_bytes", EBin sim_seed); ("listen_addrs", EList [EStr "/ip4/0.0.0.0/tcp/0"])].

Definition sim_init : InitOutcome :=
  init (LocalPid:=nat) (FS:=list (option File.Fault) * File.Fs) (fun _ => true) (fun _ => true)
    true (sim_entropy : bytes) sim_registry sim_runtime sim_opts 0%nat ([], ∅).

Lemma identity_persists_witness :
  exists s rest, sim_init = Init_started s rest /\
    handle_peer_id (started_handle s) = bytes_string sim_seed.
Proof.
  destruct sim_init as [|reason|s rest] eqn:Hs; [vm_compute in Hs; discriminate Hs..|].
  exists s, rest. split; [reflexivity|].
  destruct (identity_persists (LocalPid:=nat) (fun _ => true) (fun _ => true) true sim_entropy sim_registry sim_runtime
    sim_seed (ElixirKeypair.of_identity (sim_seed : @Keypair SimProtocols sim_identity) sim_seed) "key"
    (([], ∅) : list (option File.Fault) * File.Fs)
    (storage_write (([], ∅) : list (option File.Fault) * File.Fs) "key" sim_seed).1) as (b & Hb & _ & Hid);
    [reflexivity|reflexivity|].
  injection Hb as <-. exact (Hid sim_opts 0%nat _ s rest Hs eq_refl).
Defined.

(** A node with a table stops, and one that starts with its path takes it over. *)
Definition sim_files : list (option File.Fault) * File.Fs := ([], ∅).
Definition sim_blob : bytes := encode (export_entries [sim_table]).
Definition sim_saved : list (option File.Fault) * File.Fs := (storage_write sim_files "dht" sim_blob).1.

Definition sim_old : Sys (Swarm:=SimSwarm) (LocalPid:=nat) (Chan:=ListChan (Command nat))
    (R:=option (list (option File.Fault) * File.Fs)) :=
  System.start (sim_node (Some sim_table) None).

Definition sim_restart : InitOutcome :=
  init (LocalPid:=nat) (FS:=list (option File.Fault) * File.Fs) (fun _ => true) (fun _ => true)
    true (sim_entropy : bytes) sim_registry sim_runtime (("dht_state_path", EStr "dht") :: sim_opts) 0%nat sim_saved.

Lemma restart_restores_table_witness :
  loop (run (Term:=ETerm) (fun _ => true) true
    (stopping (terminate (LocalPid:=nat) (fun _ => true) (fun _ => true) true sim_state sim_files) 0) sim_old) = None /\
  exists s rest, sim_restart = Init_started s rest /\
    exists st2, loop (run (Term:=ETerm) (Chan:=ListChan (Command nat)) (fun _ => true) true (starting rest)
        (System.start (started_swarm s))) = Some st2 /\
      swarm st2 = set_behaviour (started_swarm s) (set_kademlia (behaviour (started_swarm s))
        (add_pairs ([] : @Kad SimProtocols) (table_pairs [sim_table]))).
Proof.
  destruct (restart_restores_table (H:=SimProtocols) (H0:=sim_identity) (H1:=sim_metrics) (Term:=ETerm)
    (fun _ => true) (fun _ => true) true true sim_entropy sim_registry sim_runtime sim_old (SwarmLoop.init_state (sim_node (Some sim_table) None))
    (sim_table : @Kad SimProtocols) sim_state "dht" sim_files sim_saved (inr tt)) as (_ & Hl & Hr).
  - apply idle_start.
  - reflexivity.
  - reflexivity.
  - split; [apply (bool_decide_unpack _); vm_compute; exact I|vm_compute; discriminate].
  - reflexivity.
  - reflexivity.
  - split; [exact Hl|].
    assert (match sim_restart with
            | Init_started s _ => kademlia (sim_behaviour (started_swarm s)) = Some []
            | _ => False
            end) as Hk by (vm_compute; reflexivity).
    destruct sim_restart as [|reason|s rest] eqn:Hs; [destruct Hk..|].
    exists s, rest. split; [reflexivity|].
    destruct (Hr (("dht_state_path", EStr "dht") :: sim_opts) 0%nat s rest [] Hs eq_refl) as (_ & st2 & _ & Hl2 & _ & Hsw).
    + exact Hk.
    + exists st2. split; [exact Hl2|exact Hsw].
Defined.
