(* ===== verification/Supervision.v ===== *)
(** * The application

    Model of [lib/ex_libp2p/application.ex], the supervisor of the registry of
    names, the handler registry and the supervisor of nodes, over [terminate] of
    [NodeLife].  The strategies are those of Elixir's supervisors, which start
    children in order, stop them in reverse, and start a [DynamicSupervisor]
    without children; the limit on restarts is not modelled. *)
From S2P Require Import Prelude Bytes Policy Terms NifError Config Libp2p Sim DhtState Commands Channel Nif.
From S2P Require Import HandlerRegistry NativeCalls Storage NodeServer NodeLife.
From stdpp Require Import options.

Inductive Child := Names | Handler_registry | Node_supervisor.

#[global] Instance Child_eq_dec : EqDecision Child.
Proof. solve_decision. Defined.

Definition children : list Child := [Names; Handler_registry; Node_supervisor].

(** [:rest_for_one]: the children started after one. *)
Fixpoint rest_after (c : Child) (l : list Child) : list Child :=
  match l with
  | [] => []
  | x :: l => if decide (x = c) then l else rest_after c l
  end.

Lemma rest_of c :
  rest_after c children =
  match c with Names => [Handler_registry; Node_supervisor] | Handler_registry => [Node_supervisor] | Node_supervisor => [] end.
Proof. by destruct c. Qed.

Section application.
Context `{!Protocols, !Identity, !Metrics} {LocalPid FS EventType : Type} `{!Storage FS} `{Countable EventType}.
Context (alloc : Z -> bool) (utf8 : string -> bool).

Local Abbreviation NodeState := (NodeState NodeHandle).
Local Abbreviation State := (HandlerRegistry.State (EventType:=EventType)).
Local Abbreviation terminate := (terminate (LocalPid:=LocalPid) (FS:=FS) alloc utf8).

(** The processes that run: the names, the handler registry in its state, and
    the supervisor of nodes with its nodes. *)
Record App := mkApp {
  names : bool;
  registry : option State;
  node_supervisor : option (list NodeState);
}.

(** A node that ended, with its [terminate] on the storage it finds. *)
Record Ended := mkEnded { ended_node : NodeState; ended_by : FS -> Nif LocalPid (option FS) }.

(** A child stops, or crashes: its nodes trap the exit of their supervisor and
    run [terminate], which calls the registry. *)
Definition end_child (c : Child) (a : App) : App * list Ended :=
  match c with
  | Names => (mkApp false (registry a) (node_supervisor a), [])
  | Handler_registry => (mkApp (names a) None (node_supervisor a), [])
  | Node_supervisor =>
      (mkApp (names a) (registry a) None,
       map (fun node => mkEnded node (terminate (bool_decide (is_Some (registry a))) node))
         (default [] (node_supervisor a)))
  end.

Definition start_child (c : Child) (a : App) : App :=
  match c with
  | Names => mkApp true (registry a) (node_supervisor a)
  | Handler_registry => mkApp (names a) (Some init_state) (node_supervisor a)
  | Node_supervisor => mkApp (names a) (registry a) (Some [])
  end.

Fixpoint end_children (l : list Child) (a : App) : App * list Ended :=
  match l with
  | [] => (a, [])
  | c :: l => let '(a, e) := end_child c a in let '(a, e') := end_children l a in (a, e ++ e')
  end.

(** [start/2]. *)
Definition start : App := foldl (fun a c => start_child c a) (mkApp false None None) children.

(** A child crashes, the supervisor ends those after it, and starts them all. *)
Definition crash (c : Child) (a : App) : App * list Ended :=
  let '(a, ended) := end_children (c :: rev (rest_after c children)) a in
  (foldl (fun a c => start_child c a) a (c :: rest_after c children), ended).

(** The supervisor stops, and [stop/1] logs. *)
Definition stop (a : App) : App * list Ended := end_children (rev children) a.

(** [Node.start_supervised], of a node that [init] has started. *)
Definition start_supervised (node : NodeState) (a : App) : App :=
  mkApp (names a) (registry a) ((fun l => l ++ [node]) <$> node_supervisor a).

(** ** Properties *)

(** All processes run, or none. *)
Definition running (a : App) : Prop := names a = true /\ is_Some (registry a) /\ is_Some (node_supervisor a).

Lemma start_running : running start.
Proof. split_and!; by try eexists. Qed.

Lemma crash_running c a : running a -> running (crash c a).1.
Proof. intros (Hn & [r Hr] & [l Hl]). unfold crash. rewrite rest_of. destruct c; cbn; split_and!; by try eexists. Qed.

(** The nodes of an application. *)
Definition nodes_of (a : App) : list NodeState := default [] (node_supervisor a).

Lemma ended_nodes p l : map ended_node (map (fun node => mkEnded node (p node)) l) = l.
Proof. induction l as [|x l IH]; cbn; [done|by rewrite IH]. Qed.

(** How nodes end when a child crashes: the crash of any child ends every node
    and leaves none - those of a dynamic supervisor are not started again; each
    runs [terminate] with the registry alive, that is, exports its table and
    stops its native node, unless it is the registry that crashed: then no node
    makes a native call or writes to the storage. *)
Theorem crash_ends_nodes c a :
  running a ->
  node_supervisor (crash c a).1 = Some [] /\
  map ended_node (crash c a).2 = nodes_of a /\
  Forall (fun e => ended_by e = terminate (bool_decide (c <> Handler_registry)) (ended_node e)) (crash c a).2 /\
  (c = Handler_registry -> registry (crash c a).1 = Some init_state /\
     Forall (fun e => forall fs, ended_by e fs = mret None) (crash c a).2).
Proof.
  intros (Hn & [r Hr] & [l Hl]). unfold crash, nodes_of. rewrite rest_of. destruct c; cbn; rewrite ?Hr, Hl; cbn [default];
    rewrite ?app_nil_r; (split_and!; [done|by apply (ended_nodes (terminate _))|by apply Forall_map, Forall_true|]); intros E; try discriminate E.
  split; [done|]. by apply Forall_map, Forall_true.
Qed.

(** When the application stops, every node exports its table and stops. *)
Theorem stop_ends_nodes a :
  running a ->
  map ended_node (stop a).2 = nodes_of a /\
  Forall (fun e => ended_by e = terminate true (ended_node e)) (stop a).2.
Proof.
  intros (Hn & [r Hr] & [l Hl]). unfold stop, nodes_of. cbn. rewrite Hr, Hl. cbn [default].
  rewrite ?app_nil_r. split; [by apply (ended_nodes (terminate _))|by apply Forall_map, Forall_true].
Qed.
End application.
