(* ===== verification/Distribution.v ===== *)
(** * Calls to processes on other nodes

    Model of [lib/ex_libp2p/otp/distribution.ex] and
    [lib/ex_libp2p/otp/distribution_server.ex]: the client, which encodes a
    request as a binary and waits for the response in its mailbox, and the
    server, which runs requests of peers on local processes.  The Erlang term
    format is a class; the processes of the serving node are the record
    [Processes].  The end composes the client with the handler registry. *)
From S2P Require Import Prelude Bytes Policy Terms NifError Libp2p Sim DhtState NodeEvents HandlerRegistry.
From S2P Require Import Subscriptions NodeServer.
From stdpp Require Import options.

(** [:erlang.term_to_binary] and [:erlang.binary_to_term] with [:safe], which
    raises ([None]) for malformed data and for atoms the machine does not have. *)
Class TermFormat : Type := {
  term_to_binary : ETerm -> bytes;
  binary_to_term : bytes -> option ETerm;
  loadable : ETerm -> Prop;
}.

Class TermFormatOk `{!TermFormat} : Prop := {
  loads t : loadable t -> binary_to_term (term_to_binary t) = Some t;
}.

(** What a serving node has: registered names, the lookup of [:via] names, its
    servers' answers to [GenServer.call] and [inspect].  The lookup of a [:via]
    name applies [whereis_name] of a module that the name gives to a key that it
    gives; it raises ([None]) if there is no such module, if it has no such
    function, or if the function raises or returns neither a process nor
    [:undefined]. *)
Record Processes := mkProcesses {
  process_whereis : ETerm -> option Pid;
  via_whereis : ETerm -> ETerm -> option (option Pid);
  server_call : Pid -> ETerm -> ServerOutcome;
  inspect : ETerm -> string;
}.

Definition max_payload_bytes : Z := 1048576.

Inductive DecodeError := Invalid_message | Payload_too_large | Invalid_input.

(** What the serving node does to its processes. *)
Inductive Delivery :=
  | Called (pid : Pid) (message : ETerm)
  | Casted (pid : Pid) (message : ETerm)
  | Delivered (pid : Pid) (message : ETerm).

Section distribution.
Context {format : TermFormat}.

Definition encode (term : ETerm) : bytes := term_to_binary term.

Definition decode_binary (b : bytes) : DecodeError + ETerm :=
  if len b >? max_payload_bytes then inl Payload_too_large
  else match binary_to_term b with
       | Some t => inr t
       | None => inl Invalid_message
       end.

Definition decode (data : ETerm) : DecodeError + ETerm :=
  match data with
  | EBin b => decode_binary b
  | EStr s => decode_binary (string_bytes s)
  | _ => inl Invalid_input
  end.

(** ** The server *)

(** No clause for other names; a [:via] name is looked up. *)
Definition whereis (vm : Processes) (name : ETerm) : option (option Pid) :=
  match name with
  | EAtom _ | EName _ | EBool _ => Some (process_whereis vm name)
  | ETuple [EName "via"; registry; key] => via_whereis vm registry key
  | _ => None
  end.

Definition error_tuple (reason : ETerm) : ETerm := ETuple [EAtom a_error; reason].
Definition reply_tuple (reply : ETerm) : ETerm := ETuple [EName "reply"; reply].

Definition exit_reason (vm : Processes) (reason : ETerm) : ETerm :=
  match reason with
  | ETuple [EName "noproc"; _] => EName "noproc"
  | ETuple [EName "timeout"; _] => EName "timeout"
  | _ => ETuple [EName "exit"; EStr (inspect vm reason)]
  end.

Definition safe_call (vm : Processes) (pid : Pid) (message : ETerm) : ETerm + ETerm :=
  match server_call vm pid message with
  | Replied reply => inr reply
  | Exited reason => inl (exit_reason vm reason)
  end.

Definition handle_remote_request (vm : Processes) (request : ETerm) : option (list Delivery * bytes) :=
  match request with
  | ETuple [EName "call"; name; message] =>
      w ← whereis vm name;
      Some (match w with
            | None => ([], encode (error_tuple (EName "noproc")))
            | Some pid =>
                ([Called pid message],
                 match safe_call vm pid message with
                 | inr reply => encode (reply_tuple reply)
                 | inl reason => encode (error_tuple reason)
                 end)
            end)
  | ETuple [EName "cast"; name; message] =>
      w ← whereis vm name;
      Some (match w with Some pid => [Casted pid message] | None => [] end, encode (reply_tuple (EAtom a_ok)))
  | ETuple [EName "send"; name; message] =>
      w ← whereis vm name;
      Some (match w with Some pid => [Delivered pid message] | None => [] end, encode (reply_tuple (EAtom a_ok)))
  | _ => Some ([], encode (error_tuple (EName "unknown_request")))
  end.

(** [send_response] has no clause for a channel that is not a binary. *)
Definition send_response (channel_id : ETerm) (response : bytes) : option Api :=
  match channel_id with
  | EStr s => Some (A_RequestResponse_send_response s response)
  | EBin b => Some (A_RequestResponse_send_response (bytes_string b) response)
  | _ => None
  end.

(** A message [{:libp2p, event_type, event}]: what it does to the processes and
    the calls of the node, or it raises.  Other messages are ignored. *)
Definition server_handle_info (vm : Processes) (msg : Atom * NodeEvent.t) : option (list Delivery * list Api) :=
  match msg with
  | (a_inbound_request, NodeEvent.InboundRequest _ channel_id _ data) =>
      match decode data with
      | inr request =>
          r ← handle_remote_request vm request;
          call ← send_response channel_id r.2;
          Some (r.1, [call])
      | inl Invalid_message =>
          call ← send_response channel_id (encode (error_tuple (EName "invalid_message")));
          Some ([], [call])
      | inl _ => None
      end
  | _ => Some ([], [])
  end.

(** ** The client *)
Definition request (kind : string) (name message : ETerm) : ETerm := ETuple [EName kind; name; message].

(** The call of the node that [call], [cast] and [send] make. *)
Definition send_request (peer : bytes) (kind : string) (name message : ETerm) : Api :=
  A_RequestResponse_send_request peer (encode (request kind name message)).

(** What a function does, in the order of the code: calls of the node, and
    [register_handler] of a front end. *)
Inductive ClientStep :=
  | Node_call (call : Api)
  | Register_for (f : FrontEnd).

(** [call] up to its [receive]. *)
Definition call_steps (peer : bytes) (name message : ETerm) : list ClientStep :=
  [Node_call (send_request peer "call" name message)].

(** The requests to the registry that these make for the process [caller]: a
    call of the node makes none. *)
Definition step_requests (whereis : nat -> option Pid) (caller : Pid) (s : ClientStep) :
    list (Request (EventType:=Atom)) :=
  match s with
  | Node_call _ => []
  | Register_for f => (front_end_register f whereis caller).1
  end.

Definition call_requests (whereis : nat -> option Pid) (caller : Pid) (peer : bytes) (name message : ETerm) :
    list (Request (EventType:=Atom)) :=
  call_steps peer name message ≫= step_requests whereis caller.

(** The [receive] takes the first response in the mailbox. *)
Fixpoint receive (mailbox : list (Atom * NodeEvent.t)) : option ETerm :=
  match mailbox with
  | [] => None
  | (a_outbound_response, NodeEvent.OutboundResponse _ _ data) :: _ => Some data
  | _ :: mailbox => receive mailbox
  end.

(** The result of [call], from the result of [send_request] and what is in the
    mailbox before the timeout; [None] if it raises. *)
Definition call_result (sent : ETerm) (mailbox : list (Atom * NodeEvent.t)) : option ETerm :=
  match sent with
  | ETuple [EAtom a_ok; _] =>
      match receive mailbox with
      | None => Some (error_atom "timeout")
      | Some response_data =>
          match decode response_data with
          | inr (ETuple [EName "reply"; reply]) => Some (ok_term reply)
          | inr (ETuple [EAtom a_error; reason]) => Some (error_tuple reason)
          | inr _ => None
          | inl _ => Some (error_atom "invalid_response")
          end
      end
  | ETuple [EAtom a_error; _] => Some (error_atom "unreachable")
  | _ => None
  end.
End distribution.

(** ** Properties *)
Section properties.
Context {format : TermFormat}.
Implicit Types (vm : Processes) (data name message : ETerm) (mailbox : list (Atom * NodeEvent.t)).

(** What a remote call comes to: the reply of the named process, or why there
    is none. *)
Definition call_answer vm name message : ETerm + ETerm :=
  match process_whereis vm name with
  | None => inl (EName "noproc")
  | Some pid => safe_call vm pid message
  end.

Definition answer_term (answer : ETerm + ETerm) : ETerm :=
  match answer with inl reason => error_tuple reason | inr reply => reply_tuple reply end.

Definition result_term (answer : ETerm + ETerm) : ETerm :=
  match answer with inl reason => error_tuple reason | inr reply => ok_term reply end.

(** A term that arrives as it was sent. *)
Definition travels (t : ETerm) : Prop := loadable t /\ len (encode t) <= max_payload_bytes.

Lemma decode_encode `{!TermFormatOk} t : travels t -> decode (EBin (encode t)) = inr t.
Proof.
  intros [Hl Hs]. unfold decode, decode_binary. rewrite Z.gtb_ltb, (proj2 (Z.ltb_ge _ _)) by done.
  unfold encode. by rewrite loads.
Qed.

Lemma handle_call_request vm name message :
  is_atom name = true ->
  exists ds, handle_remote_request vm (request "call" name message) =
    Some (ds, encode (answer_term (call_answer vm name message))).
Proof.
  intros Hn. unfold handle_remote_request, request, whereis, call_answer.
  destruct name; try done; cbn [mbind option_bind]; (destruct (process_whereis vm _) as [pid|]; [|by eexists]);
    by destruct (safe_call vm pid message); eexists.
Qed.

(** The first response in the mailbox is the one taken. *)
Lemma receive_app mailbox rid from d later :
  receive mailbox = None ->
  receive (mailbox ++ (a_outbound_response, NodeEvent.OutboundResponse rid from d) :: later) = Some d.
Proof.
  induction mailbox as [|[a e] mb IH]; [done|]. destruct a; try exact IH. by destruct e.
Qed.

(** The result of a call whose response is the answer of the process. *)
Lemma call_result_answer `{!TermFormatOk} answer sent_id mailbox rid from later :
  travels (answer_term answer) -> receive mailbox = None ->
  call_result (ETuple [EAtom a_ok; sent_id])
    (mailbox ++ (a_outbound_response, NodeEvent.OutboundResponse rid from (EBin (encode (answer_term answer)))) :: later) =
    Some (result_term answer).
Proof. intros Ht Hm. unfold call_result. rewrite receive_app, decode_encode by done. by destruct answer. Qed.

(** A remote call returns what a local one would: when the request and the
    answer fit and load, the server answers it once, on its channel, and a
    caller whose first response is that answer gets the reply of the named
    process, or the reason why there is none - no such process, a timeout or
    the exit of the process. *)
Theorem remote_call_returns {Hformat : TermFormatOk} vm request_id channel_id from name message response_id to mailbox sent_id :
  let answer := call_answer vm name message in
  is_atom name = true -> travels (request "call" name message) -> travels (answer_term answer) ->
  receive mailbox = None ->
  exists ds response,
    server_handle_info vm (a_inbound_request,
      NodeEvent.InboundRequest request_id (EStr channel_id) from (EBin (encode (request "call" name message)))) =
      Some (ds, [A_RequestResponse_send_response channel_id response]) /\
    forall later,
      call_result (ETuple [EAtom a_ok; sent_id])
        (mailbox ++ (a_outbound_response, NodeEvent.OutboundResponse response_id to (EBin response)) :: later) =
        Some (result_term answer).
Proof.
  intros answer Hn Hreq Hans Hm. destruct (handle_call_request vm name message Hn) as [ds Hd].
  exists ds, (encode (answer_term answer)). split.
  - cbn [server_handle_info]. rewrite (decode_encode _ Hreq), Hd. done.
  - intros later. by apply call_result_answer.
Qed.

(** Names [whereis] raises for. *)
Definition bad_name vm name : Prop :=
  (is_atom name = false /\ forall registry key, name <> ETuple [EName "via"; registry; key]) \/
  exists registry key, name = ETuple [EName "via"; registry; key] /\ via_whereis vm registry key = None.

(** A request the server raises for. *)
Definition bad_request (request : ETerm) (vm : Processes) : Prop :=
  exists kind name message, request = ETuple [EName kind; name; message] /\
    kind ∈ ["call"; "cast"; "send"] /\ bad_name vm name.

Lemma whereis_None vm name : whereis vm name = None <-> bad_name vm name.
Proof.
  unfold bad_name. split.
  - destruct name as [| | | |l| | | | | |]; try done; try (by left).
    destruct l as [|[| | | | | | | | | |s] [|registry [|key []]]]; try (by left).
    destruct (decide (s = "via")) as [->|Hs].
    + right. by exists registry, key.
    + left. split; [done|]. by intros registry' key' [= -> _ _].
  - intros [[Ha Hv]|(registry & key & -> & Hn)]; [|exact Hn].
    destruct name as [| | | |l| | | | | |]; try done.
    unfold whereis. repeat case_match; try done. subst. by edestruct Hv.
Qed.

Lemma handle_remote_request_None vm request :
  handle_remote_request vm request = None <-> bad_request request vm.
Proof.
  unfold bad_request. setoid_rewrite <-whereis_None. split.
  - unfold handle_remote_request. intros Hn. repeat case_match; try done; subst;
      apply bind_None in Hn as [Hn|(w & _ & Hn)]; try done;
      (eexists _, _, _; split; [done|]; split; [|exact Hn]; set_solver).
  - intros (kind & name & message & -> & Hk & Hw). cbn [handle_remote_request].
    rewrite !elem_of_cons in Hk. destruct Hk as [->|[->|[->|[]%elem_of_nil]]]; by rewrite Hw.
Qed.

(** C38: The server makes exactly one answer to every payload of a peer, on the
    channel of the request, or raises, and it raises exactly when the data is
    over the size limit or no binary, when a call, cast or send names its process
    by something that is neither an atom nor a [:via] tuple, and when it names it
    by a [:via] tuple whose lookup raises - the module and the key of which are
    the peer's choice. *)
Theorem server_answers vm request_id channel_id from data :
  let result := server_handle_info vm
    (a_inbound_request, NodeEvent.InboundRequest request_id (EStr channel_id) from data) in
  (forall deliveries calls, result = Some (deliveries, calls) ->
     exists response, calls = [A_RequestResponse_send_response channel_id response]) /\
  (result = None <->
     decode data = inl Payload_too_large \/ decode data = inl Invalid_input \/
     exists request, decode data = inr request /\ bad_request request vm).
Proof.
  cbn [server_handle_info send_response]. destruct (decode data) as [[]|request] eqn:Hd; cbn.
  - split; [naive_solver|]. split; [done|]. by intros [|[|(? & ? & _)]].
  - split; [done|]. by split; [left|].
  - split; [done|]. by split; [right; left|].
  - destruct (handle_remote_request vm request) as [[ds response]|] eqn:Hr; cbn.
    + split; [naive_solver|]. split; [done|]. intros [|[|(r' & [= <-] & Hb)]]; [done..|].
      apply handle_remote_request_None in Hb. congruence.
    + split; [done|]. split; [|done]. intros _. right. right. exists request. split; [done|].
      by apply handle_remote_request_None.
Qed.

(** A peer can stop the server: its payload need only be too large. *)
Lemma large_payload_raises vm request_id channel_id from b :
  max_payload_bytes < len b ->
  server_handle_info vm (a_inbound_request, NodeEvent.InboundRequest request_id channel_id from (EBin b)) = None.
Proof.
  intros Hl. cbn [server_handle_info]. unfold decode, decode_binary. by rewrite Z.gtb_ltb, (proj2 (Z.ltb_lt _ _)).
Qed.

Lemma receive_None mailbox messages :
  receive mailbox = None -> Forall (fun m => m.1 <> a_outbound_response) messages ->
  receive (mailbox ++ messages) = None.
Proof.
  intros Hb Hm. induction mailbox as [|[a e] mb IH].
  - clear Hb. induction Hm as [|[a e] mb Ha _ IH]; [done|]. cbn in Ha. by destruct a.
  - destruct a; try exact (IH Hb). destruct e; try exact (IH Hb). done.
Qed.

(** *** A client among other processes

    A run of the registry with what it sends. *)
Local Abbreviation RWorld := (World (EventType:=Atom)).
Local Abbreviation RAction := (Action (EventType:=Atom) (Event:=NodeEvent.t)).
Implicit Types (w : RWorld) (a : RAction) (l : list RAction) (caller : Pid).

Definition sends (o : Output (EventType:=Atom) (Event:=NodeEvent.t)) : list (Pid * (Atom * NodeEvent.t)) :=
  match o with Sent messages => messages | _ => [] end.

Inductive runs_sending : RWorld -> list RAction -> list (Pid * (Atom * NodeEvent.t)) -> RWorld -> Prop :=
  | runs_sending_nil w : runs_sending w [] [] w
  | runs_sending_cons w a o w1 l messages w2 :
      HandlerRegistry.step w a o w1 -> runs_sending w1 l messages w2 ->
      runs_sending w (a :: l) (sends o ++ messages) w2.

(** [pid] is subscribed to the events of that type of no node. *)
Definition deaf (event_type : Atom) (pid : Pid) (r : State (EventType:=Atom)) : Prop :=
  forall node, (node, event_type, pid) ∉ subscribed r.

(** The action does not subscribe [pid] to such events. *)
Definition no_registration (event_type : Atom) (pid : Pid) (a : RAction) : Prop :=
  forall node, a <> Call (Register node event_type pid).

Lemma step_deaf w a o w' event_type pid :
  reachable (Event:=NodeEvent.t) w -> HandlerRegistry.step w a o w' -> no_registration event_type pid a ->
  deaf event_type pid (reg w) ->
  deaf event_type pid (reg w') /\ Forall (fun m => m.1 <> event_type) (inbox_of pid (sends o)).
Proof.
  intros Hw Hs Ha Hd. pose proof (step_refines w a o w' Hw Hs) as Hr. unfold deaf in *.
  destruct Hr as [S q ans S' Hc|S node e event messages _ Hm|S p|S node e p Hin Hp]; cbn [sends].
  - split; [|constructor]. intros n Hn. apply (Hd n). destruct q as [node e p| | | | |]; cbn in Hc;
      injection Hc as <- <-; try set_solver.
    apply elem_of_union in Hn as [[= <- <- <-]%elem_of_singleton|]; [|done]. by destruct (Ha n).
  - split; [done|]. apply Forall_forall. intros m Hin. unfold inbox_of in Hin.
    apply list_elem_of_fmap in Hin as ([p m'] & -> & [Hp Hin]%list_elem_of_filter). cbn in Hp |- *. subst p.
    apply Hm in Hin as [Hin ->]. cbn. intros ->. by apply (Hd node).
  - split; [done|constructor].
  - split; [set_solver|constructor].
Qed.

Lemma runs_deaf w l messages w' event_type pid :
  reachable (Event:=NodeEvent.t) w -> runs_sending w l messages w' -> Forall (no_registration event_type pid) l ->
  deaf event_type pid (reg w) -> Forall (fun m => m.1 <> event_type) (inbox_of pid messages).
Proof.
  intros Hw Hr. induction Hr as [|w a o w1 l messages w2 Hs Hr IH]; [constructor|].
  intros [Ha Hl]%Forall_cons Hd. destruct (step_deaf _ _ _ _ _ _ Hw Hs Ha Hd) as [Hd1 Ho].
  rewrite inbox_app. apply Forall_app. split; [done|]. apply IH; [by eapply reachable_step|done..].
Qed.

End properties.

(** ** Witnesses *)

(** A format for a few terms. *)
Definition sim_to_binary (t : ETerm) : bytes :=
  match t with
  | ETuple [EName "call"; EName "echo"; EInt 7] => [Byte.x01]
  | ETuple [EName "reply"; EInt 7] => [Byte.x02]
  | ETuple [EName "call"; EName "echo"; EInt 8] => [Byte.x03]
  | ETuple [EName "reply"; EInt 8] => [Byte.x04]
  | _ => []
  end.

Definition sim_of_binary (b : bytes) : option ETerm :=
  match b with
  | [Byte.x01] => Some (ETuple [EName "call"; EName "echo"; EInt 7])
  | [Byte.x02] => Some (ETuple [EName "reply"; EInt 7])
  | [Byte.x03] => Some (ETuple [EName "call"; EName "echo"; EInt 8])
  | [Byte.x04] => Some (ETuple [EName "reply"; EInt 8])
  | _ => None
  end.

Definition sim_format : TermFormat :=
  Build_TermFormat sim_to_binary sim_of_binary (fun t => sim_of_binary (sim_to_binary t) = Some t).

Definition sim_format_ok : @TermFormatOk sim_format.
Proof. by split. Qed.

(** One process that answers what it is asked. *)
Definition sim_processes : Processes :=
  mkProcesses (fun name => match name with EName "echo" => Some 9%N | _ => None end) (fun _ _ => None)
    (fun _ message => Replied message) (fun _ => "").

Lemma remote_call_returns_witness :
  exists ds response,
    server_handle_info (format:=sim_format) sim_processes (a_inbound_request,
      NodeEvent.InboundRequest (EStr "1") (EStr "ch-1") [] (EBin [Byte.x01])) =
      Some (ds, [A_RequestResponse_send_response "ch-1" response]) /\
    call_result (format:=sim_format) (ETuple [EAtom a_ok; EStr "1"])
      [(a_outbound_response, NodeEvent.OutboundResponse (EStr "1") [] (EBin response))] =
      Some (ok_term (EInt 7)).
Proof.
  destruct (remote_call_returns (format:=sim_format) (Hformat:=sim_format_ok) sim_processes
    (EStr "1") "ch-1" [] (EName "echo") (EInt 7) (EStr "1") [] [] (EStr "1")) as (ds & response & Hs & Hc).
  - reflexivity.
  - split; [reflexivity|vm_compute; discriminate].
  - split; [reflexivity|vm_compute; discriminate].
  - reflexivity.
  - exists ds, response. split; [exact Hs|exact (Hc [])].
Defined.

(** A peer's answer is announced, to a process that is subscribed, while 5 waits. *)
Definition sim_announced : list (Action (EventType:=Atom) (Event:=NodeEvent.t)) :=
  [Call (Register 1%N a_outbound_response 8%N);
   Cast 1%N a_outbound_response (NodeEvent.OutboundResponse (EStr "1") [] (EBin [Byte.x02]))].

Lemma sim_announced_run : exists messages w', runs_sending init_world sim_announced messages w' /\ messages <> [].
Proof.
  eexists _, _. split.
  - eapply runs_sending_cons; [apply step_call; reflexivity|].
    eapply runs_sending_cons; [apply step_cast|apply runs_sending_nil].
  - discriminate.
Qed.

