(* ===== verification/Dialing.v ===== *)
(** * Addresses and dialing

    Model of [lib/ex_libp2p/multiaddr.ex], the check of addresses that precedes
    the native parser; of [dial/2] of [lib/ex_libp2p/node.ex]; and of
    [bootstrap/2] of [lib/ex_libp2p/discovery.ex], a sequence of calls to a node
    that may exit on the way.  With these the functions of the front ends are
    complete, and their annotations are compared with what they return. *)
From S2P Require Import Prelude Bytes Policy Terms NifError Libp2p Sim DhtState Commands NodeEvents.
From S2P Require Import Channel Nif NativeCalls HandlerRegistry Subscriptions NodeServer.
From stdpp Require Import options.

(** ** [ExLibp2p.Multiaddr] *)
Module Multiaddr.
Definition slash : Byte.byte := Byte.x2f.
Definition text (s : string) : bytes := String.list_byte_of_string s.

Definition known_protocols : list bytes :=
  map text ["ip4"; "ip6"; "tcp"; "udp"; "quic"; "quic-v1"; "dns"; "dns4"; "dns6"; "dnsaddr"; "ws"; "wss"; "p2p";
            "p2p-circuit"; "webtransport"; "webrtc-direct"; "certhash"].

(** [String.split(raw, "/")]. *)
Fixpoint split_slash (raw : bytes) : list bytes :=
  match raw with
  | [] => [[]]
  | c :: raw =>
      if bool_decide (c = slash) then [] :: split_slash raw
      else match split_slash raw with
           | part :: parts => (c :: part) :: parts
           | [] => [[c]]
           end
  end.

(** The same with [trim: true]. *)
Definition parts (raw : bytes) : list bytes := filter (fun part => part <> []) (split_slash raw).

(** [Enum.take_every(2)]. *)
Fixpoint take_every_2 {A} (l : list A) : list A :=
  match l with
  | [] => []
  | [x] => [x]
  | x :: _ :: l => x :: take_every_2 l
  end.

Definition has_known_protocol (parts : list bytes) : bool :=
  existsb (fun part => bool_decide (part ∈ known_protocols)) (take_every_2 parts).

(** [None] is [{:error, :invalid_multiaddr}]; the struct holds the address. *)
Definition new (raw : ETerm) : option bytes :=
  match PeerIdStruct.binary raw with
  | Some raw => if bool_decide (head raw = Some slash) && has_known_protocol (parts raw) then Some raw else None
  | None => None
  end.

Definition with_p2p (address peer_id : bytes) : bytes := address ++ text "/p2p/" ++ peer_id.
End Multiaddr.

(** ** [ExLibp2p.Node.dial] and [ExLibp2p.Discovery.bootstrap] *)
Section dialing.
Context `{!Protocols} {Handle LocalPid : Type} `{!NativeModule Handle LocalPid}.
Local Abbreviation NodeState := (NodeState Handle).

(** The exit reasons of calls, and whether the reply to the [k]-th call of a
    sequence comes after the timeout. *)
Context (exits : Exits) (late : nat -> bool).

(** [dial], as call [k], has no clause for an address that is not a binary. *)
Definition dial (k : nat) (alive : bool) (addr : ETerm) (state : NodeState) : option (Nif LocalPid (bool * ETerm)) :=
  raw ← PeerIdStruct.binary addr;
  Some (match Multiaddr.new addr with
        | Some _ => call_process exits alive (late k) (C_dial (bytes_string raw)) state
        | None => mret (alive, error_atom "invalid_multiaddr")
        end).

(** [Enum.map] over the addresses; [None] if one of the calls raises. *)
Fixpoint dial_each (k : nat) (alive : bool) (addrs : list ETerm) (state : NodeState) :
    Nif LocalPid (option (bool * list ETerm)) :=
  match addrs with
  | [] => mret (Some (alive, []))
  | addr :: addrs =>
      match dial k alive addr state with
      | None => mret None
      | Some p =>
          p ≫= fun r : bool * ETerm =>
          dial_each (S k) r.1 addrs state ≫= fun rest : option (bool * list ETerm) =>
          mret (l ← rest; Some (l.1, r.2 :: l.2))
      end
  end.

Definition bootstrap (alive : bool) (peer_addrs : ETerm) (state : NodeState) : Nif LocalPid (option ETerm) :=
  match peer_addrs with
  | EList [] => mret (Some (EAtom a_ok))
  | EList addrs =>
      dial_each 0 alive addrs state ≫= fun dials : option (bool * list ETerm) =>
      match dials with
      | None => mret None
      | Some (alive, dial_results) =>
          call_process exits alive (late (length addrs)) C_dht_bootstrap state ≫= fun r : bool * ETerm =>
          mret (match r.2 with
                | EAtom a_ok => Some (ok_term (EList dial_results))
                | ETuple [EAtom a_error; _] => Some r.2
                | _ => None
                end)
      end
  | _ => mret (Some (error_atom "invalid_peer_addrs"))
  end.
(** ** The functions of the front ends

    Those that are a call to a node, [dial], [bootstrap], [register_handler] of a
    front end, and [register_handler] and [unregister_handler] of [Node]. *)
Inductive FrontFunction :=
  | F_call (f : Api)
  | F_dial (addr : ETerm)
  | F_bootstrap (peer_addrs : ETerm)
  | F_register (f : FrontEnd)
  | F_node_register (event_type : Atom)
  | F_node_unregister (event_type : Atom).

(** [whereis k] is what the [k]-th lookup of the node finds, [pid] the process
    that is registered. *)
Definition function_call (alive : bool) (whereis : nat -> option Pid) (pid : Pid) (f : FrontFunction)
    (state : NodeState) : Nif LocalPid (option ETerm) :=
  match f with
  | F_call f => api_call exits alive (late 0%nat) f state
  | F_dial addr =>
      match dial 0%nat alive addr state with
      | Some p => p ≫= fun r : bool * ETerm => mret (Some r.2)
      | None => mret None
      end
  | F_bootstrap peer_addrs => bootstrap alive peer_addrs state
  | F_register f => mret (front_end_register f whereis pid).2
  | F_node_register event_type => mret (register_handler (whereis 0%nat) event_type pid).2
  | F_node_unregister event_type => mret (unregister_handler (whereis 0%nat) event_type pid).2
  end.

(** [:ok | {:error, term()}]. *)
Definition ok_or_error : Ty := T_or T_ok (T_error T_any).

(** The [@spec]s. *)
Definition function_spec (f : FrontFunction) : Ty :=
  match f with
  | F_call f => api_spec f
  | F_bootstrap _ => T_or T_ok (T_or (T_ok_of [T_list ok_or_error]) (T_error T_any))
  | F_register _ => T_ok
  | F_dial _ | F_node_register _ | F_node_unregister _ => ok_or_error
  end.

(** Addresses are binaries. *)
Definition arguments_typed (f : FrontFunction) : bool :=
  match f with
  | F_dial addr => has_type T_binary addr
  | F_bootstrap peer_addrs => has_type (T_list T_binary) peer_addrs
  | _ => true
  end.

(** How a function may end: with a term of its type, or as said here. *)
Definition function_outcome (whereis : nat -> option Pid) (f : FrontFunction) (r : Result NifError (option ETerm)) :
    Prop :=
  match f, r with
  | F_call f, r => api_outcome f r
  | F_register f, Ok (Some t) =>
      t = EAtom a_ok \/ (t = no_node /\ whereis (pred (length (event_types f))) = None)
  | F_register f, Ok None => exists k, (S k < length (event_types f))%nat /\ whereis k = None
  | f, Ok (Some t) => has_type (function_spec f) t = true
  | _, _ => False
  end.
End dialing.

(** ** Lemmas on addresses *)
Import Multiaddr.

Lemma split_slash_nonempty raw : split_slash raw <> [].
Proof. destruct raw as [|c raw]; cbn; [done|]. case_bool_decide; [done|]. by destruct (split_slash raw). Qed.

Lemma split_slash_word word : slash ∉ word -> split_slash word = [word].
Proof.
  induction word as [|c word IH]; cbn; [done|]. intros [Hc Hw]%not_elem_of_cons.
  rewrite bool_decide_eq_false_2 by congruence. by rewrite IH.
Qed.

Lemma split_slash_app raw word :
  slash ∉ word -> split_slash (raw ++ slash :: word) = split_slash raw ++ [word].
Proof.
  intros Hw. induction raw as [|c raw IH]; cbn [app split_slash].
  - rewrite bool_decide_eq_true_2 by done. by rewrite split_slash_word.
  - case_bool_decide; rewrite IH; [done|]. pose proof (split_slash_nonempty raw). by destruct (split_slash raw).
Qed.

Lemma parts_app raw word :
  slash ∉ word -> word <> [] -> parts (raw ++ slash :: word) = parts raw ++ [word].
Proof.
  intros Hw Hn. unfold parts. rewrite split_slash_app by done. rewrite filter_app. f_equal.
  rewrite filter_cons, decide_True by done. done.
Qed.

Lemma take_every_2_app {A} (l l' : list A) x : x ∈ take_every_2 l -> x ∈ take_every_2 (l ++ l').
Proof.
  assert ((x ∈ take_every_2 l -> x ∈ take_every_2 (l ++ l')) /\
    forall y, x ∈ take_every_2 (y :: l) -> x ∈ take_every_2 (y :: l ++ l')) as [H _]; [|exact H].
  induction l as [|z l [IH1 IH2]]; split.
  - by intros ?%elem_of_nil.
  - intros y ->%list_elem_of_singleton. destruct l' as [|? [|]]; by left.
  - apply IH2.
  - intros y. cbn [take_every_2 app]. intros [->|H]%elem_of_cons; [by left|]. right. by apply IH1.
Qed.

Lemma has_known_protocol_app l l' : has_known_protocol l = true -> has_known_protocol (l ++ l') = true.
Proof.
  unfold has_known_protocol. rewrite !existsb_exists. intros (x & Hx & Hk). exists x. split; [|done].
  rewrite <-list_elem_of_In in *. by apply take_every_2_app.
Qed.

Lemma new_spec raw address :
  new raw = Some address <->
  PeerIdStruct.binary raw = Some address /\ head address = Some slash /\ has_known_protocol (parts address) = true.
Proof.
  unfold new. destruct (PeerIdStruct.binary raw) as [b|]; [|naive_solver].
  destruct (_ && _) eqn:E; rewrite ?andb_true_iff, ?andb_false_iff, ?bool_decide_eq_true, ?bool_decide_eq_false in E.
  - naive_solver.
  - split; [done|]. intros ([= ->] & ? & ?). destruct E; congruence.
Qed.

Lemma slash_not_base58 : slash ∉ PeerIdStruct.base58_chars.
Proof. apply (bool_decide_unpack _). vm_compute. exact I. Qed.

(** The characters of an identifier are no slashes. *)
Lemma peer_id_word t id : PeerIdStruct.new t = Some id -> slash ∉ id /\ id <> [].
Proof.
  unfold PeerIdStruct.new. destruct (PeerIdStruct.binary t) as [b|]; [|done].
  destruct (_ && _) eqn:E; [|done]. intros [= ->]. apply andb_true_iff in E as [Hl Hb]. split.
  - clear Hl. induction id as [|c id IH]; [apply not_elem_of_nil|]. cbn in Hb.
    apply andb_true_iff in Hb as [Hc%bool_decide_eq_true Hb]. apply not_elem_of_cons. split; [|by apply IH].
    intros <-. by apply slash_not_base58.
  - intros ->. done.
Qed.

(** ** What calls return *)
Section results.
Context `{!Protocols} {Handle LocalPid : Type} `{!NativeModule Handle LocalPid, !NativeModuleOk Handle LocalPid}.
#[local] Set Default Proof Using "Type*".
Local Abbreviation NodeState := (NodeState Handle).
Context (exits : Exits) (late : nat -> bool).

Local Abbreviation call_process := (call_process exits).
Local Abbreviation dial := (dial exits late).
Local Abbreviation dial_each := (dial_each exits late).

Lemma unavailable_typed reason : has_type ok_or_error (safe_call (Exited reason)) = true.
Proof. done. Qed.

Lemma error_any t : has_type (or_native_error T_ok) t = true -> has_type ok_or_error t = true.
Proof.
  destruct t as [[]| | | |[|[[]| | | | | | | | | |] [|x [|y l]]]| | | | | |]; cbn;
    rewrite ?andb_false_r; first [done|by destruct x].
Qed.

Lemma call_process_typed alive late' call state :
  call_spec call = or_native_error T_ok ->
  always (fun r => match r with Ok (_, t) => has_type ok_or_error t = true | _ => False end)
    (call_process alive late' call state).
Proof.
  intros Hs. unfold NodeServer.call_process. destruct alive; [|done]. apply always_bind.
  generalize (handle_call_replies call state). rewrite Hs.
  apply always_mono. intros [[t|]|e|]; cbn [replies]; try done. intros Ht.
  destruct late'; [done|by apply error_any].
Qed.

(** A result of [dial], for an address. *)
Definition dial_result (addr t : ETerm) : Prop :=
  has_type ok_or_error t = true /\ (Multiaddr.new addr = None -> t = error_atom "invalid_multiaddr").

Lemma dial_typed k alive addr state p :
  dial k alive addr state = Some p ->
  always (fun r => match r with Ok (_, t) => dial_result addr t | _ => False end) p.
Proof.
  intros (raw & _ & E)%bind_Some. apply (inj Some) in E. subst p. unfold dial_result.
  destruct (Multiaddr.new addr); [|done].
  generalize (call_process_typed alive (late k) (C_dial (bytes_string raw)) state eq_refl). apply always_mono.
  by intros [[b t]|e|].
Qed.

Lemma dial_each_typed addrs state k alive :
  Forall (fun a => is_Some (PeerIdStruct.binary a)) addrs ->
  always (fun r => match r with Ok (Some (_, l)) => Forall2 dial_result addrs l | _ => False end)
    (dial_each k alive addrs state).
Proof.
  intros Hb. revert k alive. induction Hb as [|addr addrs [raw Hr] _ IH]; intros k alive; cbn [Dialing.dial_each].
  { by apply Forall2_nil_2. }
  destruct (dial k alive addr state) as [p|] eqn:Hd.
  2:{ unfold Dialing.dial in Hd. by rewrite Hr in Hd. }
  apply always_bind. generalize (dial_typed k alive addr state p Hd). apply always_mono. intros [[b t]|e|]; try done.
  intros Ht. apply always_bind. generalize (IH (S k) b). apply always_mono. intros [[[b' l]|]|e|]; try done.
  intros Hl. cbn. by constructor.
Qed.

(** The results of [bootstrap]. *)
Lemma bootstrap_results alive addrs state :
  Forall (fun a => is_Some (PeerIdStruct.binary a)) addrs -> addrs <> [] ->
  always (fun r =>
      exists t, r = Ok (Some t) /\
        (has_type (T_error T_any) t = true \/ exists l, t = ok_term (EList l) /\ Forall2 dial_result addrs l))
    (bootstrap exits late alive (EList addrs) state).
Proof.
  intros Hb Hne. unfold bootstrap. destruct addrs as [|a l]; [done|]. clear Hne. apply always_bind.
  generalize (dial_each_typed (a :: l) state 0 alive Hb). apply always_mono. intros [[[b results]|]|e|]; try done.
  intros Hl. apply always_bind. generalize (call_process_typed b (late (length (a :: l))) C_dht_bootstrap state eq_refl). apply always_mono.
  intros [[b' t]|e|]; try done. intros Ht. cbn [snd].
  destruct t as [[]| | | |[|[[]| | | | | | | | | |] [|x [|y r]]]| | | | | |]; try done; (eexists; split; [reflexivity|]).
  - right. by eexists.
  - by left.
Qed.

(** Registering for the events of a front end: it raises only if one of the
    lookups but the last finds no node. *)
Lemma front_end_outcome whereis f pid : function_outcome whereis (F_register f) (Ok (front_end_register f whereis pid).2).
Proof.
  unfold front_end_register, function_outcome.
  destruct f; cbn [event_types register_each length pred]; unfold register_handler;
    repeat (match goal with |- context [match whereis ?k with _ => _ end] => destruct (whereis k) eqn:? end; cbn);
    first [by left|by right|idtac].
  all: eexists; split; [|eassumption]; lia.
Qed.

(** ** Properties *)

(** Appending a peer keeps an address valid: for an address [new] accepts
    and any identifier [PeerId.new] accepts, [with_p2p] gives an address that
    [new] accepts too, whose components are those of the address and then
    [p2p] and the identifier. *)
Theorem with_p2p_valid raw id_raw address id :
  Multiaddr.new raw = Some address -> PeerIdStruct.new id_raw = Some id ->
  Multiaddr.new (EBin (with_p2p address id)) = Some (with_p2p address id) /\
  parts (with_p2p address id) = parts address ++ [text "p2p"; id].
Proof.
  intros (_ & Hh & Hk)%new_spec [Hs Hn]%peer_id_word.
  assert (parts (with_p2p address id) = parts address ++ [text "p2p"; id]) as Hp.
  { change (with_p2p address id) with (address ++ slash :: text "p2p" ++ slash :: id).
    rewrite app_comm_cons, (assoc_L (++)), parts_app by done.
    rewrite parts_app; [by rewrite <-(assoc_L (++))| |done].
    apply (bool_decide_unpack _). vm_compute. exact I. }
  split; [|exact Hp]. apply new_spec. split_and!; [done| |].
  - unfold with_p2p. by destruct address.
  - rewrite Hp. by apply has_known_protocol_app.
Qed.

(** C40: Bootstrapping reports every dial: for a list of addresses that is not
    empty it never raises, whatever the native module is - any that keeps to its
    behaviours - and whether the node is alive, exits on the way or replies too
    late, and returns the error of the query or, in [{:ok, results}], one result
    per address, in order - [:ok] or an error, which for an address
    [Multiaddr.new] refuses is the refusal.  It never returns [:ok], which the
    usage of the module matches against. *)
Theorem bootstrap_reports_dials alive addrs state :
  Forall (fun a => is_Some (PeerIdStruct.binary a)) addrs -> addrs <> [] ->
  always (fun r =>
      exists t, r = Ok (Some t) /\
        (has_type (T_error T_any) t = true \/ exists l, t = ok_term (EList l) /\ Forall2 dial_result addrs l) /\
        t <> EAtom a_ok)
    (bootstrap exits late alive (EList addrs) state).
Proof.
  intros Hb Hne. cut (always (fun r => exists t, r = Ok (Some t) /\
      (has_type (T_error T_any) t = true \/ exists l, t = ok_term (EList l) /\ Forall2 dial_result addrs l))
      (bootstrap exits late alive (EList addrs) state)); [|by apply bootstrap_results].
  apply always_mono. intros r (t & -> & Ht). exists t. split; [done|]. split; [done|].
  intros ->. destruct Ht as [Ht|(l & Ht & _)]; [discriminate Ht|discriminate Ht].
Qed.

End results.

(** ** Witnesses *)
Definition sim_id : bytes := text "12D3KooWDpJ7As7BWAwRMfu1VU2WCqNjvq387JEYKDBj4kx6nXTN".

Lemma with_p2p_valid_witness :
  Multiaddr.new (EBin (with_p2p (text "/ip4/127.0.0.1/tcp/4001") sim_id)) =
    Some (text "/ip4/127.0.0.1/tcp/4001/p2p/12D3KooWDpJ7As7BWAwRMfu1VU2WCqNjvq387JEYKDBj4kx6nXTN").
Proof.
  exact (proj1 (with_p2p_valid (EStr "/ip4/127.0.0.1/tcp/4001") (EBin sim_id) (text "/ip4/127.0.0.1/tcp/4001")
    sim_id eq_refl eq_refl)).
Defined.

Definition sim_dialing : NodeState NodeHandle := mkNodeState (mkNodeHandle "peer-0" (tt : @Registry sim_metrics)) [] (EAtom a_nil).

Lemma bootstrap_reports_dials_witness :
  always (fun r => exists t, r = Ok (Some t) /\
      (has_type (T_error T_any) t = true \/ exists l, t = ok_term (EList l) /\
        Forall2 dial_result [EStr "/ip4/10.0.0.1/tcp/1"; EStr "nowhere"] l) /\ t <> EAtom a_ok)
    (bootstrap (NativeModule0:=sim_nif) (mkExits (EName "badarg") (EName "noproc") (EName "timeout")) (Nat.eqb 1) true
       (EList [EStr "/ip4/10.0.0.1/tcp/1"; EStr "nowhere"]) sim_dialing).
Proof.
  apply (bootstrap_reports_dials (NativeModuleOk0:=nif_module_ok (H0:=sim_metrics) (LocalPid:=nat) _ _)); [|discriminate].
  repeat (apply Forall_cons; split; [eexists; reflexivity|]). apply Forall_nil_2.
Defined.

