(* ===== verification/Health.v ===== *)
(** * Health checks

    Model of [lib/ex_libp2p/health.ex], the process that polls a node. *)
From S2P Require Import Prelude Bytes Policy Terms NifError Libp2p Sim DhtState Commands NodeEvents.
From S2P Require Import Channel Nif NativeCalls NodeServer Dialing.
From stdpp Require Import options.

(** ** [ExLibp2p.Health] *)
Record Health := mkHealth { interval : Z; consecutive_failures : N }.

Record HealthStatus := mkStatus { status_peer_id : ETerm; connected : ETerm; listening_on : ETerm }.

(** The [:telemetry.execute] of a check. *)
Inductive HealthEvent :=
  | Check (connected_peers : nat) (peer_id : ETerm)
  | Check_failed (failures : N) (reason : ETerm).

Section health.
Context `{!Protocols} {Handle LocalPid : Type} `{!NativeModule Handle LocalPid}.
Local Abbreviation NodeState := (NodeState Handle).
Context (exits : Exits) (late : nat -> bool).

Local Abbreviation call_process := (call_process exits).

(** A clause of the [with]; what does not match is its value. *)
Definition with_ok {A} (r : bool * ETerm) (k : ETerm -> Nif LocalPid (bool * (ETerm + A))) :
    Nif LocalPid (bool * (ETerm + A)) :=
  match r.2 with
  | ETuple [EAtom a_ok; value] => k value
  | other => mret (r.1, inl other)
  end.

Definition collect_status (alive : bool) (node : NodeState) : Nif LocalPid (bool * (ETerm + HealthStatus)) :=
  call_process alive (late 0) C_peer_id node ≫= fun r1 : bool * ETerm =>
  with_ok r1 (fun peer_id =>
    call_process r1.1 (late 1) C_connected_peers node ≫= fun r2 : bool * ETerm =>
    with_ok r2 (fun peers =>
      call_process r2.1 (late 2) C_listening_addrs node ≫= fun r3 : bool * ETerm =>
      with_ok r3 (fun addrs => mret (r3.1, inr (mkStatus peer_id peers addrs))))).

(** [handle_info(:check)]: the event, the state, and when the next check is
    due; [None] if it raises. *)
Definition report (h : Health) (status : ETerm + HealthStatus) : option (HealthEvent * Health * Z) :=
  match status with
  | inr s =>
      match connected s with
      | EList peers => Some (Check (length peers) (status_peer_id s), mkHealth (interval h) 0, interval h)
      | _ => None
      end
  | inl (ETuple [EAtom a_error; reason]) =>
      let failures := (consecutive_failures h + 1)%N in
      Some (Check_failed failures reason, mkHealth (interval h) failures, interval h)
  | inl _ => None
  end.

Definition handle_check (alive : bool) (node : NodeState) (h : Health) :
    Nif LocalPid (bool * option (HealthEvent * Health * Z)) :=
  collect_status alive node ≫= fun r : bool * (ETerm + HealthStatus) => mret (r.1, report h r.2).
End health.

(** ** A check of a node *)
Section checks.
Context `{!Protocols} {Handle LocalPid : Type} `{!NativeModule Handle LocalPid, !NativeModuleOk Handle LocalPid}.
#[local] Set Default Proof Using "Type*".
Local Abbreviation NodeState := (NodeState Handle).
Context (exits : Exits) (late : nat -> bool).

Local Abbreviation call_process := (call_process exits).

(** What a check gets from the node: a value of the type, or an error. *)
Definition answer_of (ty : Ty) (r : Result NifError (bool * ETerm)) : Prop :=
  match r with
  | Ok (_, t) => (exists v, t = ok_term v /\ has_type ty v = true) \/ (exists e, t = ETuple [EAtom a_error; e])
  | _ => False
  end.

Lemma call_process_answer ty alive late' call node :
  call_spec call = T_ok_of [ty] ->
  always (answer_of ty) (call_process alive late' call node).
Proof.
  intros Hs. unfold NodeServer.call_process. destruct alive; [|right; by eexists]. apply always_bind.
  generalize (handle_call_replies call node). rewrite Hs.
  apply always_mono. intros [[t|]|e|]; cbn -[has_type]; try done.
  - intros (v & -> & Hv)%has_type_pair. destruct late'; [right; by eexists|left; by exists v].
  - intros _. right. by eexists.
Qed.

(** What a check comes to. *)
Definition checked (h : Health) (r : Result NifError (bool * option (HealthEvent * Health * Z))) : Prop :=
  exists alive event h', r = Ok (alive, Some (event, h', interval h)) /\ interval h' = interval h /\
    match event with
    | Check _ _ => consecutive_failures h' = 0%N
    | Check_failed failures _ => failures = (consecutive_failures h + 1)%N /\ consecutive_failures h' = failures
    end.

Lemma with_answer {A} ty (Q : Result NifError (bool * (ETerm + A)) -> Prop) alive late' call node
    (k : bool * ETerm -> ETerm -> Nif LocalPid (bool * (ETerm + A))) :
  call_spec call = T_ok_of [ty] ->
  (forall a e, Q (Ok (a, inl (ETuple [EAtom a_error; e])))) ->
  (forall a v, has_type ty v = true -> always Q (k (a, ok_term v) v)) ->
  always Q (call_process alive late' call node ≫= fun r : bool * ETerm => with_ok r (k r)).
Proof.
  intros Hs He Hk. apply always_bind. generalize (call_process_answer ty alive late' call node Hs). apply always_mono.
  intros [[a t]|e|]; try done. intros [(v & -> & Hv)|[e ->]]; [by apply Hk|apply He].
Qed.

(** Health checks outlive the node: whether the node is alive, exits during the
    check, answers too late or cannot answer, a check ends, schedules the next one, and counts a
    failure or sets the count of consecutive failures back. *)
Theorem health_check_survives alive node h :
  always (checked h) (handle_check exits late alive node h).
Proof.
  apply always_bind.
  assert (forall a e, checked h (Ok (a, report h (inl (ETuple [EAtom a_error; e]))))) as He
    by (intros a e; eexists _, _, _; split; [reflexivity|]; done).
  unfold collect_status. eapply with_answer; [reflexivity|exact He|]. cbn [fst]. intros a1 peer_id _.
  eapply with_answer; [reflexivity|exact He|]. cbn [fst]. intros a2 peers Hp.
  eapply with_answer; [reflexivity|exact He|]. cbn [fst]. intros a3 addrs _.
  destruct peers; try done. eexists _, _, _. split; [reflexivity|done].
Qed.
End checks.
