(* ===== verification/Telemetry.v ===== *)
(** * Telemetry

    Model of [lib/ex_libp2p/telemetry.ex], the catalogue of events; of
    [lib/ex_libp2p/telemetry/counters.ex], the store that counts them and renders
    the counters as Prometheus text; and of the events that [dial], the functions
    of [Gossipsub] and the health check fire.  The [telemetry] library is a class.
    The properties read the text back, as a scraper does. *)
From Stdlib Require Import DecimalString DecimalN.
From S2P Require Import Prelude Bytes Terms NativeCalls NodeServer Health.
From stdpp Require Import lexico sorting.
From stdpp Require Import options.

(** ** [ExLibp2p.Telemetry] *)
Definition span_events : list (list string) :=
  [["ex_libp2p"; "node"; "dial"]; ["ex_libp2p"; "gossipsub"; "publish"]].
Definition execute_events : list (list string) :=
  [["ex_libp2p"; "gossipsub"; "subscribe"]; ["ex_libp2p"; "gossipsub"; "unsubscribe"];
   ["ex_libp2p"; "health"; "check"]; ["ex_libp2p"; "health"; "check_failed"]].
Definition span_suffixes : list string := ["start"; "stop"; "exception"].

Definition event_names : list (list string) :=
  (span_events ≫= fun event => map (fun suffix => event ++ [suffix]) span_suffixes) ++ execute_events.

(** ** [ExLibp2p.Telemetry.Counters] *)
Module Counters.
(** An event and its result tag, one of [ok], [error] and [unknown]. *)
Abbreviation Key := (list string * Atom)%type.

(** The map holds the counters and, under [:handler_id] ([None]), the name of
    the telemetry handler. *)
Abbreviation Counts := (gmap (option Key) (string + N)).

Inductive Message :=
  | Increment (event : list string) (result_tag : Atom)
  | Snapshot
  | Reset
  | Sync
  | Unknown.

(** The cast that an executed event makes, by its [:result] metadata. *)
Definition handle_event (event : list string) (result : option ETerm) : Message :=
  Increment event
    (match result with Some (EAtom a_ok) => a_ok | Some (EAtom a_error) => a_error | _ => a_unknown end).

Definition init (handler_id : string) : Counts := {[None := inl handler_id]}.

(** [Map.update] with [&(&1 + 1)], which raises for the handler's name. *)
Definition increment (key : option Key) (counts : Counts) : option Counts :=
  match counts !! key with
  | None => Some (<[key := inr 1%N]> counts)
  | Some (inr n) => Some (<[key := inr (n + 1)%N]> counts)
  | Some (inl _) => None
  end.

(** Whether [terminate] detaches the handler. *)
Definition detaches (counts : Counts) : option string :=
  match counts !! None with Some (inl handler_id) => Some handler_id | _ => None end.

(** [nil] is no string: a missing handler would stay missing. *)
Definition reset (counts : Counts) : Counts :=
  match counts !! None with Some v => {[None := v]} | None => ∅ end.

Definition snapshot (counts : Counts) : list (Key * (string + N)) :=
  omap (fun kv => match kv.1 with Some k => Some (k, kv.2) | None => None end) (map_to_list counts).

Definition handle (m : Message) (counts : Counts) : option Counts :=
  match m with
  | Increment event result_tag => increment (Some (event, result_tag)) counts
  | Reset => Some (reset counts)
  | _ => Some counts
  end.

Fixpoint run (l : list Message) (counts : Counts) : option Counts :=
  match l with
  | [] => Some counts
  | m :: l => counts ← handle m counts; run l counts
  end.
End Counters.

(** ** The events that fire

    An executed event is its name and the [:result] of its metadata. *)
Module Emission.
Import Counters.

Abbreviation Fired := (list string * option ETerm)%type.

(** The [telemetry] library: [span] runs a function between its events and gets
    the [:result] of the metadata of the start, and the one the function
    returns unless it raises; [invokes] tells whether a handler attached to some
    events runs for an event. *)
Class TelemetryLibrary := {
  span (event : list string) (start : option ETerm) (function : option ETerm) : list Fired;
  invokes (attached : list (list string)) (event : list string) : bool;
}.

Class TelemetryLaws `{!TelemetryLibrary} : Prop := {
  span_returned event start result :
    span event start (Some result) = [(event ++ ["start"], start); (event ++ ["stop"], Some result)];
  invokes_attached attached event : invokes attached event = bool_decide (event ∈ attached);
}.

(** A call of a front end or of [dial] and its result, or a health check. *)
Inductive Activity :=
  | Called (f : Api) (result : ETerm)
  | Dialed (result : ETerm)
  | Checked (event : HealthEvent).

Section emission.
Context `{!TelemetryLibrary}.

Definition fired (a : Activity) : list Fired :=
  match a with
  | Dialed result => span ["ex_libp2p"; "node"; "dial"] None (Some (Result_.tag result))
  | Called (A_Gossipsub_publish _ _) result =>
      span ["ex_libp2p"; "gossipsub"; "publish"] None (Some (Result_.tag result))
  | Called (A_Gossipsub_subscribe _) result => [(["ex_libp2p"; "gossipsub"; "subscribe"], Some (Result_.tag result))]
  | Called (A_Gossipsub_unsubscribe _) result => [(["ex_libp2p"; "gossipsub"; "unsubscribe"], Some (Result_.tag result))]
  | Called _ _ => []
  | Checked (Check _ _) => [(["ex_libp2p"; "health"; "check"], None)]
  | Checked (Check_failed _ _) => [(["ex_libp2p"; "health"; "check_failed"], None)]
  end.

(** What the handler attached by [init] casts to the store. *)
Definition casts (a : Activity) : list Message :=
  map (fun e => handle_event e.1 e.2) (filter (fun e => invokes event_names e.1 = true) (fired a)).
End emission.
End Emission.

(** ** The text of the counters *)
Module Prometheus.
Import Counters.

Definition newline_char : Ascii.ascii := Ascii.ascii_of_nat 10.
Definition quote_char : Ascii.ascii := Ascii.ascii_of_nat 34.
Definition newline : string := String newline_char "".
Definition quote : string := String quote_char "".

(** [Integer.to_string]. *)
Definition digits (n : N) : string := NilEmpty.string_of_uint (N.to_uint n).

(** The order of atoms is that of their texts, the order of lists that of their
    elements. *)
Definition text_key (s : string) : list N := map Byte.to_N (String.list_byte_of_string s).
Definition event_key (event : list string) : list (list N) := map text_key event.

Section sort_by.
Context {K : Type} `{Lexico K, !StrictOrder (@lexico K _), !TrichotomyT (@lexico K _)}.
Context {A : Type} (key : A -> K).

Definition key_le (x y : A) : Prop := lexico (key x) (key y) \/ key x = key y.

#[export] Instance key_le_dec x y : Decision (key_le x y).
Proof using Type*.
  unfold key_le. destruct (trichotomyT lexico (key x) (key y)) as [[Hlt|Heq]|Hgt]; [left; by left|left; by right|right].
  intros [Hlt|Heq]; [by apply (StrictOrder_Irreflexive (key x)); trans (key y)|].
  rewrite Heq in Hgt. by apply (StrictOrder_Irreflexive (key y)).
Defined.

(** [Enum.sort_by], a stable merge sort. *)
Definition sort_by (l : list A) : list A := merge_sort key_le l.
End sort_by.

(** The entries of each event, in the order in which they come. *)
Definition group_by_event (l : list (Key * N)) : gmap (list string) (list (Key * N)) :=
  foldr (fun kv m => <[kv.1.1 := kv :: default [] (m !! kv.1.1)]> m) ∅ l.

Definition metric_name_for (event : list string) : string := String.concat "_" event.

Definition render_line (metric_name : string) (kv : Key * N) : string :=
  metric_name +:+ "_total{result=" +:+ quote +:+ atom_name kv.1.2 +:+ quote +:+ "} " +:+ digits kv.2.

Definition header_lines (event : list string) (metric_name : string) : list string :=
  ["# HELP " +:+ metric_name +:+ "_total Number of [" +:+ String.concat ", " event +:+
     "] events fired, partitioned by result.";
   "# TYPE " +:+ metric_name +:+ "_total counter"].

(** Lines, each with its end. *)
Definition unlines (l : list string) : string := foldr (fun line s => line +:+ newline +:+ s) "" l.

Definition render_metric_family (family : list string * list (Key * N)) : list string :=
  let '(event, entries) := family in
  let metric_name := metric_name_for event in
  header_lines event metric_name ++
  map (render_line metric_name) (sort_by (fun kv => text_key (atom_name kv.1.2)) entries) ++ [""].

Definition do_render_prometheus (l : list (Key * N)) : string :=
  match l with
  | [] => unlines ["# ExLibp2p telemetry counters (no events recorded yet)"]
  | _ => unlines (sort_by (fun f => event_key f.1) (map_to_list (group_by_event l)) ≫= render_metric_family)
  end.

(** [Integer.to_string] raises for the name of the handler. *)
Definition numbers (l : list (Key * (string + N))) : option (list (Key * N)) :=
  mapM (fun kv => match kv.2 with inr n => Some (kv.1, n) | inl _ => None end) l.

Definition render_prometheus (counts : Counts) : option string := do_render_prometheus <$> numbers (snapshot counts).
End Prometheus.

(** ** Reading the text

    What a scraper makes of it: comments and empty lines are skipped, a sample
    line has a name, the label [result] and a value. *)
Module Scraper.
Import Counters Prometheus.

Definition Sample : Type := string * string * N.

(** What is before and after the first [c]. *)
Fixpoint cut (c : Ascii.ascii) (s : string) : option (string * string) :=
  match s with
  | "" => None
  | String a s => if Ascii.eqb a c then Some ("", s) else p ← cut c s; Some (String a p.1, p.2)
  end.

Fixpoint strip_prefix (p s : string) : option string :=
  match p, s with
  | "", s => Some s
  | String a p, String b s => if Ascii.eqb a b then strip_prefix p s else None
  | _, _ => None
  end.

Fixpoint lines (s : string) : list string :=
  match s with
  | "" => [""]
  | String a s =>
      if Ascii.eqb a newline_char then "" :: lines s
      else match lines s with line :: rest => String a line :: rest | [] => [String a ""] end
  end.

Definition is_comment (line : string) : bool :=
  match line with "" => true | String a _ => Ascii.eqb a (Ascii.ascii_of_nat 35) end.

Definition read_line (line : string) : option Sample :=
  '(name, s) ← cut (Ascii.ascii_of_nat 123) line;
  s ← strip_prefix ("result=" +:+ quote) s;
  '(tag, s) ← cut quote_char s;
  s ← strip_prefix "} " s;
  d ← NilEmpty.uint_of_string s;
  Some (name, tag, N.of_uint d).

Definition read (text : string) : option (list Sample) :=
  mapM read_line (filter (fun line => is_comment line = false) (lines text)).

(** No [c] in [s]. *)
Fixpoint free (c : Ascii.ascii) (s : string) : bool :=
  match s with "" => true | String a s => negb (Ascii.eqb a c) && free c s end.

Lemma app_cons a x y : String a x +:+ y = String a (x +:+ y).
Proof. done. Qed.
Lemma app_empty y : "" +:+ y = y.
Proof. done. Qed.

Lemma cut_app c x y : free c x = true -> cut c (x +:+ String c y) = Some (x, y).
Proof.
  induction x as [|a x IH]; rewrite ?app_empty, ?app_cons; cbn; [by rewrite Ascii.eqb_refl|].
  intros [Ha%negb_true_iff Hx]%andb_true_iff. by rewrite Ha, IH.
Qed.

Lemma strip_prefix_app p s : strip_prefix p (p +:+ s) = Some s.
Proof. induction p as [|a p IH]; rewrite ?app_cons; cbn; [done|]. by rewrite Ascii.eqb_refl. Qed.

Lemma lines_app x y : free newline_char x = true -> lines (x +:+ newline +:+ y) = x :: lines y.
Proof.
  induction x as [|a x IH]; rewrite ?app_empty, ?app_cons; cbn -[newline_char newline]; [done|].
  intros [Ha%negb_true_iff Hx]%andb_true_iff. by rewrite Ha, IH.
Qed.

Lemma lines_unlines l : Forall (fun line => free newline_char line = true) l -> lines (unlines l) = l ++ [""].
Proof.
  induction 1 as [|line l Hl _ IH]; [done|]. change (unlines (line :: l)) with (line +:+ newline +:+ unlines l).
  by rewrite lines_app, IH.
Qed.

Lemma free_app c x y : free c (x +:+ y) = free c x && free c y.
Proof. induction x as [|a x IH]; rewrite ?app_cons; cbn; [done|]. by rewrite IH, andb_assoc. Qed.

Lemma append_assoc (x y z : string) : (x +:+ y) +:+ z = x +:+ (y +:+ z).
Proof. induction x as [|a x IH]; [done|]. by rewrite !app_cons, IH. Qed.

Lemma free_digits d : free newline_char (NilEmpty.string_of_uint d) = true.
Proof. by induction d. Qed.

(** ** What a scraper reads *)

(** The sample of a counter. *)
Definition sample (kv : Key * N) : Sample := (metric_name_for kv.1.1 +:+ "_total", atom_name kv.1.2, kv.2).

(** An event whose name can stand in the text. *)
Definition clean (event : list string) : bool :=
  let name := metric_name_for event in
  negb (is_comment name) && free newline_char name && free (Ascii.ascii_of_nat 123) name &&
  free newline_char (String.concat ", " event).

Lemma clean_names : Forall (fun event => clean event = true) event_names.
Proof. repeat (constructor; [reflexivity|]). constructor. Qed.

Lemma atom_clean a : free newline_char (atom_name a) = true /\ free quote_char (atom_name a) = true.
Proof. by destruct a. Qed.

Lemma comment_app x y : is_comment x = false -> is_comment (x +:+ y) = false.
Proof. by destruct x. Qed.

Section family.
Context (event : list string) (Hclean : clean event = true).

Lemma clean_and :
  is_comment (metric_name_for event) = false /\ free newline_char (metric_name_for event) = true /\
  free (Ascii.ascii_of_nat 123) (metric_name_for event) = true /\ free newline_char (String.concat ", " event) = true.
Proof using Hclean. unfold clean in Hclean. rewrite !andb_true_iff, negb_true_iff in Hclean. tauto. Qed.

Lemma read_render_line tag n :
  read_line (render_line (metric_name_for event) ((event, tag), n)) = Some (sample ((event, tag), n)).
Proof using Hclean.
  destruct clean_and as (_ & _ & Hb & _). unfold render_line, read_line, sample. cbn [fst snd].
  change ("_total{result=" +:+ ?x) with ("_total" +:+ String (Ascii.ascii_of_nat 123) ("result=" +:+ x)).
  rewrite <-(append_assoc (metric_name_for event)), cut_app by (by rewrite free_app, Hb).
  cbn [mbind option_bind]. rewrite <-append_assoc, strip_prefix_app. cbn [mbind option_bind].
  change (quote +:+ "} " +:+ ?x) with (String quote_char ("} " +:+ x)). rewrite cut_app by apply atom_clean.
  cbn [mbind option_bind]. rewrite strip_prefix_app. cbn [mbind option_bind].
  unfold digits. rewrite NilEmpty.usu. cbn [mbind option_bind]. by rewrite Unsigned.of_to.
Qed.

Lemma line_text kv :
  free newline_char (render_line (metric_name_for event) kv) = true /\
  is_comment (render_line (metric_name_for event) kv) = false.
Proof using Hclean.
  destruct clean_and as (Hc & Hn & _). unfold render_line. split; [|by apply comment_app].
  rewrite !free_app, Hn, (proj1 (atom_clean _)). unfold digits. by rewrite free_digits.
Qed.

Lemma header_text :
  Forall (fun line => free newline_char line = true /\ is_comment line = true)
    (header_lines event (metric_name_for event)).
Proof using Hclean.
  destruct clean_and as (_ & Hn & _ & He). unfold header_lines. repeat constructor; rewrite ?free_app, ?Hn, ?He; done.
Qed.
End family.

(** ** Groups and their order *)
Lemma group_lookup l event :
  group_by_event l !! event =
    match filter (fun kv => kv.1.1 = event) l with [] => None | entries => Some entries end.
Proof.
  induction l as [|kv l IH]; [done|]. cbn [group_by_event foldr]. fold (group_by_event l). rewrite filter_cons.
  destruct (decide (kv.1.1 = event)) as [<-|Hne].
  - rewrite lookup_insert_eq, IH. by destruct (filter _ l).
  - by rewrite lookup_insert_ne.
Qed.

Lemma group_perm l : map_to_list (group_by_event l) ≫= snd ≡ₚ l.
Proof.
  induction l as [|kv l IH]; [done|]. cbn [group_by_event foldr]. fold (group_by_event l). set (m := group_by_event l) in *.
  rewrite <-insert_delete_eq, map_to_list_insert by apply lookup_delete_eq. cbn. constructor. rewrite <-IH.
  destruct (m !! kv.1.1) as [entries|] eqn:E; cbn.
  - by rewrite <-(insert_delete_id m _ _ E) at 2; rewrite map_to_list_insert by apply lookup_delete_eq.
  - by rewrite delete_id.
Qed.

Lemma sort_by_perm {K} `{Lexico K, !StrictOrder (@lexico K _), !TrichotomyT (@lexico K _)} {A} (key : A -> K) l :
  sort_by key l ≡ₚ l.
Proof. apply merge_sort_Permutation. Qed.

(** The families of counters of known events. *)
Definition family_ok (f : list string * list (Key * N)) : Prop :=
  clean f.1 = true /\ Forall (fun kv => kv.1.1 = f.1) f.2.

Lemma families_ok l :
  Forall (fun kv => kv.1.1 ∈ event_names) l -> Forall family_ok (map_to_list (group_by_event l)).
Proof.
  intros Hl. apply Forall_forall. intros [event entries] Hin%elem_of_map_to_list. rewrite group_lookup in Hin.
  assert (Forall (fun kv => kv.1.1 = event /\ kv ∈ l) (filter (fun kv => kv.1.1 = event) l)) as Hf
    by (apply Forall_forall; intros kv Hkv%list_elem_of_filter; done).
  destruct (filter _ l) as [|kv rest]; [done|]. injection Hin as <-. split; cbn [fst snd].
  - apply Forall_cons in Hf as [[<- Hkv] _]. pose proof clean_names as Hc. rewrite Forall_forall in Hl. rewrite Forall_forall in Hc. by apply Hc, Hl.
  - eapply Forall_impl; [exact Hf|]. by intros ? [].
Qed.

Definition family_samples (f : list string * list (Key * N)) : list Sample :=
  map sample (sort_by (fun kv => text_key (atom_name kv.1.2)) f.2).

(** The lines of samples. *)
Definition samples_of (l : list string) : option (list Sample) :=
  mapM read_line (filter (fun line => is_comment line = false) l).

Lemma samples_of_comments l rest :
  Forall (fun line => is_comment line = true) l -> samples_of (l ++ rest) = samples_of rest.
Proof. induction 1 as [|line l Hl _ IH]; [done|]. unfold samples_of. cbn [app]. by rewrite filter_cons_False by congruence. Qed.

Lemma samples_of_lines {A} (line : A -> string) (s : A -> Sample) l rest :
  Forall (fun x => is_comment (line x) = false /\ read_line (line x) = Some (s x)) l ->
  samples_of (map line l ++ rest) = (map s l ++.) <$> samples_of rest.
Proof.
  induction 1 as [|x l [Hc Hr] _ IH]; cbn [map app]; [by destruct (samples_of rest)|].
  unfold samples_of in *. rewrite filter_cons_True by done. cbn [mapM]. rewrite Hr, IH. by destruct (mapM read_line (filter _ rest)).
Qed.

Lemma family_entries f kv :
  family_ok f -> kv ∈ sort_by (fun kv => text_key (atom_name kv.1.2)) f.2 -> kv.1.1 = f.1.
Proof. intros [_ Hf] Hkv. rewrite sort_by_perm in Hkv. rewrite Forall_forall in Hf. by apply Hf. Qed.

Lemma read_family f rest :
  family_ok f -> samples_of (render_metric_family f ++ rest) = (family_samples f ++.) <$> samples_of rest.
Proof.
  intros Hf. pose proof (family_entries f) as He. destruct f as [event entries]. pose proof (proj1 Hf) as Hc.
  unfold render_metric_family, family_samples. cbn [fst snd] in *. rewrite <-!(assoc_L (++)).
  rewrite samples_of_comments by (eapply Forall_impl; [by apply header_text|]; by intros ? []).
  rewrite (samples_of_lines _ sample).
  - by rewrite (samples_of_comments [""]) by (repeat constructor).
  - apply Forall_forall. intros [[event' tag] n] Hkv. specialize (He _ Hf Hkv). cbn in He. subst event'.
    split; [by apply line_text|by apply read_render_line].
Qed.

Lemma read_families fs rest :
  Forall family_ok fs -> samples_of ((fs ≫= render_metric_family) ++ rest) = ((fs ≫= family_samples) ++.) <$> samples_of rest.
Proof.
  induction 1 as [|f fs Hf _ IH]; [cbn [mbind list_bind app]; by destruct (samples_of rest)|]. cbn [mbind list_bind].
  rewrite <-(assoc_L (++)), read_family, IH by done. destruct (samples_of rest); cbn; [by rewrite (assoc_L (++))|done].
Qed.

Lemma family_lines f : family_ok f -> Forall (fun line => free newline_char line = true) (render_metric_family f).
Proof.
  intros Hf. pose proof (family_entries f) as He. destruct f as [event entries]. pose proof (proj1 Hf) as Hc. cbn [fst] in Hc.
  unfold render_metric_family. repeat apply Forall_app_2; [|apply Forall_map, Forall_forall; intros kv _; by apply line_text|by constructor].
  eapply Forall_impl; [by apply header_text|]. by intros ? [].
Qed.

(** The text of counters of known events reads as their samples. *)
Lemma read_do_render l :
  Forall (fun kv => kv.1.1 ∈ event_names) l ->
  exists samples, read (do_render_prometheus l) = Some samples /\ samples ≡ₚ map sample l.
Proof.
  intros Hl. apply families_ok in Hl. unfold do_render_prometheus. destruct l as [|kv l']; [by exists []|].
  set (l := kv :: l') in *. set (fs := sort_by _ (map_to_list (group_by_event l))).
  assert (fs ≡ₚ map_to_list (group_by_event l)) as Hfs by apply sort_by_perm.
  assert (Forall family_ok fs) as Hok by by rewrite Hfs.
  exists (fs ≫= family_samples). split.
  - unfold read. rewrite lines_unlines; [fold (samples_of ((fs ≫= render_metric_family) ++ [""]))|].
    + rewrite read_families by done. change (samples_of [""]) with (Some (@nil Sample)). cbn [fmap option_fmap option_map]. by rewrite (right_id_L [] (++)).
    + clear Hfs. induction Hok as [|f fs' Hf _ IH]; [constructor|]. apply Forall_app_2; [by apply family_lines|done].
  - rewrite <-(group_perm l), <-Hfs. clear Hfs Hok. clearbody fs. induction fs as [|f fs' IH]; [done|].
    cbn [mbind list_bind]. rewrite map_app, IH. apply Permutation_app_tail. unfold family_samples. by rewrite sort_by_perm.
Qed.
End Scraper.

(** ** The text does not depend on the order of the counters *)
Module TextOrder.
Import Counters Prometheus Scraper.

Section sorting.
Context {K : Type} `{Lexico K, !StrictOrder (@lexico K _), !TrichotomyT (@lexico K _)}.
Context {A : Type} (key : A -> K).

#[export] Instance key_le_total : Total (key_le key).
Proof using Type*.
  intros x y. unfold key_le. destruct (trichotomyT lexico (key x) (key y)) as [[Hlt|Heq]|Hgt]; auto.
Qed.

#[export] Instance key_le_trans : Transitive (key_le key).
Proof using Type*.
  intros x y z [Hxy|Hxy] [Hyz|Hyz]; unfold key_le; rewrite ?Hxy, <-?Hyz; auto. left. by trans (key y).
Qed.

Lemma sort_by_sorted l : StronglySorted (key_le key) (sort_by key l).
Proof using Type*. apply StronglySorted_merge_sort; apply _. Qed.

Lemma sorted_unique l l' :
  (forall x y, x ∈ l -> y ∈ l -> key x = key y -> x = y) ->
  StronglySorted (key_le key) l -> StronglySorted (key_le key) l' -> l ≡ₚ l' -> l = l'.
Proof using Type*.
  intros Hk Hl Hl' Hp. apply StronglySorted_unique_strong with (R := key_le key); [|done..].
  intros x y Hx Hy Hxy Hyx. rewrite <-Hp in Hy. apply Hk; [done..|]. destruct Hxy as [Hlt|?]; [|done]. destruct Hyx as [Hgt|?]; [|done].
  exfalso. apply (StrictOrder_Irreflexive (key x)). by trans (key y).
Qed.
End sorting.

Lemma fst_unique {A B} (l : list (A * B)) a b b' : NoDup (map fst l) -> (a, b) ∈ l -> (a, b') ∈ l -> b = b'.
Proof.
  induction l as [|[a0 b0] l IH]; [by intros _ ?%elem_of_nil|]. intros [Ha Hn]%NoDup_cons. rewrite !elem_of_cons.
  assert (forall b, a = a0 -> (a, b) ∉ l) as Hf by (intros b1 -> Hin; apply Ha, list_elem_of_fmap; by exists (a0, b1)).
  naive_solver.
Qed.

Lemma text_key_inj s t : text_key s = text_key t -> s = t.
Proof.
  intros E%list_fmap_eq_inj; [|intros x y Hxy; apply (f_equal Byte.of_N) in Hxy; rewrite !Byte.of_to_N in Hxy; congruence].
  rewrite <-(String.string_of_list_byte_of_string s), <-(String.string_of_list_byte_of_string t). by f_equal.
Qed.

Lemma event_key_inj e e' : event_key e = event_key e' -> e = e'.
Proof. intros E. by apply list_fmap_eq_inj in E; [|exact text_key_inj]. Qed.

(** A family with its lines in order. *)
Definition in_order (f : list string * list (Key * N)) : list string * list (Key * N) :=
  (f.1, sort_by (fun kv => text_key (atom_name kv.1.2)) f.2).

Lemma in_order_groups l l' :
  l ≡ₚ l' -> NoDup (map fst l) ->
  in_order <$> map_to_list (group_by_event l) = in_order <$> map_to_list (group_by_event l').
Proof.
  intros Hp Hn.
  assert (forall m : gmap (list string) (list (Key * N)),
    in_order <$> map_to_list m = map_to_list (sort_by (fun kv => text_key (atom_name kv.1.2)) <$> m)) as Hm
    by (intros m; rewrite map_to_list_fmap; apply list_fmap_ext; by intros _ [] _).
  rewrite !Hm. f_equal. apply map_eq. intros event. rewrite !lookup_fmap, !group_lookup.
  assert (filter (fun kv => kv.1.1 = event) l ≡ₚ filter (fun kv => kv.1.1 = event) l') as Hf by by rewrite Hp.
  assert (sort_by (fun kv => text_key (atom_name kv.1.2)) (filter (fun kv => kv.1.1 = event) l) =
          sort_by (fun kv => text_key (atom_name kv.1.2)) (filter (fun kv => kv.1.1 = event) l')) as Hs.
  { apply (sorted_unique (fun kv : Key * N => text_key (atom_name kv.1.2)));
      [|apply sort_by_sorted..|by rewrite !sort_by_perm].
    intros [[e tag] n] [[e' tag'] n']. rewrite !sort_by_perm. cbn.
    intros [E Hx]%list_elem_of_filter [E' Hy]%list_elem_of_filter Ht%text_key_inj%(inj atom_name). cbn in *. subst.
    by eapply fst_unique in Hn as ->; [|exact Hx|exact Hy]. }
  destruct (filter _ l) as [|x entries], (filter _ l') as [|x' entries']; cbn [fmap option_fmap option_map]; try done.
  - by apply Permutation_nil_cons in Hf.
  - by symmetry in Hf; apply Permutation_nil_cons in Hf.
  - by rewrite Hs.
Qed.

Lemma text_of_groups fs fs' :
  in_order <$> fs = in_order <$> fs' -> fs ≫= render_metric_family = fs' ≫= render_metric_family.
Proof.
  revert fs'. induction fs as [|[e entries] fs IH]; intros [|[e' entries'] fs']; try done.
  cbn. intros [= <- Hs Hfs]. unfold in_order in Hs. cbn in Hs. by rewrite Hs, (IH fs').
Qed.

(** The counters render the same in whatever order the map lists them. *)
Lemma render_order l l' :
  l ≡ₚ l' -> NoDup (map fst l) -> do_render_prometheus l = do_render_prometheus l'.
Proof.
  intros Hp Hn. pose proof (in_order_groups l l' Hp Hn) as Hg. unfold do_render_prometheus.
  destruct l as [|kv l]; [by apply Permutation_nil in Hp as ->|].
  destruct l' as [|kv' l']; [by symmetry in Hp; apply Permutation_nil_cons in Hp|].
  f_equal. apply text_of_groups.
  apply (sorted_unique (fun f : list string * list (Key * N) => event_key f.1)).
  - intros [e es] [e' es'] Hx Hy E%event_key_inj. cbn in E. subst e'. f_equal.
    eapply fst_unique; [|exact Hx|exact Hy]. rewrite sort_by_perm.
    change (map fst ?x) with (fst <$> x). rewrite <-list_fmap_compose. apply NoDup_fst_map_to_list.
  - by eapply StronglySorted_fmap; [|apply sort_by_sorted].
  - by eapply StronglySorted_fmap; [|apply sort_by_sorted].
  - by rewrite !sort_by_perm, Hg.
Qed.
End TextOrder.

(** ** The counters *)
Module CountersSpec.
Import Counters.

(** The increments of a key since the last reset. *)
Definition count_step (k : Key) (n : N) (m : Message) : N :=
  match m with
  | Increment event result_tag => if bool_decide ((event, result_tag) = k) then (n + 1)%N else n
  | Reset => 0
  | _ => n
  end.

Definition counted (l : list Message) (k : Key) : N := foldl (count_step k) 0%N l.

(** A store that holds the handler's name and these counts. *)
Definition holds (handler_id : string) (f : Key -> N) (counts : Counts) : Prop :=
  counts !! None = Some (inl handler_id) /\
  forall k, counts !! Some k = if bool_decide (f k = 0%N) then None else Some (inr (f k)).

Lemma handle_holds handler_id f counts m :
  holds handler_id f counts ->
  exists counts', handle m counts = Some counts' /\ holds handler_id (fun k => count_step k (f k) m) counts'.
Proof.
  intros [Hid Hf]. destruct m as [event tag| | | |]; cbn [handle count_step]; try (by eexists).
  - unfold increment. generalize (event, tag). intros k0.
    assert (exists n, counts !! Some k0 = (if bool_decide (n = 0%N) then None else Some (inr n)) /\ n = f k0) as (n & Hn & En)
      by (by exists (f k0)).
    rewrite Hn. assert (forall v, v = (n + 1)%N -> holds handler_id
        (fun k => if bool_decide (k0 = k) then (f k + 1)%N else f k) (<[Some k0 := inr v]> counts)) as Hv.
    { intros v ->. split; [by rewrite lookup_insert_ne|]. intros k. destruct (decide (k0 = k)) as [<-|Hk].
      - rewrite lookup_insert_eq, (bool_decide_eq_true_2 (k0 = k0)) by done.
        rewrite bool_decide_eq_false_2 by lia. by rewrite En.
      - rewrite lookup_insert_ne, (bool_decide_eq_false_2 _ Hk) by congruence. apply Hf. }
    case_bool_decide as E; eexists; (split; [reflexivity|apply Hv]); lia.
  - eexists. split; [reflexivity|]. unfold reset. rewrite Hid. split; [apply lookup_singleton_eq|].
    intros k. by rewrite lookup_singleton_ne.
Qed.

(** The store never raises. *)
Lemma run_holds handler_id l :
  exists counts, run l (init handler_id) = Some counts /\ holds handler_id (counted l) counts.
Proof.
  assert (forall f counts, holds handler_id f counts ->
    exists counts', run l counts = Some counts' /\ holds handler_id (fun k => foldl (count_step k) (f k) l) counts') as Hr.
  { induction l as [|m l IH]; intros f counts Hh; [by exists counts|].
    destruct (handle_holds handler_id f counts m Hh) as (c1 & E & H1). destruct (IH _ _ H1) as (c2 & E2 & H2).
    exists c2. cbn [run]. by rewrite E. }
  apply (Hr (fun _ => 0%N) (init handler_id)). unfold init. split; [apply lookup_singleton_eq|].
  intros k. by rewrite lookup_singleton_ne.
Qed.

Lemma snapshot_NoDup counts : NoDup (map fst (snapshot counts)).
Proof.
  unfold snapshot. pose proof (NoDup_fst_map_to_list counts) as Hn.
  induction (map_to_list counts) as [|[[k|] v] l IH]; cbn in *; [constructor|apply NoDup_cons in Hn as [Hk Hn]..].
  - constructor; [|by apply IH]. contradict Hk. apply list_elem_of_fmap in Hk as ([k' v'] & -> & Hin).
    apply list_elem_of_omap in Hin as ([[k2|] v2] & Hin & [= <- <-]). apply list_elem_of_fmap. by exists (Some k2, v2).
  - by apply IH.
Qed.

Lemma snapshot_holds handler_id f counts k v :
  holds handler_id f counts -> (k, v) ∈ snapshot counts <-> v = inr (f k) /\ f k <> 0%N.
Proof.
  intros [_ Hf]. specialize (Hf k). unfold snapshot. rewrite list_elem_of_omap.
  transitivity (counts !! Some k = Some v).
  - rewrite <-elem_of_map_to_list. split; [intros ([[k2|] v2] & Hin & [= <- <-]); exact Hin|intros Hin; by exists (Some k, v)].
  - rewrite Hf. case_bool_decide; naive_solver.
Qed.

(** The counters count: whatever is recorded and asked, the store never raises,
    keeps the handler that [terminate] detaches, and a snapshot has one value
    per key that was incremented since the last reset, the number of its
    increments. *)
Theorem counters_count handler_id l :
  exists counts, run l (init handler_id) = Some counts /\ detaches counts = Some handler_id /\
    NoDup (map fst (snapshot counts)) /\
    forall k v, (k, v) ∈ snapshot counts <-> v = inr (counted l k) /\ counted l k <> 0%N.
Proof.
  destruct (run_holds handler_id l) as (counts & E & Hh). exists counts.
  split_and!; [done|unfold detaches; by rewrite (proj1 Hh)|apply snapshot_NoDup|]. intros k v. by eapply snapshot_holds.
Qed.
End CountersSpec.

(** ** The counters of the calls *)
Module Reports.
Import Counters Emission Prometheus Scraper TextOrder CountersSpec.

(** Results have the types of the functions that return them, as those of the
    front ends do. *)
Definition result_typed (a : Activity) : bool :=
  match a with
  | Called f result => has_type (api_spec f) result
  | Dialed result => has_type (T_or T_ok (T_error T_any)) result
  | Checked _ => true
  end.

Definition label (result : ETerm) : string := match result with EAtom a_ok => "ok" | _ => "error" end.

(** The counters that an activity increments, by their names and labels. *)
Definition recorded (a : Activity) : list (string * string) :=
  match a with
  | Dialed result =>
      [("ex_libp2p_node_dial_start_total", "unknown"); ("ex_libp2p_node_dial_stop_total", label result)]
  | Called (A_Gossipsub_publish _ _) result =>
      [("ex_libp2p_gossipsub_publish_start_total", "unknown"); ("ex_libp2p_gossipsub_publish_stop_total", label result)]
  | Called (A_Gossipsub_subscribe _) result => [("ex_libp2p_gossipsub_subscribe_total", label result)]
  | Called (A_Gossipsub_unsubscribe _) result => [("ex_libp2p_gossipsub_unsubscribe_total", label result)]
  | Called _ _ => []
  | Checked (Check _ _) => [("ex_libp2p_health_check_total", "unknown")]
  | Checked (Check_failed _ _) => [("ex_libp2p_health_check_failed_total", "unknown")]
  end.

Definition occurrences {A} `{EqDecision A} (x : A) (l : list A) : nat := length (filter (x =.) l).

(** What reaches the store besides the increments, and leaves the counters. *)
Definition harmless (m : Message) : bool := match m with Snapshot | Sync | Unknown => true | _ => false end.

(** The keys of increments. *)
Definition keys (l : list Message) : list Key :=
  omap (fun m => match m with Increment event tag => Some (event, tag) | _ => None end) l.

Definition label_of (k : Key) : string * string := (metric_name_for k.1 +:+ "_total", atom_name k.2).

Lemma label_of_inj k k' :
  k.1 ∈ event_names -> k'.1 ∈ event_names -> label_of k = label_of k' -> k = k'.
Proof.
  assert (Forall (fun e => Forall (fun e' => metric_name_for e +:+ "_total" = metric_name_for e' +:+ "_total" -> e = e')
    event_names) event_names) as Hn by (by repeat constructor).
  destruct k as [e tag], k' as [e' tag']. cbn [fst]. intros He He' [= E ->%(inj atom_name)]. f_equal.
  rewrite Forall_forall in Hn. specialize (Hn e He). rewrite Forall_forall in Hn. by apply Hn.
Qed.

(** *** Counting *)
Lemma occurrences_cons {A} `{EqDecision A} (x y : A) l :
  occurrences x (y :: l) = (if bool_decide (x = y) then 1 else 0) + occurrences x l.
Proof. unfold occurrences. rewrite filter_cons. case_bool_decide; by case_decide. Qed.

Lemma occurrences_elem {A} `{EqDecision A} (x : A) l : occurrences x l <> 0 <-> x ∈ l.
Proof.
  induction l as [|y l IH]; [split; [done|by intros ?%elem_of_nil]|]. rewrite occurrences_cons, elem_of_cons.
  case_bool_decide; [|rewrite <-IH]; intuition lia.
Qed.

Lemma occurrences_map {A B} `{EqDecision A, EqDecision B} (g : A -> B) x l :
  (forall y, y ∈ l -> g x = g y -> x = y) -> occurrences (g x) (map g l) = occurrences x l.
Proof.
  induction l as [|y l IH]; intros Hg; [done|]. cbn [map]. rewrite !occurrences_cons, IH by (intros y' Hy'; apply Hg; by right).
  f_equal. assert (g x = g y <-> x = y) as Hxy by (split; [apply Hg; by left|by intros ->]).
  by rewrite (bool_decide_ext _ _ Hxy).
Qed.

Lemma counted_occurrences l k :
  Reset ∉ l -> counted l k = N.of_nat (occurrences k (keys l)).
Proof.
  assert (forall n, Reset ∉ l -> foldl (count_step k) n l = (n + N.of_nat (occurrences k (keys l)))%N) as Hf.
  { induction l as [|m l IH]; intros n Hr; [cbn; lia|]. rewrite not_elem_of_cons in Hr. destruct Hr as [Hm Hr].
    cbn [foldl]. rewrite IH by done. destruct m as [event tag| | | |]; try done. cbn [count_step keys omap list_omap].
    fold (keys l). rewrite occurrences_cons. rewrite (bool_decide_ext (k = _) ((event, tag) = k)) by done.
    case_bool_decide; lia. }
  apply Hf.
Qed.

Lemma keys_app l l' : keys (l ++ l') = keys l ++ keys l'.
Proof. apply omap_app. Qed.

Lemma keys_harmless l : forallb harmless l = true -> keys l = [] /\ Reset ∉ l.
Proof.
  induction l as [|m l IH]; cbn; [split; [done|by intros ?%elem_of_nil]|]. intros [Hm Hl]%andb_true_iff.
  destruct (IH Hl) as [Hk Hr]. rewrite not_elem_of_cons. by destruct m.
Qed.

Section reports.
Context `{!TelemetryLibrary, !TelemetryLaws}.

Definition increments_known (l : list Message) : Prop := Reset ∉ l /\ Forall (fun k => k.1 ∈ event_names) (keys l).

Lemma casts_increments a : increments_known (casts a).
Proof using Type*.
  unfold increments_known, casts. induction (fired a) as [|e l [IHr IHk]]; [split; [by intros ?%elem_of_nil|constructor]|].
  rewrite filter_cons. case_decide as E; [|done]. cbn [map]. split; [by rewrite not_elem_of_cons|].
  rewrite invokes_attached in E. apply bool_decide_eq_true_1 in E. by constructor.
Qed.

(** A cast is an increment. *)
Lemma keys_drop a n : keys (drop n (casts a)) = drop n (keys (casts a)).
Proof using Type*.
  unfold casts. generalize (filter (fun e => invokes event_names e.1 = true) (fired a)). intros l. revert n.
  induction l as [|e l IH]; intros [|n]; cbn [map drop]; first [done|apply IH].
Qed.

(** The casts that reach the store after a reset, of activities some of whose
    casts were made before it. *)
Definition casts_since (calls : list (Activity * nat)) : list Message := calls ≫= fun c => drop c.2 (casts c.1).

Definition recorded_since (calls : list (Activity * nat)) : list (string * string) :=
  calls ≫= fun c => drop c.2 (recorded c.1).

Lemma all_increments calls : increments_known (casts_since calls).
Proof using Type*.
  induction calls as [|[a n] calls [IHr IHk]]; [split; [by intros ?%elem_of_nil|constructor]|].
  destruct (casts_increments a) as [Hr Hk]. unfold casts_since. cbn [mbind list_bind fst snd]. split.
  - rewrite not_elem_of_app. split; [|exact IHr]. intros Hin. apply Hr.
    rewrite <-(take_drop n (casts a)). apply elem_of_app. by right.
  - rewrite keys_app, keys_drop. apply Forall_app_2; [by apply Forall_drop|exact IHk].
Qed.

Lemma done_or_failed result :
  has_type (T_or T_ok (T_error T_any)) result = true ->
  result = EAtom a_ok \/ exists reason, result = ETuple [EAtom a_error; reason].
Proof.
  intros [Ht|Ht]%has_type_or; [left|right].
  - by destruct result as [[]| | | | | | | | | |].
  - destruct result as [| | | |[|[[]| | | | | | | | | |] [|reason [|]]]| | | | | |]; try done. by exists reason.
Qed.

Lemma casts_known a :
  Forall (fun e => e.1 ∈ event_names) (fired a) -> casts a = map (fun e => handle_event e.1 e.2) (fired a).
Proof using Type*.
  intros Hf. unfold casts. f_equal. induction Hf as [|e l He _ IH]; [done|].
  rewrite filter_cons_True by (rewrite invokes_attached; by apply bool_decide_eq_true_2). by rewrite IH.
Qed.

Lemma casts_recorded a : result_typed a = true -> map label_of (keys (casts a)) = recorded a.
Proof using Type*.
  assert (forall event, bool_decide (event ∈ event_names) = true -> event ∈ event_names) as Hin
    by (intros event; apply bool_decide_eq_true_1).
  intros Ht. rewrite casts_known.
  - destruct a as [f result|result|[]]; [destruct f; try done; cbn [result_typed api_spec] in Ht| |done|done];
      apply done_or_failed in Ht; cbn [fired]; rewrite ?span_returned; by destruct Ht as [->|[reason ->]].
  - destruct a as [f result|result|[]]; [destruct f| | |]; cbn [fired]; rewrite ?span_returned;
      repeat (constructor; [by apply Hin|]); constructor.
Qed.

Lemma all_recorded calls :
  forallb (fun c => result_typed c.1) calls = true -> map label_of (keys (casts_since calls)) = recorded_since calls.
Proof using Type*.
  unfold casts_since, recorded_since. induction calls as [|[a n] calls IH]; [done|]. cbn. intros [Ha Hc]%andb_true_iff.
  by rewrite keys_app, map_app, keys_drop, <-skipn_map, casts_recorded, <-IH.
Qed.

(** What the store is before, if its last message is a reset, does not count. *)
Definition after_reset (before : list Message) : Prop := before = [] \/ exists l, before = l ++ [Reset].

Lemma counted_since before mail k : after_reset before -> counted (before ++ mail) k = counted mail k.
Proof using Type. intros [->|[l ->]]; [done|]. unfold counted. by rewrite !foldl_app. Qed.

(** The counters of a mailbox of the casts of calls and of other messages. *)
Lemma mailbox_counts calls requests mailbox :
  forallb harmless requests = true -> mailbox ≡ₚ casts_since calls ++ requests ->
  forall k, counted mailbox k = N.of_nat (occurrences k (keys (casts_since calls))).
Proof using Type*.
  intros [Hk Hr]%keys_harmless Hp k. pose proof (proj1 (all_increments calls)) as Hc.
  rewrite counted_occurrences by (by rewrite Hp, not_elem_of_app). f_equal. unfold occurrences.
  assert (keys mailbox ≡ₚ keys (casts_since calls)) as ->; [|done].
  transitivity (keys (casts_since calls ++ requests)); [unfold keys; by rewrite Hp|].
  by rewrite keys_app, Hk, app_nil_r.
Qed.
End reports.

(** The numbers in a store, in whatever order they are listed. *)
Definition number (f : Key -> N) (kv : Key * (string + N)) : Key * N := (kv.1, f kv.1).

Lemma numbers_listed handler_id f counts l :
  holds handler_id f counts -> l ≡ₚ snapshot counts -> numbers l = Some (map (number f) l).
Proof.
  intros Hh Hp. assert (Forall (fun kv => kv.2 = inr (f kv.1)) l) as Hf.
  { rewrite Hp. apply Forall_forall. intros [k v] Hkv. by eapply snapshot_holds in Hkv as [-> _]. }
  clear Hp. induction Hf as [|[k v] l Hv _ IH]; [done|]. cbn in Hv. subst v. unfold numbers in *. cbn [mapM map].
  by rewrite IH.
Qed.

Lemma numbers_NoDup f counts : NoDup (map fst (map (number f) (snapshot counts))).
Proof. rewrite map_map. apply snapshot_NoDup. Qed.

Lemma numbers_elem handler_id f counts k n :
  holds handler_id f counts -> (k, n) ∈ map (number f) (snapshot counts) <-> n = f k /\ n <> 0%N.
Proof.
  intros Hh. split.
  - intros ([k' v] & [= -> ->] & Hkv)%list_elem_of_fmap. cbn. apply (snapshot_holds _ _ _ _ _ Hh) in Hkv as [_ Hn]. by split.
  - intros [-> Hn]. apply list_elem_of_fmap. exists (k, inr (f k)). split; [done|]. by apply (snapshot_holds _ _ _ _ _ Hh).
Qed.

(** C22: Telemetry adds up.  Whatever calls, dials and health checks run, with
    results of the types of their functions, and in
    whatever order the casts of their events reach the store among its other
    messages, the store does not raise and its counters render as a text, the
    same in whatever order the map lists them, that reads as one sample per
    counter.  Its value is the number of calls that returned [:ok], or an error,
    for the events that carry a result, and the number of events for the others,
    since the store was started or, if it has been reset, since its last reset - a
    call that was under way then counts with the events that came after it.  What
    did not happen has no sample. *)
Theorem scrape_reports_calls `{!TelemetryLibrary, !TelemetryLaws} handler_id
    (before : list Message) (calls : list (Activity * nat)) (requests mail : list Message) :
  after_reset before -> forallb (fun c => result_typed c.1) calls = true -> forallb harmless requests = true ->
  mail ≡ₚ casts_since calls ++ requests ->
  exists counts text samples,
    run (before ++ mail) (init handler_id) = Some counts /\
    (forall l, l ≡ₚ snapshot counts -> do_render_prometheus <$> numbers l = Some text) /\
    read text = Some samples /\ NoDup (map fst samples) /\
    forall metric tag n, (metric, tag, n) ∈ samples <->
      n = N.of_nat (occurrences (metric, tag) (recorded_since calls)) /\ n <> 0%N.
Proof.
  intros Hreset Ht Hq Hp. destruct (run_holds handler_id (before ++ mail)) as (counts & Hrun & Hh).
  assert (forall k, counted (before ++ mail) k = N.of_nat (occurrences k (keys (casts_since calls)))) as Hcount.
  { intros k. rewrite counted_since by done. by eapply mailbox_counts. }
  set (mailbox := before ++ mail) in *. clearbody mailbox.
  destruct (all_increments calls) as [_ Hknown]. pose proof (all_recorded calls Ht) as Hrec.
  set (ks := keys (casts_since calls)) in *. set (l := map (number (counted mailbox)) (snapshot counts)).
  assert (forall k n, (k, n) ∈ l <-> n = N.of_nat (occurrences k ks) /\ n <> 0%N) as Hl
    by (intros k n; rewrite <-Hcount; by eapply numbers_elem).
  assert (Forall (fun kv => kv.1.1 ∈ event_names) l) as Hev.
  { apply Forall_forall. intros [k n] [-> Hn]%Hl. rewrite Forall_forall in Hknown. apply Hknown, occurrences_elem. cbn. lia. }
  destruct (read_do_render l Hev) as (samples & Hread & Hs). exists counts, (do_render_prometheus l), samples.
  assert (forall k n, (k, n) ∈ l -> k.1 ∈ event_names) as Hkev
    by (intros k n Hk; rewrite Forall_forall in Hev; apply (Hev (k, n) Hk)).
  assert (forall k, k.1 ∈ event_names -> occurrences (label_of k) (map label_of ks) = occurrences k ks) as Hocc.
  { intros k Hk. apply occurrences_map. intros k' Hk'. rewrite Forall_forall in Hknown. by apply label_of_inj; [|apply Hknown]. }
  split_and!; [done| |done| |].
  - intros l' Hp'. rewrite (numbers_listed _ _ _ _ Hh Hp'). cbn. f_equal. symmetry. apply render_order.
    + unfold l. by rewrite Hp'.
    + apply numbers_NoDup.
  - rewrite Hs. change (NoDup (fst <$> (sample <$> l))). rewrite <-list_fmap_compose.
    change (NoDup ((label_of ∘ fst) <$> l)). rewrite list_fmap_compose. apply NoDup_fmap_2_strong; [|apply numbers_NoDup].
    intros k k' ([? n] & -> & Hk)%list_elem_of_fmap ([? n'] & -> & Hk')%list_elem_of_fmap. apply label_of_inj; by eapply Hkev.
  - intros metric tag n. rewrite Hs, <-Hrec. split.
    + intros ([k n'] & E & Hk)%list_elem_of_fmap. pose proof (f_equal fst E : (metric, tag) = label_of k) as ->.
      pose proof (f_equal snd E : n = n') as ->. rewrite Hocc by (by eapply Hkev). by apply Hl.
    + intros [-> Hn]. assert ((metric, tag) ∈ map label_of ks) as (k & E & Hk)%list_elem_of_fmap
        by (apply occurrences_elem; lia).
      rewrite Forall_forall in Hknown. rewrite E, Hocc in Hn |- * by (by apply Hknown).
      apply list_elem_of_fmap. exists (k, N.of_nat (occurrences k ks)). split; [done|by apply Hl].
Qed.

(** *** A day of calls *)

(** [telemetry], as it is documented. *)
Definition sim_library : TelemetryLibrary := {|
  span event start function :=
    [(event ++ ["start"], start);
     match function with Some r => (event ++ ["stop"], Some r) | None => (event ++ ["exception"], None) end];
  invokes attached event := bool_decide (event ∈ attached);
|}.

Lemma sim_laws : @TelemetryLaws sim_library.
Proof. by split. Qed.

Definition sim_calls : list Activity :=
  let publish := A_Gossipsub_publish "t" [] in
  let failed := ETuple [EAtom a_error; EName "node_unavailable"] in
  [Called publish (EAtom a_ok); Called publish failed; Dialed failed; Called publish (EAtom a_ok);
   Called (A_Gossipsub_subscribe "t") (EAtom a_ok); Checked (Check_failed 1 failed); Called (A_DHT_bootstrap) failed].

Example render_two_counters :
  do_render_prometheus [((["b"], a_error), 2%N); ((["a"; "b"], a_ok), 10%N); ((["b"], a_ok), 1%N)] =
  unlines [
    "# HELP a_b_total Number of [a, b] events fired, partitioned by result."; "# TYPE a_b_total counter";
    "a_b_total{result=" +:+ quote +:+ "ok" +:+ quote +:+ "} 10"; "";
    "# HELP b_total Number of [b] events fired, partitioned by result."; "# TYPE b_total counter";
    "b_total{result=" +:+ quote +:+ "error" +:+ quote +:+ "} 2";
    "b_total{result=" +:+ quote +:+ "ok" +:+ quote +:+ "} 1"; ""].
Proof. vm_compute. reflexivity. Qed.

(** The first of these calls is under way when the store is reset. *)
Definition sim_since : list (Activity * nat) := imap (fun k a => (a, match k with 0 => 1 | _ => 0 end)) sim_calls.

Lemma scrape_reports_calls_witness :
  let mail := Snapshot :: rev (@casts_since sim_library sim_since) in
  exists counts text samples,
    run ([Increment ["ex_libp2p"; "gossipsub"; "publish"; "start"] a_unknown; Reset] ++ mail) (init "h") = Some counts /\
    render_prometheus counts = Some text /\ read text = Some samples /\
    ("ex_libp2p_gossipsub_publish_start_total", "unknown", 2%N) ∈ samples /\
    ("ex_libp2p_gossipsub_publish_stop_total", "ok", 2%N) ∈ samples /\
    ("ex_libp2p_node_dial_stop_total", "error", 1%N) ∈ samples.
Proof.
  cbv zeta. pose proof sim_laws as Hlaws.
  destruct (@scrape_reports_calls sim_library Hlaws "h"
    [Increment ["ex_libp2p"; "gossipsub"; "publish"; "start"] a_unknown; Reset] sim_since [Snapshot]
    (Snapshot :: rev (@casts_since sim_library sim_since)))
    as (counts & text & samples & Hrun & Htext & Hread & _ & Hs).
  - right. by exists [Increment ["ex_libp2p"; "gossipsub"; "publish"; "start"] a_unknown].
  - reflexivity.
  - reflexivity.
  - rewrite <-Permutation_cons_append. constructor. symmetry. apply Permutation_rev.
  - exists counts, text, samples. split; [exact Hrun|]. split; [by apply Htext|]. split; [exact Hread|].
    rewrite !Hs. repeat split; vm_compute; congruence.
Defined.
End Reports.
