(* ===== verification/Network.v ===== *)
(** * A network of nodes

    The composition of the whole program: any number of nodes, each with its
    command channel, native calls and swarm task ([System]), its node process
    ([NodeEvents]), its handler registry ([HandlerRegistry]) and its distribution
    server ([Distribution]), and the requests and responses that travel between
    them.  libp2p appears as what it hands to the loops: a request that was given
    to the request-response protocol of one swarm may arrive at the peer it is
    for, with a new response channel, and what is sent on that channel may arrive
    back.  Packets are lost and overtake each other.  [step] is the transition
    relation; the property is about every run. *)
From stdpp Require Import functions.
From S2P Require Import Prelude Bytes Policy Terms NifError Libp2p Sim DhtState Commands Events SwarmLoop.
From S2P Require Import Requests Answers NodeEvents Channel Nif System NodeCalls NativeCalls NativeRuns.
From S2P Require Import HandlerRegistry Subscriptions NodeServer Distribution.
From stdpp Require Import options.

#[local] Set Default Proof Using "Type*".

(** ** The commands a program may send *)
Fixpoint sends `{!Protocols} {LocalPid R} (P : Command LocalPid -> Prop) (p : Nif LocalPid R) : Prop :=
  match p with
  | Done _ => True
  | Oneshot t k => forall tx, sends P (k tx)
  | TrySend cmd k => P cmd /\ forall r, sends P (k r)
  | BlockingRecv t tx k => forall v, sends P (k v)
  end.

(** Only [rpc_send_response] sends this command. *)
Definition response_of `{!Protocols} {LocalPid} (cmd : Command LocalPid) : option (string * bytes) :=
  match cmd with RpcSendResponse id data => Some (id, data) | _ => None end.

Definition api_response (f : Api) : option (string * bytes) :=
  match f with A_RequestResponse_send_response id data => Some (id, data) | _ => None end.

Section programs.
Context `{!Protocols, !Metrics} {LocalPid : Type}.
Context (alloc : Z -> bool) (utf8 : string -> bool).
Implicit Types (P : Command LocalPid -> Prop).

Lemma sends_mono {R} P Q (p : Nif LocalPid R) : (forall cmd, P cmd -> Q cmd) -> sends P p -> sends Q p.
Proof. intros HPQ. induction p; cbn; naive_solver. Qed.

Lemma sends_bind {R S} P (f : R -> Nif LocalPid S) p :
  sends P p -> (forall a, sends P (f a)) -> sends P (p ≫= f).
Proof.
  intros Hp Hf. change (sends P (nif_bind f p)). induction p as [[a|e|]|t k IH|cmd k IH|t tx k IH]; cbn in *;
    naive_solver.
Qed.

Lemma sends_as_term {R} P (enc : R -> ETerm) p : sends P p -> sends P (as_term enc p).
Proof. induction p as [[a|e|]|t k IH|cmd k IH|t tx k IH]; cbn; naive_solver. Qed.

Lemma sends_send_ok P cmd : P cmd -> sends P (send_ok cmd).
Proof. intros Hc. split; [done|]. by intros []. Qed.

Lemma sends_query {t} P (mk : Sender t -> Command LocalPid) :
  (forall tx, P (mk tx)) -> sends P (query_typed mk).
Proof. intros Hm tx. split; [apply Hm|]. by intros []. Qed.

Definition native_response (c : NativeCall LocalPid) : option (string * bytes) :=
  match c with N_rpc_send_response id data => Some (id, data) | _ => None end.

(** A command that carries at most the response [r]. *)
Definition carries (r : option (string * bytes)) (cmd : Command LocalPid) : Prop :=
  match response_of cmd with Some x => r = Some x | None => True end.

Lemma sends_rpc_send_request P s d :
  (forall p tx, P (RpcSendRequest p d tx)) -> sends P (rpc_send_request (LocalPid:=LocalPid) s d).
Proof.
  intros HP. unfold rpc_send_request, parse_peer_id. destruct (peer_parse s) as [e|p]; [done|].
  cbn. intros tx. split; [apply HP|]. intros []; [|done..]. by intros [].
Qed.

#[local] Ltac sends :=
  repeat first
    [ exact I | apply sends_as_term | by apply sends_rpc_send_request | apply sends_send_ok; done
    | lazymatch goal with |- sends _ (query_typed (t:=?t) _) => apply (sends_query (t:=t)); intros; exact I end
    | apply sends_bind; [|intros]
    | match goal with |- sends _ (let '(_, _) := ?x in _) => destruct x end
    | split; [exact I|]; intros [] ].

Lemma native_sends handle (c : NativeCall LocalPid) :
  sends (carries (native_response c)) (native (LocalPid:=LocalPid) alloc utf8 handle c).
Proof.
  unfold native. destruct (arguments_ok utf8 c); [|done]. apply sends_bind; [|done].
  destruct c; cbn [native_function native_response]; sends.
Qed.

(** A call of a front end sends a response only if it is [send_response]. *)
Lemma handle_call_shape call state (Q : forall R, Nif LocalPid R -> Prop) :
  (forall c, native_response c = match call with C_rpc_send_response id data => Some (id, data) | _ => None end ->
     Q _ (native (LocalPid:=LocalPid) alloc utf8 (node_handle state) c)) ->
  (forall R S (p : Nif LocalPid R) (f : R -> S), Q _ p -> Q _ (p ≫= fun r => mret (f r))) ->
  (forall R (r : R), Q _ (mret r)) ->
  Q _ (handle_call (NativeModule0:=nif_module (LocalPid:=LocalPid) alloc utf8) call state).
Proof.
  intros Hn Hb Hr. unfold handle_call.
  destruct call; cbn [network_ops_handles network_ops_handle nif_ops_handle];
    unfold normalized, returning; first [by apply Hn|apply Hr|apply Hb; by apply Hn].
Qed.

Lemma api_call_sends exits alive late f state :
  sends (carries (api_response f)) (api_call (NativeModule0:=nif_module (LocalPid:=LocalPid) alloc utf8) exits alive late f state).
Proof.
  apply sends_bind; [|done]. unfold call_process. destruct alive; [|done]. apply sends_bind; [|done].
  apply (handle_call_shape _ _ (fun R p => sends (carries (api_response f)) p)).
  - intros c Hc. replace (api_response f) with (native_response c); [apply native_sends|]. rewrite Hc. by destruct f.
  - intros R S p g Hp. by apply sends_bind.
  - done.
Qed.

Lemma api_call_wf exits alive late f state :
  nif_wf Nothing (api_call (NativeModule0:=nif_module (LocalPid:=LocalPid) alloc utf8) exits alive late f state).
Proof.
  apply nif_wf_bind; [|done]. unfold call_process. destruct alive; [|done]. apply nif_wf_bind; [|done].
  apply (handle_call_shape _ _ (fun R p => nif_wf Nothing p)).
  - intros c _. apply native_wf.
  - intros R S p g Hp. by apply nif_wf_bind.
  - done.
Qed.
End programs.

(** ** The commands of a running node *)
Section commands.
Context `{!Protocols} {Swarm LocalPid Term : Type} `{!SwarmOps Swarm, !TermEnc Term}.
Context {Chan : Type} `{!Mpsc Chan (Command LocalPid), !MpscOk Chan (Command LocalPid)}.
Context (alloc : Z -> bool) (auto : bool) {R : Type}.
Implicit Types (s : Sys (Swarm:=Swarm) (LocalPid:=LocalPid) (Chan:=Chan) (R:=R)) (P : Command LocalPid -> Prop).

Local Abbreviation act := (act (Swarm:=Swarm) (LocalPid:=LocalPid) (Term:=Term) (Chan:=Chan) (R:=R) alloc auto).

(** The queued commands, and those the calls may still send, satisfy [P]. *)
Definition all_commands P s : Prop := Forall P (queue (chan s)) /\ Forall (sends P) (calls s).

Lemma all_commands_mono P Q s : (forall cmd, P cmd -> Q cmd) -> all_commands P s -> all_commands Q s.
Proof.
  intros HPQ [Hq Hc]. split.
  - by eapply Forall_impl; [exact Hq|].
  - eapply Forall_impl; [exact Hc|]. intros p. by apply sends_mono.
Qed.

Lemma all_commands_step P s n : sys_ok s -> all_commands P s -> all_commands P (act (StepCall n) s).
Proof.
  intros Hok [Hq Hc]. cbn [System.act]. unfold System.step_call. pose proof (sys_dropped _ Hok) as Hd.
  destruct (calls s !! n) as [[r|t k|cmd k|t tx k]|] eqn:Hn; [done| | | |done];
    pose proof (proj1 (Forall_lookup _ _) Hc _ _ Hn) as Hp; cbn in Hp.
  - split; [done|]. by apply Forall_insert.
  - destruct Hp as [Hcmd Hk].
    assert (handle s = true) as Hh.
    { destruct (handle s); [done|]. exfalso. by eapply forallb_insert_false, Hd. }
    pose proof (send_command_spec s cmd Hok Hh) as Hs. destruct (send_command s cmd) as [s' r].
    destruct Hs as (_ & _ & Hcs & _ & _ & _ & _ & Hr). split; cbn [set_call chan calls].
    + destruct r; destruct Hr as (_ & -> & _); [|done..]. apply Forall_app. by rewrite Forall_singleton.
    + rewrite Hcs. by apply Forall_insert.
  - case_match; [|done]. split; [done|]. by apply Forall_insert.
Qed.

Lemma all_commands_recv P s : sys_ok s -> all_commands P s -> all_commands P (act LoopRecv s).
Proof.
  intros Hok [Hq Hc]. pose proof (recv_view (Term:=Term) alloc auto s Hok) as (Hcs & _ & Hv).
  split; [|by rewrite Hcs]. pose proof (sys_ok_act (Term:=Term) alloc auto LoopRecv s I Hok) as Hok'.
  pose proof (sys_exited _ Hok') as He.
  destruct (loop s) as [st|]; [|by rewrite Hv]. destruct (queue (chan s)) as [|cmd q] eqn:E.
  - destruct (handle s); [by rewrite Hv, E|]. by rewrite (He (proj1 Hv)).
  - apply Forall_cons in Hq as [_ Hq]. cbv zeta in Hv.
    destruct (ends _); [by rewrite (He (proj1 Hv))|]. by destruct Hv as (_ & -> & _).
Qed.

Lemma all_commands_input P s i : all_commands P s -> all_commands P (act (LoopInput i) s).
Proof.
  intros [Hq Hc]. pose proof (input_view (Term:=Term) alloc auto s i) as (Hq' & _ & Hc' & _).
  unfold all_commands. by rewrite Hq', Hc'.
Qed.

Lemma all_commands_spawn P s p : sends P p -> all_commands P s -> all_commands P (act (Spawn p) s).
Proof.
  intros Hp [Hq Hc]. cbn [System.act]. destruct (handle s); [|done]. split; [done|].
  apply Forall_app. by rewrite Forall_singleton.
Qed.
End commands.

(** ** The network *)
Section network.
#[local] Set Default Proof Using "All".
Context `{!Protocols, !Metrics} {Swarm : Type} `{!SwarmOps Swarm} {format : TermFormat}.
Context {Chan : Type} `{!Mpsc Chan (Command Pid), !MpscOk Chan (Command Pid)}.
Context `{!EqDecision ResponseChannel}.
Context (alloc : Z -> bool) (utf8 : string -> bool) (auto : bool).
(** The identity of each node, its state in Elixir, the exit reasons of calls to
    it, and its processes when its distribution server handles its
    [t]-th message. *)
Context (peer_of : nat -> PeerId) (node_state : nat -> NodeState NodeHandle) (exits_of : nat -> Exits).
Context (procs : nat -> nat -> Processes).

Local Abbreviation Sys := (Sys (Swarm:=Swarm) (LocalPid:=Pid) (Chan:=Chan) (R:=option ETerm)).
Local Abbreviation act := (System.act (Swarm:=Swarm) (LocalPid:=Pid) (Term:=ETerm) (Chan:=Chan) (R:=option ETerm) alloc auto).
Local Abbreviation turn := (SwarmLoop.turn (Swarm:=Swarm) (LocalPid:=Pid) (Term:=ETerm) alloc auto).
Local Abbreviation binary_term := (encode_binary (Term:=ETerm) alloc).
Local Abbreviation Message := (Atom * NodeEvent.t)%type.

Implicit Types (st : LoopState Swarm Pid) (i : Input Pid).

(** A request given to the request-response protocol of node [rq_from]. *)
Record NetRequest := mkNetRequest {
  rq_from : nat;
  rq_id : OutboundRequestId;
  rq_to : PeerId;
  rq_data : bytes;
}.

Inductive Packet :=
  | PRequest (rq : NetRequest)
  | PResponse (rq : NetRequest) (data : bytes).

(** [notes] are the messages of the loop that the node process has not handled;
    [server] is the distribution server, if it has not raised, [serving] the call
    it is in and [served] the number of messages it has handled; [channels] are
    libp2p's response channels.  [asked] and [given] are histories: the requests
    announced to Elixir under each channel id, and the responses that processes
    other than the server passed to [send_response]. *)
Record NetNode := mkNetNode {
  sys : Sys;
  notes : list (Pid * ETerm);
  world : World (EventType:=Atom);
  mailbox : Pid -> list Message;
  server : option Pid;
  serving : option nat;
  served : nat;
  channels : list (ResponseChannel * NetRequest);
  asked : gmap string NetRequest;
  given : list (string * bytes);
}.

(** [sent] is the history of the requests. *)
Record Net := mkNet {
  nodes : nat -> NetNode;
  wire : list Packet;
  sent : list NetRequest;
}.

Definition set_sys (nd : NetNode) (s : Sys) : NetNode :=
  mkNetNode s (notes nd) (world nd) (mailbox nd) (server nd) (serving nd) (served nd) (channels nd) (asked nd) (given nd).

Definition set_notes (nd : NetNode) (l : list (Pid * ETerm)) : NetNode :=
  mkNetNode (sys nd) l (world nd) (mailbox nd) (server nd) (serving nd) (served nd) (channels nd) (asked nd) (given nd).

Definition set_mailbox (nd : NetNode) (f : Pid -> list Message) : NetNode :=
  mkNetNode (sys nd) (notes nd) (world nd) f (server nd) (serving nd) (served nd) (channels nd) (asked nd) (given nd).

Definition set_world (nd : NetNode) (w : World) : NetNode :=
  mkNetNode (sys nd) (notes nd) w (mailbox nd) (server nd) (serving nd) (served nd) (channels nd) (asked nd) (given nd).

Definition set_server (nd : NetNode) (srv : option Pid) (call : option nat) (n : nat) : NetNode :=
  mkNetNode (sys nd) (notes nd) (world nd) (mailbox nd) srv call n (channels nd) (asked nd) (given nd).

Definition set_channels (nd : NetNode) (l : list (ResponseChannel * NetRequest)) (m : gmap string NetRequest) : NetNode :=
  mkNetNode (sys nd) (notes nd) (world nd) (mailbox nd) (server nd) (serving nd) (served nd) l m (given nd).

(** A process other than the server passes a response to [send_response]. *)
Definition gives (nd : NetNode) (response : option (string * bytes)) : NetNode :=
  match response with
  | Some x =>
      mkNetNode (sys nd) (notes nd) (world nd) (mailbox nd) (server nd) (serving nd) (served nd) (channels nd)
        (asked nd) (given nd ++ [x])
  | None => nd
  end.

Definition update (net : Net) (n : nat) (nd : NetNode) : Net := mkNet (<[n := nd]> (nodes net)) (wire net) (sent net).

(** A turn of the loop on a tick or an event, and what it tells the node. *)
Definition input (nd : NetNode) (i : Input Pid) : NetNode :=
  match loop (sys nd) with
  | Some st => set_notes (set_sys nd (act (LoopInput i) (sys nd))) (notes nd ++ notifications (effects_of (turn i st)))
  | None => nd
  end.

(** What the turn on a command gives to the request-response protocol. *)
Definition outgoing (n : nat) (nd : NetNode) (st : LoopState Swarm Pid) (cmd : option (Command Pid)) : list Packet :=
  let rr := request_response (behaviour (swarm st)) in
  match cmd with
  | Some (RpcSendRequest p data _) => [PRequest (mkNetRequest n (rr_send_request rr p data).2 p data)]
  | Some (RpcSendResponse id data) =>
      match pending_responses st !! id with
      | Some (channel, _) =>
          match (rr_send_response rr channel data).2, keyfind (channels nd) channel with
          | inr _, Some (_, rq) => [PResponse rq data]
          | _, _ => []
          end
      | None => []
      end
  | _ => []
  end.

Definition requests_of (l : list Packet) : list NetRequest :=
  omap (fun p => match p with PRequest rq => Some rq | PResponse _ _ => None end) l.

(** The event of a request that arrives, and the node after it. *)
Definition arrival (now : Z) (rid : InboundRequestId) (c : ResponseChannel) (rq : NetRequest) : Input Pid :=
  Event now (Behaviour (RR_Request (peer_of (rq_from rq)) rid (rq_data rq) c)).

Definition announced (nd : NetNode) (rq : NetRequest) : gmap string NetRequest :=
  match loop (sys nd) with
  | Some st =>
      if full (pending_responses st) then asked nd
      else <[channel_name (as_u64 (channel_counter st + 1)) := rq]> (asked nd)
  | None => asked nd
  end.

(** A function of a front end, called on the node by some process; the node is
    alive or not, and its reply comes in time or late. *)
Definition call_program (n : nat) (alive late : bool) (f : Api) : Nif Pid (option ETerm) :=
  api_call (NativeModule0:=nif_module (LocalPid:=Pid) alloc utf8) (exits_of n) alive late f (node_state n).

(** The node process handles a message of the loop and the registry forwards it. *)
Definition delivered (nd : NetNode) (m : Pid * ETerm) : NetNode :=
  set_mailbox nd (fun pid => mailbox nd pid ++ inbox_of pid (forwarded (reg (world nd)) m)).

(** The server makes the calls [fs] - one or none - and waits for them. *)
Definition serve_calls (n : nat) (nd : NetNode) (alive late : bool) (fs : list Api) : Sys * option nat :=
  match fs with
  | f :: _ => (act (Spawn (call_program n alive late f)) (sys nd), Some (length (calls (sys nd))))
  | [] => (sys nd, None)
  end.

Definition server_idle (nd : NetNode) : Prop :=
  match serving nd with Some k => exists r, calls (sys nd) !! k = Some (Done r) | None => True end.

Definition plain_event (i : Input Pid) : Prop :=
  match i with
  | Tick _ => True
  | Recv _ => False
  | Event _ (Behaviour (RR_Request _ _ _ _)) | Event _ (Behaviour (RR_Response _ _ _)) => False
  | Event _ _ => True
  end.

(** Processes call the functions of the front ends ([step_spawn]) and native
    functions, as the node process does when it starts and stops ([step_own]). *)
Inductive step : Net -> Net -> Prop :=
  | step_spawn net n alive late f :
      step net (update net n (set_sys (gives (nodes net n) (api_response f)) (act (Spawn (call_program n alive late f)) (sys (nodes net n)))))
  | step_own net n c :
      step net (update net n (set_sys (gives (nodes net n) (native_response c))
        (act (Spawn (native (LocalPid:=Pid) alloc utf8 (node_handle (node_state n)) c)) (sys (nodes net n)))))
  | step_native net n k :
      step net (update net n (set_sys (nodes net n) (act (StepCall k) (sys (nodes net n)))))
  | step_drop net n : step net (update net n (set_sys (nodes net n) (act DropHandle (sys (nodes net n)))))
  | step_command net n st c cmd :
      loop (sys (nodes net n)) = Some st -> poll_recv (chan (sys (nodes net n))) = (c, Ready cmd) ->
      let out := outgoing n (nodes net n) st cmd in
      step net (mkNet (<[n := set_sys (nodes net n) (act LoopRecv (sys (nodes net n)))]> (nodes net))
                  (wire net ++ out) (sent net ++ requests_of out))
  | step_input net n i : plain_event i -> step net (update net n (input (nodes net n) i))
  | step_request net n l1 rq l2 now rid c :
      wire net = l1 ++ PRequest rq :: l2 -> rq_to rq = peer_of n -> c ∉ map fst (channels (nodes net n)) ->
      let nd := nodes net n in
      step net (mkNet (<[n := set_channels (input nd (arrival now rid c rq)) ((c, rq) :: channels nd) (announced nd rq)]>
                        (nodes net)) (l1 ++ l2) (sent net))
  | step_response net l1 rq data l2 now :
      wire net = l1 ++ PResponse rq data :: l2 ->
      let n := rq_from rq in
      step net (mkNet (<[n := input (nodes net n) (Event now (Behaviour (RR_Response (rq_to rq) (rq_id rq) data)))]>
                        (nodes net)) (l1 ++ l2) (sent net))
  | step_lose net l1 p l2 : wire net = l1 ++ p :: l2 -> step net (mkNet (nodes net) (l1 ++ l2) (sent net))
  | step_note net n m l :
      notes (nodes net n) = m :: l -> step net (update net n (delivered (set_notes (nodes net n) l) m))
  | step_world net n a o w :
      (forall node ty ev, a <> Cast node ty ev) -> HandlerRegistry.step (Event:=NodeEvent.t) (world (nodes net n)) a o w ->
      step net (update net n (set_world (nodes net n) w))
  | step_serve net n alive late srv m l ds fs :
      server (nodes net n) = Some srv -> server_idle (nodes net n) -> mailbox (nodes net n) srv = m :: l ->
      server_handle_info (procs n (served (nodes net n))) m = Some (ds, fs) ->
      let nd := nodes net n in
      let r := serve_calls n nd alive late fs in
      step net (update net n (set_mailbox (set_server (set_sys nd r.1) (Some srv) r.2 (S (served nd))) (<[srv := l]> (mailbox nd))))
  | step_serve_raise net n srv m l :
      server (nodes net n) = Some srv -> server_idle (nodes net n) -> mailbox (nodes net n) srv = m :: l ->
      server_handle_info (procs n (served (nodes net n))) m = None ->
      step net (update net n (set_server (nodes net n) None None (served (nodes net n))))
  | step_take net n pid l1 m l2 :
      server (nodes net n) <> Some pid -> mailbox (nodes net n) pid = l1 ++ m :: l2 ->
      step net (update net n (set_mailbox (nodes net n) (<[pid := l1 ++ l2]> (mailbox (nodes net n))))).

(** The nodes have just started. *)
Definition initial (net : Net) : Prop :=
  wire net = [] /\ sent net = [] /\
  forall n, exists sw w srv, nodes net n = mkNetNode (start sw) [] w (fun _ => []) srv None 0 [] ∅ [].

(** The networks that [k] steps can lead to. *)
Inductive reaches : nat -> Net -> Prop :=
  | reaches_start net : initial net -> reaches 0 net
  | reaches_step k net net' : reaches k net -> step net net' -> reaches (S k) net'.

(** ** What every message is

    The facts the invariant is made of: they stay true as the histories grow. *)
Definition response_to (vm : Processes) (data : bytes) : option bytes :=
  match server_handle_info vm (a_inbound_request, NodeEvent.InboundRequest (EStr "") (EStr "") [] (binary_term data)) with
  | Some (_, [A_RequestResponse_send_response _ response]) => Some response
  | _ => None
  end.

Definition answered_by (net : Net) (n : nat) (data response : bytes) : Prop :=
  exists t, (t < served (nodes net n))%nat /\ response_to (procs n t) data = Some response.

(** A process of the node gave [response] to the request itself. *)
Definition given_to (net : Net) (n : nat) (rq : NetRequest) (response : bytes) : Prop :=
  exists id, asked (nodes net n) !! id = Some rq /\ (id, response) ∈ given (nodes net n).

Definition command_ok (net : Net) (n : nat) (cmd : Command Pid) : Prop :=
  match response_of cmd with
  | Some (id, data) =>
      (exists rq, asked (nodes net n) !! id = Some rq /\ answered_by net n (rq_data rq) data) \/
      (id, data) ∈ given (nodes net n)
  | None => True
  end.

Definition packet_ok (net : Net) (p : Packet) : Prop :=
  match p with
  | PRequest rq => rq ∈ sent net
  | PResponse rq data => 
      rq ∈ sent net /\
      exists q, peer_of q = rq_to rq /\ (answered_by net q (rq_data rq) data \/ given_to net q rq data)
  end.

Definition event_ok (net : Net) (n : nat) (e : NodeEvent.t) : Prop :=
  match e with
  | NodeEvent.InboundRequest _ channel_id _ data =>
      exists id rq, channel_id = EStr id /\ asked (nodes net n) !! id = Some rq /\ data = binary_term (rq_data rq)
  | NodeEvent.OutboundResponse request_id peer data =>
      exists rq response, rq_from rq = n /\ packet_ok net (PResponse rq response) /\
        request_id = EStr (debug_outbound (rq_id rq)) /\ peer = peer_struct (rq_to rq) /\ data = binary_term response
  | _ => True
  end.

Definition dispatches_ok (net : Net) (n : nat) (m : Pid * ETerm) : Prop :=
  forall ty e, Dispatch ty e ∈ (handle_info m.2).1 -> event_ok net n e.

Definition grows (net net' : Net) : Prop :=
  sent net ⊆ sent net' /\
  forall n, (served (nodes net n) <= served (nodes net' n))%nat /\ asked (nodes net n) ⊆ asked (nodes net' n) /\
    given (nodes net n) ⊆ given (nodes net' n).

Section growth.
Context (net net' : Net) (Hg : grows net net').

Lemma answered_grows n data response : answered_by net n data response -> answered_by net' n data response.
Proof. intros (t & Ht & Hr). exists t. split; [|done]. destruct Hg as [_ Hn]. specialize (Hn n). lia. Qed.

Lemma asked_grows n id rq : asked (nodes net n) !! id = Some rq -> asked (nodes net' n) !! id = Some rq.
Proof. destruct Hg as [_ Hn]. intros Ha. eapply lookup_weaken; [done|apply Hn]. Qed.

Lemma given_grows n x : x ∈ given (nodes net n) -> x ∈ given (nodes net' n).
Proof. destruct Hg as [_ Hn]. apply Hn. Qed.

Lemma given_to_grows n rq response : given_to net n rq response -> given_to net' n rq response.
Proof. intros (id & ? & ?). exists id. split; [by apply asked_grows|by apply given_grows]. Qed.

Lemma command_grows n cmd : command_ok net n cmd -> command_ok net' n cmd.
Proof.
  unfold command_ok. destruct (response_of cmd) as [[id data]|]; [|done].
  intros [(rq & Hrq & Ha)|Ha]; [left|right; by apply given_grows].
  exists rq. split; [by apply asked_grows|by apply answered_grows].
Qed.

Lemma packet_grows p : packet_ok net p -> packet_ok net' p.
Proof.
  destruct Hg as [Hs _]. destruct p as [rq|rq data]; cbn; [by apply Hs|].
  intros (Hrq & q & Hq & Ha). split; [by apply Hs|]. exists q. split; [done|].
  destruct Ha; [left; by apply answered_grows|right; by apply given_to_grows].
Qed.

Lemma event_grows n e : event_ok net n e -> event_ok net' n e.
Proof.
  destruct e; cbn [event_ok]; try done.
  - intros (id & rq & ? & ? & ?). exists id, rq. split_and!; [done|by apply asked_grows|done].
  - intros (rq & response & ? & ? & ?). exists rq, response. split_and!; [done|by apply packet_grows|by destruct_and?..].
Qed.

Lemma dispatches_grow n m : dispatches_ok net n m -> dispatches_ok net' n m.
Proof. intros Hm ty e He. by eapply event_grows, Hm. Qed.
End growth.

(** The table of a loop after [k] steps: its channels are those of the requests
    that are announced under their names, and the names are not used again. *)
Definition table_inv (k : nat) (nd : NetNode) (st : LoopState Swarm Pid) : Prop :=
  0 <= channel_counter st <= Z.of_nat k /\
  (forall id c t, pending_responses st !! id = Some (c, t) ->
     exists rq, asked nd !! id = Some rq /\ (c, rq) ∈ channels nd) /\
  (forall id, is_Some (asked nd !! id) -> exists j, id = channel_name j /\ 0 < j <= channel_counter st).

Record node_ok (net : Net) (k n : nat) (nd : NetNode) : Prop := {
  ok_sys : sys_ok (sys nd);
  ok_commands : all_commands (command_ok net n) (sys nd);
  ok_table st : loop (sys nd) = Some st -> table_inv k nd st;
  ok_channels_nodup : NoDup (map fst (channels nd));
  ok_channels c rq : (c, rq) ∈ channels nd -> rq ∈ sent net /\ rq_to rq = peer_of n;
  ok_notes : Forall (dispatches_ok net n) (notes nd);
  ok_mailbox pid : Forall (fun m => event_ok net n m.2) (mailbox nd pid);
}.

Definition net_ok (k : nat) (net : Net) : Prop :=
  Forall (packet_ok net) (wire net) /\ forall n, node_ok net k n (nodes net n).

Lemma table_grows k nd st : table_inv k nd st -> table_inv (S k) nd st.
Proof. intros (Hc & Ht & Ha). split; [lia|done]. Qed.

Lemma node_grows net net' k n nd : grows net net' -> node_ok net k n nd -> node_ok net' (S k) n nd.
Proof.
  intros Hg [H1 H2 H3 H4 H5 H6 H7]. split; try done.
  - eapply all_commands_mono; [|done]. intros cmd. by apply command_grows.
  - intros st Hst. by apply table_grows, H3.
  - intros c rq Hin. apply H5 in Hin as [? ?]. split; [by apply Hg|done].
  - eapply Forall_impl; [exact H6|]. intros m. by apply dispatches_grow.
  - intros pid. eapply Forall_impl; [apply H7|]. intros m. by apply event_grows.
Qed.

(** A step changes one node. *)
Lemma net_ok_update k net n nd w l :
  net_ok k net -> sent net ⊆ l -> (served (nodes net n) <= served nd)%nat -> asked (nodes net n) ⊆ asked nd ->
  given (nodes net n) ⊆ given nd ->
  let net' := mkNet (<[n := nd]> (nodes net)) w l in
  (grows net net' -> Forall (packet_ok net') w /\ node_ok net' (S k) n nd) -> net_ok (S k) net'.
Proof.
  intros [Hw Hn] Hl Hs Ha Hgv net' Hnew. assert (grows net net') as Hg.
  { split; [done|]. intros m. cbn. destruct (decide (n = m)) as [<-|Hne].
    - by rewrite fn_lookup_insert.
    - by rewrite fn_lookup_insert_ne. }
  destruct (Hnew Hg) as [Hw' Hn']. split; [done|]. intros m. cbn. destruct (decide (n = m)) as [<-|Hne].
  - by rewrite fn_lookup_insert.
  - rewrite fn_lookup_insert_ne by done. by eapply node_grows.
Qed.

(** The packets stay. *)
Lemma packets_grow net net' l : grows net net' -> Forall (packet_ok net) l -> Forall (packet_ok net') l.
Proof. intros Hg Hl. eapply Forall_impl; [done|]. intros p. by apply packet_grows. Qed.

Lemma net_ok_node k net n nd :
  net_ok k net -> (served (nodes net n) <= served nd)%nat -> asked (nodes net n) ⊆ asked nd ->
  given (nodes net n) ⊆ given nd ->
  (grows net (update net n nd) -> node_ok net (S k) n (nodes net n) -> node_ok (update net n nd) (S k) n nd) ->
  net_ok (S k) (update net n nd).
Proof.
  intros Hok Hs Ha Hgv Hnew. apply net_ok_update; [done..|]. intros Hg. destruct Hok as [Hw Hn].
  split; [by eapply packets_grow|]. apply Hnew; [done|]. eapply node_grows; [|done].
  split; [done|]. intros m. by split.
Qed.

(** ** Turns of the loop *)
Lemma input_loop s st i :
  loop s = Some st -> (forall cmd, i <> Recv cmd) ->
  loop (act (LoopInput i) s) = Some (state (turn i st)).
Proof using Type*.
  intros Hl Hi. cbn [System.act]. rewrite Hl.
  assert (ends i = false) as He by (destruct i as [|cmd|]; [done|by destruct (Hi cmd)|done]).
  pose proof (loop_turn_view (Term:=ETerm) (R:=option ETerm) alloc auto s (chan s) i st) as (Hl' & _).
  rewrite He in Hl'. destruct i; [exact Hl'|by edestruct Hi|exact Hl'].
Qed.

(** What the node process is told of an event is what the event amounts to. *)
Lemma turn_notes now ev st m ty e :
  m ∈ notifications (effects_of (turn (Event now ev) st)) ->
  Dispatch ty e ∈ (handle_info m.2).1 -> e ∈ expected_events alloc st ev.
Proof.
  intros Hm He. destruct (event_handler st) as [pid|] eqn:Hpid.
  - pose proof (turn_handled alloc auto now ev st pid Hpid) as Ht.
    destruct (notifications _) as [|[pid' t] []]; [by apply elem_of_nil in Hm| |done].
    apply list_elem_of_singleton in Hm as ->. destruct Ht as (_ & Hl & _). cbn [snd] in He.
    rewrite Hl in He. apply list_elem_of_fmap in He as (x & [= _ ->] & Hx).
    eapply elem_of_prefix; [exact Hx|apply heard_prefix].
  - destruct (turn_notifies alloc auto (Event now ev) st) as [_ Hall].
    rewrite Forall_forall in Hall. apply Hall in Hm. by rewrite Hpid in Hm.
Qed.

(** An event that is no request or response tells of none. *)
Lemma plain_events now ev st e :
  plain_event (Event now ev) -> e ∈ expected_events alloc st ev -> forall net n, event_ok net n e.
Proof.
  intros Hp He net n.
  assert (Forall (event_ok net n) (expected_events alloc st ev)) as Hall; [|by rewrite Forall_forall in Hall; apply Hall].
  destruct ev as [| | | | |[| | |[? []|]| | | | |[]| | | | |]|]; try done; try (by repeat constructor);
    apply Forall_map, Forall_true; by intros [].
Qed.

Lemma plain_notes net n st i :
  plain_event i -> Forall (dispatches_ok net n) (notifications (effects_of (turn i st))).
Proof.
  intros Hp. apply Forall_forall. intros m Hm ty e He. destruct i as [now|cmd|now ev]; [|done|].
  - pose proof (turn_tick_effects (Term:=ETerm) alloc auto now st) as [_ Hn]. rewrite Hn in Hm. by apply elem_of_nil in Hm.
  - eapply plain_events; [done|]. by eapply turn_notes.
Qed.

Definition is_arrival i : Prop :=
  match i with Event _ (Behaviour (RR_Request _ _ _ _)) => True | _ => False end.

(** Without a request that arrives the table can only shrink. *)
Lemma turn_shrinks st i :
  ~ is_arrival i ->
  pending_responses (state (turn i st)) ⊆ pending_responses st /\
  channel_counter (state (turn i st)) = channel_counter st.
Proof.
  intros Hi. pose proof (turn_table (Term:=ETerm) alloc auto i st) as Ht.
  change (pending_responses (state (turn i st))) with (table (state (turn i st))).1.
  change (channel_counter (state (turn i st))) with (table (state (turn i st))).2. rewrite Ht.
  destruct i as [now|[[]|]|now [| | | | |[]|]]; try done; try (by destruct Hi); (split; [|done]);
    [apply map_filter_subseteq|apply delete_subseteq].
Qed.

Lemma turn_table_inv k nd st i : ~ is_arrival i -> table_inv k nd st -> table_inv k nd (state (turn i st)).
Proof.
  intros Hi (Hc & Ht & Ha). destruct (turn_shrinks st i Hi) as [Hsub Hcnt]. unfold table_inv. rewrite Hcnt.
  split; [done|]. split; [|done]. intros id c t Hid. eapply Ht, lookup_weaken; done.
Qed.

(** What becomes of the table when a request arrives. *)
Lemma arrival_table_inv k nd st now rid c rq :
  loop (sys nd) = Some st -> Z.of_nat (S k) < 2 ^ 64 -> table_inv k nd st ->
  table_inv (S k) (set_channels (input nd (arrival now rid c rq)) ((c, rq) :: channels nd) (announced nd rq))
    (state (turn (arrival now rid c rq) st)).
Proof.
  intros Hl Hk ([Hc1 Hc2] & Ht & Ha). unfold table_inv, announced. rewrite Hl.
  pose proof (turn_table (Term:=ETerm) alloc auto (arrival now rid c rq) st) as E.
  set (st' := state (turn (arrival now rid c rq) st)) in *.
  change (pending_responses st') with (table st').1. change (channel_counter st') with (table st').2. rewrite E.
  cbn [table_step arrival table set_channels channels asked].
  destruct (full (pending_responses st)); cbn [fst snd].
  - split; [lia|]. split; [|done].
    intros id c' t Hid. destruct (Ht id c' t Hid) as (rq' & ? & ?). exists rq'. split; [done|by right].
  - rewrite as_u64_succ by lia. split; [lia|]. split.
    + intros id c' t [[<- [= -> <-]]|[Hne Hid]]%lookup_insert_Some.
      * exists rq. split; [by rewrite lookup_insert_eq|by left].
      * destruct (Ht id c' t Hid) as (rq' & ? & ?). exists rq'.
        rewrite lookup_insert_ne by done. split; [done|by right].
    + intros id [<-|[Hne Hid]]%lookup_insert_is_Some.
      * exists (channel_counter st + 1). split; [done|lia].
      * destruct (Ha id Hid) as (j & -> & ?). exists j. split; [done|lia].
Qed.

(** The name of a new channel is new. *)
Lemma announced_grows k nd rq :
  Z.of_nat (S k) < 2 ^ 64 -> (forall st, loop (sys nd) = Some st -> table_inv k nd st) ->
  asked nd ⊆ announced nd rq.
Proof.
  intros Hk Hinv. unfold announced. destruct (loop (sys nd)) as [st|]; [|done].
  destruct (full _); [done|]. apply insert_subseteq. apply eq_None_not_Some. intros Hid.
  destruct (Hinv st eq_refl) as (Hc & _ & Ha). apply Ha in Hid as (j & Hj & Hle).
  rewrite as_u64_succ in Hj by lia. apply (inj channel_name) in Hj. lia.
Qed.

(** ** Every step keeps the invariant *)
Lemma node_ok_sys net k n nd s :
  node_ok net k n nd -> sys_ok s -> all_commands (command_ok net n) s ->
  (forall st, loop s = Some st -> table_inv k nd st) -> node_ok net k n (set_sys nd s).
Proof. by intros []. Qed.

(** A step of the system that leaves the loop as it is, or ends it. *)
Lemma net_ok_sys k net n s :
  net_ok k net -> sys_ok s -> (forall st, loop s = Some st -> loop (sys (nodes net n)) = Some st) ->
  (forall net', grows net net' -> all_commands (command_ok net' n) s) ->
  net_ok (S k) (update net n (set_sys (nodes net n) s)).
Proof.
  intros Hok Hs Hl Hc. apply net_ok_node; [done..|]. intros Hg Hn.
  assert (node_ok (update net n (set_sys (nodes net n) s)) (S k) n (nodes net n)) as Hn'
    by (eapply node_grows; [done|apply Hok]).
  apply node_ok_sys; [done|done|by apply Hc|]. intros st Hst. by apply (ok_table _ _ _ _ Hn'), Hl.
Qed.

Lemma commands_grow net net' k n :
  net_ok k net -> grows net net' -> all_commands (command_ok net' n) (sys (nodes net n)).
Proof.
  intros [_ Hn] Hg. eapply all_commands_mono; [|apply (Hn n)]. intros cmd. by apply command_grows.
Qed.

Lemma gives_given nd r : given nd ⊆ given (gives nd r) /\ forall x, r = Some x -> x ∈ given (gives nd r).
Proof. destruct r as [y|]; cbn [gives given]; (split; [set_solver|]); intros x [= ->]. set_solver. Qed.

(** A call by a process other than the server, which may give a response. *)
Lemma net_ok_spawn k net n r p :
  net_ok k net -> nif_wf Nothing p -> sends (carries r) p ->
  net_ok (S k) (update net n (set_sys (gives (nodes net n) r) (act (Spawn p) (sys (nodes net n))))).
Proof.
  intros Hok Hp Hs. destruct (gives_given (nodes net n) r) as [Hsub Hin].
  apply net_ok_node; [done|by destruct r..|exact Hsub|]. intros Hg _.
  pose proof (node_grows _ _ _ _ _ Hg (proj2 Hok n)) as Hn. destruct Hn as [H1 H2 H3 H4 H5 H6 H7].
  assert (all_commands (command_ok (update net n (set_sys (gives (nodes net n) r) (act (Spawn p) (sys (nodes net n))))) n)
    (act (Spawn p) (sys (nodes net n)))) as Hc.
  { apply all_commands_spawn; [|done]. eapply sends_mono; [|exact Hs]. intros cmd. unfold carries, command_ok.
    destruct (response_of cmd) as [[id d]|]; [|done]. intros ->. right. unfold update. cbn [nodes].
    rewrite fn_lookup_insert. by apply Hin. }
  assert (sys_ok (act (Spawn p) (sys (nodes net n)))) as Hok' by (by apply sys_ok_act).
  assert (loop (act (Spawn p) (sys (nodes net n))) = loop (sys (nodes net n))) as El by (cbn; by destruct (handle _)).
  split; cbn [set_sys sys]; try done; try (by destruct r). rewrite El. intros st Hst. apply H3 in Hst. by destruct r.
Qed.

Lemma net_ok_native k net n j :
  net_ok k net -> net_ok (S k) (update net n (set_sys (nodes net n) (act (StepCall j) (sys (nodes net n))))).
Proof.
  intros Hok. assert (sys_ok (sys (nodes net n))) as Hs by apply Hok. apply net_ok_sys; [done| | |].
  - by apply sys_ok_act.
  - intros st. cbn [System.act]. by rewrite (proj1 (step_view _ _ Hs)).
  - intros net' Hg. apply all_commands_step; [done|]. by eapply commands_grow.
Qed.

Lemma net_ok_drop k net n :
  net_ok k net -> net_ok (S k) (update net n (set_sys (nodes net n) (act DropHandle (sys (nodes net n))))).
Proof.
  intros Hok. assert (sys_ok (sys (nodes net n))) as Hs by apply Hok. apply net_ok_sys; [done|by apply sys_ok_act| |].
  - intros st. cbn [System.act]. destruct (handle _ && _) eqn:Hh; [|done]. apply andb_prop in Hh as [Hh _].
    pose proof (send_command_spec _ Shutdown Hs Hh) as Hspec.
    destruct (send_command _ Shutdown) as [s r]. destruct Hspec as (Hl & _). cbn. by rewrite Hl.
  - intros net' Hg. destruct (commands_grow net net' k n Hok Hg) as [Hq Hc]. cbn [System.act].
    destruct (handle _ && _) eqn:Hh; [|done]. apply andb_prop in Hh as [Hh _].
    pose proof (send_command_spec _ Shutdown Hs Hh) as Hspec.
    destruct (send_command _ Shutdown) as [s r]. destruct Hspec as (_ & _ & Hc' & _ & _ & _ & _ & Hr).
    destruct (drop_senders_ok (chan s)) as (Hq' & _). split; cbn [chan calls]; [rewrite Hq'|by rewrite Hc'].
    destruct r; destruct Hr as (_ & -> & _); [|done..]. apply Forall_app. by rewrite Forall_singleton.
Qed.

Lemma act_recv s st c cmd :
  sys_ok s -> loop s = Some st -> poll_recv (chan s) = (c, Ready cmd) ->
  (forall st', loop (act LoopRecv s) = Some st' -> st' = state (turn (Recv cmd) st)) /\
  (forall x, cmd = Some x -> x ∈ queue (chan s)).
Proof.
  intros Hok Hl Hp. split.
  - cbn [System.act]. rewrite Hl, Hp. intros st'.
    pose proof (loop_turn_view (Term:=ETerm) (R:=option ETerm) alloc auto s c (Recv cmd) st) as (-> & _).
    destruct (ends _); [done|]. by intros [= <-].
  - intros x ->. pose proof (sys_receiver _ Hok) as Hr. rewrite Hl in Hr.
    pose proof (poll_recv_ok (chan s) Hr) as Hs. rewrite Hp in Hs. destruct Hs as (_ & _ & _ & Hq).
    destruct (queue (chan s)) as [|y q]; destruct Hq as [Hq _]; [by destruct (senders _)|].
    injection Hq as <-. by left.
Qed.

(** A packet that leaves is a new request, or the answer to the request whose
    channel it is sent on. *)
Lemma outgoing_ok k net n st cmd :
  net_ok k net -> loop (sys (nodes net n)) = Some st -> (forall x, cmd = Some x -> command_ok net n x) ->
  forall rq data, PResponse rq data ∈ outgoing n (nodes net n) st cmd -> packet_ok net (PResponse rq data).
Proof.
  intros [_ Hn] Hl Hcmd rq data Hin. specialize (Hn n). destruct cmd as [cmd|]; [|by apply elem_of_nil in Hin].
  specialize (Hcmd cmd eq_refl).
  destruct cmd; cbn [outgoing] in Hin; try (by apply elem_of_nil in Hin).
  { by apply list_elem_of_singleton in Hin. }
  destruct (ok_table _ _ _ _ Hn st Hl) as (_ & Ht & _).
  destruct (pending_responses st !! channel_id) as [[c t]|] eqn:Hp; [|by apply elem_of_nil in Hin].
  destruct (Ht _ _ _ Hp) as (rq1 & Ha & Hc2).
  destruct (rr_send_response _ _ _).2; [by apply elem_of_nil in Hin|].
  destruct (keyfind (channels (nodes net n)) c) as [[c' rq']|] eqn:Hk; [|by apply elem_of_nil in Hin].
  apply list_elem_of_singleton in Hin as [= -> ->].
  pose proof (keyfind_spec (channels (nodes net n)) c) as Hf. rewrite Hk in Hf. destruct Hf as [Hin Hc]. cbn in Hc. subst c'.
  rewrite <-(fst_inj _ _ _ _ (ok_channels_nodup _ _ _ _ Hn) Hc2 Hin).
  destruct (ok_channels _ _ _ _ Hn _ _ Hc2) as [Hs Hto]. split; [done|]. exists n. split; [done|].
  destruct Hcmd as [(rq2 & Ha2 & Hby)|Hgv]; [left|right; by exists channel_id].
  rewrite Ha in Ha2. by injection Ha2 as <-.
Qed.

Lemma net_ok_command k net n st c cmd :
  net_ok k net -> loop (sys (nodes net n)) = Some st -> poll_recv (chan (sys (nodes net n))) = (c, Ready cmd) ->
  let out := outgoing n (nodes net n) st cmd in
  net_ok (S k) (mkNet (<[n := set_sys (nodes net n) (act LoopRecv (sys (nodes net n)))]> (nodes net))
                  (wire net ++ out) (sent net ++ requests_of out)).
Proof.
  intros Hok Hl Hp out. pose proof Hok as [Hw Hn]. specialize (Hn n).
  destruct (act_recv _ _ _ _ (ok_sys _ _ _ _ Hn) Hl Hp) as [Hst Hq].
  apply net_ok_update; [done|set_solver|done..|]. intros Hg. split.
  - apply Forall_app. split; [by eapply packets_grow|]. apply Forall_forall. intros [rq|rq data] Hin.
    + apply elem_of_app. right. apply list_elem_of_omap. by exists (PRequest rq).
    + eapply packet_grows, outgoing_ok; [done..| |exact Hin].
      intros x Hx. destruct (ok_commands _ _ _ _ Hn) as [Hc _]. rewrite Forall_forall in Hc. by apply Hc, Hq.
  - apply node_ok_sys; [by eapply node_grows|by apply sys_ok_act, Hn| |].
    + apply all_commands_recv; [apply Hn|]. by eapply commands_grow.
    + intros st' ->%Hst. apply table_grows, turn_table_inv; [by intros []|]. by apply Hn.
Qed.

Lemma input_frame nd i :
  served (input nd i) = served nd /\ asked (input nd i) = asked nd /\ given (input nd i) = given nd.
Proof. unfold input. by destruct (loop (sys nd)). Qed.

(** A turn on a tick or an event: what it tells the node is accounted for. *)
Lemma node_ok_input net k n nd i :
  node_ok net k n nd -> ~ is_arrival i -> (forall cmd, i <> Recv cmd) ->
  (forall st, loop (sys nd) = Some st -> Forall (dispatches_ok net n) (notifications (effects_of (turn i st)))) ->
  node_ok net k n (input nd i).
Proof.
  intros Hn Hi Hr Hnotes. unfold input. destruct (loop (sys nd)) as [st|] eqn:Hl; [|done].
  destruct Hn as [H1 H2 H3 H4 H5 H6 H7]. split; try done; cbn [set_notes set_sys sys notes].
  - by apply sys_ok_act.
  - by apply all_commands_input.
  - rewrite (input_loop _ st) by done. intros st' [= <-]. by apply turn_table_inv, H3.
  - apply Forall_app. split; [done|by apply Hnotes].
Qed.

Lemma net_ok_input k net n i :
  net_ok k net -> plain_event i -> net_ok (S k) (update net n (input (nodes net n) i)).
Proof.
  intros Hok Hi. destruct (input_frame (nodes net n) i) as (E1 & E2 & E3).
  apply net_ok_node; [done|by rewrite E1|by rewrite E2|by rewrite E3|]. intros Hg _.
  apply node_ok_input; [by eapply node_grows, Hok| | |].
  - intros Ha. by destruct i as [| |? [| | | | |[]|]].
  - by intros cmd ->.
  - intros st _. by apply plain_notes.
Qed.

Lemma net_ok_response k net l1 rq data l2 now :
  net_ok k net -> wire net = l1 ++ PResponse rq data :: l2 ->
  let n := rq_from rq in
  net_ok (S k) (mkNet (<[n := input (nodes net n) (Event now (Behaviour (RR_Response (rq_to rq) (rq_id rq) data)))]>
                        (nodes net)) (l1 ++ l2) (sent net)).
Proof.
  intros Hok Hw n. destruct (input_frame (nodes net n)
    (Event now (Behaviour (RR_Response (rq_to rq) (rq_id rq) data)))) as (E1 & E2 & E3).
  apply net_ok_update; [done|done|by rewrite E1|by rewrite E2|by rewrite E3|]. intros Hg.
  pose proof (proj1 Hok) as Hp. rewrite Hw in Hp. apply Forall_app in Hp as [Hp1 [Hp Hp2]%Forall_cons]. split.
  - eapply packets_grow; [done|]. by apply Forall_app.
  - apply node_ok_input; [by eapply node_grows, Hok|by intros []|done|].
    intros st Hl. apply Forall_forall. intros m Hm ty e He.
    pose proof (turn_notes _ _ _ _ _ _ Hm He) as Hin. apply list_elem_of_singleton in Hin as ->.
    exists rq, data. split_and!; [done|by eapply packet_grows|done..].
Qed.

Lemma net_ok_request k net n l1 rq l2 now rid c :
  net_ok k net -> Z.of_nat (S k) < 2 ^ 64 ->
  wire net = l1 ++ PRequest rq :: l2 -> rq_to rq = peer_of n -> c ∉ map fst (channels (nodes net n)) ->
  let nd := nodes net n in
  net_ok (S k) (mkNet (<[n := set_channels (input nd (arrival now rid c rq)) ((c, rq) :: channels nd) (announced nd rq)]>
                        (nodes net)) (l1 ++ l2) (sent net)).
Proof.
  intros Hok Hk Hw Hto Hc nd. destruct (input_frame nd (arrival now rid c rq)) as (E1 & E2 & E3).
  pose proof Hok as [Hp Hn]. specialize (Hn n). fold nd in Hn.
  rewrite Hw in Hp. apply Forall_app in Hp as [Hp1 [Hp Hp2]%Forall_cons].
  apply net_ok_update; [done|done|by cbn; rewrite E1|by eapply announced_grows, Hn|by cbn; rewrite E3|]. intros Hg.
  split; [eapply packets_grow; [done|by apply Forall_app]|].
  assert (forall st, loop (sys nd) = Some st -> table_inv (S k)
    (set_channels (input nd (arrival now rid c rq)) ((c, rq) :: channels nd) (announced nd rq))
    (state (turn (arrival now rid c rq) st))) as Ht.
  { intros st Hl. apply arrival_table_inv; [done|done|by apply Hn]. }
  pose proof (node_grows _ _ _ _ _ Hg Hn) as [H1 H2 H3 H4 H5 H6 H7]. unfold input in *.
  destruct (loop (sys nd)) as [st|] eqn:Hl; split; cbn [set_channels set_notes set_sys sys notes mailbox channels]; try done.
  - by apply sys_ok_act.
  - by apply all_commands_input.
  - rewrite (input_loop _ st) by done. intros st' [= <-]. by apply Ht.
  - by apply NoDup_cons.
  - intros c' rq' [[= -> ->]|Hin]%elem_of_cons; [done|by eapply H5].
  - apply Forall_app. split; [done|]. apply Forall_forall. intros m Hm ty e He.
    pose proof (turn_notes _ _ _ _ _ _ Hm He) as Hin. cbn [expected_events] in Hin.
    destruct (full (pending_responses st)) eqn:Hf; [by apply elem_of_nil in Hin|].
    apply list_elem_of_singleton in Hin as ->. eexists _, rq. split; [done|]. split; [|done].
    cbn [nodes]. rewrite fn_lookup_insert. cbn [set_channels asked]. unfold announced. rewrite Hl, Hf.
    by rewrite lookup_insert_eq.
  - by rewrite Hl.
  - by apply NoDup_cons.
  - intros c' rq' [[= -> ->]|Hin]%elem_of_cons; [done|by eapply H5].
Qed.

Lemma net_ok_lose k net l1 p l2 :
  net_ok k net -> wire net = l1 ++ p :: l2 -> net_ok (S k) (mkNet (nodes net) (l1 ++ l2) (sent net)).
Proof.
  intros [Hw Hn] E. assert (grows net (mkNet (nodes net) (l1 ++ l2) (sent net))) as Hg by (by split).
  rewrite E in Hw. apply Forall_app in Hw as [Hp1 [_ Hp2]%Forall_cons]. split.
  - eapply packets_grow; [done|]. by apply Forall_app.
  - intros n. by eapply node_grows.
Qed.

Lemma forwarded_elem (r : State) (m : Pid * ETerm) pid ty e :
  (pid, (ty, e)) ∈ forwarded r m -> Dispatch ty e ∈ (handle_info m.2).1.
Proof.
  unfold forwarded. intros (d & Hin & Hd)%list_elem_of_bind.
  destruct d as [ty' e'| |]; [|by apply elem_of_nil in Hin..].
  unfold handle_dispatch in Hin. apply list_elem_of_fmap in Hin as (x & [= _ -> ->] & _). done.
Qed.

Lemma inbox_elem pid (l : list (Pid * Message)) m : m ∈ inbox_of pid l -> (pid, m) ∈ l.
Proof.
  unfold inbox_of. intros ([p x] & -> & [E Hin]%list_elem_of_filter)%list_elem_of_fmap. cbn in *. by subst p.
Qed.

Lemma net_ok_note k net n m l :
  net_ok k net -> notes (nodes net n) = m :: l ->
  net_ok (S k) (update net n (delivered (set_notes (nodes net n) l) m)).
Proof.
  intros Hok Hl. apply net_ok_node; [done..|]. intros Hg _.
  pose proof (node_grows _ _ _ _ _ Hg (proj2 Hok n)) as [H1 H2 H3 H4 H5 H6 H7].
  rewrite Hl in H6. apply Forall_cons in H6 as [Hm Hl']. split; try done.
  intros pid. apply Forall_app. split; [apply H7|]. apply Forall_forall. intros [ty e] Hin%inbox_elem%forwarded_elem.
  by apply Hm in Hin.
Qed.

Lemma net_ok_world k net n w : net_ok k net -> net_ok (S k) (update net n (set_world (nodes net n) w)).
Proof.
  intros Hok. apply net_ok_node; [done..|]. intros Hg _.
  by pose proof (node_grows _ _ _ _ _ Hg (proj2 Hok n)) as [].
Qed.

Lemma net_ok_raise k net n :
  net_ok k net -> net_ok (S k) (update net n (set_server (nodes net n) None None (served (nodes net n)))).
Proof.
  intros Hok. apply net_ok_node; [done..|]. intros Hg _.
  by pose proof (node_grows _ _ _ _ _ Hg (proj2 Hok n)) as [].
Qed.

Lemma mailbox_insert net n (f : Pid -> list Message) pid l :
  (forall p, Forall (fun m => event_ok net n m.2) (f p)) -> Forall (fun m => event_ok net n m.2) l ->
  forall p, Forall (fun m => event_ok net n m.2) (<[pid := l]> f p).
Proof.
  intros Hf Hl p. destruct (decide (pid = p)) as [<-|Hne]; [by rewrite fn_lookup_insert|].
  by rewrite fn_lookup_insert_ne.
Qed.

Lemma net_ok_take k net n pid l1 m l2 :
  net_ok k net -> mailbox (nodes net n) pid = l1 ++ m :: l2 ->
  net_ok (S k) (update net n (set_mailbox (nodes net n) (<[pid := l1 ++ l2]> (mailbox (nodes net n))))).
Proof.
  intros Hok Hm. apply net_ok_node; [done..|]. intros Hg _.
  pose proof (node_grows _ _ _ _ _ Hg (proj2 Hok n)) as [H1 H2 H3 H4 H5 H6 H7]. split; try done.
  apply mailbox_insert; [done|]. specialize (H7 pid). rewrite Hm in H7.
  apply Forall_app in H7 as [? [_ ?]%Forall_cons]. by apply Forall_app.
Qed.

(** The server answers a request on its channel. *)
Lemma server_call vm ty e ds fs :
  server_handle_info vm (ty, e) = Some (ds, fs) ->
  fs = [] \/ exists rid channel_id peer data f,
    e = NodeEvent.InboundRequest rid channel_id peer data /\ fs = [f] /\
    forall id d, channel_id = EStr id -> data = binary_term d ->
      exists response, f = A_RequestResponse_send_response id response /\ response_to vm d = Some response.
Proof.
  intros Hs. destruct ty; try (injection Hs as <- <-; by left).
  destruct e; try (injection Hs as <- <-; by left). right. unfold response_to. cbn [server_handle_info] in *.
  eexists _, _, _, _. destruct (decode data) as [[]|req] eqn:Hd; try done.
  - apply bind_Some in Hs as (f & Hf & [= <- <-]). exists f. split_and!; [done|done|].
    intros id d -> ->. injection Hf as <-. eexists. split; [done|]. by rewrite Hd.
  - apply bind_Some in Hs as ([ds' response] & Hr & (f & Hf & [= <- <-])%bind_Some). exists f. split_and!; [done|done|].
    intros id d -> ->. injection Hf as <-. eexists. split; [done|]. by rewrite Hd, Hr.
Qed.

Lemma net_ok_serve k net n alive late srv m l ds fs :
  net_ok k net -> mailbox (nodes net n) srv = m :: l ->
  server_handle_info (procs n (served (nodes net n))) m = Some (ds, fs) ->
  let nd := nodes net n in
  let r := serve_calls n nd alive late fs in
  net_ok (S k) (update net n (set_mailbox (set_server (set_sys nd r.1) (Some srv) r.2 (S (served nd))) (<[srv := l]> (mailbox nd)))).
Proof.
  intros Hok Hm Hs nd r. pose proof (ok_mailbox _ _ _ _ (proj2 Hok n) srv) as Hmail. rewrite Hm in Hmail.
  apply Forall_cons in Hmail as [Hev _]. apply net_ok_node; [done|apply Nat.le_succ_diag_r|done..|]. intros Hg _.
  pose proof (node_grows _ _ _ _ _ Hg (proj2 Hok n)) as [H1 H2 H3 H4 H5 H6 H7].
  specialize (H7 srv) as Hl. rewrite Hm in Hl. apply Forall_cons in Hl as [_ Hl].
  assert (loop r.1 = loop (sys nd)) as Er by (subst r; destruct fs; [done|]; cbn; by destruct (handle _)).
  split; cbn [set_mailbox set_server set_sys sys notes channels mailbox]; try done.
  - subst r. destruct fs as [|f fs]; [done|]. apply sys_ok_act; [apply api_call_wf|done].
  - destruct m as [ty e]. apply server_call in Hs as [-> |(rid & ch & peer & data & f & -> & -> & Hf)]; [done|].
    destruct Hev as (id & rq & -> & Ha & ->). destruct (Hf _ _ eq_refl eq_refl) as (response & -> & Hr).
    apply all_commands_spawn; [|done]. eapply sends_mono; [|apply api_call_sends]. cbn [api_response]. intros cmd Hc.
    unfold carries, command_ok in *. destruct (response_of cmd) as [[id' d]|]; [|done]. injection Hc as <- <-.
    left. exists rq. unfold update. cbn [nodes]. rewrite fn_lookup_insert. split; [done|].
    exists (served nd). cbn [nodes]. rewrite fn_lookup_insert. split; [apply Nat.lt_succ_diag_r|done].
  - rewrite Er. intros st Hst. by apply H3 in Hst.
  - by apply mailbox_insert.
Qed.

Lemma net_ok_step k net net' : Z.of_nat (S k) < 2 ^ 64 -> net_ok k net -> step net net' -> net_ok (S k) net'.
Proof.
  intros Hk Hok. destruct 1.
  - apply net_ok_spawn; [done|apply api_call_wf|apply api_call_sends].
  - apply net_ok_spawn; [done|apply native_wf|apply native_sends].
  - by apply net_ok_native.
  - by apply net_ok_drop.
  - by eapply net_ok_command.
  - by apply net_ok_input.
  - by apply net_ok_request.
  - by apply net_ok_response.
  - by eapply net_ok_lose.
  - by apply net_ok_note.
  - by apply net_ok_world.
  - by eapply net_ok_serve.
  - by apply net_ok_raise.
  - by eapply net_ok_take.
Qed.

Lemma net_ok_initial net : initial net -> net_ok 0 net.
Proof.
  intros (Hw & Hs & Hn). split; [by rewrite Hw|]. intros n. destruct (Hn n) as (sw & w & srv & ->). split; try done; cbn.
  - apply sys_ok_start.
  - destruct (channel_ok (A:=Command Pid) COMMAND_CHANNEL_CAPACITY) as (Hq & _); [done|].
    split; [|constructor]. cbn. by rewrite Hq.
  - intros st [= <-]. split; [done|]. split; [done|]. cbn. intros id. rewrite lookup_empty. by intros [].
  - constructor.
  - by intros c rq ?%elem_of_nil.
Qed.

Lemma reaches_ok k net : Z.of_nat k < 2 ^ 64 -> reaches k net -> net_ok k net.
Proof.
  intros Hk Hr. induction Hr as [net Hi|k net net' _ IH Hstep]; [by apply net_ok_initial|].
  apply (net_ok_step k net); [done|apply IH; lia|done].
Qed.
End network.
