(* ===== verification/RemoteCall.v ===== *)
(** * Calls between nodes

    What [Distribution.call] comes to in a network of nodes ([Network]): a call
    to an idle node can always be answered, what is answered is what the process
    at the other end said, and where a late answer goes.  The runs are built from
    the four things that happen: a node asks, the other is told, it answers, and
    the first is told. *)
From stdpp Require Import functions.
From S2P Require Import Prelude Bytes Policy Terms NifError Libp2p Sim DhtState Commands Events SwarmLoop.
From S2P Require Import Requests Answers NodeEvents Channel Nif System NodeCalls NativeCalls NativeRuns.
From S2P Require Import HandlerRegistry Subscriptions NodeServer Distribution Network.
From stdpp Require Import options.

Section remote_calls.
Context `{!Protocols, !Metrics} {Swarm : Type} `{!SwarmOps Swarm} {format : TermFormat}.
Context {Chan : Type} `{!Mpsc Chan (Command Pid), !MpscOk Chan (Command Pid)}.
Context `{!EqDecision ResponseChannel}.
Context (alloc : Z -> bool) (utf8 : string -> bool) (auto : bool).
Context (peer_of : nat -> PeerId) (node_state : nat -> NodeState NodeHandle) (exits_of : nat -> Exits).
Context (procs : nat -> nat -> Processes).
#[local] Set Default Proof Using "All".

Local Abbreviation Net := (Net (Swarm:=Swarm) (Chan:=Chan)).
Local Abbreviation NetNode := (NetNode (Swarm:=Swarm) (Chan:=Chan)).
Local Abbreviation step :=
  (Network.step (Swarm:=Swarm) (Chan:=Chan) alloc utf8 auto peer_of node_state exits_of procs).
Local Abbreviation act :=
  (System.act (Swarm:=Swarm) (LocalPid:=Pid) (Term:=ETerm) (Chan:=Chan) (R:=option ETerm) alloc auto).
Local Abbreviation turn := (SwarmLoop.turn (Swarm:=Swarm) (LocalPid:=Pid) (Term:=ETerm) alloc auto).
Local Abbreviation binary_term := (encode_binary (Term:=ETerm) alloc).
Local Abbreviation call_program := (Network.call_program alloc utf8 node_state exits_of).
Implicit Types (net : Net) (nd : NetNode) (st : LoopState Swarm Pid).

(** ** Runs that change one node *)
Definition moves (j : nat) net (n : nat) nd (w : list Packet) (l : list NetRequest) net' : Prop :=
  nsteps step j net net' /\ nodes net' n = nd /\ (forall m, m <> n -> nodes net' m = nodes net m) /\
  wire net' = w /\ sent net' = l.

Lemma moves_step net n nd w l :
  step net (mkNet (<[n := nd]> (nodes net)) w l) -> moves 1 net n nd w l (mkNet (<[n := nd]> (nodes net)) w l).
Proof.
  intros Hs. split; [by apply nsteps_once|]. split; [by apply fn_lookup_insert|]. split; [|done].
  intros m Hm. by apply fn_lookup_insert_ne.
Qed.

Lemma moves_trans i j net n nd1 w1 l1 net1 nd2 w2 l2 net2 :
  moves i net n nd1 w1 l1 net1 -> moves j net1 n nd2 w2 l2 net2 -> moves (i + j) net n nd2 w2 l2 net2.
Proof.
  intros (Hs1 & _ & Ho1 & _) (Hs2 & Hn2 & Ho2 & Hw2 & Hl2). split; [by eapply nsteps_trans|].
  split_and!; [done| |done..]. intros m Hm. by rewrite Ho2, Ho1.
Qed.

Lemma reaches_nsteps k j net net' :
  reaches (Swarm:=Swarm) (Chan:=Chan) alloc utf8 auto peer_of node_state exits_of procs k net ->
  nsteps step j net net' ->
  reaches (Swarm:=Swarm) (Chan:=Chan) alloc utf8 auto peer_of node_state exits_of procs (k + j) net'.
Proof.
  intros Hk Hs. revert k Hk. induction Hs as [|j net net1 net2 Hs _ IH]; intros k Hk; [by rewrite Nat.add_0_r|].
  rewrite Nat.add_succ_r. apply (IH (S k)). by eapply reaches_step.
Qed.

(** Steps of the native calls of a node, none of which gives a response. *)
Definition native_act (n : nat) (a : System.Action (LocalPid:=Pid) (R:=option ETerm)) : Prop :=
  (exists alive late f, api_response f = None /\ a = Spawn (call_program n alive late f)) \/
  (exists c, native_response c = None /\ a = Spawn (native alloc utf8 (node_handle (node_state n)) c)) \/
  exists k, a = StepCall k.

Lemma moves_acts net n acts :
  Forall (native_act n) acts ->
  exists net', moves (length acts) net n
    (set_sys (nodes net n) (run (Term:=ETerm) alloc auto acts (sys (nodes net n)))) (wire net) (sent net) net'.
Proof.
  intros Ha. revert net. induction Ha as [|a acts Ha _ IH]; intros net.
  { exists net. split; [constructor|]. by destruct (nodes net n). }
  assert (moves 1 net n (set_sys (nodes net n) (act a (sys (nodes net n)))) (wire net) (sent net)
    (update net n (set_sys (nodes net n) (act a (sys (nodes net n)))))) as M1.
  { apply moves_step. destruct Ha as [(alive & late & f & Hf & ->)|[(c & Hc & ->)|[k ->]]]; [| |apply step_native].
    - pose proof (step_spawn alloc utf8 auto peer_of node_state exits_of procs net n alive late f) as Hs. by rewrite Hf in Hs.
    - pose proof (step_own alloc utf8 auto peer_of node_state exits_of procs net n c) as Hs. by rewrite Hc in Hs. }
  destruct (IH (update net n (set_sys (nodes net n) (act a (sys (nodes net n)))))) as [net' M2].
  exists net'. pose proof (moves_trans _ _ _ _ _ _ _ _ _ _ _ _ M1 M2) as M.
  cbn [update nodes] in M. by rewrite fn_lookup_insert in M.
Qed.

Lemma moves_command net n st cmd :
  sys_ok (sys (nodes net n)) -> loop (sys (nodes net n)) = Some st -> queue (chan (sys (nodes net n))) = [cmd] ->
  let out := outgoing n (nodes net n) st (Some cmd) in
  exists net', moves 1 net n (set_sys (nodes net n) (act LoopRecv (sys (nodes net n))))
    (wire net ++ out) (sent net ++ requests_of out) net'.
Proof.
  intros Hok Hl Hq out. pose proof (sys_receiver _ Hok) as Hr. rewrite Hl in Hr.
  pose proof (poll_recv_ok (chan (sys (nodes net n))) Hr) as Hp.
  destruct (poll_recv (chan (sys (nodes net n)))) as [c r] eqn:E. rewrite Hq in Hp.
  destruct Hp as (_ & _ & _ & -> & _). eexists. by eapply moves_step, step_command.
Qed.

(** ** A node asks *)
Definition sent_result (id : OutboundRequestId) : ETerm := ok_term (EStr (debug_outbound id)).

Lemma request_program n peer p data :
  utf8 (bytes_string peer) = true -> peer_parse (bytes_string peer) = inr p ->
  exists k g, call_program n true false (A_RequestResponse_send_request peer data) =
      ask (t:=TReqId) (fun tx => RpcSendRequest p data tx) k /\
    (forall tx, k tx Channel.Sent = BlockingRecv TReqId tx g) /\ (forall w, nif_wf Nothing (g w)) /\
    (forall tx, nif_wf Nothing (k tx Channel.Full) /\ nif_wf Nothing (k tx Channel.Closed)) /\
    forall v : string, g (Some v) = Done (Ok (Some (ok_term (EStr v)))).
Proof.
  intros Hu Hp. unfold Network.call_program, api_call, call_process. cbn [api_message].
  unfold NodeServer.handle_call. cbn [network_ops_handles nif_ops_handle call_native nif_module]. unfold native. cbn [arguments_ok]. rewrite Hu.
  cbn [native_function]. unfold rpc_send_request, parse_peer_id. rewrite Hp.
  do 2 eexists. split; [reflexivity|]. split; [done|]. split; [by intros [w|]|]. done.
Qed.

(** An idle node that calls [send_request] is idle again, with the request on
    its way and its id as the result of the call. *)
Lemma client_asks net n st peer p data :
  idle (sys (nodes net n)) st -> utf8 (bytes_string peer) = true -> peer_parse (bytes_string peer) = inr p ->
  let id := (rr_send_request (request_response (behaviour (swarm st))) p data).2 in
  let rq := mkNetRequest n id p data in
  exists net' s st', moves 5 net n (set_sys (nodes net n) s) (wire net ++ [PRequest rq]) (sent net ++ [rq]) net' /\
    idle s st' /\ event_handler st' = event_handler st /\ pending_responses st' = pending_responses st /\
    calls s = calls (sys (nodes net n)) ++ [Done (Ok (Some (sent_result id)))].
Proof.
  intros Hi Hu Hp id rq. destruct (request_program n peer p data Hu Hp) as (k & g & Hprog & Hk & Hg & Hf & Hv).
  set (mk := fun tx : Sender TReqId => RpcSendRequest (LocalPid:=Pid) p data tx) in *.
  set (s0 := sys (nodes net n)) in *. set (j := length (calls s0)).
  destruct (moves_acts net n [Spawn (ask mk k); StepCall j; StepCall j]) as [net1 M1].
  { rewrite <-Hprog. constructor; [left; by exists true, false, (A_RequestResponse_send_request peer data)|]. by repeat (constructor; [right; right; by eexists|]). }
  destruct (ask_queued alloc auto mk k g (fun _ => eq_refl) Hk Hg Hf s0 st Hi) as (Hok1 & Hl1 & Hq1 & Hh1 & Hc1).
  set (s1 := run _ _ _ _) in *.
  pose proof M1 as (_ & Hn1 & _ & Hw1 & Hs1).
  destruct (moves_command net1 n st (mk (next_oneshot s0))) as [net2 M2]; [by rewrite Hn1..|].
  rewrite Hn1, Hw1, Hs1 in M2. pose proof M2 as (_ & Hn2 & _).
  destruct (moves_acts net2 n [StepCall j]) as [net3 M3]; [by constructor; [right; right; eexists|]|].
  rewrite Hn2 in M3. pose proof M2 as (_ & _ & _ & Hw2 & Hl2). rewrite Hw2, Hl2 in M3.
  destruct (ask_answered alloc auto mk g (fun _ => eq_refl) s1 st (next_oneshot s0) j (debug_outbound id) Hok1 Hl1 Hq1 Hh1)
    as (Hi' & Hc').
  { rewrite Hc1. by apply list_lookup_middle. }
  { exists []. split; [constructor|]. unfold mk. by loop_exec. }
  eexists net3, _, _. split; [exact (moves_trans _ _ _ _ _ _ _ _ _ _ _ _ (moves_trans _ _ _ _ _ _ _ _ _ _ _ _ M1 M2) M3)|].
  split; [exact Hi'|]. split.
  { exact (turn_handler (Term:=ETerm) alloc auto (Recv (Some (mk (next_oneshot s0)))) st). }
  split.
  - exact (f_equal fst (turn_table (Term:=ETerm) alloc auto (Recv (Some (mk (next_oneshot s0)))) st)).
  - refine (eq_trans Hc' _). rewrite Hc1, Hv. apply insert_snoc.
Qed.

(** ** A node is told *)

(** An idle node whose process [np] is registered with the loop, with no message
    under way. *)
Record listening nd (np : Pid) st : Prop := {
  listening_idle : idle (sys nd) st;
  listening_handler : event_handler st = Some np;
  listening_notes : notes nd = [];
  listening_index : index_ok (reg (world nd));
}.

(** What a process finds in its mailbox of an event of its node. *)
Definition news nd (np : Pid) (e : NodeEvent.t) (pid : Pid) : list (Atom * NodeEvent.t) :=
  if decide ((np, event_type_for e, pid) ∈ subscribed (reg (world nd))) then [(event_type_for e, e)] else [].

Lemma input_tells nd np st now ev e :
  listening nd np st -> Forall valid_peer (event_peers ev) -> expected_events alloc st ev = [e] ->
  exists m, notes (input alloc auto nd (Event now ev)) = [m] /\
    forall pid, inbox_of pid (forwarded (reg (world nd)) m) = news nd np e pid.
Proof.
  intros [(_ & Hl & _) Hh Hnotes Hidx] Hv He. unfold input. rewrite Hl. cbn [set_notes set_sys notes]. rewrite Hnotes.
  pose proof (turn_handled alloc auto now ev st np Hh) as Ht. rewrite He in Ht.
  destruct (notifications _) as [|[p m] []]; [done| |done]. destruct Ht as (-> & _ & Hok & _).
  exists (np, m). split; [done|]. intros pid. unfold forwarded. cbn [fst snd]. rewrite (Hok Hv).
  cbn [dispatches map fst mbind list_bind]. rewrite app_nil_r. by apply inbox_dispatch.
Qed.

(** The loop after an event, as the node sees it. *)
Lemma input_idle nd np st now ev :
  listening nd np st ->
  let nd' := input alloc auto nd (Event now ev) in
  let st' := state (turn (Event now ev) st) in
  idle (sys nd') st' /\ event_handler st' = Some np /\ world nd' = world nd /\ mailbox nd' = mailbox nd /\
  server nd' = server nd /\ serving nd' = serving nd /\ served nd' = served nd /\ calls (sys nd') = calls (sys nd).
Proof.
  intros [(Hok & Hl & Hq & Hh) Hhandler _ _]. cbv zeta. unfold input. rewrite Hl. cbn [set_notes set_sys sys world mailbox server serving served].
  pose proof (input_view (Term:=ETerm) alloc auto (sys nd) (Event now ev)) as (Hq' & _ & Hc & Hh' & _).
  unfold idle. split_and!; try done.
  - by apply sys_ok_act.
  - by apply input_loop.
  - by rewrite Hq'.
  - by rewrite Hh'.
  - etrans; [|exact Hhandler]. exact (turn_handler (Term:=ETerm) alloc auto (Event now ev) st).
Qed.

Lemma arrival_swarm st now rid c rq : swarm (state (turn (arrival peer_of now rid c rq) st)) = swarm st.
Proof.
  unfold arrival. rewrite turn_event. unfold state. loop_unfold. cbn [on_event]. unfold on_inbound_request.
  by loop_exec.
Qed.

Lemma server_told net n np st l1 rq l2 now rid c srv :
  wire net = l1 ++ PRequest rq :: l2 -> rq_to rq = peer_of n -> c ∉ map fst (channels (nodes net n)) ->
  listening (nodes net n) np st -> full (pending_responses st) = false -> valid_peer (peer_of (rq_from rq)) ->
  (np, a_inbound_request, srv) ∈ subscribed (reg (world (nodes net n))) -> mailbox (nodes net n) srv = [] ->
  let id := channel_name (as_u64 (channel_counter st + 1)) in
  exists net' nd st', moves 2 net n nd (l1 ++ l2) (sent net) net' /\ listening nd np st' /\
    swarm st' = swarm st /\ world nd = world (nodes net n) /\ server nd = server (nodes net n) /\ served nd = served (nodes net n) /\
    (server_idle (nodes net n) -> server_idle nd) /\
    channels nd = (c, rq) :: channels (nodes net n) /\ pending_responses st' !! id = Some (c, now) /\
    mailbox nd srv = [(a_inbound_request, NodeEvent.InboundRequest (EStr (debug_inbound rid)) (EStr id)
                         (peer_struct (peer_of (rq_from rq))) (binary_term (rq_data rq)))].
Proof.
  intros Hw Hto Hc Hlis Hfull Hv Hsub Hm id. set (nd0 := nodes net n) in *.
  set (i := arrival peer_of now rid c rq). set (e := NodeEvent.InboundRequest _ _ _ _).
  set (ev := Behaviour (RR_Request (peer_of (rq_from rq)) rid (rq_data rq) c)).
  assert (expected_events alloc st ev = [e]) as He by (cbn [expected_events ev]; by rewrite Hfull).
  destruct (input_tells nd0 np st now ev e Hlis (proj2 (Forall_singleton _ _) Hv) He) as (m & Hnotes & Hnews).
  destruct (input_idle nd0 np st now ev Hlis)
    as (Hi & Hh & Hwd & Hmb & Hsrv & Hsing & Hsd & Hcalls).
  change (Event now ev) with i in *.
  set (nd1 := set_channels (input alloc auto nd0 i) ((c, rq) :: channels nd0) (announced nd0 rq)).
  pose proof (moves_step _ _ _ _ _ (step_request alloc utf8 auto peer_of node_state exits_of procs net n l1 rq l2 now rid c Hw Hto Hc)) as M1. fold nd0 nd1 i in M1.
  set (net1 := mkNet (<[n := nd1]> (nodes net)) (l1 ++ l2) (sent net)) in *.
  assert (nodes net1 n = nd1) as Hn1 by (apply fn_lookup_insert).
  pose proof (step_note alloc utf8 auto peer_of node_state exits_of procs net1 n m []) as M2. rewrite Hn1 in M2.
  specialize (M2 Hnotes). apply moves_step in M2.
  eexists _, _, _. split; [exact (moves_trans _ _ _ _ _ _ _ _ _ _ _ _ M1 M2)|].
  split; [split; [exact Hi|exact Hh|done|cbn; rewrite Hwd; by apply Hlis]|].
  split_and!; [apply arrival_swarm|exact Hwd|exact Hsrv|exact Hsd| |done| |].
  - unfold server_idle. cbn. by rewrite Hsing, Hcalls.
  - pose proof (f_equal fst (turn_table (Term:=ETerm) alloc auto i st)) as E. cbn [table_step arrival i table] in E.
    rewrite Hfull in E. refine (eq_trans (f_equal (lookup id) E) _). apply lookup_insert_eq.
  - cbn. rewrite Hmb, Hm, Hwd, Hnews. unfold news. by rewrite decide_True.
Qed.

(** ** A server answers *)
Lemma response_served vm rid id from data response :
  response_to alloc vm data = Some response ->
  exists ds, server_handle_info vm (a_inbound_request, NodeEvent.InboundRequest rid (EStr id) from (binary_term data)) =
    Some (ds, [A_RequestResponse_send_response id response]).
Proof.
  unfold response_to. cbn [server_handle_info send_response].
  destruct (Distribution.decode (binary_term data)) as [[]|request]; cbn; try done.
  - intros [= ->]. by eexists.
  - destruct (handle_remote_request vm request) as [[ds r]|]; cbn; [|done]. intros [= ->]. by eexists.
Qed.

Lemma response_program n id data :
  utf8 id = true ->
  exists k, call_program n true false (A_RequestResponse_send_response id data) = TrySend (RpcSendResponse id data) k.
Proof.
  intros Hu. unfold Network.call_program, api_call, call_process. cbn [api_message].
  unfold NodeServer.handle_call. cbn [network_ops_handles nif_ops_handle call_native nif_module]. unfold native. cbn [arguments_ok]. rewrite Hu.
  eexists. reflexivity.
Qed.

Lemma keyfind_head {A B} `{EqDecision A} (k : A) (x : B) l : keyfind ((k, x) :: l) k = Some (k, x).
Proof. unfold keyfind. cbn. by rewrite bool_decide_true. Qed.

Lemma server_responds net n np st srv rid id from rq c t response l :
  listening (nodes net n) np st -> server (nodes net n) = Some srv -> server_idle (nodes net n) ->
  mailbox (nodes net n) srv = [(a_inbound_request, NodeEvent.InboundRequest rid (EStr id) from (binary_term (rq_data rq)))] ->
  response_to alloc (procs n (served (nodes net n))) (rq_data rq) = Some response ->
  pending_responses st !! id = Some (c, t) -> channels (nodes net n) = (c, rq) :: l -> utf8 id = true ->
  (rr_send_response (request_response (behaviour (swarm st))) c response).2 = inr tt ->
  exists net' nd, moves 3 net n nd (wire net ++ [PResponse rq response]) (sent net) net'.
Proof.
  intros [Hi Hh Hnotes Hidx] Hsrv Hidle Hm Hr Hp Hc Hu Hrr.
  destruct (response_served _ rid id from _ _ Hr) as [ds Hs].
  destruct (response_program n id response Hu) as (k & Hprog).
  pose proof (step_serve alloc utf8 auto peer_of node_state exits_of procs net n true false srv _ _ _ _ Hsrv Hidle Hm Hs) as M1.
  apply moves_step in M1. cbn [serve_calls fst snd] in M1. rewrite Hprog in M1.
  match type of M1 with moves _ _ _ ?nd _ _ ?net' => set (net1 := net') in *; set (nd1 := nd) in * end.
  pose proof M1 as (_ & Hn1 & _ & Hw1 & Hl1).
  set (j := length (calls (sys (nodes net n)))).
  assert (idle (sys nd1) st /\ calls (sys nd1) !! j = Some (TrySend (RpcSendResponse id response) k)) as [Hi1 Hj].
  { destruct Hi as (Hok & Hl & Hq & Hh'). split.
    - split; [apply sys_ok_act; [|done]; rewrite <-Hprog; apply api_call_wf|]. cbn. by rewrite Hh'.
    - cbn. rewrite Hh'. cbn. by apply list_lookup_middle. }
  destruct (moves_acts net1 n [StepCall j]) as [net2 M2]; [by constructor; [right; right; eexists|]|].
  rewrite Hn1, Hw1, Hl1 in M2. pose proof M2 as (_ & Hn2 & _ & Hw2 & Hl2).
  destruct (send_queued alloc auto (sys nd1) st j _ k Hi1 Hj) as (Hok2 & Hlp2 & Hq2 & Hh2 & _).
  destruct (moves_command net2 n st (RpcSendResponse id response)) as [net3 M3]; [by rewrite Hn2..|].
  rewrite Hn2, Hw2, Hl2 in M3. cbn [outgoing set_sys channels] in M3.
  rewrite Hp, Hrr in M3. change (channels nd1) with (channels (nodes net n)) in M3. rewrite Hc, keyfind_head in M3.
  cbn [requests_of omap list_omap] in M3. rewrite app_nil_r in M3.
  eexists _, _. exact (moves_trans _ _ _ _ _ _ _ _ _ _ _ _ M1 (moves_trans _ _ _ _ _ _ _ _ _ _ _ _ M2 M3)).
Qed.

(** ** The node that asked is told *)
Lemma client_told net np st l1 rq response l2 (now : Z) :
  let n := rq_from rq in
  wire net = l1 ++ PResponse rq response :: l2 -> listening (nodes net n) np st -> valid_peer (rq_to rq) ->
  let e := NodeEvent.OutboundResponse (EStr (debug_outbound (rq_id rq))) (peer_struct (rq_to rq)) (binary_term response) in
  exists net' nd, moves 2 net n nd (l1 ++ l2) (sent net) net' /\ calls (sys nd) = calls (sys (nodes net n)) /\
    forall pid, mailbox nd pid = mailbox (nodes net n) pid ++ news (nodes net n) np e pid.
Proof.
  intros n Hw Hlis Hv e. set (ev := Behaviour (RR_Response (rq_to rq) (rq_id rq) response)).
  destruct (input_tells (nodes net n) np st now ev e Hlis (proj2 (Forall_singleton _ _) Hv) eq_refl) as (m & Hnotes & Hnews).
  destruct (input_idle (nodes net n) np st now ev Hlis) as (Hi & Hh & Hwd & Hmb & _ & _ & _ & Hcalls).
  pose proof (step_response alloc utf8 auto peer_of node_state exits_of procs net l1 rq response l2 now Hw) as M1.
  cbv zeta in M1. fold n in M1. apply moves_step in M1.
  match type of M1 with moves _ _ _ ?nd _ _ ?net' => set (net1 := net') in *; set (nd1 := nd) in * end.
  pose proof M1 as (_ & Hn1 & _). change nd1 with (input alloc auto (nodes net n) (Event now ev)) in Hn1.
  pose proof (step_note alloc utf8 auto peer_of node_state exits_of procs net1 n m []) as M2. rewrite Hn1 in M2.
  specialize (M2 Hnotes). apply moves_step in M2.
  eexists _, _. split; [exact (moves_trans _ _ _ _ _ _ _ _ _ _ _ _ M1 M2)|]. split; [exact Hcalls|].
  intros pid. cbn. by rewrite Hmb, Hwd, Hnews.
Qed.

(** ** Starting *)

(** The node process registers itself with its loop. *)
Lemma node_registers net n st np :
  idle (sys (nodes net n)) st ->
  exists net' s st', moves 3 net n (set_sys (nodes net n) s) (wire net) (sent net) net' /\
    idle s st' /\ event_handler st' = Some np /\ pending_responses st' = pending_responses st.
Proof.
  intros Hi. set (s0 := sys (nodes net n)) in *. set (j := length (calls s0)).
  set (c := N_register_event_handler np). set (p := native alloc utf8 (node_handle (node_state n)) c).
  destruct (moves_acts net n [Spawn p; StepCall j]) as [net1 M1].
  { constructor; [right; left; by exists c|]. by constructor; [right; right; eexists|]. }
  assert (exists k, p = TrySend (RegisterEventHandler np) k) as [k Hp] by (eexists; reflexivity).
  assert (idle (act (Spawn p) s0) st /\ calls (act (Spawn p) s0) !! j = Some (TrySend (RegisterEventHandler np) k)) as [Hi1 Hj].
  { destruct Hi as (Hok & Hl & Hq & Hh). rewrite Hp. split.
    - split; [apply sys_ok_act; [|done]; rewrite <-Hp; apply native_wf|]. cbn. by rewrite Hh.
    - cbn. rewrite Hh. cbn. by apply list_lookup_middle. }
  destruct (send_queued alloc auto _ st j _ k Hi1 Hj) as (Hok2 & Hl2 & Hq2 & Hh2 & _).
  pose proof M1 as (_ & N1 & _ & W1 & L1).
  destruct (moves_command net1 n st (RegisterEventHandler np)) as [net2 M2]; [by rewrite N1..|].
  rewrite N1, W1, L1 in M2. cbn [outgoing requests_of omap list_omap] in M2. rewrite !app_nil_r in M2.
  destruct (queued_received alloc auto _ st (RegisterEventHandler np) Hok2 Hl2 Hq2 Hh2 eq_refl) as (Hi2 & _ & _).
  eexists _, _, _. split; [exact (moves_trans _ _ _ _ _ _ _ _ _ _ _ _ M1 M2)|]. split; [exact Hi2|]. done.
Qed.

(** ** From the request to the answer *)

(** The node [q] can serve: its distribution server [srv] is subscribed and waits. *)
Record serves nd (np srv : Pid) st : Prop := {
  serves_listening : listening nd np st;
  serves_server : server nd = Some srv;
  serves_idle : server_idle nd;
  serves_mailbox : mailbox nd srv = [];
  serves_room : full (pending_responses st) = false;
  serves_subscribed : (np, a_inbound_request, srv) ∈ subscribed (reg (world nd));
}.

(** libp2p takes the response: the channel it is for is still open. *)
Definition takes st (c : ResponseChannel) (response : bytes) : Prop :=
  (rr_send_response (request_response (behaviour (swarm st))) c response).2 = inr tt.

(** Memory suffices, the names of channels are UTF-8. *)
Context (allocates : forall n, alloc n = true) (utf8_names : forall n, utf8 (channel_name n) = true).

Lemma request_answered net n q np st np' srv st' l1 rq l2 response (now : Z) (rid : InboundRequestId) c :
  rq_from rq = n -> rq_to rq = peer_of q -> q <> n -> wire net = l1 ++ PRequest rq :: l2 ->
  listening (nodes net n) np st -> serves (nodes net q) np' srv st' ->
  valid_peer (peer_of n) -> valid_peer (peer_of q) -> c ∉ map fst (channels (nodes net q)) ->
  response_to alloc (procs q (served (nodes net q))) (rq_data rq) = Some response -> takes st' c response ->
  exists net', nsteps step 7 net net' /\ sent net' = sent net /\
    calls (sys (nodes net' n)) = calls (sys (nodes net n)) /\
    forall pid, mailbox (nodes net' n) pid = mailbox (nodes net n) pid ++ news (nodes net n) np
      (NodeEvent.OutboundResponse (EStr (debug_outbound (rq_id rq))) (peer_struct (rq_to rq)) (EBin response)) pid.
Proof.
  intros Hn Hto Hne Hw Hlis [Hq Hsrv Hidle Hm Hfull Hsub] Hvn Hvq Hc Hr Ht.
  destruct (server_told net q np' st' l1 rq l2 now rid c srv) as
    (net1 & nd1 & st1 & M1 & Hlis1 & Hsw1 & Hwd1 & Hsrv1 & Hsd1 & Hidle1 & Hch1 & Hp1 & Hm1); [done..|by rewrite Hn|done|done|].
  pose proof M1 as (S1 & N1 & O1 & W1 & L1).
  destruct (server_responds net1 q np' st1 srv (EStr (debug_inbound rid)) (channel_name (as_u64 (channel_counter st' + 1)))
    (peer_struct (peer_of (rq_from rq))) rq c now response (channels (nodes net q))) as (net2 & nd2 & M2);
    [rewrite ?N1, ?Hsrv1, ?Hsd1, ?Hsw1; by auto..|].
  destruct M2 as (S2 & N2 & O2 & W2 & L2). rewrite W1 in W2.
  assert (nodes net2 n = nodes net n) as E by (rewrite O2, O1 by done; done).
  destruct (client_told net2 np st (l1 ++ l2) rq response [] now) as (net3 & nd3 & M3 & Hcalls & Hmail).
  - done.
  - by rewrite Hn, E.
  - by rewrite Hto.
  - destruct M3 as (S3 & N3 & _ & _ & L3). rewrite Hn in *. rewrite E in *.
    exists net3. split; [exact (nsteps_trans _ _ _ _ _ S1 (nsteps_trans _ _ _ _ _ S2 S3))|].
    rewrite N3, L3, L2, L1. split_and!; [done|done|]. intros pid. rewrite Hmail.
    unfold encode_binary. by rewrite allocates.
Qed.

Lemma listening_asked nd np st s st' :
  listening nd np st -> idle s st' -> event_handler st' = event_handler st -> listening (set_sys nd s) np st'.
Proof. intros [H1 H2 H3 H4] Hi Hh. split; [done|by rewrite Hh|done|done]. Qed.

(** The response to a call, if it travels. *)
Lemma call_response `{!TermFormatOk} vm name message :
  is_atom name = true -> travels (request "call" name message) ->
  response_to alloc vm (encode (request "call" name message)) = Some (encode (answer_term (call_answer vm name message))).
Proof using -(utf8_names).
  intros Hn Ht. unfold response_to, encode_binary. rewrite allocates. cbn [server_handle_info].
  change (enc_binary ?b) with (EBin b). rewrite decode_encode by done.
  destruct (handle_call_request vm name message Hn) as [ds ->]. done.
Qed.

(** ** Properties *)
Context {Hformat : TermFormatOk} (name : ETerm) (name_atom : is_atom name = true).

Local Abbreviation payload := (fun message => encode (request "call" name message)).
Local Abbreviation answer := (fun vm message => call_answer vm name message).

(** The id the next request gets. *)
Definition next_id st (p : PeerId) (data : bytes) : OutboundRequestId :=
  (rr_send_request (request_response (behaviour (swarm st))) p data).2.

(** The run of a call: its request, and the response that the caller finds. *)
Lemma call_run net n q np st np' srv st' pid peer (rid : InboundRequestId) c message :
  q <> n -> listening (nodes net n) np st -> serves (nodes net q) np' srv st' ->
  (np, a_outbound_response, pid) ∈ subscribed (reg (world (nodes net n))) ->
  receive (mailbox (nodes net n) pid) = None ->
  utf8 (bytes_string peer) = true -> peer_parse (bytes_string peer) = inr (peer_of q) ->
  valid_peer (peer_of n) -> valid_peer (peer_of q) -> c ∉ map fst (channels (nodes net q)) ->
  let vm := procs q (served (nodes net q)) in
  travels (request "call" name message) -> travels (answer_term (answer vm message)) ->
  takes st' c (encode (answer_term (answer vm message))) ->
  let rq := mkNetRequest n (next_id st (peer_of q) (payload message)) (peer_of q) (payload message) in
  exists net', nsteps step 12 net net' /\ sent net' = sent net ++ [rq] /\
    calls (sys (nodes net' n)) = calls (sys (nodes net n)) ++ [Done (Ok (Some (sent_result (rq_id rq))))] /\
    mailbox (nodes net' n) pid = mailbox (nodes net n) pid ++
      [(a_outbound_response, NodeEvent.OutboundResponse (EStr (debug_outbound (rq_id rq))) (peer_struct (peer_of q))
          (EBin (encode (answer_term (answer vm message)))))].
Proof.
  intros Hne Hlis Hsrv Hsub Hm Hu Hp Hvn Hvq Hc vm Htq Hta Htk rq.
  destruct (client_asks net n st peer (peer_of q) (payload message)) as (net1 & s & st1 & M1 & Hi1 & Hh1 & _ & Hc1);
    [apply Hlis|done|done|]. destruct M1 as (S1 & N1 & O1 & W1 & L1).
  assert (nodes net1 q = nodes net q) as Eq by (by apply O1).
  destruct (request_answered net1 n q np st1 np' srv st' (wire net) rq [] (encode (answer_term (answer vm message))) 0 rid c
    eq_refl eq_refl Hne W1) as (net2 & S2 & L2 & Hc2 & Hm2); [rewrite ?N1, ?Eq..|].
  - by eapply listening_asked.
  - done.
  - done.
  - done.
  - done.
  - by apply call_response.
  - done.
  - exists net2. split; [exact (nsteps_trans _ _ _ _ _ S1 S2)|]. rewrite L2, L1, Hc2, N1. split_and!; [done|exact Hc1|].
    rewrite Hm2, N1. unfold news. cbn [event_type_for set_sys world mailbox]. by rewrite decide_True.
Qed.

(** C13: A call to another node can complete.  Take any state in which both nodes
    are idle - nothing queued for the loop, no message of it unhandled - and
    registered with their loops; the distribution server of the other node is
    subscribed, waits, and has an empty mailbox; the loop there has room in its
    table of pending responses; the caller is subscribed to the responses of its
    own node and has none of them in its mailbox; both peer identifiers are
    valid, and the one it calls is that of the other node; the name is an atom;
    the request and the answer are at most a mebibyte and name no unknown
    atom; memory can be allocated; and the response channel that libp2p hands
    over with the request is a new one that is still open when the answer is sent
    on it.  Then twelve steps lead through the command channels, both event
    loops, the node processes and the handler registries to a state where the
    call has returned what the process of that name answers. *)
Theorem remote_call_completes net n q np st np' srv st' pid peer (rid : InboundRequestId) c message :
  q <> n -> listening (nodes net n) np st -> serves (nodes net q) np' srv st' ->
  (np, a_outbound_response, pid) ∈ subscribed (reg (world (nodes net n))) ->
  receive (mailbox (nodes net n) pid) = None ->
  utf8 (bytes_string peer) = true -> peer_parse (bytes_string peer) = inr (peer_of q) ->
  valid_peer (peer_of n) -> valid_peer (peer_of q) -> c ∉ map fst (channels (nodes net q)) ->
  let vm := procs q (served (nodes net q)) in
  travels (request "call" name message) -> travels (answer_term (answer vm message)) ->
  takes st' c (encode (answer_term (answer vm message))) ->
  let result := sent_result (next_id st (peer_of q) (payload message)) in
  exists net', nsteps step 12 net net' /\
    calls (sys (nodes net' n)) = calls (sys (nodes net n)) ++ [Done (Ok (Some result))] /\
    call_result result (mailbox (nodes net' n) pid) = Some (result_term (answer vm message)).
Proof.
  intros Hne Hlis Hsrv Hsub Hm Hu Hp Hvn Hvq Hc vm Htq Hta Htk result.
  destruct (call_run net n q np st np' srv st' pid peer rid c message) as (net' & Hs & _ & Hc' & Hm'); [done..|].
  exists net'. split; [done|]. split; [exact Hc'|]. rewrite Hm'. by apply call_result_answer.
Qed.

(** C37: A late answer is taken for another: if a caller gives up on a call and
    makes a second one before the answer to the first arrives, the second call
    can return what the process said to the first message - the request id of a
    response is not looked at. *)
Theorem late_answer_taken net n q np st np' srv st' pid peer (rid : InboundRequestId) c message1 message2 :
  q <> n -> listening (nodes net n) np st -> serves (nodes net q) np' srv st' ->
  (np, a_outbound_response, pid) ∈ subscribed (reg (world (nodes net n))) ->
  receive (mailbox (nodes net n) pid) = None ->
  utf8 (bytes_string peer) = true -> peer_parse (bytes_string peer) = inr (peer_of q) ->
  valid_peer (peer_of n) -> valid_peer (peer_of q) -> c ∉ map fst (channels (nodes net q)) ->
  let vm := procs q (served (nodes net q)) in
  travels (request "call" name message1) -> travels (answer_term (answer vm message1)) ->
  takes st' c (encode (answer_term (answer vm message1))) ->
  exists net' rq1 rq2, nsteps step 17 net net' /\ sent net' = sent net ++ [rq1; rq2] /\
    rq_data rq1 = payload message1 /\ rq_data rq2 = payload message2 /\
    calls (sys (nodes net' n)) = calls (sys (nodes net n)) ++
      [Done (Ok (Some (sent_result (rq_id rq1)))); Done (Ok (Some (sent_result (rq_id rq2))))] /\
    call_result (sent_result (rq_id rq2)) (mailbox (nodes net' n) pid) = Some (result_term (answer vm message1)).
Proof.
  intros Hne Hlis Hsrv Hsub Hm Hu Hp Hvn Hvq Hc vm Htq Hta Htk.
  destruct (client_asks net n st peer (peer_of q) (payload message1)) as (net1 & s1 & st1 & M1 & Hi1 & Hh1 & _ & Hc1);
    [apply Hlis|done|done|]. destruct M1 as (S1 & N1 & O1 & W1 & L1).
  set (rq1 := mkNetRequest n (next_id st (peer_of q) (payload message1)) (peer_of q) (payload message1)).
  assert (listening (nodes net1 n) np st1) as Hlis1 by (rewrite N1; by eapply listening_asked).
  destruct (client_asks net1 n st1 peer (peer_of q) (payload message2)) as (net2 & s2 & st2 & M2 & Hi2 & Hh2 & _ & Hc2);
    [apply Hlis1|done|done|]. destruct M2 as (S2 & N2 & O2 & W2 & L2).
  set (rq2 := mkNetRequest n (next_id st1 (peer_of q) (payload message2)) (peer_of q) (payload message2)).
  change (wire net2 = wire net1 ++ [PRequest rq2]) in W2.
  assert (wire net2 = wire net ++ PRequest rq1 :: [PRequest rq2]) as W by (by rewrite W2, W1, <-(assoc_L (++))).
  assert (nodes net2 q = nodes net q) as Eq by (by rewrite O2, O1).
  destruct (request_answered net2 n q np st2 np' srv st' (wire net) rq1 [PRequest rq2]
    (encode (answer_term (answer vm message1))) 0 rid c eq_refl eq_refl Hne W) as (net3 & S3 & L3 & Hc3 & Hm3);
    [rewrite ?N2, ?Eq..|].
  - by eapply listening_asked.
  - done.
  - done.
  - done.
  - done.
  - by apply call_response.
  - done.
  - exists net3, rq1, rq2. split; [exact (nsteps_trans _ _ _ _ _ S1 (nsteps_trans _ _ _ _ _ S2 S3))|].
    split; [by rewrite L3, L2, L1, <-(assoc_L (++))|]. do 2 (split; [done|]).
    rewrite Hc3, Hm3, N2, N1. cbn [set_sys sys]. split; [by rewrite Hc2, N1; cbn [set_sys sys]; rewrite Hc1, <-(assoc_L (++))|].
    unfold news. cbn [event_type_for set_sys world mailbox]. rewrite decide_True by done.
    by apply call_result_answer.
Qed.

(** What a caller finds in its mailbox was answered to a request of its node. *)
Lemma response_in_mailbox k net n pid ty rid to data :
  Z.of_nat k < 2 ^ 64 ->
  reaches (Swarm:=Swarm) (Chan:=Chan) alloc utf8 auto peer_of node_state exits_of procs k net ->
  (ty, NodeEvent.OutboundResponse rid to data) ∈ mailbox (nodes net n) pid ->
  exists rq response q, rq ∈ sent net /\ rq_from rq = n /\ rid = EStr (debug_outbound (rq_id rq)) /\
    to = peer_struct (peer_of q) /\ rq_to rq = peer_of q /\ data = binary_term response /\
    ((exists t, (t < served (nodes net q))%nat /\ response_to alloc (procs q t) (rq_data rq) = Some response) \/
     given_to net q rq response).
Proof using -(utf8_names allocates name_atom Hformat).
  intros Hk Hr Hin. destruct (reaches_ok _ _ _ _ _ _ _ _ _ Hk Hr) as [_ Hn].
  pose proof (ok_mailbox _ _ _ _ _ _ _ (Hn n) pid) as Hall. rewrite Forall_forall in Hall. apply Hall in Hin.
  destruct Hin as (rq & response & Hf & (Hs & q & Hq & Ha) & -> & -> & ->).
  exists rq, response, q. by rewrite Hq.
Qed.

(** An answer that is too large is not read. *)
Lemma call_result_large mailbox sent_id rid from b later :
  max_payload_bytes < len b -> receive mailbox = None ->
  call_result (ETuple [EAtom a_ok; sent_id])
    (mailbox ++ (a_outbound_response, NodeEvent.OutboundResponse rid from (EBin b)) :: later) =
    Some (error_atom "invalid_response").
Proof using Type.
  intros Hb Hm. unfold call_result. rewrite receive_app by done. cbn [Distribution.decode]. unfold decode_binary.
  by rewrite Z.gtb_ltb, (proj2 (Z.ltb_lt _ _)).
Qed.

(** C4: A call returns what the other side said, whatever else goes on.  In any
    state that less than 2^64 steps of the network lead to - any interleaving of
    calls by any processes, native calls, loops, node processes, registries and
    servers, with packets lost and reordered - let the first response in a
    caller's mailbox bear the id of its request, [:call] with an atom [name]
    and a [message].  Provided the request is at most a mebibyte and names no atom that
    is unknown to the other side, that memory can be allocated, and that the
    node gave the id to no other request, the response was made for this request
    on the node it is from: either the server there handled it, and the call
    returns the answer of the process of that name - or [:invalid_response] if
    that answer is more than a mebibyte; for an answer of unknown atoms nothing
    is said - or another process there passed these very bytes to [send_response]
    under the channel id of this request. *)
Theorem call_returns_remote_answer k net n pid id to data earlier later message :
  Z.of_nat k < 2 ^ 64 ->
  reaches (Swarm:=Swarm) (Chan:=Chan) alloc utf8 auto peer_of node_state exits_of procs k net ->
  mailbox (nodes net n) pid = earlier ++
    (a_outbound_response, NodeEvent.OutboundResponse (EStr (debug_outbound id)) to data) :: later ->
  receive earlier = None ->
  (forall rq, rq ∈ sent net -> rq_from rq = n -> debug_outbound (rq_id rq) = debug_outbound id ->
     rq_data rq = payload message) ->
  travels (request "call" name message) ->
  exists q, to = peer_struct (peer_of q) /\
    ((exists t, (t < served (nodes net q))%nat /\
        let answer := answer (procs q t) message in
        let result := call_result (sent_result id) (mailbox (nodes net n) pid) in
        (travels (answer_term answer) -> result = Some (result_term answer)) /\
        (max_payload_bytes < len (encode (answer_term answer)) -> result = Some (error_atom "invalid_response"))) \/
     (exists rq response, rq ∈ sent net /\ rq_from rq = n /\ rq_to rq = peer_of q /\ rq_data rq = payload message /\
        debug_outbound (rq_id rq) = debug_outbound id /\ given_to net q rq response /\ data = EBin response)).
Proof using -(utf8_names).
  intros Hk Hr Hm He Hid Htq.
  destruct (response_in_mailbox k net n pid a_outbound_response (EStr (debug_outbound id)) to data Hk Hr)
    as (rq & response & q & Hs & Hf & [= Eid] & -> & Hto & -> & Ha).
  { rewrite Hm. apply elem_of_app. right. by left. }
  exists q. split; [done|]. pose proof (Hid rq Hs Hf (eq_sym Eid)) as Hd. unfold encode_binary in *. rewrite allocates in *.
  destruct Ha as [(t & Ht & Ha)|Hg]; [left|right; by exists rq, response].
  exists t. split; [done|]. rewrite Hd, call_response in Ha by done. injection Ha as <-. rewrite Hm.
  split; intros Ht'; [by apply call_result_answer|by apply call_result_large].
Qed.
End remote_calls.

(** ** Witnesses

    Two nodes: on node 0 the process 5 calls the process [echo] of node 1, which
    the server 6 serves. *)
Definition sim_peers (n : nat) : @PeerId SimProtocols :=
  match n with 0%nat => sim_peer | _ => "12D3KooWDpJ7As7BWAwRMfu1VU2WCqNjvq387JEYKDBj4kx6nXTP" end.

Definition sim_node_state (n : nat) : NodeState NodeHandle :=
  mkNodeState (mkNodeHandle (sim_peers n) (tt : @Registry sim_metrics)) (peer_struct (sim_peers n)) (EAtom a_nil).

Definition sim_exits (n : nat) : Exits := mkExits (EName "badarg") (EName "noproc") (EName "timeout").

Definition sim_register (e : Atom) (pid : Pid) (w : World (EventType:=Atom)) : World (EventType:=Atom) :=
  let '(_, r, v) := HandlerRegistry.handle_call (Register 1%N e pid) (reg w) (vm w) in mkWorld r v.

Definition sim_world : World (EventType:=Atom) :=
  sim_register a_outbound_response 5%N (sim_register a_inbound_request 6%N init_world).

Definition sim_net : Net (Swarm:=SimSwarm) (Chan:=ListChan (Command Pid)) :=
  mkNet (fun _ => mkNetNode (start sim_full) [] sim_world (fun _ => []) (Some 6%N) None 0 [] ∅ []) [] [].

Local Abbreviation sim_steps := (nsteps (Network.step (Swarm:=SimSwarm) (Chan:=ListChan (Command Pid)) (format:=sim_format)
  (fun _ => true) (fun _ => true) false sim_peers sim_node_state sim_exits (fun _ _ => sim_processes))).

Lemma sim_register_reachable e pid w :
  HandlerRegistry.reachable (Event:=NodeEvent.t) w -> HandlerRegistry.reachable (Event:=NodeEvent.t) (sim_register e pid w).
Proof.
  intros Hw. unfold sim_register. destruct (HandlerRegistry.handle_call _ _ _) as [[a r] v] eqn:E.
  eapply reachable_step; [exact Hw|]. eapply HandlerRegistry.step_call. exact E.
Qed.

Lemma sim_world_index : index_ok (reg sim_world).
Proof.
  destruct (reachable_ok sim_world (Event:=NodeEvent.t)) as [? _]; [|done].
  apply sim_register_reachable, sim_register_reachable, reachable_init.
Qed.

(** Both node processes register with their loops. *)
Lemma sim_booted :
  exists net st0 st1, sim_steps 6 sim_net net /\ wire net = [] /\ sent net = [] /\
    listening (nodes net 0%nat) 1%N st0 /\ serves (nodes net 1%nat) 1%N 6%N st1 /\
    world (nodes net 0%nat) = sim_world /\ mailbox (nodes net 0%nat) 5%N = [] /\ channels (nodes net 1%nat) = [].
Proof.
  destruct (node_registers (format:=sim_format) (fun _ => true) (fun _ => true) false sim_peers sim_node_state
    sim_exits (fun _ _ => sim_processes) sim_net 0%nat (SwarmLoop.init_state sim_full) 1%N (idle_start sim_full))
    as (net1 & s1 & st1 & (S1 & N1 & O1 & W1 & L1) & Hi1 & Hh1 & _).
  destruct (node_registers (format:=sim_format) (fun _ => true) (fun _ => true) false sim_peers sim_node_state
    sim_exits (fun _ _ => sim_processes) net1 1%nat (SwarmLoop.init_state sim_full) 1%N) as
    (net2 & s2 & st2 & (S2 & N2 & O2 & W2 & L2) & Hi2 & Hh2 & Hp2).
  { rewrite O1 by done. apply idle_start. }
  exists net2, st1, st2. split; [exact (nsteps_trans _ _ _ _ _ S1 S2)|].
  rewrite W2, W1, L2, L1, (O2 0%nat), N1, N2, (O1 1%nat) by done. split_and!; try done.
  - split; [done..|apply sim_world_index].
  - split; try done; [split; [done..|apply sim_world_index]|]. unfold full. by rewrite Hp2.
Qed.

Definition sim_answer (message : ETerm) : ETerm + ETerm := call_answer sim_processes (EName "echo") message.

Lemma sim_travels message :
  message ∈ [EInt 7; EInt 8] ->
  travels (format:=sim_format) (request "call" (EName "echo") message) /\
  travels (format:=sim_format) (answer_term (sim_answer message)).
Proof.
  rewrite !elem_of_cons. intros [->|[->|[]%elem_of_nil]]; repeat split; vm_compute; discriminate.
Qed.

Lemma sim_valid n : valid_peer (sim_peers n).
Proof. destruct n; (split; [vm_compute; repeat constructor|vm_compute; reflexivity]). Qed.

Lemma remote_call_completes_witness :
  exists net net' result, sim_steps 6 sim_net net /\ sim_steps 12 net net' /\
    calls (sys (nodes net' 0%nat)) = calls (sys (nodes net 0%nat)) ++ [Done (Ok (Some result))] /\
    call_result (format:=sim_format) result (mailbox (nodes net' 0%nat) 5%N) = Some (ok_term (EInt 7)).
Proof.
  destruct sim_booted as (net & st0 & st1 & S & W & L & H0 & H1 & Hw & Hm & Hc).
  destruct (remote_call_completes (format:=sim_format) (Hformat:=sim_format_ok) (fun _ => true) (fun _ => true) false sim_peers
    sim_node_state sim_exits (fun _ _ => sim_processes) (fun _ => eq_refl)
    (fun _ => eq_refl) (EName "echo") eq_refl net 0 1 1%N st0 1%N 6%N st1 5%N (peer_struct (sim_peers 1)) 0 "channel" (EInt 7))
    as (net' & S' & Hcalls & Hr).
  - done.
  - exact H0.
  - exact H1.
  - rewrite Hw. apply subscribed_elem. vm_compute. by left.
  - by rewrite Hm.
  - done.
  - reflexivity.
  - apply sim_valid.
  - apply sim_valid.
  - rewrite Hc. apply not_elem_of_nil.
  - apply sim_travels. by left.
  - apply (sim_travels (EInt 7)). by left.
  - done.
  - eexists net, net', _. split; [exact S|]. split; [exact S'|]. split; [exact Hcalls|exact Hr].
Defined.

Lemma late_answer_taken_witness :
  exists net net' rq1 rq2, sim_steps 6 sim_net net /\ sim_steps 17 net net' /\ sent net' = [rq1; rq2] /\
    rq_data rq2 = encode (format:=sim_format) (request "call" (EName "echo") (EInt 8)) /\
    call_result (format:=sim_format) (sent_result (rq_id rq2)) (mailbox (nodes net' 0%nat) 5%N) = Some (ok_term (EInt 7)).
Proof.
  destruct sim_booted as (net & st0 & st1 & S & W & L & H0 & H1 & Hw & Hm & Hc).
  destruct (late_answer_taken (format:=sim_format) (Hformat:=sim_format_ok) (fun _ => true) (fun _ => true) false sim_peers
    sim_node_state sim_exits (fun _ _ => sim_processes) (fun _ => eq_refl)
    (fun _ => eq_refl) (EName "echo") eq_refl net 0 1 1%N st0 1%N 6%N st1 5%N (peer_struct (sim_peers 1)) 0 "channel"
    (EInt 7) (EInt 8)) as (net' & rq1 & rq2 & S' & Hs & _ & Hd & _ & Hr).
  - done.
  - exact H0.
  - exact H1.
  - rewrite Hw. apply subscribed_elem. vm_compute. by left.
  - by rewrite Hm.
  - done.
  - reflexivity.
  - apply sim_valid.
  - apply sim_valid.
  - rewrite Hc. apply not_elem_of_nil.
  - apply sim_travels. by left.
  - apply (sim_travels (EInt 7)). by left.
  - done.
  - exists net, net', rq1, rq2. rewrite L in Hs. split_and!; [exact S|exact S'|exact Hs|exact Hd|exact Hr].
Defined.

(** A run from the start of the network to the response. *)
Lemma sim_called :
  exists net id to, reaches (Swarm:=SimSwarm) (Chan:=ListChan (Command Pid)) (format:=sim_format) (fun _ => true)
      (fun _ => true) false sim_peers sim_node_state sim_exits (fun _ _ => sim_processes) 18 net /\
    mailbox (nodes net 0%nat) 5%N =
      [(a_outbound_response, NodeEvent.OutboundResponse (EStr (debug_outbound id)) to (EBin [Byte.x02]))] /\
    sent net = [mkNetRequest 0 id (sim_peers 1) [Byte.x01]].
Proof.
  destruct sim_booted as (net & st0 & st1 & S & W & L & H0 & H1 & Hw & Hm & Hc).
  destruct (call_run (format:=sim_format) (Hformat:=sim_format_ok) (fun _ => true) (fun _ => true) false sim_peers
    sim_node_state sim_exits (fun _ _ => sim_processes) (fun _ => eq_refl)
    (fun _ => eq_refl) (EName "echo") eq_refl net 0 1 1%N st0 1%N 6%N st1 5%N (peer_struct (sim_peers 1)) 0 "channel" (EInt 7))
    as (net' & S' & Hs & _ & Hmail).
  - done.
  - exact H0.
  - exact H1.
  - rewrite Hw. apply subscribed_elem. vm_compute. by left.
  - by rewrite Hm.
  - done.
  - reflexivity.
  - apply sim_valid.
  - apply sim_valid.
  - rewrite Hc. apply not_elem_of_nil.
  - apply sim_travels. by left.
  - apply (sim_travels (EInt 7)). by left.
  - done.
  - exists net'. eexists _, _. split; [|split].
    + apply (reaches_nsteps _ _ _ _ _ _ _ 6 12 net); [|exact S'].
      apply (reaches_nsteps _ _ _ _ _ _ _ 0 6 sim_net); [|exact S]. apply reaches_start.
      split; [done|]. split; [done|]. intros n. by exists sim_full, sim_world, (Some 6%N).
    + rewrite Hmail, Hm. reflexivity.
    + rewrite Hs, L. reflexivity.
Qed.

Lemma call_returns_remote_answer_witness :
  exists net id, reaches (Swarm:=SimSwarm) (Chan:=ListChan (Command Pid)) (format:=sim_format) (fun _ => true)
      (fun _ => true) false sim_peers sim_node_state sim_exits (fun _ _ => sim_processes) 18 net /\
    call_result (format:=sim_format) (sent_result id) (mailbox (nodes net 0%nat) 5%N) = Some (ok_term (EInt 7)).
Proof.
  destruct sim_called as (net & id & to & Hr & Hm & Hs). exists net, id. split; [exact Hr|].
  destruct (call_returns_remote_answer (format:=sim_format) (Hformat:=sim_format_ok) (fun _ => true) (fun _ => true) false
    sim_peers sim_node_state sim_exits (fun _ _ => sim_processes) (fun _ => eq_refl) (EName "echo") eq_refl
    18 net 0 5%N id to (EBin [Byte.x02]) [] [] (EInt 7)) as (q & _ & [(t & _ & Hres & _)|(rq & b & _ & _ & _ & _ & _ & _ & Hb)]).
  - reflexivity.
  - exact Hr.
  - exact Hm.
  - reflexivity.
  - intros rq Hin _ _. rewrite Hs in Hin. apply list_elem_of_singleton in Hin as ->. reflexivity.
  - apply sim_travels. by left.
  - apply Hres, (sim_travels (EInt 7)). by left.
  - injection Hb as <-. rewrite Hm. reflexivity.
Defined.
