(* ===== verification/UnitTests.v ===== *)
(** * The unit tests of the Rust modules, run on the model

    The tests at the end of [dht_state.rs] and [error.rs], one definition per
    test function, its assertions as a boolean; every test passes.  The tests
    on inputs of megabytes are decided by the lemmas of [DhtState]. *)
From S2P Require Import Prelude Bytes Terms NifError Policy Libp2p Sim DhtState.
From stdpp Require Import options.

(** ** [dht_state.rs] *)
Module DhtStateTests.
Definition entry (peer_id : string) (addrs : list string) : RoutingEntry :=
  mkRoutingEntry (string_bytes peer_id) (map string_bytes addrs).

(** [assert!(matches!(decode(..), Err(..)))]. *)
Definition is_err {E A} (p : E -> bool) (r : Result E A) : bool :=
  match r with Err e => p e | _ => false end.

Definition is_ok {E A} (p : A -> bool) (r : Result E A) : bool :=
  match r with Ok a => p a | _ => false end.

Definition is_truncated (e : DhtStateError) : bool := match e with Truncated _ _ => true | _ => false end.
Definition is_bad_magic (e : DhtStateError) : bool := match e with BadMagic _ => true | _ => false end.

(** [decode(&bytes).unwrap()] equals the entries. *)
Definition decodes_to (bytes : bytes) (entries : list RoutingEntry) : bool :=
  is_ok (fun decoded => bool_decide (decoded = entries)) (decode bytes).

Definition zeros (n : Z) : bytes := repeat Byte.x00 (Z.to_nat n).

Definition empty_round_trip : bool :=
  let bytes := encode [] in
  bool_decide (take 4 bytes = MAGIC) && bool_decide (bytes !! 4%nat = Some VERSION) &&
  bool_decide (len bytes = 9) && decodes_to bytes [].

Definition single_entry_round_trip : bool :=
  let entries := [entry "peer-id-bytes" ["/ip4/127.0.0.1/tcp/4001"]] in
  decodes_to (encode entries) entries.

Definition multi_entry_multi_addr_round_trip : bool :=
  let entries :=
    [entry "peer-a" ["/ip4/1.2.3.4/tcp/4001"; "/ip4/1.2.3.4/udp/4001/quic-v1"]; entry "peer-b" [];
     entry "peer-c-with-longer-id-bytes" ["/dns4/example.com/tcp/4001"]] in
  decodes_to (encode entries) entries.

Definition bad_magic_rejected : bool :=
  is_err is_bad_magic (decode (<[0%nat := Byte.x58]> (encode []))).

Definition unsupported_version_rejected : bool :=
  is_err (fun e => bool_decide (e = UnsupportedVersion Byte.x63)) (decode (<[4%nat := Byte.x63]> (encode []))).

Definition truncated_header_rejected : bool :=
  forallb (fun n => is_err is_truncated (decode (repeat Byte.x00 n))) (seq 0 (length MAGIC)) &&
  is_err is_bad_magic (decode (repeat Byte.x00 (length MAGIC))).

Definition truncated_entry_rejected : bool :=
  let bytes := encode [entry "peer-id-bytes" ["/ip4/127.0.0.1/tcp/4001"]] in
  is_err is_truncated (decode (take (length bytes - 1) bytes)).

Definition input_too_large_rejected_before_alloc : bool :=
  is_err (fun e =>
    match e with
    | InputTooLarge got max => (got =? MAX_DHT_EXPORT_BYTES + 1) && (max =? MAX_DHT_EXPORT_BYTES)
    | _ => false
    end) (decode (zeros (MAX_DHT_EXPORT_BYTES + 1))).

Definition at_cap_is_accepted_size_check_passes : bool :=
  is_err is_bad_magic (decode (zeros MAX_DHT_EXPORT_BYTES)).

Definition many_entries : list RoutingEntry :=
  map (fun i => entry ("peer-" +:+ pretty i) ["/ip4/1.2.3.4/tcp/4001"]) (map N.of_nat (seq 0 5000)).

Definition same_many (decoded entries : list RoutingEntry) : bool :=
  (len decoded =? 5000) &&
  match decoded !! 42%nat, entries !! 42%nat with
  | Some a, Some b => bool_decide (a = b)
  | _, _ => false
  end.

Definition many_entries_no_panic_on_alloc_hint : bool :=
  is_ok (fun decoded => same_many decoded many_entries) (decode (encode many_entries)).

(** ** Each of them passes *)
Example small_tests_pass :
  [empty_round_trip; single_entry_round_trip; multi_entry_multi_addr_round_trip; bad_magic_rejected;
   unsupported_version_rejected; truncated_header_rejected; truncated_entry_rejected] = repeat true 7.
Proof. vm_compute. reflexivity. Qed.

Lemma len_zeros n : 0 <= n -> len (zeros n) = n.
Proof. intros Hn. unfold len, zeros. rewrite repeat_length. lia. Qed.

Example too_large_passes : input_too_large_rejected_before_alloc = true.
Proof.
  unfold input_too_large_rejected_before_alloc. rewrite decode_too_large by (by rewrite len_zeros).
  rewrite len_zeros by done. reflexivity.
Qed.

Lemma zeros_bad_magic n : 4 < n <= MAX_DHT_EXPORT_BYTES -> is_err is_bad_magic (decode (zeros n)) = true.
Proof.
  intros Hn. pose proof (len_zeros n ltac:(lia)) as Hl.
  assert (take 4 (zeros n) <> MAGIC /\ zeros n !! 0%nat = Some Byte.x00) as [Hm Hz].
  { unfold zeros. assert (4 <= Z.to_nat n)%nat as H4 by lia. destruct (Z.to_nat n) as [|[|[|[|k]]]]; by try lia. }
  destruct (decode_viewP (zeros n)) as [| | | |v _ Hv|t c Ht]; [lia|lia|done|lia|done|].
  rewrite Ht in Hz. discriminate Hz.
Qed.

Example at_cap_passes : at_cap_is_accepted_size_check_passes = true.
Proof. by apply zeros_bad_magic. Qed.

(** Short entries encode to few bytes. *)
Definition short_entry (e : RoutingEntry) : Prop :=
  len (peer_id e) <= 64 /\ len (addresses e) <= 1 /\ Forall (fun a => len a <= 64) (addresses e).

Lemma short_entries_fit es :
  Forall short_entry es -> len es <= 10000 ->
  entries_wf es /\ len (encode es) <= MAX_DHT_EXPORT_BYTES.
Proof.
  intros Hs Hn.
  assert (Forall entry_wf es /\ len (concat (map encode_entry es)) <= 200 * len es) as [Hw Hl].
  { clear Hn. induction Hs as [|e es (Hp & Ha & Hf) _ IH]; [by split; [apply Forall_nil_2|]|].
    destruct IH as [IHw IHl]. split.
    - constructor; [|done]. pose proof (len_nonneg (peer_id e)). pose proof (len_nonneg (addresses e)).
      unfold entry_wf, addr_wf, in_width. split_and!; [lia..|]. eapply Forall_impl; [exact Hf|].
      intros a Hle. pose proof (len_nonneg a). cbn beta in *. lia.
    - cbn [map concat]. rewrite len_app, len_cons.
      assert (len (encode_entry e) <= 200); [|lia]. unfold encode_entry. rewrite !len_app.
      destruct (addresses e) as [|a [|a' l]]; cbn [map concat]; rewrite ?len_app.
      + unfold len in *. rewrite !length_to_be_bytes. cbn. lia.
      + apply Forall_inv in Hf. unfold encode_addr. rewrite len_app. unfold len in *. rewrite !length_to_be_bytes. cbn. lia.
      + rewrite !len_cons in Ha. pose proof (len_nonneg l). lia. }
  pose proof (len_nonneg es). split; [split; [unfold in_width; lia|done]|].
  unfold encode. rewrite !len_app. unfold MAX_DHT_EXPORT_BYTES.
  change (len MAGIC) with 4. change (len [VERSION]) with 1. unfold len at 1. rewrite length_to_be_bytes. lia.
Qed.

(** The number of digits. *)
Lemma pretty_go_length k x s :
  (x < 10 ^ N.of_nat k)%N -> (String.length (pretty_N_go x s) <= k + String.length s)%nat.
Proof.
  revert x s. induction k as [|k IH]; intros x s Hx.
  { assert (x = 0%N) as -> by (cbn in Hx; lia). by rewrite pretty_N_go_0. }
  destruct (decide (x = 0%N)) as [->|Hn]; [rewrite pretty_N_go_0; lia|].
  rewrite pretty_N_go_step by lia. rewrite Nat2N.inj_succ, N.pow_succ_r' in Hx.
  etransitivity; [apply IH, N.Div0.div_lt_upper_bound; lia|cbn; lia].
Qed.

Lemma length_string_bytes s : length (string_bytes s) = String.length s.
Proof. unfold string_bytes. induction s as [|c s IH]; cbn; [done|]. by f_equal. Qed.

Lemma many_entries_fit : entries_wf many_entries /\ len (encode many_entries) <= MAX_DHT_EXPORT_BYTES.
Proof.
  apply short_entries_fit.
  - unfold many_entries. apply Forall_map.
    apply Forall_map, Forall_forall. intros i Hi%elem_of_seq. split_and!; [|done|by apply Forall_singleton].
    cbn [peer_id entry]. unfold len. rewrite length_string_bytes.
    unfold pretty, pretty_N. case_decide; [done|].
    assert (N.of_nat i < 10 ^ N.of_nat 4)%N as Hb by (change (10 ^ N.of_nat 4)%N with 10000%N; lia).
    pose proof (pretty_go_length 4 (N.of_nat i) "" Hb) as Hk.
    change (Z.of_nat (5 + String.length (pretty_N_go (N.of_nat i) "")) <= 64). cbn [String.length] in Hk. lia.
  - unfold len, many_entries. by rewrite !length_map, length_seq.
Qed.

Lemma same_many_refl entries : length entries = 5000%nat -> same_many entries entries = true.
Proof.
  intros E. unfold same_many, len. rewrite E.
  destruct (lookup_lt_is_Some_2 entries 42) as [a ->]; [rewrite E; lia|]. by rewrite bool_decide_eq_true_2.
Qed.

Example many_entries_pass : many_entries_no_panic_on_alloc_hint = true.
Proof.
  unfold many_entries_no_panic_on_alloc_hint. rewrite (proj2 (decode_encode_roundtrip many_entries) many_entries_fit).
  apply same_many_refl.
  unfold many_entries. rewrite !length_map, length_seq. reflexivity.
Qed.
End DhtStateTests.

(** ** [error.rs] *)
Module ErrorTests.
Definition variant_atoms_are_distinct : bool :=
  let cases :=
    [InvalidMultiaddr "x"; InvalidPeerId "x"; InvalidKeypair "x"; NifError.InputTooLarge 1 1; NodeStopped;
     ChannelFull; QueryTimeout; DhtNotEnabled; RendezvousNotEnabled; NifPanic "x"; Internal "x"] in
  bool_decide (NoDup (map to_string cases)).

(** With the error text of the parser. *)
Definition from_libp2p_multiaddr_error_preserves_message (err : string) : bool :=
  match from_multiaddr_error err with InvalidMultiaddr _ => true | _ => false end.

Example error_tests_pass err :
  variant_atoms_are_distinct && from_libp2p_multiaddr_error_preserves_message err = true.
Proof. vm_compute. reflexivity. Qed.
End ErrorTests.
